(** * Asterisk <-> OpenAI realtime bridge: call lifecycle and AI session

    A shallow embedding of [asterisk.js] (leg-end handling, queue handoff,
    terminate-after-playback, cleanup) and of [openai.js] (transcript sink,
    turn-detection normalisation, the realtime event demultiplexer and its
    message pump), with the properties the specification states about them.

    Conventions.
    - A JavaScript string is a [string]: one character per UTF-16 code unit,
      code units above 255 are outside the model.
    - A JavaScript number is a primitive binary64 [float]; quantities the
      code only ever uses as integers (byte counts, ports) are [Z].
    - [Map] and [Set] objects are [gmap]/[gset], except [sipMap], which the
      code iterates and which therefore keeps its insertion order.
    - Calls into collaborators (ARI client, WebSocket, RTP sockets, file
      system, mailer, logger) are recorded in a trace; a platform oracle says
      which of them throw or reject.
    - A log line keeps its level and its text up to the interpolated values
      the model does not carry (byte counts, durations, quoted phrases, the
      JSON rendering of an event); [logger.debug] lines that only print the
      event are left out. Logging never fails. *)

From Stdlib Require Import ZArith List String Ascii Bool Lia Floats.
From stdpp Require Import base option list gmap strings sets pretty.

Set Warnings "-inexact-float,-register-all,-clear-no-such-hyp".

Local Open Scope Z_scope.

(** ** JavaScript values and primitives *)

Module JS.

(** A value obtained from [JSON.parse], or [undefined] (the result of reading
    an absent property). An object is its list of own properties. *)
Inductive value : Type :=
| VUndefined
| VNull
| VBool (b : bool)
| VNum (n : float)
| VStr (s : string)
| VArr (l : list value)
| VObj (kv : list (string * value)).

(** [ToBoolean]. *)
Definition number_truthy (n : float) : bool :=
  negb (PrimFloat.is_zero n || PrimFloat.is_nan n).

Definition truthy (v : value) : bool :=
  match v with
  | VUndefined | VNull => false
  | VBool b => b
  | VNum n => number_truthy n
  | VStr s => negb (String.eqb s "")
  | VArr _ | VObj _ => true
  end.

Fixpoint assoc (kv : list (string * value)) (k : string) : value :=
  match kv with
  | [] => VUndefined
  | (k', v) :: kv' => if String.eqb k' k then v else assoc kv' k
  end.

(** [v.k] for a property name [k] that no prototype defines ([type],
    [item], [id], [role], [delta], [transcript], [error], [message]):
    [None] is the [TypeError] of reading a property of [null] or
    [undefined]. *)
Definition getprop (v : value) (k : string) : option value :=
  match v with
  | VUndefined | VNull => None
  | VObj kv => Some (assoc kv k)
  | _ => Some VUndefined
  end.

(** [a || b] *)
Definition or_else (a b : value) : value := if truthy a then a else b.

(** [Number.isFinite] applied to a number. *)
Definition isFinite (n : float) : bool := PrimFloat.is_finite n.

(** White space as [String.prototype.trim] sees it, among code units < 256. *)
Definition is_white (c : ascii) : bool :=
  let n := nat_of_ascii c in
  ((9 <=? n)%nat && (n <=? 13)%nat) || (n =? 32)%nat || (n =? 160)%nat.

Fixpoint trimStart (s : string) : string :=
  match s with
  | String c s' => if is_white c then trimStart s' else s
  | EmptyString => EmptyString
  end.

Definition reverse (s : string) : string :=
  string_of_list_ascii (rev (list_ascii_of_string s)).

Definition trim (s : string) : string :=
  reverse (trimStart (reverse (trimStart s))).

(** [String.prototype.toLowerCase] on code units < 256: A-Z and the
    Latin-1 capitals U+00C0..U+00DE (U+00D7 is the multiplication sign). *)
Definition lower_ascii (c : ascii) : ascii :=
  let n := nat_of_ascii c in
  if ((65 <=? n)%nat && (n <=? 90)%nat)
     || ((192 <=? n)%nat && (n <=? 222)%nat && negb (n =? 215)%nat)
  then ascii_of_nat (n + 32) else c.

Fixpoint toLowerCase (s : string) : string :=
  match s with
  | String c s' => String (lower_ascii c) (toLowerCase s')
  | EmptyString => EmptyString
  end.

(** [s.replace(/[^\d+]/g, '')]: without the [u] flag [\d] is [0-9]. *)
Definition is_digit_or_plus (c : ascii) : bool :=
  let n := nat_of_ascii c in
  ((48 <=? n)%nat && (n <=? 57)%nat) || (n =? 43)%nat.

Fixpoint keep (p : ascii -> bool) (s : string) : string :=
  match s with
  | String c s' => if p c then String c (keep p s') else keep p s'
  | EmptyString => EmptyString
  end.

(** [s.padStart(n, c)] for a one-character filler. *)
Fixpoint replicate_char (n : nat) (c : ascii) : string :=
  match n with
  | O => EmptyString
  | S n' => String c (replicate_char n' c)
  end.

Definition padStart (n : nat) (c : ascii) (s : string) : string :=
  replicate_char (n - String.length s) c +:+ s.

(** [haystack.includes(needle)] *)
Fixpoint includes (haystack needle : string) : bool :=
  String.prefix needle haystack ||
  match haystack with
  | String _ h' => includes h' needle
  | EmptyString => false
  end.

(** [Math.ceil(a / b)] for an integer [a] and a positive integer [b]. *)
Definition ceil_div (a b : Z) : Z := - ((- a) / b).

End JS.
Import JS.

(** ** Configuration ([config.js]) *)

(** The keys of the configuration bundle that the modelled code reads.
    [VAD_TYPE] and [TERMINATION_WATCHDOG_MS] are read by [openai.js] but
    never set by [config.js]; [None] is [undefined]. *)
Record Config : Type := mkConfig {
  VAD_TYPE : option string;
  VAD_THRESHOLD : float;
  VAD_PREFIX_PADDING_MS : float;
  VAD_SILENCE_DURATION_MS : float;
  RECORDINGS_DIR : option string;
  SILENCE_PADDING_MS : Z;
  AGENT_TERMINATE_PHRASES : list string;
  REDIRECTION_PHRASES : list string;
  TERMINATION_WATCHDOG_MS : option float;
  EMAIL_ENABLED : bool;
  REDIRECTION_QUEUE : option string;
  REDIRECTION_QUEUE_CONTEXT : option string
}.

(** [parsed || def] as [config.js] applies it to the result of
    [parseFloat(env)] or [Number(env)]. *)
Definition number_or (parsed def : float) : float :=
  if number_truthy parsed then parsed else def.

(** ** Turn detection ([openai.js], normalizeTurnDetection) *)

(** The closure [num] of [normalizeTurnDetection], on a number. *)
Definition num (v def : float) : float :=
  if isFinite v then v else def.

Definition rawType (cfg : Config) : string :=
  toLowerCase (match VAD_TYPE cfg with
               | Some s => if String.eqb s "" then "server_vad" else s
               | None => "server_vad"
               end).

Definition normalizeTurnDetection (cfg : Config) : list (string * value) :=
  let rawType := rawType cfg in
  let type :=
    if String.eqb rawType "server_vad" || String.eqb rawType "semantic_vad"
    then rawType else "server_vad" in
  if String.eqb type "semantic_vad" then
    [("type", VStr "semantic_vad")]
  else
    [("type", VStr "server_vad");
     ("threshold", VNum (num (VAD_THRESHOLD cfg) 0.6%float));
     ("prefix_padding_ms", VNum (num (VAD_PREFIX_PADDING_MS cfg) 200%float));
     ("silence_duration_ms", VNum (num (VAD_SILENCE_DURATION_MS cfg) 600%float))].


(** ** Collaborators: effects, platform, clock *)

Inductive Level : Type := LDebug | LInfo | LWarn | LError.

(** A call that leaves the modelled code. [Log] never fails; every other
    call may throw (or return a promise that rejects), as the platform
    decides. *)
Inductive Effect : Type :=
| Log (lvl : Level) (msg : string)
| StreamHandlerEnd (channelId : string)
| StopPlayback (channelId : string)
| SendRtpPacket (channelId : string) (packetBuffer : list Byte.byte)
| WsClose (channelId : string)
| ChannelsHangup (channelId : string)
| BridgesDestroy (bridgeId : string)
| ContinueInDialplan (channelId context extension : string) (priority : Z)
| ReceiverClose (channelId : string)
| SenderClose (channelId : string)
| ReleaseRtpPort (port : Z)
| MkdirSync (dir : string)
| AppendFile (file line : string)
| SendTranscriptEmail (channelId callerId filePath reason : string)
| RedirectRequest (channelId phrase : string)
| TerminateRequest (channelId reason : string)
| WaitForBufferEmpty (channelId : string).

Definition is_log (e : Effect) : bool :=
  match e with Log _ _ => true | _ => false end.

(** What [new Date()] exposes to the code: the local calendar fields and
    the UTC rendering of [toISOString]. *)
Record Date : Type := mkDate {
  getFullYear : N;
  getMonth : N;
  getDate : N;
  toISOString : string
}.

(** The runtime the code runs on. [throws e] is the message of the error
    with which call [e] fails, if it does; [now k] is the [k]-th reading of
    the clock; [Buffer_from_base64 v] is [Buffer.from(v, 'base64')], [None]
    when it throws; [kMaxLength] bounds [Buffer.alloc]. *)
Record Platform : Type := mkPlatform {
  throws : Effect -> option string;
  now : nat -> Date;
  path_join : list string -> string;
  Buffer_from_base64 : value -> option (list Byte.byte);
  normalizeNFKC : string -> string;
  Number_of_string : string -> float;
  kMaxLength : Z
}.

(** The same runtime with other failures. *)
Definition with_throws (f : Effect -> option string) (P : Platform) : Platform :=
  mkPlatform f (now P) (path_join P) (Buffer_from_base64 P) (normalizeNFKC P)
    (Number_of_string P) (kMaxLength P).

(** [process.env], the keys [asterisk.js] reads itself. *)
Record Env : Type := mkEnv {
  CLEANUP_GRACE_MS_env : option string;
  TERMINATE_FALLBACK_MS_env : option string
}.

(** ** Per-call record and process-wide state ([state.js], [asterisk.js]) *)

(** [callerId] as [safeCallerId] may find it: absent, a string, or an
    object with optional [number], [name] and [id] strings. *)
Inductive CallerId : Type :=
| CidUndefined
| CidString (s : string)
| CidObject (number name id : option string).

(** The stream handler of [rtp.js] as the modelled code sees it: whether it
    has an [end] method, and its two buffers ([None]: property absent). *)
Record StreamHandler : Type := mkStreamHandler {
  has_end : bool;
  audioBuffer : option (list Byte.byte);
  packetQueue : option (list (list Byte.byte))
}.

Module CD.
(** The open record stored in [sipMap]. [bridge] is [bridge.id] when there
    is a bridge object with an id; [channel] and [ws] say whether the ARI
    channel object and a WebSocket with a [close] method are present. *)
Record t : Type := mk {
  bridgeId : option string;
  bridge : option string;
  channel : bool;
  rtpPort : option Z;
  wsClosed : bool;
  ws : bool;
  callerId : CallerId;
  externalChannelId : option string;
  callTimeoutId : option nat;
  streamHandler : option StreamHandler;
  totalDeltaBytes : Z;
  redirecting : bool;
  terminateAfterPlayback : bool;
  _cleaned : bool;
  _sipEnded : bool;
  _extEnded : bool;
  _cleanupTimer : option nat
}.

Definition set_totalDeltaBytes (x : Z) (o : t) : t :=
  mk (bridgeId o) (bridge o) (channel o) (rtpPort o) (wsClosed o) (ws o) (callerId o) (externalChannelId o) (callTimeoutId o) (streamHandler o) x (redirecting o) (terminateAfterPlayback o) (_cleaned o) (_sipEnded o) (_extEnded o) (_cleanupTimer o).
Definition set_redirecting (x : bool) (o : t) : t :=
  mk (bridgeId o) (bridge o) (channel o) (rtpPort o) (wsClosed o) (ws o) (callerId o) (externalChannelId o) (callTimeoutId o) (streamHandler o) (totalDeltaBytes o) x (terminateAfterPlayback o) (_cleaned o) (_sipEnded o) (_extEnded o) (_cleanupTimer o).
Definition set_terminateAfterPlayback (x : bool) (o : t) : t :=
  mk (bridgeId o) (bridge o) (channel o) (rtpPort o) (wsClosed o) (ws o) (callerId o) (externalChannelId o) (callTimeoutId o) (streamHandler o) (totalDeltaBytes o) (redirecting o) x (_cleaned o) (_sipEnded o) (_extEnded o) (_cleanupTimer o).
Definition set__cleaned (x : bool) (o : t) : t :=
  mk (bridgeId o) (bridge o) (channel o) (rtpPort o) (wsClosed o) (ws o) (callerId o) (externalChannelId o) (callTimeoutId o) (streamHandler o) (totalDeltaBytes o) (redirecting o) (terminateAfterPlayback o) x (_sipEnded o) (_extEnded o) (_cleanupTimer o).
Definition set__sipEnded (x : bool) (o : t) : t :=
  mk (bridgeId o) (bridge o) (channel o) (rtpPort o) (wsClosed o) (ws o) (callerId o) (externalChannelId o) (callTimeoutId o) (streamHandler o) (totalDeltaBytes o) (redirecting o) (terminateAfterPlayback o) (_cleaned o) x (_extEnded o) (_cleanupTimer o).
Definition set__extEnded (x : bool) (o : t) : t :=
  mk (bridgeId o) (bridge o) (channel o) (rtpPort o) (wsClosed o) (ws o) (callerId o) (externalChannelId o) (callTimeoutId o) (streamHandler o) (totalDeltaBytes o) (redirecting o) (terminateAfterPlayback o) (_cleaned o) (_sipEnded o) x (_cleanupTimer o).
Definition set__cleanupTimer (x : option nat) (o : t) : t :=
  mk (bridgeId o) (bridge o) (channel o) (rtpPort o) (wsClosed o) (ws o) (callerId o) (externalChannelId o) (callTimeoutId o) (streamHandler o) (totalDeltaBytes o) (redirecting o) (terminateAfterPlayback o) (_cleaned o) (_sipEnded o) (_extEnded o) x.

(** The object literal [{}]. *)
Definition empty : t :=
  mk None None false None false false CidUndefined None None None 0
     false false false false false None.
End CD.

(** An [extMap] entry: [{ bridgeId, channelId }] under the external id,
    [{ bridgeId, externalChannelId }] under the SIP id. *)
Record ExtEntry : Type := mkExtEntry {
  e_bridgeId : string;
  e_channelId : option string;
  e_externalChannelId : option string
}.

(** What a pending [setTimeout] will do when it fires: run the grace
    cleanup; forget the external id of the record at [channelData] in
    [ignoreExtEvents]; time out the wait of [terminateAfterPlayback]; the
    termination watchdog of the AI session; the call-duration hangup. *)
Inductive TimerAction : Type :=
| TA_cleanup (sipId reason : string)
| TA_unignore (channelData : nat)
| TA_terminateFallback (waiter : nat)
| TA_watchdog (channelId : string)
| TA_durationLimit (channelId : string).

Record Timer : Type := mkTimer { delay : float; action : TimerAction }.

(** The promise [terminateAfterPlayback] awaits: [resolved] is its guard,
    [listening] says whether [onFinished] is still subscribed to
    [audioFinished]. *)
Record Waiter : Type := mkWaiter {
  w_channelId : string;
  w_phrase : string;
  w_resolved : bool;
  w_listening : bool
}.

(** A point of the body of [cleanupChannel]: its start, and the places
    where it resumes after an [await]. *)
Inductive cleanup_pc : Type :=
| PC_start | PC_ext_hangup | PC_bridge_destroy | PC_sip_hangup | PC_rtp | PC_finish.

Record CleanupTask : Type := mkCleanupTask {
  t_channelId : string;
  t_reason : string;
  t_channelData : nat;
  t_pc : cleanup_pc
}.

(** Objects live in [heap] and are named by their address, so that a
    record reached through [sipMap] and the same record held in a local
    variable stay one object. [pending] holds the suspended cleanups. *)
#[projections(primitive)]
Record State : Type := mkState {
  heap : gmap nat CD.t;
  nextRef : nat;
  sipMap : list (string * nat);
  extMap : gmap string ExtEntry;
  rtpSenders : gmap string bool;
  rtpReceivers : gmap string bool;
  cleanupPromises : gset string;
  ignoreExtEvents : gset string;
  cleanedChannels : gset string;
  ariClient : bool;
  timers : gmap nat Timer;
  nextTimer : nat;
  waiters : list Waiter;
  pending : list CleanupTask;
  clock : nat
}.

Definition set_heap (x : gmap nat CD.t) (o : State) : State :=
  mkState x (nextRef o) (sipMap o) (extMap o) (rtpSenders o) (rtpReceivers o) (cleanupPromises o) (ignoreExtEvents o) (cleanedChannels o) (ariClient o) (timers o) (nextTimer o) (waiters o) (pending o) (clock o).
Definition set_nextRef (x : nat) (o : State) : State :=
  mkState (heap o) x (sipMap o) (extMap o) (rtpSenders o) (rtpReceivers o) (cleanupPromises o) (ignoreExtEvents o) (cleanedChannels o) (ariClient o) (timers o) (nextTimer o) (waiters o) (pending o) (clock o).
Definition set_sipMap (x : list (string * nat)) (o : State) : State :=
  mkState (heap o) (nextRef o) x (extMap o) (rtpSenders o) (rtpReceivers o) (cleanupPromises o) (ignoreExtEvents o) (cleanedChannels o) (ariClient o) (timers o) (nextTimer o) (waiters o) (pending o) (clock o).
Definition set_extMap (x : gmap string ExtEntry) (o : State) : State :=
  mkState (heap o) (nextRef o) (sipMap o) x (rtpSenders o) (rtpReceivers o) (cleanupPromises o) (ignoreExtEvents o) (cleanedChannels o) (ariClient o) (timers o) (nextTimer o) (waiters o) (pending o) (clock o).
Definition set_rtpSenders (x : gmap string bool) (o : State) : State :=
  mkState (heap o) (nextRef o) (sipMap o) (extMap o) x (rtpReceivers o) (cleanupPromises o) (ignoreExtEvents o) (cleanedChannels o) (ariClient o) (timers o) (nextTimer o) (waiters o) (pending o) (clock o).
Definition set_rtpReceivers (x : gmap string bool) (o : State) : State :=
  mkState (heap o) (nextRef o) (sipMap o) (extMap o) (rtpSenders o) x (cleanupPromises o) (ignoreExtEvents o) (cleanedChannels o) (ariClient o) (timers o) (nextTimer o) (waiters o) (pending o) (clock o).
Definition set_cleanupPromises (x : gset string) (o : State) : State :=
  mkState (heap o) (nextRef o) (sipMap o) (extMap o) (rtpSenders o) (rtpReceivers o) x (ignoreExtEvents o) (cleanedChannels o) (ariClient o) (timers o) (nextTimer o) (waiters o) (pending o) (clock o).
Definition set_ignoreExtEvents (x : gset string) (o : State) : State :=
  mkState (heap o) (nextRef o) (sipMap o) (extMap o) (rtpSenders o) (rtpReceivers o) (cleanupPromises o) x (cleanedChannels o) (ariClient o) (timers o) (nextTimer o) (waiters o) (pending o) (clock o).
Definition set_cleanedChannels (x : gset string) (o : State) : State :=
  mkState (heap o) (nextRef o) (sipMap o) (extMap o) (rtpSenders o) (rtpReceivers o) (cleanupPromises o) (ignoreExtEvents o) x (ariClient o) (timers o) (nextTimer o) (waiters o) (pending o) (clock o).
Definition set_timers (x : gmap nat Timer) (o : State) : State :=
  mkState (heap o) (nextRef o) (sipMap o) (extMap o) (rtpSenders o) (rtpReceivers o) (cleanupPromises o) (ignoreExtEvents o) (cleanedChannels o) (ariClient o) x (nextTimer o) (waiters o) (pending o) (clock o).
Definition set_nextTimer (x : nat) (o : State) : State :=
  mkState (heap o) (nextRef o) (sipMap o) (extMap o) (rtpSenders o) (rtpReceivers o) (cleanupPromises o) (ignoreExtEvents o) (cleanedChannels o) (ariClient o) (timers o) x (waiters o) (pending o) (clock o).
Definition set_waiters (x : list Waiter) (o : State) : State :=
  mkState (heap o) (nextRef o) (sipMap o) (extMap o) (rtpSenders o) (rtpReceivers o) (cleanupPromises o) (ignoreExtEvents o) (cleanedChannels o) (ariClient o) (timers o) (nextTimer o) x (pending o) (clock o).
Definition set_pending (x : list CleanupTask) (o : State) : State :=
  mkState (heap o) (nextRef o) (sipMap o) (extMap o) (rtpSenders o) (rtpReceivers o) (cleanupPromises o) (ignoreExtEvents o) (cleanedChannels o) (ariClient o) (timers o) (nextTimer o) (waiters o) x (clock o).
Definition set_clock (x : nat) (o : State) : State :=
  mkState (heap o) (nextRef o) (sipMap o) (extMap o) (rtpSenders o) (rtpReceivers o) (cleanupPromises o) (ignoreExtEvents o) (cleanedChannels o) (ariClient o) (timers o) (nextTimer o) (waiters o) (pending o) x.

Module Sess.
(** The variables closed over by [processMessage] in
    [startOpenAIWebSocket]. [channelData] is the address of the record
    captured at start-up, [ws] and [streamHandler] say whether the
    variable holds an object, the two hooks whether they are functions. *)
Record t : Type := mk {
  channelId : string;
  channelData : nat;
  onRedirectRequest : bool;
  onTerminateRequest : bool;
  ws : bool;
  streamHandler : bool;
  isResponseActive : bool;
  totalDeltaBytes : Z;
  loggedDeltaBytes : Z;
  segmentCount : Z;
  itemRoles : list (value * value);
  lastUserItemId : value;
  messageQueue : list value;
  terminateRequested : bool;
  terminateReason : option string;
  terminationInFlight : bool;
  terminationWatchdogStarted : bool
}.

Definition set_isResponseActive (x : bool) (o : t) : t :=
  mk (channelId o) (channelData o) (onRedirectRequest o) (onTerminateRequest o) (ws o) (streamHandler o) x (totalDeltaBytes o) (loggedDeltaBytes o) (segmentCount o) (itemRoles o) (lastUserItemId o) (messageQueue o) (terminateRequested o) (terminateReason o) (terminationInFlight o) (terminationWatchdogStarted o).
Definition set_totalDeltaBytes (x : Z) (o : t) : t :=
  mk (channelId o) (channelData o) (onRedirectRequest o) (onTerminateRequest o) (ws o) (streamHandler o) (isResponseActive o) x (loggedDeltaBytes o) (segmentCount o) (itemRoles o) (lastUserItemId o) (messageQueue o) (terminateRequested o) (terminateReason o) (terminationInFlight o) (terminationWatchdogStarted o).
Definition set_loggedDeltaBytes (x : Z) (o : t) : t :=
  mk (channelId o) (channelData o) (onRedirectRequest o) (onTerminateRequest o) (ws o) (streamHandler o) (isResponseActive o) (totalDeltaBytes o) x (segmentCount o) (itemRoles o) (lastUserItemId o) (messageQueue o) (terminateRequested o) (terminateReason o) (terminationInFlight o) (terminationWatchdogStarted o).
Definition set_segmentCount (x : Z) (o : t) : t :=
  mk (channelId o) (channelData o) (onRedirectRequest o) (onTerminateRequest o) (ws o) (streamHandler o) (isResponseActive o) (totalDeltaBytes o) (loggedDeltaBytes o) x (itemRoles o) (lastUserItemId o) (messageQueue o) (terminateRequested o) (terminateReason o) (terminationInFlight o) (terminationWatchdogStarted o).
Definition set_itemRoles (x : list (value * value)) (o : t) : t :=
  mk (channelId o) (channelData o) (onRedirectRequest o) (onTerminateRequest o) (ws o) (streamHandler o) (isResponseActive o) (totalDeltaBytes o) (loggedDeltaBytes o) (segmentCount o) x (lastUserItemId o) (messageQueue o) (terminateRequested o) (terminateReason o) (terminationInFlight o) (terminationWatchdogStarted o).
Definition set_lastUserItemId (x : value) (o : t) : t :=
  mk (channelId o) (channelData o) (onRedirectRequest o) (onTerminateRequest o) (ws o) (streamHandler o) (isResponseActive o) (totalDeltaBytes o) (loggedDeltaBytes o) (segmentCount o) (itemRoles o) x (messageQueue o) (terminateRequested o) (terminateReason o) (terminationInFlight o) (terminationWatchdogStarted o).
Definition set_messageQueue (x : list value) (o : t) : t :=
  mk (channelId o) (channelData o) (onRedirectRequest o) (onTerminateRequest o) (ws o) (streamHandler o) (isResponseActive o) (totalDeltaBytes o) (loggedDeltaBytes o) (segmentCount o) (itemRoles o) (lastUserItemId o) x (terminateRequested o) (terminateReason o) (terminationInFlight o) (terminationWatchdogStarted o).
Definition set_terminateRequested (x : bool) (o : t) : t :=
  mk (channelId o) (channelData o) (onRedirectRequest o) (onTerminateRequest o) (ws o) (streamHandler o) (isResponseActive o) (totalDeltaBytes o) (loggedDeltaBytes o) (segmentCount o) (itemRoles o) (lastUserItemId o) (messageQueue o) x (terminateReason o) (terminationInFlight o) (terminationWatchdogStarted o).
Definition set_terminateReason (x : option string) (o : t) : t :=
  mk (channelId o) (channelData o) (onRedirectRequest o) (onTerminateRequest o) (ws o) (streamHandler o) (isResponseActive o) (totalDeltaBytes o) (loggedDeltaBytes o) (segmentCount o) (itemRoles o) (lastUserItemId o) (messageQueue o) (terminateRequested o) x (terminationInFlight o) (terminationWatchdogStarted o).
Definition set_terminationInFlight (x : bool) (o : t) : t :=
  mk (channelId o) (channelData o) (onRedirectRequest o) (onTerminateRequest o) (ws o) (streamHandler o) (isResponseActive o) (totalDeltaBytes o) (loggedDeltaBytes o) (segmentCount o) (itemRoles o) (lastUserItemId o) (messageQueue o) (terminateRequested o) (terminateReason o) x (terminationWatchdogStarted o).
Definition set_terminationWatchdogStarted (x : bool) (o : t) : t :=
  mk (channelId o) (channelData o) (onRedirectRequest o) (onTerminateRequest o) (ws o) (streamHandler o) (isResponseActive o) (totalDeltaBytes o) (loggedDeltaBytes o) (segmentCount o) (itemRoles o) (lastUserItemId o) (messageQueue o) (terminateRequested o) (terminateReason o) (terminationInFlight o) x.
End Sess.

(** ** Computations: state, exceptions, trace *)

Inductive Outcome (A : Type) : Type :=
| Ret (a : A)
| Throw (e : string).
Arguments Ret {A} a.
Arguments Throw {A} e.

(** A block of JavaScript that runs without yielding to the event loop: it
    transforms the state, makes calls to collaborators (listed oldest
    first) and either completes with a value or throws. The state reached
    and the calls made when it throws are kept (nothing is rolled back). *)
Definition Comp (S A : Type) : Type := S -> Outcome A * S * list Effect.

#[global] Instance comp_ret {S} : MRet (Comp S) := fun A a s => (Ret a, s, []).
#[global] Instance comp_bind {S} : MBind (Comp S) := fun A B k m s =>
  match m s with
  | (Ret a, s', l) => let '(o, s'', l') := k a s' in (o, s'', l ++ l')
  | (Throw e, s', l) => (Throw e, s', l)
  end.

Definition throw {S A} (e : string) : Comp S A := fun s => (Throw e, s, []).

(** [try { m } catch (e) { h e }] *)
Definition try_catch {S A} (m : Comp S A) (h : string -> Comp S A) : Comp S A :=
  fun s => match m s with
           | (Ret a, s', l) => (Ret a, s', l)
           | (Throw e, s', l) => let '(o, s'', l') := h e s' in (o, s'', l ++ l')
           end.

Definition gets {S A} (f : S -> A) : Comp S A := fun s => (Ret (f s), s, []).
Definition modify {S} (f : S -> S) : Comp S unit := fun s => (Ret tt, f s, []).
Definition tell {S} (e : Effect) : Comp S unit := fun s => (Ret tt, s, [e]).

(** How a computation ends, the state it ends in, the calls it makes. *)
Definition outcome {S A} (m : Comp S A) (s : S) : Outcome A := fst (fst (m s)).
Definition exec {S A} (m : Comp S A) (s : S) : S := snd (fst (m s)).
Definition effects {S A} (m : Comp S A) (s : S) : list Effect := snd (m s).

(** ** [Map] with insertion order, as [sipMap] needs it *)

Fixpoint map_get {V} (m : list (string * V)) (k : string) : option V :=
  match m with
  | [] => None
  | (k', v) :: m' => if String.eqb k' k then Some v else map_get m' k
  end.

Fixpoint map_set {V} (m : list (string * V)) (k : string) (v : V) : list (string * V) :=
  match m with
  | [] => [(k, v)]
  | (k', v') :: m' =>
      if String.eqb k' k then (k, v) :: m' else (k', v') :: map_set m' k v
  end.

Fixpoint map_delete {V} (m : list (string * V)) (k : string) : list (string * V) :=
  match m with
  | [] => []
  | (k', v') :: m' =>
      if String.eqb k' k then map_delete m' k else (k', v') :: map_delete m' k
  end.

Definition map_has {V} (m : list (string * V)) (k : string) : bool :=
  match map_get m k with Some _ => true | None => false end.

(** ** Small helpers shared by both modules *)

(** A string-valued property used as a condition: absent and [''] are falsy. *)
Definition truthy_id (o : option string) : option string :=
  match o with
  | Some s => if String.eqb s "" then None else Some s
  | None => None
  end.

Definition LF : string := String (ascii_of_nat 10) EmptyString.

Definition log {S} (lvl : Level) (msg : string) : Comp S unit :=
  tell (Log lvl msg).

(** The record at address [r]. *)
Definition obj (st : State) (r : nat) : CD.t := default CD.empty (heap st !! r).

Definition deref (r : nat) : Comp State CD.t := gets (fun st => obj st r).

(** [data.field = x] on the object at [r]. *)
Definition update (r : nat) (f : CD.t -> CD.t) : Comp State unit :=
  modify (fun st => set_heap (<[r := f (obj st r)]> (heap st)) st).

(** [sipMap.get(id) || {}] *)
Definition sipMap_get_or_new (id : string) : Comp State nat := fun st =>
  match map_get (sipMap st) id with
  | Some r => (Ret r, st, [])
  | None =>
      let r := nextRef st in
      (Ret r, set_nextRef (S r) (set_heap (<[r := CD.empty]> (heap st)) st), [])
  end.

Definition sipMap_set (id : string) (r : nat) : Comp State unit :=
  modify (fun st => set_sipMap (map_set (sipMap st) id r) st).

Definition sipMap_delete (id : string) : Comp State unit :=
  modify (fun st => set_sipMap (map_delete (sipMap st) id) st).

Definition setTimeout (ms : float) (a : TimerAction) : Comp State nat := fun st =>
  let t := nextTimer st in
  (Ret t, set_nextTimer (S t) (set_timers (<[t := mkTimer ms a]> (timers st)) st), []).

Definition clearTimeout (t : nat) : Comp State unit :=
  modify (fun st => set_timers (delete t (timers st)) st).

(** The channel object an ARI event carries. *)
Record Channel : Type := mkChannel { ch_id : string; ch_name : option string }.

(** ** A sample platform and a sample call

    A runtime with a fixed clock, [/]-joined paths and a base64 decoder
    for strings over the standard alphabet (decoding stops at the first
    character outside it, such as the [=] padding), and one registered
    call with a bridge, an external leg, both RTP sockets and a port. The
    examples below run the model on them. *)
Module Sample.

Definition sextet (c : ascii) : option N :=
  let n := N_of_ascii c in
  if ((65 <=? n) && (n <=? 90))%N then Some (n - 65)%N
  else if ((97 <=? n) && (n <=? 122))%N then Some (n - 71)%N
  else if ((48 <=? n) && (n <=? 57))%N then Some (n + 4)%N
  else if (n =? 43)%N then Some 62%N
  else if (n =? 47)%N then Some 63%N
  else None.

Fixpoint sextets (s : string) : list N :=
  match s with
  | EmptyString => []
  | String c s' =>
      match sextet c with
      | Some n => n :: sextets s'
      | None => []
      end
  end.

Definition byte_of (n : N) : Byte.byte := default Byte.x00 (Byte.of_N (n mod 256)%N).

Fixpoint bytes_of_sextets (l : list N) : list Byte.byte :=
  match l with
  | a :: b :: c :: d :: l' =>
      byte_of (a * 4 + b / 16)%N :: byte_of ((b mod 16) * 16 + c / 4)%N
        :: byte_of ((c mod 4) * 64 + d)%N :: bytes_of_sextets l'
  | [a; b; c] => [byte_of (a * 4 + b / 16)%N; byte_of ((b mod 16) * 16 + c / 4)%N]
  | [a; b] => [byte_of (a * 4 + b / 16)%N]
  | _ => []
  end.

Definition from_base64 (v : value) : option (list Byte.byte) :=
  match v with
  | VStr s => Some (bytes_of_sextets (sextets s))
  | _ => None
  end.

Fixpoint join (l : list string) : string :=
  match l with
  | [] => "."
  | [s] => s
  | s :: l' => s +:+ "/" +:+ join l'
  end.

Definition date : Date := mkDate 2025 0 5 "2025-01-05T09:30:00.000Z".

Definition node (throws : Effect -> option string) : Platform :=
  mkPlatform throws (fun _ => date) join from_base64 (fun s => s) (fun _ => nan) 4294967296.

(** Nothing fails; every call that can fail does. *)
Definition quiet : Platform := node (fun _ => None).
Definition failing : Platform := node (fun _ => Some "boom").

Definition conf : Config :=
  mkConfig None 0.6 200 600 (Some "/var/spool/asterisk/monitor") 100
    ["goodbye"] ["transfer"] None true (Some "400") None.

Definition env : Env := mkEnv None None.

Definition sip : string := "1736069400.1".
Definition ext : string := "1736069400.2".

Definition record : CD.t :=
  CD.mk (Some "b1") (Some "b1") true (Some 12000) false true (CidString "+48 600 100 200")
    (Some ext) None (Some (mkStreamHandler true (Some []) (Some []))) 0
    false false false false false None.

Definition state : State :=
  mkState {[ O := record ]} 1 [(sip, O)]
    (<[ext := mkExtEntry "b1" (Some sip) None]> {[ sip := mkExtEntry "b1" None (Some ext) ]})
    {[ sip := true ]} {[ sip := true ]} ∅ ∅ ∅ true ∅ 0 [] [] 0.

(** The same call once the handoff to the queue has begun. *)
Definition redirected : State :=
  set_heap {[ O := CD.set_redirecting true record ]} state.

(** The same call while a packet is still queued for playback. *)
Definition playing : State :=
  set_heap
    {[ O := CD.mk (Some "b1") (Some "b1") true (Some 12000) false true
              (CidString "+48 600 100 200") (Some ext) None
              (Some (mkStreamHandler true (Some []) (Some [[Byte.x00]]))) 0
              false false false false false None ]} state.

(** The two legs as ARI events name them. *)
Definition sip_channel : Channel := mkChannel sip (Some "PJSIP/100-00000001").
Definition ext_channel : Channel := mkChannel ext (Some "UnicastRTP/127.0.0.1:12000-0x7f0a").

(** The AI session of the call, with both hooks and a stream handler, and
    the events it receives. *)
Definition session : Sess.t :=
  Sess.mk sip O true true true true false 0 0 0 [] VNull [] false None false false.

Definition event (type : string) (fields : list (string * value)) : value :=
  VObj (("type", VStr type) :: fields).

(** Three bytes of audio that are not silence. *)
Definition audio : value := event "response.audio.delta" [("delta", VStr "AAAA")].

Definition user_item : value :=
  event "conversation.item.created"
    [("item", VObj [("id", VStr "item_1"); ("role", VStr "user")])].

(** A user item without an id. *)
Definition anonymous_item : value :=
  event "conversation.item.created" [("item", VObj [("role", VStr "user")])].

End Sample.

(** Case analysis on an innermost scrutinee of the goal. *)
Ltac case_atom :=
  match goal with
  | |- context [match ?x with _ => _ end] =>
      lazymatch x with
      | context [match _ with _ => _ end] => fail
      | _ => destruct x eqn:?
      end
  end.

(** ** Phrase lists ([config.js]) *)

Module ConfigFile.

Definition quote : ascii := ascii_of_nat 39.

(** [Array.from(s.matchAll(/'([^']+)'/g)).map(m => m[1])], read from left
    to right. [opened] is [Some acc] after a quote that may open an item,
    [acc] being the characters since; a quote that follows an opening
    quote at once opens anew, an item not closed at the end of the string
    is no match. *)
Fixpoint quoted (opened : option string) (s : string) : list string :=
  match s with
  | EmptyString => []
  | String c s' =>
      match opened with
      | None => if Ascii.eqb c quote then quoted (Some "") s' else quoted None s'
      | Some acc =>
          if Ascii.eqb c quote then
            if String.eqb acc "" then quoted (Some "") s'
            else acc :: quoted None s'
          else quoted (Some (acc +:+ String c "")) s'
      end
  end.

(** [process.env.X ? Array.from(...).map(m =>
    m[1].toLowerCase().normalize('NFKC').trim()) : []] *)
Definition phrases (P : Platform) (v : option string) : list string :=
  match v with
  | Some s =>
      if String.eqb s "" then []
      else map (fun m => trim (normalizeNFKC P (toLowerCase m))) (quoted None s)
  | None => []
  end.

End ConfigFile.

(** ** Transcript e-mail ([mail.js]) *)

Module Mail.

(** The keys of the configuration bundle that only [mail.js] reads;
    [config.js] makes [SMTP_PORT] a number and [SMTP_SECURE] a boolean. *)
Record Settings : Type := mkSettings {
  SMTP_HOST : option string;
  SMTP_PORT : float;
  SMTP_SECURE : bool;
  SMTP_USER : option string;
  SMTP_PASS : option string;
  EMAIL_FROM : option string;
  EMAIL_TO : option string;
  EMAIL_SUBJECT_TEMPLATE : option string;
  EMAIL_BODY_TEMPLATE : option string
}.

(** The options given to [nodemailer.createTransport] and the message
    given to [sendMail]. *)
Record Transport : Type := mkTransport {
  tr_host : string;
  tr_port : float;
  tr_secure : bool;
  tr_auth : option (string * string)
}.

Record Attachment : Type := mkAttachment {
  at_filename : string;
  at_path : string;
  at_contentType : string
}.

Record Message : Type := mkMessage {
  m_from : option string;
  m_to : list string;
  m_subject : string;
  m_text : string;
  m_attachments : list Attachment
}.

(** How [sendTranscriptEmail] goes up to the mailer: it returns after one
    log line, it throws, or it calls [sendMail] on a transport (and then
    ends as the mailer does). *)
Inductive Result : Type :=
| Skipped (lvl : Level) (msg : string)
| Thrown (error : string)
| Submitted (t : Transport) (m : Message).

(** [s.split(',')], [cur] being the entry under way. *)
Fixpoint split_comma (cur s : string) : list string :=
  match s with
  | EmptyString => [cur]
  | String c s' =>
      if Ascii.eqb c ","%char then cur :: split_comma "" s'
      else split_comma (cur +:+ String c "") s'
  end.

(** [(config.EMAIL_TO || '').split(',').map(s => s.trim()).filter(Boolean)] *)
Definition recipients (s : Settings) : list string :=
  List.filter (fun x => negb (String.eqb x ""))
    (map trim (split_comma "" (default "" (EMAIL_TO s)))).

(** [s.drop(n)] and the first occurrence of [pat] in [s]: what is before
    it and what is after it. *)
Fixpoint drop_chars (n : nat) (s : string) : string :=
  match n, s with
  | S n', String _ s' => drop_chars n' s'
  | _, _ => s
  end.

Fixpoint split_at (pat before s : string) : option (string * string) :=
  if String.prefix pat s then Some (before, drop_chars (String.length pat) s)
  else match s with
       | String c s' => split_at pat (before +:+ String c "") s'
       | EmptyString => None
       end.

(** The replacement text of [String.prototype.replace] for a string
    pattern: [$$] is a dollar sign, [$&] the match, [$`] what is before
    the match, [$'] what is after it; there are no captures, so any other
    [$] stands for itself. *)
Fixpoint expand (matched before after repl : string) : string :=
  match repl with
  | EmptyString => EmptyString
  | String c r =>
      if Ascii.eqb c "$"%char then
        match r with
        | String d r' =>
            if Ascii.eqb d "$"%char then "$" +:+ expand matched before after r'
            else if Ascii.eqb d "&"%char then matched +:+ expand matched before after r'
            else if Ascii.eqb d "`"%char then before +:+ expand matched before after r'
            else if Ascii.eqb d (ascii_of_nat 39) then after +:+ expand matched before after r'
            else String c (expand matched before after r)
        | EmptyString => String c EmptyString
        end
      else String c (expand matched before after r)
  end.

(** [s.replace(pat, repl)] for strings [pat] and [repl]: the first
    occurrence only. *)
Definition replace (s pat repl : string) : string :=
  match split_at pat "" s with
  | Some (before, after) => before +:+ expand pat before after repl +:+ after
  | None => s
  end.

(** The default subject has an em dash (U+2014); it is kept here as the
    three bytes of its UTF-8 form, which no pattern looks at. *)
Definition default_subject : string :=
  "SQS — Conversation transcript {{callerId}} ({{channelId}})".

Definition default_body : string :=
  "Attached is the conversation transcript." +:+ LF +:+ LF
  +:+ "Caller: {{callerId}}" +:+ LF
  +:+ "Channel: {{channelId}}" +:+ LF
  +:+ "Reason: {{reason}}" +:+ LF.

Definition subject (s : Settings) (callerId channelId : string) : string :=
  replace
    (replace (default default_subject (truthy_id (EMAIL_SUBJECT_TEMPLATE s)))
       "{{callerId}}" callerId)
    "{{channelId}}" channelId.

Definition body (s : Settings) (callerId channelId reason : string) : string :=
  replace
    (replace
       (replace (default default_body (truthy_id (EMAIL_BODY_TEMPLATE s)))
          "{{callerId}}" callerId)
       "{{channelId}}" channelId)
    "{{reason}}" (default "n/a" (truthy_id (Some reason))).

(** [path.basename] of a POSIX path: the part after the last slash, the
    slashes at the end left aside. *)
Fixpoint last_part (cur s : string) : string :=
  match s with
  | EmptyString => cur
  | String c s' =>
      if Ascii.eqb c "/"%char then
        (if String.eqb (keep (fun c => negb (Ascii.eqb c "/"%char)) s') "" then cur
         else last_part "" s')
      else last_part (cur +:+ String c "") s'
  end.

Definition basename (p : string) : string := last_part "" p.

Definition buildTransport (cfg : Config) (s : Settings) : string + Transport :=
  if negb (EMAIL_ENABLED cfg) then inl "Email sending is disabled (EMAIL_ENABLED=false)"
  else match truthy_id (SMTP_HOST s) with
       | None => inl "SMTP_HOST is not set in config.conf"
       | Some h =>
           inr (mkTransport h (number_or (SMTP_PORT s) 587%float) (SMTP_SECURE s)
                  (match truthy_id (SMTP_USER s), truthy_id (SMTP_PASS s) with
                   | Some u, Some p => Some (u, p)
                   | _, _ => None
                   end))
       end.

(** [sendTranscriptEmail({ channelId, callerId = 'unknown', filePath,
    reason = '' })]; [existsSync] is the file system. *)
Definition sendTranscriptEmail (cfg : Config) (s : Settings) (existsSync : string -> bool)
    (channelId : string) (callerId : option string) (filePath : string)
    (reason : option string) : Result :=
  let callerId := default "unknown" callerId in
  let reason := default "" reason in
  if negb (EMAIL_ENABLED cfg) then
    Skipped LDebug ("Email disabled; skipping send for " +:+ channelId)
  else if negb (existsSync filePath) then
    Skipped LWarn ("Transcript not found for " +:+ channelId +:+ ": " +:+ filePath)
  else
    match recipients s with
    | [] => Thrown "EMAIL_TO is empty in config.conf"
    | to =>
        let subject := subject s callerId channelId in
        let body := body s callerId channelId reason in
        match buildTransport cfg s with
        | inl e => Thrown e
        | inr t =>
            Submitted t
              (mkMessage
                 (match truthy_id (EMAIL_FROM s) with
                  | Some f => Some f
                  | None => SMTP_USER s
                  end)
                 to subject body
                 [mkAttachment (basename filePath) filePath "text/plain"])
        end
    end.

End Mail.

Section Bridge.

Variable P : Platform.
Variable cfg : Config.
Variable env : Env.

(** A call to a collaborator: recorded, then it returns or throws. *)
Definition call {S} (e : Effect) : Comp S unit := fun st =>
  match throws P e with
  | Some msg => (Throw msg, st, [e])
  | None => (Ret tt, st, [e])
  end.

(** [new Date()] *)
Definition newDate : Comp State Date := fun st =>
  (Ret (now P (clock st)), set_clock (S (clock st)) st, []).

(** ** Transcript sink ([openai.js]) *)

(** [cid.number || cid.name || cid.id], then [(cid || '')] *)
Definition callerId_text (c : CallerId) : string :=
  match c with
  | CidUndefined => ""
  | CidString s => s
  | CidObject number name id =>
      match truthy_id number, truthy_id name, truthy_id id with
      | Some s, _, _ => s
      | None, Some s, _ => s
      | None, None, Some s => s
      | None, None, None => ""
      end
  end.

(** The tail of [safeCallerId]: trim, keep digits and [+], default. *)
Definition sanitize (c : CallerId) : string :=
  let cid := trim (callerId_text c) in
  let cid := keep is_digit_or_plus cid in
  if String.eqb cid "" then "unknown" else cid.

(** [sipMap.get(channelId)?.callerId] *)
Definition callerId_of (st : State) (channelId : string) : CallerId :=
  match map_get (sipMap st) channelId with
  | Some r => CD.callerId (obj st r)
  | None => CidUndefined
  end.

Definition safeCallerId (channelId : string) : Comp State string :=
  cid ← gets (fun st => callerId_of st channelId);
  mret (sanitize cid).

Definition recordings_root : string :=
  match truthy_id (RECORDINGS_DIR cfg) with
  | Some d => d
  | None => "/var/spool/asterisk/monitor"
  end.

(** [path.join(root, yyyy, mm, dd)] for the local date of [now]. *)
Definition daily_dir (now : Date) : string :=
  let yyyy := pretty (getFullYear now) in
  let mm := padStart 2 "0" (pretty (getMonth now + 1)%N) in
  let dd := padStart 2 "0" (pretty (getDate now)) in
  path_join P [recordings_root; yyyy; mm; dd].

Definition ensureDailyDir : Comp State string :=
  now ← newDate;
  let dir := daily_dir now in
  try_catch (call (MkdirSync dir))
            (fun e => log LError ("Failed to create transcripts dir " +:+ dir +:+ ": " +:+ e));;
  mret dir.

Definition transcript_name (callerId channelId : string) : string :=
  "conversation-" +:+ callerId +:+ "-" +:+ channelId +:+ ".txt".

Definition transcriptPath (channelId : string) : Comp State string :=
  dir ← ensureDailyDir;
  callerId ← safeCallerId channelId;
  mret (path_join P [dir; transcript_name callerId channelId]).

Definition transcript_line (iso who text : string) : string :=
  iso +:+ " " +:+ who +:+ ": " +:+ text +:+ LF.

(** [appendTranscript(channelId, who, text)]. The guard calls [text.trim()],
    which is a [TypeError] on a truthy [text] that is not a string. The
    completion callback of [fs.appendFile] only logs and is left out. *)
Definition appendTranscript (channelId who : string) (text : value) : Comp State unit :=
  if negb (truthy text) then mret tt
  else match text with
       | VStr s =>
           if String.eqb (trim s) "" then mret tt
           else
             try_catch
               (file ← transcriptPath channelId;
                d ← newDate;
                call (AppendFile file (transcript_line (toISOString d) who s)))
               (fun e => log LError ("Transcript write error for " +:+ channelId +:+ ": " +:+ e))
       | _ => throw "TypeError: text.trim is not a function"
       end.

(** ** PBX orchestrator ([asterisk.js]) *)

(** [CLEANUP_GRACE_MS = Number(process.env.CLEANUP_GRACE_MS || 1500)] and
    the [fallbackMs] of [terminateAfterPlayback]. *)
Definition number_env (v : option string) (def : float) : float :=
  match truthy_id v with
  | Some s => Number_of_string P s
  | None => def
  end.

Definition CLEANUP_GRACE_MS : float := number_env (CLEANUP_GRACE_MS_env env) 1500%float.
Definition fallbackMs : float := number_env (TERMINATE_FALLBACK_MS_env env) 8000%float.

Definition isExternalMediaChannel (name : string) : bool :=
  String.prefix "UnicastRTP/" name.

Definition channel_name (c : Channel) : string := default "" (ch_name c).

(** The loop over [sipMap.entries()] of [resolveSipIdForChannel]. *)
Fixpoint owner_of_external (st : State) (m : list (string * nat)) (id : string) : option string :=
  match m with
  | [] => None
  | (sipId, r) :: m' =>
      match CD.externalChannelId (obj st r) with
      | Some e => if String.eqb e id then Some sipId else owner_of_external st m' id
      | None => owner_of_external st m' id
      end
  end.

Definition resolveSipIdForChannel (c : Channel) (st : State) : option string :=
  if negb (isExternalMediaChannel (channel_name c)) then Some (ch_id c)
  else
    match extMap st !! ch_id c with
    | Some entry =>
        match truthy_id (e_channelId entry) with
        | Some sipId => Some sipId
        | None => owner_of_external st (sipMap st) (ch_id c)
        end
    | None => owner_of_external st (sipMap st) (ch_id c)
    end.

Definition ignoreExtEvents_add (id : string) : Comp State unit :=
  modify (fun st => set_ignoreExtEvents ({[id]} ∪ ignoreExtEvents st) st).

Definition cleanedChannels_add (id : string) : Comp State unit :=
  modify (fun st => set_cleanedChannels ({[id]} ∪ cleanedChannels st) st).

Definition extMap_delete (id : string) : Comp State unit :=
  modify (fun st => set_extMap (delete id (extMap st)) st).

(** [(fresh.callerId || 'unknown').toString()] *)
Definition callerIdForMail (c : CallerId) : string :=
  match c with
  | CidUndefined => "unknown"
  | CidString s => if String.eqb s "" then "unknown" else s
  | CidObject _ _ _ => "[object Object]"
  end.

(** *** cleanupChannel

    The body of the async function is cut at its [await]s. Each segment
    below is the code between two of them and returns whether it ended at
    an [await] that was really executed; the log line that follows an
    awaited call is written with the segment that makes the call.
    [channelId] is the call, [r] the address of [channelData]. *)

(** From [try {] to the 300 ms settle after [ws.close()]. *)
Definition cleanup_seg_start (channelId : string) (r : nat) : Comp State bool :=
  d ← deref r;
  match truthy_id (CD.externalChannelId d) with
  | Some e => ignoreExtEvents_add e;; _ ← setTimeout 10000%float (TA_unignore r); mret tt
  | None => mret tt
  end;;
  match CD.callTimeoutId d with
  | Some t => clearTimeout t;;
              log LInfo ("Call duration timeout cleared for channel " +:+ channelId)
  | None => mret tt
  end;;
  match CD.streamHandler d with
  | Some sh =>
      if has_end sh then
        try_catch (call (StreamHandlerEnd channelId);;
                   log LInfo ("Stream handler ended for " +:+ channelId))
                  (fun e => log LWarn ("Stream handler end failed for " +:+ channelId +:+ ": " +:+ e))
      else mret tt
  | None => mret tt
  end;;
  if negb (CD.wsClosed d) && CD.ws d then
    try_catch (call (WsClose channelId);;
               log LInfo ("WebSocket close requested for " +:+ channelId))
              (fun e => log LWarn ("WebSocket close failed for " +:+ channelId +:+ ": " +:+ e));;
    mret true
  else mret false.

(** [await ariClient.channels.hangup({ channelId: externalChannelId }).catch(() => {})] *)
Definition cleanup_seg_ext_hangup (channelId : string) (r : nat) : Comp State bool :=
  d ← deref r;
  ari ← gets (fun st => ariClient st);
  match truthy_id (CD.externalChannelId d) with
  | Some e =>
      if (ari : bool) then
        try_catch (try_catch (call (ChannelsHangup e)) (fun _ => mret tt);;
                   log LInfo ("External channel " +:+ e +:+ " hangup attempted"))
                  (fun m => log LWarn ("External channel hangup failed for " +:+ channelId +:+ ": " +:+ m));;
        mret true
      else mret false
  | None => mret false
  end.

Definition cleanup_seg_bridge_destroy (channelId : string) (r : nat) : Comp State bool :=
  d ← deref r;
  ari ← gets (fun st => ariClient st);
  match truthy_id (CD.bridge d) with
  | Some b =>
      if (ari : bool) then
        try_catch (try_catch (call (BridgesDestroy b)) (fun _ => mret tt);;
                   log LInfo ("Bridge " +:+ b +:+ " destroyed"))
                  (fun m => log LWarn ("Bridge destroy failed for " +:+ channelId +:+ ": " +:+ m));;
        mret true
      else mret false
  | None => mret false
  end.

(** The SIP leg is hung up only when the call was not handed to the queue. *)
Definition cleanup_seg_sip_hangup (channelId : string) (r : nat) : Comp State bool :=
  d ← deref r;
  ari ← gets (fun st => ariClient st);
  if negb (CD.redirecting d) && CD.channel d && (ari : bool) then
    try_catch (call (ChannelsHangup channelId);;
               log LInfo ("SIP channel " +:+ channelId +:+ " hangup attempted"))
              (fun m => log LWarn ("SIP channel hangup failed for " +:+ channelId +:+ ": " +:+ m));;
    mret true
  else mret false.

Definition close_receiver (handoff : bool) (channelId : string) : Comp State unit :=
  try_catch
    (rx ← gets (fun st => rtpReceivers st !! channelId);
     match rx with
     | Some true =>
         modify (fun st => set_rtpReceivers (<[channelId := false]> (rtpReceivers st)) st);;
         call (ReceiverClose channelId);;
         log LInfo (if handoff then "RTP receiver closed for " +:+ channelId +:+ " (handoff)"
                    else "RTP receiver socket closed for " +:+ channelId)
     | _ => mret tt
     end;;
     modify (fun st => set_rtpReceivers (delete channelId (rtpReceivers st)) st))
    (fun m => log LWarn ((if handoff then "RTP receiver close failed (handoff) for "
                          else "RTP receiver close failed for ") +:+ channelId +:+ ": " +:+ m)).

Definition close_sender (handoff : bool) (channelId : string) : Comp State unit :=
  try_catch
    (tx ← gets (fun st => rtpSenders st !! channelId);
     match tx with
     | Some true =>
         modify (fun st => set_rtpSenders (<[channelId := false]> (rtpSenders st)) st);;
         call (SenderClose channelId);;
         log LInfo (if handoff then "RTP sender closed for " +:+ channelId +:+ " (handoff)"
                    else "RTP sender socket closed for " +:+ channelId)
     | _ => mret tt
     end;;
     modify (fun st => set_rtpSenders (delete channelId (rtpSenders st)) st))
    (fun m => log LWarn ((if handoff then "RTP sender close failed (handoff) for "
                          else "RTP sender close failed for ") +:+ channelId +:+ ": " +:+ m)).

Definition release_port (handoff : bool) (channelId : string) (r : nat) : Comp State unit :=
  try_catch
    (d ← deref r;
     match CD.rtpPort d with
     | Some p => call (ReleaseRtpPort p);;
                 log LInfo ("Released RTP port " +:+ pretty p +:+ " for " +:+ channelId
                            +:+ (if handoff then " (handoff)" else ""))
     | None => mret tt
     end)
    (fun m => log LWarn ((if handoff then "releaseRtpPort failed (handoff) for "
                          else "releaseRtpPort failed for ") +:+ channelId +:+ ": " +:+ m)).

Definition purge_extMap (channelId : string) (r : nat) : Comp State unit :=
  try_catch
    (d ← deref r;
     match truthy_id (CD.externalChannelId d) with
     | Some e => extMap_delete e
     | None => mret tt
     end;;
     extMap_delete channelId)
    (fun _ => mret tt).

(** The e-mail step: [fresh] is [sipMap.get(channelId) || channelData]. A
    failure of the mailer is a rejection of the awaited promise, so the
    handler is reached after the [await] as well. *)
Definition send_email (channelId reason : string) (r : nat) : Comp State bool :=
  try_catch
    (fresh ← gets (fun st => default r (map_get (sipMap st) channelId));
     f ← deref fresh;
     let wasRedirected := CD.redirecting f in
     if EMAIL_ENABLED cfg && negb wasRedirected then
       file ← transcriptPath channelId;
       call (SendTranscriptEmail channelId (callerIdForMail (CD.callerId f)) file reason);;
       mret true
     else
       log LInfo ("Email not sent for " +:+ channelId);;
       mret false)
    (fun m => log LWarn ("sendTranscriptEmail failed for " +:+ channelId +:+ ": " +:+ m);;
              mret true).

(** From the RTP sockets to the e-mail. *)
Definition cleanup_seg_rtp (channelId reason : string) (r : nat) : Comp State bool :=
  close_receiver false channelId;;
  close_sender false channelId;;
  release_port false channelId r;;
  purge_extMap channelId r;;
  send_email channelId reason r.

Definition cleanup_seg_finish (channelId : string) : Comp State unit :=
  sipMap_delete channelId;;
  log LInfo ("Cleanup finished for " +:+ channelId).

(** The segments chained: run from one point to the next executed [await]
    ([Some pc]: suspended, resume at [pc]) or to the end of the [try]
    block ([None]). *)
Definition body_finish (channelId : string) : Comp State (option cleanup_pc) :=
  cleanup_seg_finish channelId;; mret None.

Definition body_rtp (channelId reason : string) (r : nat) : Comp State (option cleanup_pc) :=
  b ← cleanup_seg_rtp channelId reason r;
  if (b : bool) then mret (Some PC_finish) else body_finish channelId.

Definition body_sip_hangup (channelId reason : string) (r : nat) : Comp State (option cleanup_pc) :=
  b ← cleanup_seg_sip_hangup channelId r;
  if (b : bool) then mret (Some PC_rtp) else body_rtp channelId reason r.

Definition body_bridge_destroy (channelId reason : string) (r : nat) : Comp State (option cleanup_pc) :=
  b ← cleanup_seg_bridge_destroy channelId r;
  if (b : bool) then mret (Some PC_sip_hangup) else body_sip_hangup channelId reason r.

Definition body_ext_hangup (channelId reason : string) (r : nat) : Comp State (option cleanup_pc) :=
  b ← cleanup_seg_ext_hangup channelId r;
  if (b : bool) then mret (Some PC_bridge_destroy) else body_bridge_destroy channelId reason r.

Definition body_start (channelId reason : string) (r : nat) : Comp State (option cleanup_pc) :=
  b ← cleanup_seg_start channelId r;
  if (b : bool) then mret (Some PC_ext_hangup) else body_ext_hangup channelId reason r.

Definition body_from (pc : cleanup_pc) (channelId reason : string) (r : nat)
  : Comp State (option cleanup_pc) :=
  match pc with
  | PC_start => body_start channelId reason r
  | PC_ext_hangup => body_ext_hangup channelId reason r
  | PC_bridge_destroy => body_bridge_destroy channelId reason r
  | PC_sip_hangup => body_sip_hangup channelId reason r
  | PC_rtp => body_rtp channelId reason r
  | PC_finish => body_finish channelId
  end.

(** [try { ... } catch (e) { logger.error } finally { cleanupPromises.delete }]
    around a stretch of the body: the [finally] runs when the body ends,
    not when it is merely suspended. *)
Definition cleanup_guard (channelId : string) (m : Comp State (option cleanup_pc))
  : Comp State (option cleanup_pc) :=
  pc ← try_catch m
         (fun e => log LError ("Cleanup error for " +:+ channelId +:+ ": " +:+ e);;
                   mret None);
  match pc with
  | Some pc => mret (Some pc)
  | None =>
      modify (fun st => set_cleanupPromises (cleanupPromises st ∖ {[channelId]}) st);;
      mret None
  end.

Definition suspend (t : CleanupTask) : Comp State unit :=
  modify (fun st => set_pending (pending st ++ [t]) st).

(** The marking between the soft guard and the [try] block: the record
    and the call are flagged as cleaned, a pending grace timer is cleared. *)
Definition cleanup_mark (channelId : string) (r : nat) (d : CD.t) : Comp State unit :=
  update r (CD.set__cleaned true);;
  sipMap_set channelId r;;
  cleanedChannels_add channelId;;
  match CD._cleanupTimer d with
  | Some t => clearTimeout t;; update r (CD.set__cleanupTimer None)
  | None => mret tt
  end.

(** [cleanupChannel(channelId, reason)], up to its first suspension;
    [Some t] when the body is left suspended as task [t]. The async body
    runs synchronously until it first awaits; only then is its promise
    stored in [cleanupPromises]. Awaiting that promise afterwards does
    nothing more. *)
Definition cleanupChannel_begin (channelId reason : string) : Comp State (option CleanupTask) :=
  st ← gets (fun st => st);
  if bool_decide (channelId ∈ cleanedChannels st) then
    log LInfo ("Cleanup skipped for " +:+ channelId +:+ " (already cleaned)");;
    mret None
  else if bool_decide (channelId ∈ cleanupPromises st) then
    mret None
  else
    r ← sipMap_get_or_new channelId;
    log LInfo ("Cleanup started for channel " +:+ channelId +:+ " (reason=" +:+ reason +:+ ")");;
    d ← deref r;
    if CD._cleaned d then
      log LInfo ("Cleanup skipped (already done) for " +:+ channelId);;
      cleanedChannels_add channelId;;
      modify (fun st => set_cleanupPromises ({[channelId]} ∪ cleanupPromises st) st);;
      mret None
    else
      cleanup_mark channelId r d;;
      pc ← cleanup_guard channelId (body_from PC_start channelId reason r);
      modify (fun st => set_cleanupPromises ({[channelId]} ∪ cleanupPromises st) st);;
      mret (mkCleanupTask channelId reason r <$> pc).

(** The call as the event loop sees it: a suspended body is left pending. *)
Definition cleanupChannel (channelId reason : string) : Comp State unit :=
  t ← cleanupChannel_begin channelId reason;
  match t with
  | Some t => suspend t
  | None => mret tt
  end.

(** A suspended body runs to its next [await] or to its end. *)
Definition resume_task (t : CleanupTask) : Comp State (option CleanupTask) :=
  pc ← cleanup_guard (t_channelId t)
         (body_from (t_pc t) (t_channelId t) (t_reason t) (t_channelData t));
  mret (mkCleanupTask (t_channelId t) (t_reason t) (t_channelData t) <$> pc).

(** The event loop resumes the [i]-th suspended cleanup. *)
Definition resume_cleanup (i : nat) : Comp State unit :=
  p ← gets (fun st => pending st);
  match p !! i with
  | None => mret tt
  | Some t =>
      modify (fun st => set_pending (take i p ++ drop (S i) p) st);;
      t' ← resume_task t;
      match t' with
      | Some t' => suspend t'
      | None => mret tt
      end
  end.

(** [cleanupChannel] with nothing else scheduled in between: the request,
    then its own body resumed [n] times. The result is the task still
    suspended after that, if any. *)
Fixpoint resume_times (n : nat) (t : option CleanupTask) : Comp State (option CleanupTask) :=
  match n, t with
  | S n', Some t => t' ← resume_task t; resume_times n' t'
  | _, _ => mret t
  end.

Definition cleanupChannel_complete (channelId reason : string) : Comp State (option CleanupTask) :=
  t ← cleanupChannel_begin channelId reason;
  resume_times 5 t.

(** *** Leg-end events *)

Definition markChannelEndedAndMaybeCleanup (c : Channel) (sourceEvent : string)
  : Comp State unit :=
  let name := channel_name c in
  let isExt := isExternalMediaChannel name in
  st ← gets (fun st => st);
  if isExt && bool_decide (ch_id c ∈ ignoreExtEvents st) then
    log LInfo ("ExternalMedia " +:+ ch_id c +:+ " " +:+ sourceEvent +:+ " after cleanup; ignoring")
  else
    match truthy_id (resolveSipIdForChannel c st) with
    | None =>
        if isExt then
          log LDebug ("ExternalMedia " +:+ ch_id c +:+ " " +:+ sourceEvent +:+ " with no owner; likely post-cleanup")
        else
          log LWarn ("Cannot resolve SIP owner for channel " +:+ ch_id c +:+ " on " +:+ sourceEvent)
    | Some sipId =>
        if bool_decide (sipId ∈ cleanedChannels st) then
          log LInfo ("Event " +:+ sourceEvent +:+ " for " +:+ sipId +:+ " ignored (already cleaned)")
        else
          r ← sipMap_get_or_new sipId;
          d ← deref r;
          if CD._cleaned d then
            log LInfo ("Event " +:+ sourceEvent +:+ " for " +:+ sipId +:+ " ignored (cleanup in progress or done)")
          else
            (if isExt then update r (CD.set__extEnded true)
             else update r (CD.set__sipEnded true));;
            sipMap_set sipId r;;
            d ← deref r;
            if CD._sipEnded d && CD._extEnded d then
              try_catch
                (cleanupChannel sipId (sourceEvent +:+ ":both-ended"))
                (fun e => log LError ("cleanupChannel error (both-ended) for " +:+ sipId +:+ ": " +:+ e))
            else
              match CD._cleanupTimer d with
              | Some t => clearTimeout t
              | None => mret tt
              end;;
              t ← setTimeout CLEANUP_GRACE_MS (TA_cleanup sipId (sourceEvent +:+ ":grace-timeout"));
              update r (CD.set__cleanupTimer (Some t));;
              sipMap_set sipId r
    end.

(** The prelude shared by the [StasisEnd] and [ChannelDestroyed] handlers:
    [true] when the event is dropped before the leg is marked. *)
Definition late_event (c : Channel) (sourceEvent : string) : Comp State bool :=
  st ← gets (fun st => st);
  if isExternalMediaChannel (channel_name c) && bool_decide (ch_id c ∈ ignoreExtEvents st) then
    log LInfo ("ExternalMedia " +:+ ch_id c +:+ " " +:+ sourceEvent +:+ " after cleanup; ignoring");;
    mret true
  else
    match truthy_id (resolveSipIdForChannel c st) with
    | Some maybeSipId =>
        if bool_decide (maybeSipId ∈ cleanedChannels st) then
          log LInfo (sourceEvent +:+ " ignored for " +:+ maybeSipId +:+ " (already cleaned)");;
          mret true
        else mret false
    | None => mret false
    end.

Definition on_StasisEnd (c : Channel) : Comp State unit :=
  log LInfo ("StasisEnd for channel " +:+ ch_id c);;
  late ← late_event c "StasisEnd";
  if (late : bool) then mret tt
  else
    markChannelEndedAndMaybeCleanup c "StasisEnd";;
    if isExternalMediaChannel (channel_name c) then
      extMap_delete (ch_id c);;
      log LInfo ("ExternalMedia channel " +:+ ch_id c +:+ " removed from extMap")
    else mret tt.

Definition on_ChannelDestroyed (c : Channel) : Comp State unit :=
  log LInfo ("ChannelDestroyed for channel " +:+ ch_id c);;
  late ← late_event c "ChannelDestroyed";
  if (late : bool) then mret tt
  else markChannelEndedAndMaybeCleanup c "ChannelDestroyed".

(** *** terminateAfterPlayback *)

Definition isQueueEmpty (sh : option StreamHandler) : bool :=
  match sh with
  | None => true
  | Some sh =>
      let bufLen := match audioBuffer sh with Some b => length b | None => O end in
      let qLen := match packetQueue sh with Some q => length q | None => O end in
      (bufLen =? 0)%nat && (qLen =? 0)%nat
  end.

Definition terminate_reason (phraseMatched : string) : string :=
  "assistant-terminate:" +:+ phraseMatched.

(** [done()] of the awaited promise: [true] when this call resolves it. *)
Definition waiter_done (w : nat) : Comp State bool :=
  ws ← gets (fun st => waiters st);
  match ws !! w with
  | Some wt =>
      if w_resolved wt then mret false
      else
        modify (fun st => set_waiters (<[w := mkWaiter (w_channelId wt) (w_phrase wt) true (w_listening wt)]> ws) st);;
        mret true
  | None => mret false
  end.

(** [rtpEvents.off('audioFinished', onFinished)] *)
Definition waiter_off (w : nat) : Comp State unit :=
  modify (fun st =>
    match waiters st !! w with
    | Some wt =>
        set_waiters (<[w := mkWaiter (w_channelId wt) (w_phrase wt) (w_resolved wt) false]> (waiters st)) st
    | None => st
    end).

(** The listener [onFinished(id)]. *)
Definition onFinished (w : nat) (id : string) : Comp State bool :=
  ws ← gets (fun st => waiters st);
  match ws !! w with
  | Some wt =>
      if String.eqb id (w_channelId wt) then
        log LInfo ("RTP drain finished for " +:+ w_channelId wt +:+ " prior to terminate");;
        waiter_off w;;
        waiter_done w
      else mret false
  | None => mret false
  end.

(** The callback of the fallback timer. *)
Definition onFallback (w : nat) : Comp State bool :=
  waiter_off w;;
  log LWarn "Terminate fallback timeout reached";;
  waiter_done w.

(** What follows the [await] once the promise is resolved. *)
Definition after_wait (w : nat) : Comp State unit :=
  ws ← gets (fun st => waiters st);
  match ws !! w with
  | Some wt => cleanupChannel (w_channelId wt) (terminate_reason (w_phrase wt))
  | None => mret tt
  end.

Definition terminateAfterPlayback (channelId phraseMatched : string) : Comp State unit :=
  r ← sipMap_get_or_new channelId;
  d ← deref r;
  st ← gets (fun st => st);
  if CD.redirecting d then
    log LInfo ("Terminate requested but call is redirecting; skipping cleanup for " +:+ channelId)
  else if CD._cleaned d || bool_decide (channelId ∈ cleanedChannels st) then
    log LInfo ("Terminate requested but already cleaned for " +:+ channelId)
  else
    update r (CD.set_terminateAfterPlayback true);;
    sipMap_set channelId r;;
    log LInfo ("Assistant termination phrase matched for " +:+ channelId +:+ "; will terminate after playback completes");;
    if isQueueEmpty (CD.streamHandler d) then
      cleanupChannel channelId (terminate_reason phraseMatched)
    else
      w ← gets (fun st => length (waiters st));
      modify (fun st => set_waiters (waiters st ++ [mkWaiter channelId phraseMatched false true]) st);;
      _ ← setTimeout fallbackMs (TA_terminateFallback w);
      mret tt.

(** [rtpEvents.emit('audioFinished', id)]: the listeners subscribed when
    the event is emitted are called in order; the functions awaiting the
    promises they resolve continue afterwards. *)
Fixpoint call_listeners (ws : list nat) (id : string) : Comp State (list nat) :=
  match ws with
  | [] => mret []
  | w :: ws' =>
      b ← onFinished w id;
      resolved ← call_listeners ws' id;
      mret (if (b : bool) then w :: resolved else resolved)
  end.

Fixpoint continue_all (ws : list nat) : Comp State unit :=
  match ws with
  | [] => mret tt
  | w :: ws' => after_wait w;; continue_all ws'
  end.

(** The waiters whose listener is subscribed, in subscription order. *)
Fixpoint subscribed (i : nat) (ws : list Waiter) : list nat :=
  match ws with
  | [] => []
  | wt :: ws' => if w_listening wt then i :: subscribed (S i) ws' else subscribed (S i) ws'
  end.

Definition emit_audioFinished (id : string) : Comp State unit :=
  listeners ← gets (fun st => subscribed 0 (waiters st));
  resolved ← call_listeners listeners id;
  continue_all resolved.

(** *** Timers *)

Definition ari_unchecked (e : Effect) : Comp State unit :=
  ari ← gets (fun st => ariClient st);
  if (ari : bool) then call e
  else throw "TypeError: Cannot read properties of undefined (reading 'channels')".

Definition run_action (a : TimerAction) : Comp State unit :=
  match a with
  | TA_cleanup sipId reason =>
      try_catch (cleanupChannel sipId reason)
                (fun e => log LError ("cleanupChannel error (grace-timeout) for " +:+ sipId +:+ ": " +:+ e))
  | TA_unignore r =>
      d ← deref r;
      match CD.externalChannelId d with
      | Some e => modify (fun st => set_ignoreExtEvents (ignoreExtEvents st ∖ {[e]}) st)
      | None => mret tt
      end
  | TA_terminateFallback w =>
      b ← onFallback w;
      if (b : bool) then after_wait w else mret tt
  | TA_watchdog _ => mret tt
  | TA_durationLimit channelId =>
      try_catch (ari_unchecked (ChannelsHangup channelId))
                (fun e => log LError ("Duration-limit hangup error for " +:+ channelId +:+ ": " +:+ e))
  end.

(** A pending timer fires; a cleared or unknown one does nothing. The
    callback of [TA_watchdog] belongs to the AI session and is
    [watchdog_fires] below. *)
Definition fire_timer (t : nat) : Comp State unit :=
  tm ← gets (fun st => timers st !! t);
  match tm with
  | Some tm => clearTimeout t;; run_action (action tm)
  | None => mret tt
  end.

(** *** redirectToQueue

    The function as it runs when nothing else is scheduled between its
    [await]s. *)

Definition tryContexts : list string :=
  match truthy_id (REDIRECTION_QUEUE_CONTEXT cfg) with
  | Some c => [c; "ext-queues"; "from-internal"]
  | None => ["ext-queues"; "from-internal"]
  end.

(** The [for] loop over [tryContexts]: [true] when one attempt succeeded. *)
Fixpoint continue_in (sipChannelId qExt : string) (ctxs : list string) : Comp State bool :=
  match ctxs with
  | [] => mret false
  | ctx :: rest =>
      ok ← try_catch
             (ari_unchecked (ContinueInDialplan sipChannelId ctx qExt 1);;
              log LInfo ("Channel " +:+ sipChannelId +:+ " continued to " +:+ ctx +:+ "," +:+ qExt +:+ ",1");;
              mret true)
             (fun e => log LWarn ("continueInDialplan failed to " +:+ ctx +:+ "/" +:+ qExt +:+ ": " +:+ e);;
                       mret false);
      if (ok : bool) then mret true else continue_in sipChannelId qExt rest
  end.

Definition redirectToQueue (sipChannelId triggerText : string) : Comp State unit :=
  let qExt := trim (default "" (truthy_id (REDIRECTION_QUEUE cfg))) in
  if String.eqb qExt "" then
    log LError ("REDIRECTION_QUEUE not set; cannot redirect for " +:+ sipChannelId)
  else
    data ← gets (fun st => map_get (sipMap st) sipChannelId);
    match data with
    | None => log LWarn ("redirectToQueue: channel " +:+ sipChannelId +:+ " not in sipMap")
    | Some r =>
        d ← deref r;
        if CD.redirecting d then
          log LInfo ("redirectToQueue: already in progress for " +:+ sipChannelId)
        else
          update r (CD.set_redirecting true);;
          sipMap_set sipChannelId r;;
          log LInfo ("Redirection requested for " +:+ sipChannelId +:+ " to queue " +:+ qExt);;
          try_catch
            (match CD.streamHandler d with
             | Some sh =>
                 if has_end sh then
                   call (StreamHandlerEnd sipChannelId);;
                   log LInfo ("Stream handler ended for " +:+ sipChannelId +:+ " (handoff)")
                 else mret tt
             | None => mret tt
             end)
            (fun e => log LWarn ("Stream handler end failed (handoff) for " +:+ sipChannelId +:+ ": " +:+ e));;
          try_catch
            (if negb (CD.wsClosed d) && CD.ws d then
               call (WsClose sipChannelId);;
               log LInfo ("WebSocket close requested for " +:+ sipChannelId +:+ " (handoff)")
             else mret tt)
            (fun e => log LWarn ("WS close failed (handoff) for " +:+ sipChannelId +:+ ": " +:+ e));;
          ari ← gets (fun st => ariClient st);
          try_catch
            (match truthy_id (CD.externalChannelId d) with
             | Some e =>
                 if (ari : bool) then
                   try_catch (call (ChannelsHangup e)) (fun _ => mret tt);;
                   log LInfo ("External channel " +:+ e +:+ " hangup attempted (handoff)");;
                   ignoreExtEvents_add e;;
                   _ ← setTimeout 10000%float (TA_unignore r);
                   mret tt
                 else mret tt
             | None => mret tt
             end)
            (fun m => log LWarn ("External channel hangup failed (handoff) for " +:+ sipChannelId +:+ ": " +:+ m));;
          try_catch
            (match truthy_id (CD.bridge d) with
             | Some b =>
                 if (ari : bool) then
                   try_catch (call (BridgesDestroy b)) (fun _ => mret tt);;
                   log LInfo ("Bridge " +:+ b +:+ " destroyed (handoff)")
                 else mret tt
             | None => mret tt
             end)
            (fun m => log LWarn ("Bridge destroy failed (handoff) for " +:+ sipChannelId +:+ ": " +:+ m));;
          close_receiver true sipChannelId;;
          close_sender true sipChannelId;;
          release_port true sipChannelId r;;
          continued ← continue_in sipChannelId qExt tryContexts;
          if (continued : bool) then mret tt
          else
            log LError ("Failed to continue " +:+ sipChannelId +:+ " into any queue context. Hanging up as fallback.");;
            try_catch (ari_unchecked (ChannelsHangup sipChannelId)) (fun _ => mret tt)
    end.

(** The hooks the orchestrator passes to [startOpenAIWebSocket] for the call
    [ownId]: both reject a request made for another call. *)
Definition hook_onRedirectRequest (ownId chanId phraseMatched : string) : Comp State unit :=
  if negb (String.eqb chanId ownId) then mret tt
  else try_catch (redirectToQueue chanId phraseMatched)
                 (fun e => log LError ("redirectToQueue failed for " +:+ chanId +:+ ": " +:+ e)).

Definition hook_onTerminateRequest (ownId chanId phraseMatched : string) : Comp State unit :=
  if negb (String.eqb chanId ownId) then mret tt
  else terminateAfterPlayback chanId phraseMatched.

(** ** AI-RT session ([openai.js]) *)

Definition liftG {A} (m : Comp State A) : Comp (Sess.t * State) A :=
  fun s => let '(o, st', l) := m (snd s) in (o, (fst s, st'), l).

Definition getS : Comp (Sess.t * State) Sess.t := gets fst.

Definition modS (f : Sess.t -> Sess.t) : Comp (Sess.t * State) unit :=
  modify (fun s => (f (fst s), snd s)).

Definition logS (lvl : Level) (msg : string) : Comp (Sess.t * State) unit :=
  log lvl msg.

(** [v.k], throwing on [null] and [undefined]. *)
Definition prop (v : value) (k : string) : Comp (Sess.t * State) value :=
  match getprop v k with
  | Some x => mret x
  | None => throw ("TypeError: Cannot read properties of null (reading '" +:+ k +:+ "')")
  end.

(** [Buffer.alloc(size, fill)] and [Buffer.concat([a, b])] *)
Definition Buffer_alloc (size : Z) (fill : Byte.byte) : Comp (Sess.t * State) (list Byte.byte) :=
  if (size <? 0) || (kMaxLength P <? size) then throw "RangeError: invalid size"
  else mret (repeat fill (Z.to_nat size)).

Definition Buffer_concat (a b : list Byte.byte) : Comp (Sess.t * State) (list Byte.byte) :=
  if kMaxLength P <? Z.of_nat (length a + length b) then throw "RangeError: invalid size"
  else mret (a ++ b).

(** [deltaBuffer.every((byte) => byte === 0x7f)] *)
Definition all_silence (b : list Byte.byte) : bool := forallb (Byte.eqb Byte.x7f) b.

(** How a handler left [finalizeAndTerminate]: not started (or over
    already), started and awaited by the handler, started and left to run
    on its own. *)
Inductive PMResult : Type := PM_done | PM_await_finalize | PM_detached_finalize.

(** The [finally] block of [finalizeAndTerminate]. *)
Definition finalize_finish : Comp (Sess.t * State) unit :=
  se ← getS;
  try_catch
    (if Sess.onTerminateRequest se then
       call (TerminateRequest (Sess.channelId se)
               (default "agent-terminate" (truthy_id (Sess.terminateReason se))))
     else mret tt)
    (fun e => logS LWarn ("onTerminateRequest failed for " +:+ Sess.channelId se +:+ ": " +:+ e));;
  modS (Sess.set_terminateRequested false);;
  modS (Sess.set_terminateReason None).

(** [finalizeAndTerminate()] up to its first wait: [true] when it is now
    waiting for the RTP drain (its [finally] block runs later). The drain
    wait of [waitForBufferEmpty] and the 250 ms tail are time passing on
    the platform. *)
Definition finalizeAndTerminate : Comp (Sess.t * State) bool :=
  se ← getS;
  if Sess.terminationInFlight se then mret false
  else
    modS (Sess.set_terminationInFlight true);;
    waiting ← try_catch
                (call (WaitForBufferEmpty (Sess.channelId se));; mret true)
                (fun e => logS LWarn ("Graceful terminate wait failed for " +:+ Sess.channelId se +:+ ": " +:+ e);;
                          mret false);
    if (waiting : bool) then mret true
    else finalize_finish;; mret false.

Definition on_item_created (response : value) : Comp (Sess.t * State) PMResult :=
  se ← getS;
  let channelId := Sess.channelId se in
  logS LInfo ("[OpenAI] Conversation item created for " +:+ channelId);;
  item ← prop response "item";
  (if truthy item then
     id ← prop item "id";
     if truthy id then
       role ← prop item "role";
       if truthy role then
         modS (fun s => Sess.set_itemRoles ((id, role) :: Sess.itemRoles s) s);;
         match role with
         | VStr r =>
             if String.eqb r "user" then
               modS (Sess.set_lastUserItemId id);;
               logS LInfo ("[OpenAI] User voice command detected for " +:+ channelId +:+ ", stopping current playback");;
               if Sess.streamHandler se then call (StopPlayback channelId)
               else mret tt
             else mret tt
         | _ => mret tt
         end
       else mret tt
     else mret tt
   else mret tt);;
  mret PM_done.

Definition silencePackets : Z :=
  let silenceDurationMs := if SILENCE_PADDING_MS cfg =? 0 then 100 else SILENCE_PADDING_MS cfg in
  ceil_div silenceDurationMs 20.

Definition on_audio_delta (response : value) : Comp (Sess.t * State) PMResult :=
  se ← getS;
  let channelId := Sess.channelId se in
  delta ← prop response "delta";
  (if truthy delta then
     match Buffer_from_base64 P delta with
     | None => throw "TypeError: The first argument must be of type string"
     | Some deltaBuffer =>
         let len := Z.of_nat (length deltaBuffer) in
         if (0 <? len) && negb (all_silence deltaBuffer) then
           let totalDeltaBytes := Sess.totalDeltaBytes se + len in
           modS (Sess.set_totalDeltaBytes totalDeltaBytes);;
           liftG (update (Sess.channelData se) (CD.set_totalDeltaBytes totalDeltaBytes));;
           liftG (sipMap_set channelId (Sess.channelData se));;
           let segmentCount := Sess.segmentCount se + 1 in
           modS (Sess.set_segmentCount segmentCount);;
           (if (40000 <=? totalDeltaBytes - Sess.loggedDeltaBytes se) || (100 <=? segmentCount) then
              logS LInfo ("[OpenAI] Received audio delta for " +:+ channelId);;
              modS (Sess.set_loggedDeltaBytes totalDeltaBytes);;
              modS (Sess.set_segmentCount 0)
            else mret tt);;
           packetBuffer ←
             (if totalDeltaBytes =? len then
                silenceBuffer ← Buffer_alloc (silencePackets * 160) Byte.x7f;
                packetBuffer ← Buffer_concat silenceBuffer deltaBuffer;
                logS LInfo ("Prepended silence packets for " +:+ channelId);;
                mret packetBuffer
              else mret deltaBuffer);
           registered ← gets (fun s => map_has (sipMap (snd s)) channelId);
           if (registered : bool) && Sess.streamHandler se then
             call (SendRtpPacket channelId packetBuffer)
           else mret tt
         else
           logS LWarn ("Received empty or silent delta for " +:+ channelId)
     end
   else mret tt);;
  mret PM_done.

(** [response.delta.trim()] inside the debug log of the two transcript
    delta events. *)
Definition on_transcript_delta (response : value) : Comp (Sess.t * State) PMResult :=
  delta ← prop response "delta";
  (if truthy delta then
     match delta with
     | VStr d => logS LDebug ("Transcript delta: " +:+ trim d)
     | _ => throw "TypeError: response.delta.trim is not a function"
     end
   else mret tt);;
  mret PM_done.

(** [config.AGENT_TERMINATE_PHRASES.find((p) => txt.includes(p))] *)
Definition find_phrase (phrases : list string) (txt : string) : option string :=
  List.find (fun p => includes txt p) phrases.

Definition watchdogMs : float :=
  match TERMINATION_WATCHDOG_MS cfg with
  | Some n => if number_truthy n then n else 8000%float
  | None => 8000%float
  end.

(** The block marked TERMINATE of the assistant-transcript handler: the
    request is recorded, nothing is torn down; a one-shot watchdog is set. *)
Definition mark_terminate (txt : string) : Comp (Sess.t * State) unit :=
  se ← getS;
  let channelId := Sess.channelId se in
  match AGENT_TERMINATE_PHRASES cfg with
  | [] => mret tt
  | _ =>
      match truthy_id (find_phrase (AGENT_TERMINATE_PHRASES cfg) txt) with
      | Some matched =>
          modS (Sess.set_terminateRequested true);;
          modS (Sess.set_terminateReason (Some matched));;
          logS LInfo ("Assistant termination phrase matched (" +:+ matched +:+ ") for "
                      +:+ channelId +:+ "; will terminate after playback completes");;
          if Sess.terminationWatchdogStarted se then mret tt
          else
            modS (Sess.set_terminationWatchdogStarted true);;
            _ ← liftG (setTimeout watchdogMs (TA_watchdog channelId));
            mret tt
      | None => mret tt
      end
  end.

(** The block marked REDIRECT. *)
Definition request_redirect (txt : string) : Comp (Sess.t * State) unit :=
  se ← getS;
  let channelId := Sess.channelId se in
  match REDIRECTION_PHRASES cfg with
  | [] => mret tt
  | _ =>
      match truthy_id (find_phrase (REDIRECTION_PHRASES cfg) txt) with
      | Some matched =>
          if Sess.onRedirectRequest se then
            logS LInfo ("Assistant redirect phrase matched (" +:+ matched +:+ ") for "
                        +:+ channelId +:+ "; requesting queue handoff");;
            call (RedirectRequest channelId matched)
          else mret tt
      | None => mret tt
      end
  end.

Definition on_transcript_done (response : value) : Comp (Sess.t * State) PMResult :=
  se ← getS;
  let channelId := Sess.channelId se in
  transcript ← prop response "transcript";
  (if truthy transcript then
     txt ← match transcript with
           | VStr s => mret (normalizeNFKC P (toLowerCase s))
           | _ => throw "TypeError: (response.transcript || '').toLowerCase is not a function"
           end;
     liftG (appendTranscript channelId "ASSISTANT" transcript);;
     logS LInfo ("[OpenAI] Assistant transcription for " +:+ channelId);;
     mark_terminate txt;;
     request_redirect txt
   else mret tt);;
  mret PM_done.

Definition on_user_transcript (response : value) : Comp (Sess.t * State) PMResult :=
  se ← getS;
  let channelId := Sess.channelId se in
  transcript ← prop response "transcript";
  (if truthy transcript then
     logS LInfo ("[OpenAI] User command transcription for " +:+ channelId);;
     liftG (appendTranscript channelId "USER" transcript)
   else mret tt);;
  mret PM_done.

Definition on_audio_done : Comp (Sess.t * State) PMResult :=
  se ← getS;
  logS LInfo ("[OpenAI] Response audio done for " +:+ Sess.channelId se);;
  modS (Sess.set_isResponseActive false);;
  modS (Sess.set_loggedDeltaBytes 0);;
  modS (Sess.set_segmentCount 0);;
  modS (Sess.set_itemRoles []);;
  modS (Sess.set_lastUserItemId VNull);;
  if Sess.terminateRequested se then
    waiting ← finalizeAndTerminate;
    mret (if (waiting : bool) then PM_await_finalize else PM_done)
  else mret PM_done.

Definition on_error (response : value) : Comp (Sess.t * State) PMResult :=
  se ← getS;
  let channelId := Sess.channelId se in
  error ← prop response "error";
  logS LError ("OpenAI error for " +:+ channelId);;
  try_catch (if Sess.ws se then call (WsClose channelId) else mret tt)
            (fun _ => mret tt);;
  if Sess.terminateRequested se then
    waiting ← finalizeAndTerminate;
    mret (if (waiting : bool) then PM_detached_finalize else PM_done)
  else mret PM_done.

(** The [switch] of [processMessage]. *)
Definition processMessage_body (response : value) : Comp (Sess.t * State) PMResult :=
  type ← prop response "type";
  se ← getS;
  let channelId := Sess.channelId se in
  let unhandled := logS LDebug ("Unhandled event type for " +:+ channelId);; mret PM_done in
  match type with
  | VStr t =>
      if String.eqb t "session.created" then
        logS LInfo ("[Client] Session created for " +:+ channelId);; mret PM_done
      else if String.eqb t "session.updated" then
        logS LInfo ("[OpenAI] Session updated for " +:+ channelId);; mret PM_done
      else if String.eqb t "conversation.item.created" then on_item_created response
      else if String.eqb t "response.created" then
        logS LInfo ("[OpenAI] Response created for " +:+ channelId);;
        modS (Sess.set_isResponseActive true);; mret PM_done
      else if String.eqb t "response.audio.delta" then on_audio_delta response
      else if String.eqb t "response.audio_transcript.delta" then on_transcript_delta response
      else if String.eqb t "response.audio_transcript.done" then on_transcript_done response
      else if String.eqb t "conversation.item.input_audio_transcription.delta" then
        on_transcript_delta response
      else if String.eqb t "conversation.item.input_audio_transcription.completed" then
        on_user_transcript response
      else if String.eqb t "response.audio.done" then on_audio_done
      else if String.eqb t "error" then on_error response
      else unhandled
  | _ => unhandled
  end.

(** [processMessage]: the [switch] inside [try { } catch (e) { logger.error }]. *)
Definition processMessage (response : value) : Comp (Sess.t * State) PMResult :=
  try_catch (processMessage_body response)
            (fun e => se ← getS;
                      logS LError ("Error processing message for " +:+ Sess.channelId se +:+ ": " +:+ e);;
                      mret PM_done).

(** The callback of the termination watchdog. *)
Definition watchdog_fires : Comp (Sess.t * State) bool :=
  se ← getS;
  if Sess.terminateRequested se && negb (Sess.terminationInFlight se) then
    logS LWarn ("Termination watchdog firing for " +:+ Sess.channelId se);;
    finalizeAndTerminate
  else mret false.

(** *** Message pump

    [ws.on('message')] parses a frame and enqueues it; every 25 ms the
    pump takes up to five queued messages, awaiting [processMessage] for
    each. [pump_loop n] is the loop with [n] iterations left: it returns
    the messages it took, in order, and [Some k] when it is suspended, with
    [k] iterations left, on a [processMessage] that awaits the finalizer. *)

Definition on_message (parsed : option value) : Comp (Sess.t * State) unit :=
  match parsed with
  | Some response =>
      modS (fun s => Sess.set_messageQueue (Sess.messageQueue s ++ [response]) s)
  | None =>
      se ← getS;
      logS LError ("Error parsing WebSocket message for " +:+ Sess.channelId se)
  end.

Definition maxMessages : nat := 5.

Fixpoint pump_loop (n : nat) : Comp (Sess.t * State) (list value * option nat * bool) :=
  match n with
  | O => mret ([], None, false)
  | S n' =>
      se ← getS;
      match Sess.messageQueue se with
      | [] => mret ([], None, false)
      | response :: rest =>
          modS (Sess.set_messageQueue rest);;
          r ← processMessage response;
          match r with
          | PM_await_finalize => mret ([response], Some n', true)
          | PM_detached_finalize =>
              '(taken, k, _) ← pump_loop n';
              mret (response :: taken, k, true)
          | PM_done =>
              '(taken, k, f) ← pump_loop n';
              mret (response :: taken, k, f)
          end
      end
  end.

(** What the event loop holds for one session: the session and the
    process state, the pump loops suspended on the finalizer, whether the
    finalizer is waiting, the messages handed to [processMessage] so far,
    the calls made so far, and whether an exception escaped a callback. *)
Record PumpWorld : Type := mkPumpWorld {
  pw_state : Sess.t * State;
  pw_suspended : list nat;
  pw_finalizing : bool;
  pw_processed : list value;
  pw_trace : list Effect;
  pw_crashed : bool
}.

Inductive PumpAction : Type :=
| Frame (parsed : option value)
| Tick
| FinalizeElapsed.

(** A pump loop runs (from the start of a tick, or resumed). *)
Definition run_loop (n : nat) (w : PumpWorld) : PumpWorld :=
  match pump_loop n (pw_state w) with
  | (Ret (taken, k, f), s', l) =>
      mkPumpWorld s'
        (match k with Some k => pw_suspended w ++ [k] | None => pw_suspended w end)
        (pw_finalizing w || f)
        (pw_processed w ++ taken)
        (pw_trace w ++ l)
        (pw_crashed w)
  | (Throw _, s', l) =>
      mkPumpWorld s' (pw_suspended w) (pw_finalizing w) (pw_processed w) (pw_trace w ++ l) true
  end.

Fixpoint resume_loops (ks : list nat) (w : PumpWorld) : PumpWorld :=
  match ks with
  | [] => w
  | k :: ks' => resume_loops ks' (run_loop k w)
  end.

Definition pump_step (a : PumpAction) (w : PumpWorld) : PumpWorld :=
  match a with
  | Frame parsed =>
      match on_message parsed (pw_state w) with
      | (Ret _, s', l) =>
          mkPumpWorld s' (pw_suspended w) (pw_finalizing w) (pw_processed w)
                      (pw_trace w ++ l) (pw_crashed w)
      | (Throw _, s', l) =>
          mkPumpWorld s' (pw_suspended w) (pw_finalizing w) (pw_processed w)
                      (pw_trace w ++ l) true
      end
  | Tick => run_loop maxMessages w
  | FinalizeElapsed =>
      if pw_finalizing w then
        match finalize_finish (pw_state w) with
        | (Ret _, s', l) =>
            resume_loops (pw_suspended w)
              (mkPumpWorld s' [] false (pw_processed w) (pw_trace w ++ l) (pw_crashed w))
        | (Throw _, s', l) =>
            mkPumpWorld s' (pw_suspended w) false (pw_processed w) (pw_trace w ++ l) true
        end
      else w
  end.

Definition pump_run (acts : list PumpAction) (w : PumpWorld) : PumpWorld :=
  fold_left (fun w a => pump_step a w) acts w.

(** The frames of a schedule that parse. *)
Definition frames_of (acts : list PumpAction) : list value :=
  omap (fun a => match a with Frame (Some v) => Some v | _ => None end) acts.

(** *** Schedules of cleanup requests

    After a first [cleanupChannel(channelId, reason)] the event loop may
    resume the suspended cleanup ([Resume i]) or deliver a further request
    for the same call ([Again reason]); the requests never run in
    parallel, they interleave at the [await]s. *)
Inductive CleanupAction : Type :=
| Resume (i : nat)
| Again (reason : string).

Definition is_resume (a : CleanupAction) : bool :=
  match a with Resume _ => true | Again _ => false end.

Definition cleanup_action (channelId : string) (a : CleanupAction) : Comp State unit :=
  match a with
  | Resume i => resume_cleanup i
  | Again reason => cleanupChannel channelId reason
  end.

Fixpoint run_actions (channelId : string) (acts : list CleanupAction) : Comp State unit :=
  match acts with
  | [] => mret tt
  | a :: acts' => cleanup_action channelId a;; run_actions channelId acts'
  end.

(** A first request, then the schedule. *)
Definition cleanup_schedule (channelId reason : string) (acts : list CleanupAction)
  : Comp State unit :=
  cleanupChannel channelId reason;; run_actions channelId acts.

(** The calls other than log lines: what the collaborators see. *)
Definition calls (l : list Effect) : list Effect :=
  filter (fun e => negb (is_log e)) l.

Definition is_email (channelId : string) (e : Effect) : bool :=
  match e with
  | SendTranscriptEmail c _ _ _ => String.eqb c channelId
  | _ => false
  end.

(** *** Waiting for the drain

    What can happen to the promise awaited by [terminateAfterPlayback]
    for waiter [w]: the emitter announces [AudioFinished id] (the listener
    is called if it is still subscribed), or the fallback timer fires.
    [wait_flags] tells, event by event, whether the promise was resolved by
    it, that is, whether [cleanupChannel] is called next. *)
Inductive WaitEvent : Type :=
| AudioFinished (id : string)
| FallbackTimeout.

Definition wait_step (w : nat) (ev : WaitEvent) : Comp State bool :=
  match ev with
  | AudioFinished id =>
      ws ← gets (fun st => waiters st);
      match ws !! w with
      | Some wt => if w_listening wt then onFinished w id else mret false
      | None => mret false
      end
  | FallbackTimeout => onFallback w
  end.

Fixpoint wait_flags (w : nat) (evs : list WaitEvent) (st : State) : list bool :=
  match evs with
  | [] => []
  | ev :: evs' =>
      match wait_step w ev st with
      | (Ret b, st', _) => b :: wait_flags w evs' st'
      | (Throw _, st', _) => false :: wait_flags w evs' st'
      end
  end.

(** The events that end the wait for call [channelId]. *)
Definition ends_wait (channelId : string) (ev : WaitEvent) : bool :=
  match ev with
  | AudioFinished id => String.eqb id channelId
  | FallbackTimeout => true
  end.

(** [true] at the first event that ends the wait, [false] everywhere else. *)
Fixpoint first_only (channelId : string) (evs : list WaitEvent) : list bool :=
  match evs with
  | [] => []
  | ev :: evs' =>
      if ends_wait channelId ev then true :: repeat false (length evs')
      else false :: first_only channelId evs'
  end.

(** *** The session's callbacks as the event loop runs them

    Besides the frames, the pump ticks and the end of the finalizer's
    wait, the termination watchdog may fire. The schedule is not tied to
    the timer [mark_terminate] arms: every order of callbacks the event
    loop can produce is among the schedules, the handlers of the socket's
    [error] and [close] events apart. *)

Inductive SessionAction : Type :=
| Pump (a : PumpAction)
| WatchdogFires.

Definition session_step (a : SessionAction) (w : PumpWorld) : PumpWorld :=
  match a with
  | Pump a => pump_step a w
  | WatchdogFires =>
      match watchdog_fires (pw_state w) with
      | (Ret waiting, s', l) =>
          mkPumpWorld s' (pw_suspended w) (pw_finalizing w || waiting) (pw_processed w)
                      (pw_trace w ++ l) (pw_crashed w)
      | (Throw _, s', l) =>
          mkPumpWorld s' (pw_suspended w) (pw_finalizing w) (pw_processed w)
                      (pw_trace w ++ l) true
      end
  end.

Definition session_run (acts : list SessionAction) (w : PumpWorld) : PumpWorld :=
  fold_left (fun w a => session_step a w) acts w.

(** The calls of the terminate hook among some calls. *)
Definition is_hook (e : Effect) : bool :=
  match e with TerminateRequest _ _ => true | _ => false end.

Definition hooks (l : list Effect) : nat := length (List.filter is_hook l).


(** * Properties *)

#[local] Arguments String.append : simpl never.

(** ** Running computations *)

(** [m] run in [s] returns [a], ends in [s'] and makes the calls [l]. *)
Definition runs {S A} (m : Comp S A) (s : S) (a : A) (s' : S) (l : list Effect) : Prop :=
  m s = (Ret a, s', l).

Lemma runs_ret {S A} (a : A) (s : S) : runs (mret a) s a s [].
Proof. reflexivity. Qed.

Lemma runs_effects {S A} (m : Comp S A) s a s' l :
  runs m s a s' l -> effects m s = l /\ exec m s = s' /\ outcome m s = Ret a.
Proof. unfold runs, effects, exec, outcome. intros ->. repeat split. Qed.

Lemma bind_run {S A B} (m : Comp S A) (k : A -> Comp S B) s a s' :
  m s = (Ret a, s', []) -> (m ≫= k) s = k a s'.
Proof.
  unfold mbind, comp_bind. intros ->. now destruct (k a s') as [[o s2] l].
Qed.

Lemma runs_bind {S A B} (m : Comp S A) (k : A -> Comp S B) s a s1 l1 b s2 l2 :
  runs m s a s1 l1 -> runs (k a) s1 b s2 l2 -> runs (m ≫= k) s b s2 (l1 ++ l2).
Proof.
  unfold runs, mbind, comp_bind. intros -> H2. now rewrite H2.
Qed.

Lemma runs_try {S A} (m : Comp S A) h s a s' l :
  runs m s a s' l -> runs (try_catch m h) s a s' l.
Proof. unfold runs, try_catch. now intros ->. Qed.

Lemma runs_gets {S A} (f : S -> A) s : runs (gets f) s (f s) s [].
Proof. reflexivity. Qed.

Lemma runs_modify {S} (f : S -> S) s : runs (modify f) s tt (f s) [].
Proof. reflexivity. Qed.

Lemma runs_log {S} lvl msg (s : S) : runs (log lvl msg) s tt s [Log lvl msg].
Proof. reflexivity. Qed.

Lemma calls_app l1 l2 : calls (l1 ++ l2) = calls l1 ++ calls l2.
Proof. unfold calls. apply filter_app. Qed.

Lemma calls_log lvl msg : calls [Log lvl msg] = [].
Proof. reflexivity. Qed.

Lemma calls_cons_log lvl msg l : calls (Log lvl msg :: l) = calls l.
Proof. reflexivity. Qed.

(** No transcript e-mail among the calls. *)
Definition no_email (l : list Effect) : Prop :=
  Forall (fun e => match e with SendTranscriptEmail _ _ _ _ => False | _ => True end) l.

Lemma no_email_app l1 l2 : no_email l1 -> no_email l2 -> no_email (l1 ++ l2).
Proof. apply Forall_app_2. Qed.

Lemma no_email_nil : no_email [].
Proof. constructor. Qed.

Ltac unfold_comp :=
  cbv beta iota zeta delta
    [mbind mret comp_bind comp_ret try_catch gets modify tell log call throw deref runs].


Ltac norm_state :=
  cbv beta iota delta
    [set_heap set_nextRef set_sipMap set_extMap set_rtpSenders set_rtpReceivers
     set_cleanupPromises set_ignoreExtEvents set_cleanedChannels set_timers
     set_nextTimer set_waiters set_pending set_clock
     heap nextRef sipMap extMap rtpSenders rtpReceivers cleanupPromises
     ignoreExtEvents cleanedChannels ariClient timers nextTimer waiters pending clock].

Ltac done_run := try congruence; repeat eexists; norm_state; try reflexivity.

(** Symbolic execution of a small block: unfold, then split on every
    condition and every answer of the platform. *)
Ltac run := repeat (unfold_comp; try case_atom).


(** [try { call e; log } catch { log }]: the call is made, nothing else
    changes, nothing is thrown. *)
Lemma attempt_runs (e : Effect) (ok : string) (ko : string -> string) (st : State) :
  exists l, runs (try_catch (call e;; log LInfo ok) (fun m => log LWarn (ko m))) st tt st l
            /\ calls l = calls [e].
Proof. run; eexists; split; reflexivity. Qed.

Lemma attempt_swallow_runs (e : Effect) (ok : string) (ko : string -> string) (st : State) :
  exists l, runs (try_catch (try_catch (call e) (fun _ => mret tt);; log LInfo ok)
                            (fun m => log LWarn (ko m))) st tt st l
            /\ calls l = calls [e].
Proof. run; eexists; split; reflexivity. Qed.

Lemma seg_ext_hangup_runs ch r st :
  exists l,
    runs (cleanup_seg_ext_hangup ch r) st
      (match truthy_id (CD.externalChannelId (obj st r)) with
       | Some _ => ariClient st | None => false end) st l
    /\ calls l = match truthy_id (CD.externalChannelId (obj st r)) with
                 | Some e => if ariClient st then [ChannelsHangup e] else []
                 | None => [] end.
Proof. unfold cleanup_seg_ext_hangup. run; try congruence; eexists; split; reflexivity. Qed.

Lemma seg_bridge_destroy_runs ch r st :
  exists l,
    runs (cleanup_seg_bridge_destroy ch r) st
      (match truthy_id (CD.bridge (obj st r)) with
       | Some _ => ariClient st | None => false end) st l
    /\ calls l = match truthy_id (CD.bridge (obj st r)) with
                 | Some b => if ariClient st then [BridgesDestroy b] else []
                 | None => [] end.
Proof. unfold cleanup_seg_bridge_destroy. run; try congruence; eexists; split; reflexivity. Qed.

Lemma seg_sip_hangup_runs ch r st :
  let go := negb (CD.redirecting (obj st r)) && CD.channel (obj st r) && ariClient st in
  exists l,
    runs (cleanup_seg_sip_hangup ch r) st go st l
    /\ calls l = if go then [ChannelsHangup ch] else [].
Proof.
  unfold cleanup_seg_sip_hangup. cbv zeta.
  destruct (CD.redirecting (obj st r)) eqn:?, (CD.channel (obj st r)) eqn:?, (ariClient st) eqn:?;
    run; try congruence; try discriminate; eexists; split; reflexivity.
Qed.


Definition start_calls (ch : string) (d : CD.t) : list Effect :=
  match CD.streamHandler d with
  | Some sh => if has_end sh then [StreamHandlerEnd ch] else []
  | None => []
  end ++
  (if negb (CD.wsClosed d) && CD.ws d then [WsClose ch] else []).

(** The first segment changes the ignore set and the timers only. *)
Lemma seg_start_runs ch r st :
  exists l ig tm nt,
    runs (cleanup_seg_start ch r) st (negb (CD.wsClosed (obj st r)) && CD.ws (obj st r))
         (set_nextTimer nt (set_timers tm (set_ignoreExtEvents ig st))) l
    /\ calls l = start_calls ch (obj st r).
Proof.
  unfold cleanup_seg_start, start_calls, ignoreExtEvents_add, setTimeout, clearTimeout.
  destruct (CD.wsClosed (obj st r)) eqn:?, (CD.ws (obj st r)) eqn:?;
  run; try congruence; try discriminate;
    (do 4 eexists; split; norm_state; reflexivity).
Qed.

Definition receiver_calls (st : State) (ch : string) : list Effect :=
  match rtpReceivers st !! ch with Some true => [ReceiverClose ch] | _ => [] end.

Definition sender_calls (st : State) (ch : string) : list Effect :=
  match rtpSenders st !! ch with Some true => [SenderClose ch] | _ => [] end.

Lemma close_receiver_runs h ch st :
  exists l rx,
    runs (close_receiver h ch) st tt (set_rtpReceivers rx st) l
    /\ calls l = receiver_calls st ch.
Proof.
  unfold close_receiver, receiver_calls.
  run; (do 2 eexists; split; norm_state; reflexivity).
Qed.

Lemma close_sender_runs h ch st :
  exists l tx,
    runs (close_sender h ch) st tt (set_rtpSenders tx st) l
    /\ calls l = sender_calls st ch.
Proof.
  unfold close_sender, sender_calls.
  run; (do 2 eexists; split; norm_state; reflexivity).
Qed.

Definition port_calls (d : CD.t) : list Effect :=
  match CD.rtpPort d with Some p => [ReleaseRtpPort p] | None => [] end.

Lemma release_port_runs h ch r st :
  exists l, runs (release_port h ch r) st tt st l /\ calls l = port_calls (obj st r).
Proof.
  unfold release_port, port_calls. run; eexists; split; reflexivity.
Qed.

Definition purged (st : State) (ch : string) (r : nat) : State :=
  set_extMap
    (delete ch (match truthy_id (CD.externalChannelId (obj st r)) with
                | Some e => delete e (extMap st)
                | None => extMap st
                end)) st.

Lemma purge_extMap_runs ch r st :
  runs (purge_extMap ch r) st tt (purged st ch r) [].
Proof.
  unfold purge_extMap, purged, extMap_delete. run; reflexivity.
Qed.

(** The transcript file of a call, for a clock reading. *)
Definition transcript_file (now : Date) (c : CallerId) (ch : string) : string :=
  path_join P [daily_dir now; transcript_name (sanitize c) ch].

Lemma transcriptPath_runs ch st :
  exists l,
    runs (transcriptPath ch) st
         (transcript_file (now P (clock st)) (callerId_of st ch) ch)
         (set_clock (S (clock st)) st) l
    /\ calls l = [MkdirSync (daily_dir (now P (clock st)))].
Proof.
  unfold transcriptPath, ensureDailyDir, safeCallerId, newDate, transcript_file.
  run; eexists; split; reflexivity.
Qed.

Definition email_due (st : State) (ch : string) (r : nat) : bool :=
  EMAIL_ENABLED cfg
  && negb (CD.redirecting (obj st (default r (map_get (sipMap st) ch)))).

Definition email_calls (st : State) (ch reason : string) (r : nat) : list Effect :=
  if email_due st ch r then
    [MkdirSync (daily_dir (now P (clock st)));
     SendTranscriptEmail ch
       (callerIdForMail (CD.callerId (obj st (default r (map_get (sipMap st) ch)))))
       (transcript_file (now P (clock st)) (callerId_of st ch) ch) reason]
  else [].

Lemma send_email_runs ch reason r st :
  exists l c,
    runs (send_email ch reason r) st (email_due st ch r) (set_clock c st) l
    /\ calls l = email_calls st ch reason r.
Proof.
  destruct (transcriptPath_runs ch st) as (l1 & Hrun & Hc). unfold runs in Hrun.
  unfold send_email, email_calls, email_due. unfold_comp.
  destruct (EMAIL_ENABLED cfg) eqn:He;
    destruct (CD.redirecting (obj st (default r (map_get (sipMap st) ch)))) eqn:Hr;
    cbn [andb negb].
  - do 2 eexists; split; norm_state; reflexivity.
  - rewrite Hrun. cbn.
    destruct (throws P _); cbn;
      (do 2 eexists; split; [reflexivity | rewrite !calls_app, Hc; reflexivity]).
  - do 2 eexists; split; norm_state; reflexivity.
  - do 2 eexists; split; norm_state; reflexivity.
Qed.

Definition rtp_calls (st : State) (ch reason : string) (r : nat) : list Effect :=
  receiver_calls st ch ++ sender_calls st ch ++ port_calls (obj st r)
  ++ email_calls st ch reason r.

Lemma seg_rtp_runs ch reason r st :
  exists l rx tx c,
    runs (cleanup_seg_rtp ch reason r) st (email_due st ch r)
         (set_clock c (purged (set_rtpSenders tx (set_rtpReceivers rx st)) ch r)) l
    /\ calls l = rtp_calls st ch reason r.
Proof.
  destruct (close_receiver_runs false ch st) as (l1 & rx & R1 & C1).
  destruct (close_sender_runs false ch (set_rtpReceivers rx st)) as (l2 & tx & R2 & C2).
  set (s2 := set_rtpSenders tx (set_rtpReceivers rx st)) in *.
  destruct (release_port_runs false ch r s2) as (l3 & R3 & C3).
  pose proof (purge_extMap_runs ch r s2) as R4.
  destruct (send_email_runs ch reason r (purged s2 ch r)) as (l5 & c & R5 & C5).
  exists (l1 ++ l2 ++ l3 ++ [] ++ l5), rx, tx, c. split.
  - unfold cleanup_seg_rtp.
    eapply runs_bind; [exact R1|]. eapply runs_bind; [exact R2|].
    eapply runs_bind; [exact R3|]. eapply runs_bind; [exact R4|]. exact R5.
  - rewrite !calls_app, C1, C2, C3, C5. reflexivity.
Qed.

(** ** [sipMap] as a map *)

Lemma map_get_set_eq {V} (m : list (string * V)) k v : map_get (map_set m k v) k = Some v.
Proof.
  induction m as [|[k' v'] m IH]; cbn.
  - now rewrite String.eqb_refl.
  - destruct (String.eqb k' k) eqn:E; cbn.
    + now rewrite String.eqb_refl.
    + now rewrite E.
Qed.

Lemma map_get_set_ne {V} (m : list (string * V)) k k' v :
  k <> k' -> map_get (map_set m k v) k' = map_get m k'.
Proof.
  intros Hne. induction m as [|[k0 v0] m IH]; cbn.
  - destruct (String.eqb k k') eqn:E; [apply String.eqb_eq in E; congruence | reflexivity].
  - destruct (String.eqb k0 k) eqn:E; cbn.
    + apply String.eqb_eq in E. subst k0.
      destruct (String.eqb k k') eqn:E'; [apply String.eqb_eq in E'; congruence | reflexivity].
    + destruct (String.eqb k0 k'); [reflexivity | exact IH].
Qed.

Lemma map_set_set {V} (m : list (string * V)) k v :
  map_set (map_set m k v) k v = map_set m k v.
Proof.
  induction m as [|[k' v'] m IH]; cbn.
  - now rewrite String.eqb_refl.
  - destruct (String.eqb k' k) eqn:E; cbn.
    + now rewrite String.eqb_refl.
    + now rewrite E, IH.
Qed.

Lemma map_get_delete_eq {V} (m : list (string * V)) k : map_get (map_delete m k) k = None.
Proof.
  induction m as [|[k' v'] m IH]; cbn; [reflexivity|].
  destruct (String.eqb k' k) eqn:E; cbn; [exact IH | now rewrite E].
Qed.

Lemma obj_insert_eq st r d h :
  heap st = <[r := d]> h -> obj st r = d.
Proof. intros H. unfold obj. rewrite H, lookup_insert_eq. reflexivity. Qed.

(** ** The body of cleanupChannel, stretch by stretch *)

(** [m] in [s] makes the calls [l1], reaches [s1] and goes on as [m2]. *)
Definition continues {S A} (m : Comp S A) (s : S) (l1 : list Effect)
           (m2 : Comp S A) (s1 : S) : Prop :=
  m s = let '(o, s', l) := m2 s1 in (o, s', l1 ++ l).

Lemma continues_bind_l {S A B} (m : Comp S A) (k : A -> Comp S B) s a s1 l1 :
  runs m s a s1 l1 -> continues (m ≫= k) s l1 (k a) s1.
Proof.
  unfold runs, continues, mbind, comp_bind. intros ->.
  now destruct (k a s1) as [[? ?] ?].
Qed.

Lemma continues_runs {S A} (m m2 : Comp S A) s l1 s1 a s2 l2 :
  continues m s l1 m2 s1 -> runs m2 s1 a s2 l2 -> runs m s a s2 (l1 ++ l2).
Proof. unfold continues, runs. intros -> ->. reflexivity. Qed.

Lemma continues_bind {S A B} (m m2 : Comp S A) (k : A -> Comp S B) s l1 s1 :
  continues m s l1 m2 s1 -> continues (m ≫= k) s l1 (m2 ≫= k) s1.
Proof.
  unfold continues, mbind, comp_bind. intros ->.
  destruct (m2 s1) as [[[a|e] s'] l]; [|reflexivity].
  destruct (k a s') as [[o s''] l']. now rewrite app_assoc.
Qed.

Lemma continues_try {S A} (m m2 : Comp S A) h s l1 s1 :
  continues m s l1 m2 s1 -> continues (try_catch m h) s l1 (try_catch m2 h) s1.
Proof.
  unfold continues, try_catch. intros ->.
  destruct (m2 s1) as [[[a|e] s'] l]; [reflexivity|].
  destruct (h e s') as [[o s''] l']. now rewrite app_assoc.
Qed.

Lemma continues_guard ch (m m2 : Comp State (option cleanup_pc)) s l1 s1 :
  continues m s l1 m2 s1 -> continues (cleanup_guard ch m) s l1 (cleanup_guard ch m2) s1.
Proof. intros H. unfold cleanup_guard. now apply continues_bind, continues_try. Qed.

Lemma guard_suspended ch pc st :
  runs (cleanup_guard ch (mret (Some pc))) st (Some pc) st [].
Proof. reflexivity. Qed.

Section CleanupRun.

Variables (ch reason : string) (r : nat).

Definition ext_calls (st : State) : list Effect :=
  match truthy_id (CD.externalChannelId (obj st r)) with
  | Some e => if ariClient st then [ChannelsHangup e] else []
  | None => []
  end.

Definition bridge_calls (st : State) : list Effect :=
  match truthy_id (CD.bridge (obj st r)) with
  | Some b => if ariClient st then [BridgesDestroy b] else []
  | None => []
  end.

Definition sip_calls (st : State) : list Effect :=
  if negb (CD.redirecting (obj st r)) && CD.channel (obj st r) && ariClient st
  then [ChannelsHangup ch] else [].

(** The calls the body still has to make from [pc] on, in order. *)
Definition tail_calls (pc : cleanup_pc) (st : State) : list Effect :=
  match pc with
  | PC_start =>
      start_calls ch (obj st r) ++ ext_calls st ++ bridge_calls st ++ sip_calls st
      ++ rtp_calls st ch reason r
  | PC_ext_hangup =>
      ext_calls st ++ bridge_calls st ++ sip_calls st ++ rtp_calls st ch reason r
  | PC_bridge_destroy => bridge_calls st ++ sip_calls st ++ rtp_calls st ch reason r
  | PC_sip_hangup => sip_calls st ++ rtp_calls st ch reason r
  | PC_rtp => rtp_calls st ch reason r
  | PC_finish => []
  end.

Definition steps_left (pc : cleanup_pc) : nat :=
  match pc with
  | PC_start => 6 | PC_ext_hangup => 5 | PC_bridge_destroy => 4
  | PC_sip_hangup => 3 | PC_rtp => 2 | PC_finish => 1
  end.

(** The registry once the body that was at [pc] in [st] has ended in [st']. *)
Definition ended (pc : cleanup_pc) (st st' : State) : Prop :=
  sipMap st' = map_delete (sipMap st) ch
  /\ heap st' = heap st
  /\ cleanedChannels st' = cleanedChannels st
  /\ cleanupPromises st' = cleanupPromises st ∖ {[ch]}
  /\ pending st' = pending st
  /\ waiters st' = waiters st
  /\ extMap st' = match pc with
                  | PC_finish => extMap st
                  | _ => extMap (purged st ch r)
                  end.

(** What one stretch of the body achieves: it never throws; if it is
    suspended at [pc'], what it did and what is left from [pc'] add up to
    what was to do, and ending from [pc'] is ending from [pc]. *)
Definition stretch_ok (pc : cleanup_pc) (st : State) : Prop :=
  exists l st1 o,
    runs (cleanup_guard ch (body_from pc ch reason r)) st o st1 l
    /\ match o with
       | Some pc' =>
           (steps_left pc' < steps_left pc)%nat
           /\ calls l ++ tail_calls pc' st1 = tail_calls pc st
           /\ cleanedChannels st1 = cleanedChannels st
           /\ pending st1 = pending st
           /\ (pc' = PC_finish \/ no_email (calls l))
           /\ (forall st', ended pc' st1 st' -> ended pc st st')
       | None => calls l = tail_calls pc st /\ ended pc st st1
       end.

Lemma stretch_finish st : stretch_ok PC_finish st.
Proof.
  exists [Log LInfo ("Cleanup finished for " +:+ ch)],
         (set_cleanupPromises (cleanupPromises st ∖ {[ch]})
            (set_sipMap (map_delete (sipMap st) ch) st)), None.
  split; [reflexivity|]. split; [reflexivity|].
  repeat split; reflexivity.
Qed.

(** One segment followed by the rest of the body. *)
Lemma stretch_step (pc next : cleanup_pc) (seg : Comp State bool) (rest : Comp State (option cleanup_pc))
      (st st1 : State) (b : bool) (l1 : list Effect) :
  body_from pc ch reason r = (b ← seg; if (b : bool) then mret (Some next) else rest) ->
  rest = body_from next ch reason r ->
  runs seg st b st1 l1 ->
  (steps_left next < steps_left pc)%nat ->
  calls l1 ++ tail_calls next st1 = tail_calls pc st ->
  cleanedChannels st1 = cleanedChannels st ->
  pending st1 = pending st ->
  (next = PC_finish \/ no_email (calls l1)) ->
  (forall st', ended next st1 st' -> ended pc st st') ->
  stretch_ok next st1 ->
  stretch_ok pc st.
Proof.
  intros Hbody -> Hseg Hlt Hcalls Hcl Hpe Hem Hend IH.
  pose proof (continues_guard ch _ _ _ _ _
                (continues_bind_l seg
                   (fun b : bool => if b then mret (Some next) else body_from next ch reason r)
                   _ _ _ _ Hseg)) as Hc.
  rewrite <- Hbody in Hc.
  destruct b.
  - exists (l1 ++ []), st1, (Some next). split.
    + eapply continues_runs; [exact Hc|]. apply guard_suspended.
    + rewrite app_nil_r. do 5 (split; [first [assumption | lia]|]). exact Hend.
  - destruct IH as (l2 & st2 & o & Hrun & Hpost).
    exists (l1 ++ l2), st2, o. split.
    + eapply continues_runs; [exact Hc| exact Hrun].
    + rewrite calls_app. destruct o as [pc'|].
      * destruct Hpost as (Hlt' & Hcalls' & Hcl' & Hpe' & Hem' & Hend').
        split; [lia|]. split; [rewrite <- app_assoc, Hcalls'; exact Hcalls|].
        split; [congruence|]. split; [congruence|].
        split.
        -- destruct Hem' as [->|Hem']; [now left|].
           destruct Hem as [->|Hem]; [destruct pc'; cbn in Hlt'; lia|].
           right. now apply no_email_app.
        -- intros st' H. apply Hend, Hend', H.
      * destruct Hpost as (Hcalls' & Hend'). split.
        -- rewrite Hcalls'. exact Hcalls.
        -- apply Hend, Hend'.
Qed.

Ltac no_email_tac :=
  unfold sip_calls, bridge_calls, ext_calls, start_calls, no_email;
  repeat case_atom; repeat constructor.

Lemma stretch_rtp st : stretch_ok PC_rtp st.
Proof.
  destruct (seg_rtp_runs ch reason r st) as (l & rx & tx & c & Hrun & Hcalls).
  eapply (stretch_step PC_rtp PC_finish);
    [reflexivity | reflexivity | exact Hrun | cbn; lia | | reflexivity | reflexivity | | | apply stretch_finish].
  - rewrite Hcalls. apply app_nil_r.
  - now left.
  - intros st' H. exact H.
Qed.

Lemma stretch_sip_hangup st : stretch_ok PC_sip_hangup st.
Proof.
  destruct (seg_sip_hangup_runs ch r st) as (l & Hrun & Hcalls).
  eapply (stretch_step PC_sip_hangup PC_rtp);
    [reflexivity | reflexivity | exact Hrun | cbn; lia | | reflexivity | reflexivity | | | apply stretch_rtp].
  - rewrite Hcalls. reflexivity.
  - right. rewrite Hcalls. no_email_tac.
  - intros st' H. exact H.
Qed.

Lemma stretch_bridge_destroy st : stretch_ok PC_bridge_destroy st.
Proof.
  destruct (seg_bridge_destroy_runs ch r st) as (l & Hrun & Hcalls).
  eapply (stretch_step PC_bridge_destroy PC_sip_hangup);
    [reflexivity | reflexivity | exact Hrun | cbn; lia | | reflexivity | reflexivity | | | apply stretch_sip_hangup].
  - rewrite Hcalls. reflexivity.
  - right. rewrite Hcalls. no_email_tac.
  - intros st' H. exact H.
Qed.

Lemma stretch_ext_hangup st : stretch_ok PC_ext_hangup st.
Proof.
  destruct (seg_ext_hangup_runs ch r st) as (l & Hrun & Hcalls).
  eapply (stretch_step PC_ext_hangup PC_bridge_destroy);
    [reflexivity | reflexivity | exact Hrun | cbn; lia | | reflexivity | reflexivity | | | apply stretch_bridge_destroy].
  - rewrite Hcalls. reflexivity.
  - right. rewrite Hcalls. no_email_tac.
  - intros st' H. exact H.
Qed.

Lemma stretch_start st : stretch_ok PC_start st.
Proof.
  destruct (seg_start_runs ch r st) as (l & ig & tm & nt & Hrun & Hcalls).
  eapply (stretch_step PC_start PC_ext_hangup);
    [reflexivity | reflexivity | exact Hrun | cbn; lia | | reflexivity | reflexivity | | | apply stretch_ext_hangup].
  - rewrite Hcalls. reflexivity.
  - right. rewrite Hcalls. no_email_tac.
  - intros st' H. exact H.
Qed.

Lemma stretch_any pc st : stretch_ok pc st.
Proof.
  destruct pc; auto using stretch_start, stretch_ext_hangup, stretch_bridge_destroy,
    stretch_sip_hangup, stretch_rtp, stretch_finish.
Qed.

Definition task_at (pc : cleanup_pc) : CleanupTask := mkCleanupTask ch reason r pc.

(** A resumed task never throws; it is suspended further on or ends. *)
Lemma resume_task_runs pc st :
  exists l st1 o,
    runs (resume_task (task_at pc)) st (task_at <$> o) st1 l
    /\ match o with
       | Some pc' =>
           (steps_left pc' < steps_left pc)%nat
           /\ calls l ++ tail_calls pc' st1 = tail_calls pc st
           /\ cleanedChannels st1 = cleanedChannels st
           /\ pending st1 = pending st
           /\ (pc' = PC_finish \/ no_email (calls l))
           /\ (forall st', ended pc' st1 st' -> ended pc st st')
       | None => calls l = tail_calls pc st /\ ended pc st st1
       end.
Proof.
  destruct (stretch_any pc st) as (l & st1 & o & Hrun & Hpost).
  exists l, st1, o. split; [|exact Hpost].
  unfold resume_task, task_at. cbn [t_channelId t_reason t_channelData t_pc].
  rewrite <- (app_nil_r l). eapply runs_bind; [exact Hrun|]. apply runs_ret.
Qed.

(** Resumed often enough, the body makes all the calls left and ends. *)
Lemma resume_completes n : forall pc st,
  (steps_left pc <= n)%nat ->
  exists l st',
    runs (resume_times n (Some (task_at pc))) st None st' l
    /\ calls l = tail_calls pc st
    /\ ended pc st st'.
Proof.
  induction n as [|n IH]; intros pc st Hn.
  - destruct pc; cbn in Hn; lia.
  - destruct (resume_task_runs pc st) as (l & st1 & o & Hrun & Hpost).
    destruct o as [pc'|].
    + destruct Hpost as (Hlt & Hcalls & _ & _ & _ & Hend).
      destruct (IH pc' st1 ltac:(lia)) as (l2 & st2 & Hrun2 & Hcalls2 & Hend2).
      exists (l ++ l2), st2. split; [|split].
      * cbn [resume_times]. eapply runs_bind; [exact Hrun| exact Hrun2].
      * rewrite calls_app, Hcalls2. exact Hcalls.
      * apply Hend, Hend2.
    + destruct Hpost as (Hcalls & Hend).
      exists (l ++ []), st1. split; [|split].
      * cbn [resume_times]. eapply runs_bind; [exact Hrun|].
        destruct n; apply runs_ret.
      * rewrite app_nil_r. exact Hcalls.
      * exact Hend.
Qed.

(** The state [cleanupChannel] has built when it enters its [try] block. *)
Definition marked (st : State) : State := exec (cleanup_mark ch r (obj st r)) st.

Lemma cleanup_mark_runs st : runs (cleanup_mark ch r (obj st r)) st tt (marked st) [].
Proof.
  unfold marked, exec, cleanup_mark, update, sipMap_set, cleanedChannels_add, clearTimeout.
  run; reflexivity.
Qed.

Lemma obj_marked st :
  obj (marked st) r =
    match CD._cleanupTimer (obj st r) with
    | Some _ => CD.set__cleanupTimer None (CD.set__cleaned true (obj st r))
    | None => CD.set__cleaned true (obj st r)
    end.
Proof.
  unfold marked, exec, cleanup_mark, update, sipMap_set, cleanedChannels_add, clearTimeout.
  destruct (CD._cleanupTimer (obj st r)).
  - erewrite obj_insert_eq by reflexivity. f_equal.
    eapply obj_insert_eq. reflexivity.
  - eapply obj_insert_eq. reflexivity.
Qed.

Lemma marked_frame st :
  sipMap (marked st) = map_set (sipMap st) ch r
  /\ cleanedChannels (marked st) = {[ch]} ∪ cleanedChannels st
  /\ ariClient (marked st) = ariClient st
  /\ rtpReceivers (marked st) = rtpReceivers st
  /\ rtpSenders (marked st) = rtpSenders st
  /\ clock (marked st) = clock st
  /\ extMap (marked st) = extMap st
  /\ pending (marked st) = pending st
  /\ cleanupPromises (marked st) = cleanupPromises st.
Proof.
  unfold marked, exec, cleanup_mark, update, sipMap_set, cleanedChannels_add, clearTimeout.
  destruct (CD._cleanupTimer (obj st r)); repeat split; reflexivity.
Qed.

Lemma tail_calls_marked st :
  map_get (sipMap st) ch = Some r ->
  tail_calls PC_start (marked st) = tail_calls PC_start st.
Proof.
  intros Hreg.
  destruct (marked_frame st) as (Hsip & _ & Hari & Hrx & Htx & Hclk & _).
  unfold tail_calls, ext_calls, bridge_calls, sip_calls, rtp_calls, receiver_calls,
    sender_calls, email_calls, email_due, callerId_of.
  rewrite Hsip, map_get_set_eq, Hreg, Hari, Hrx, Htx, Hclk. cbn [default from_option].
  unfold id. rewrite !obj_marked. now destruct (CD._cleanupTimer (obj st r)).
Qed.

Lemma begin_fresh_runs st :
  ch ∉ cleanedChannels st ->
  ch ∉ cleanupPromises st ->
  map_get (sipMap st) ch = Some r ->
  CD._cleaned (obj st r) = false ->
  exists l st1 o,
    runs (cleanup_guard ch (body_from PC_start ch reason r)) (marked st) o st1 l
    /\ runs (cleanupChannel_begin ch reason) st (task_at <$> o)
            (set_cleanupPromises ({[ch]} ∪ cleanupPromises st1) st1)
            (Log LInfo ("Cleanup started for channel " +:+ ch +:+ " (reason=" +:+ reason +:+ ")") :: l).
Proof.
  intros Hcl Hpr Hreg Hnc.
  destruct (stretch_any PC_start (marked st)) as (l & st1 & o & Hrun & _).
  exists l, st1, o. split; [exact Hrun|].
  pose proof (cleanup_mark_runs st) as Hmark.
  unfold runs in Hrun, Hmark |- *.
  unfold cleanupChannel_begin, sipMap_get_or_new.
  unfold_comp.
  rewrite bool_decide_eq_false_2 by exact Hcl.
  rewrite bool_decide_eq_false_2 by exact Hpr.
  rewrite Hreg. cbn beta iota zeta. rewrite Hnc, Hmark, Hrun.
  cbn [app]. rewrite !app_nil_r. reflexivity.
Qed.

(** The whole cleanup of a registered call, nothing else scheduled: it
    ends without an exception, makes every call of the sequence whatever
    fails, and leaves the registry purged. *)
Lemma complete_fresh_runs st :
  ch ∉ cleanedChannels st ->
  ch ∉ cleanupPromises st ->
  map_get (sipMap st) ch = Some r ->
  CD._cleaned (obj st r) = false ->
  exists l st',
    runs (cleanupChannel_complete ch reason) st None st' l
    /\ calls l = tail_calls PC_start st
    /\ map_get (sipMap st') ch = None
    /\ extMap st' !! ch = None
    /\ (forall e, truthy_id (CD.externalChannelId (obj st r)) = Some e -> extMap st' !! e = None)
    /\ ch ∈ cleanedChannels st'.
Proof.
  intros Hcl Hpr Hreg Hnc.
  destruct (stretch_any PC_start (marked st)) as (l & st1 & o & Hrun & Hpost).
  destruct (begin_fresh_runs st Hcl Hpr Hreg Hnc) as (l0 & st0 & o0 & Hrun0 & Hbegin).
  unfold runs in Hrun, Hrun0. rewrite Hrun in Hrun0. injection Hrun0 as <- <- <-.
  destruct (marked_frame st) as (Hsip & Hcln & Hari & Hrx & Htx & Hclk & Hext & Hpe & Hpro).
  assert (Hfinal : forall st',
             ended PC_start (marked st) st' ->
             map_get (sipMap st') ch = None
             /\ extMap st' !! ch = None
             /\ (forall e, truthy_id (CD.externalChannelId (obj st r)) = Some e ->
                           extMap st' !! e = None)
             /\ ch ∈ cleanedChannels st').
  { intros st' (Es & _ & Ec & _ & _ & _ & Ee).
    split; [rewrite Es; apply map_get_delete_eq|].
    unfold purged in Ee. cbn in Ee.
    assert (Hoe : CD.externalChannelId (obj (marked st) r) = CD.externalChannelId (obj st r)).
    { rewrite obj_marked. now destruct (CD._cleanupTimer (obj st r)). }
    rewrite Hoe in Ee.
    split; [rewrite Ee; apply lookup_delete_eq|].
    split.
    - intros e He. rewrite Ee, He.
      destruct (decide (ch = e)) as [->|Hne].
      + apply lookup_delete_eq.
      + rewrite lookup_delete_ne by exact Hne. apply lookup_delete_eq.
    - rewrite Ec, Hcln. set_solver. }
  destruct o as [pc'|].
  - destruct Hpost as (Hlt & Hcalls & _ & _ & _ & Hend).
    set (st1' := set_cleanupPromises ({[ch]} ∪ cleanupPromises st1) st1) in *.
    destruct (resume_completes 5 pc' st1' ltac:(cbn in Hlt; lia))
      as (l2 & st2 & Hrun2 & Hcalls2 & Hend2).
    exists ((Log LInfo ("Cleanup started for channel " +:+ ch +:+ " (reason=" +:+ reason +:+ ")") :: l) ++ l2), st2.
    split; [|split].
    + unfold cleanupChannel_complete. eapply runs_bind; [exact Hbegin| exact Hrun2].
    + rewrite calls_app, Hcalls2. cbn [calls filter].
      change (tail_calls pc' st1') with (tail_calls pc' st1).
      rewrite <- tail_calls_marked by exact Hreg. rewrite <- Hcalls. reflexivity.
    + apply Hfinal, Hend.
      destruct Hend2 as (E1 & E2 & E3 & E4 & E5 & E6 & E7).
      repeat split; try assumption.
      rewrite E4. subst st1'. cbn. set_solver.
  - destruct Hpost as (Hcalls & Hend).
    exists ((Log LInfo ("Cleanup started for channel " +:+ ch +:+ " (reason=" +:+ reason +:+ ")") :: l) ++ []),
           (set_cleanupPromises ({[ch]} ∪ cleanupPromises st1) st1).
    split; [|split].
    + unfold cleanupChannel_complete. eapply runs_bind; [exact Hbegin|]. apply runs_ret.
    + rewrite app_nil_r. cbn [calls filter].
      rewrite <- tail_calls_marked by exact Hreg. rewrite <- Hcalls. reflexivity.
    + destruct (Hfinal st1 Hend) as (F1 & F2 & F3 & F4). repeat split; assumption.
Qed.

End CleanupRun.

Ltac no_email_solve :=
  unfold sip_calls, bridge_calls, ext_calls, start_calls, no_email;
  repeat case_atom; repeat constructor.

(** ** Repeated cleanup requests *)

(** A request for a call already marked as cleaned only logs. *)
Lemma cleanup_noop ch reason st :
  ch ∈ cleanedChannels st ->
  runs (cleanupChannel ch reason) st tt st
       [Log LInfo ("Cleanup skipped for " +:+ ch +:+ " (already cleaned)")].
Proof.
  intros H. unfold cleanupChannel, cleanupChannel_begin. unfold_comp.
  rewrite bool_decide_eq_true_2 by exact H. reflexivity.
Qed.

(** The transcript e-mails for call [ch] among some calls, and the
    suspended cleanups of [ch] that have not reached their last stretch. *)
Definition emails (ch : string) (l : list Effect) : nat :=
  length (List.filter (is_email ch) l).

Definition is_open (ch : string) (t : CleanupTask) : bool :=
  String.eqb (t_channelId t) ch
  && match t_pc t with PC_finish => false | _ => true end.

Definition open_tasks (ch : string) (p : list CleanupTask) : nat :=
  length (List.filter (is_open ch) p).

Lemma emails_app ch l1 l2 : emails ch (l1 ++ l2) = (emails ch l1 + emails ch l2)%nat.
Proof. unfold emails. now rewrite List.filter_app, length_app. Qed.

Lemma open_tasks_app ch p1 p2 :
  open_tasks ch (p1 ++ p2) = (open_tasks ch p1 + open_tasks ch p2)%nat.
Proof. unfold open_tasks. now rewrite List.filter_app, length_app. Qed.

Lemma emails_no_email ch l : no_email l -> emails ch l = O.
Proof.
  unfold emails. induction 1 as [|e l He _ IH]; [reflexivity|].
  destruct e; cbn; try exact IH. destruct He.
Qed.

Definition open_weight (ch : string) (t : option CleanupTask) : nat :=
  match t with
  | Some t => if is_open ch t then 1%nat else O
  | None => O
  end.

Lemma emails_tail ch0 ch reason r pc st :
  (emails ch0 (tail_calls ch reason r pc st)
   <= open_weight ch0 (Some (task_at ch reason r pc)))%nat.
Proof.
  assert (Hrtp : (emails ch0 (rtp_calls st ch reason r)
                  <= if String.eqb ch ch0 then 1 else 0)%nat).
  { unfold rtp_calls, receiver_calls, sender_calls, port_calls, email_calls.
    rewrite !emails_app.
    repeat case_atom; cbn; try rewrite String.eqb_refl; try lia;
      destruct (String.eqb ch ch0); cbn; lia. }
  assert (Hz : forall l, no_email l -> emails ch0 l = O) by apply emails_no_email.
  unfold open_weight, is_open, task_at. cbn [t_channelId t_pc].
  destruct pc; cbn [tail_calls]; rewrite ?emails_app;
    try rewrite (Hz (start_calls _ _)) by no_email_solve;
    try rewrite (Hz (ext_calls _ _)) by no_email_solve;
    try rewrite (Hz (bridge_calls _ _)) by no_email_solve;
    try rewrite (Hz (sip_calls _ _ _)) by no_email_solve;
    destruct (String.eqb ch ch0); cbn in *; lia.
Qed.

(** One stretch of any cleanup: it never throws, leaves the cleaned set
    and the suspended tasks alone, and sends an e-mail for [ch0] only by
    closing an open task of [ch0]. *)
Lemma stretch_emails ch0 ch reason r pc st :
  exists l st1 o,
    runs (cleanup_guard ch (body_from pc ch reason r)) st o st1 l
    /\ cleanedChannels st1 = cleanedChannels st
    /\ pending st1 = pending st
    /\ (emails ch0 (calls l) + open_weight ch0 (task_at ch reason r <$> o)
        <= open_weight ch0 (Some (task_at ch reason r pc)))%nat.
Proof.
  destruct (stretch_any ch reason r pc st) as (l & st1 & o & Hrun & Hpost).
  exists l, st1, o. split; [exact Hrun|].
  pose proof (emails_tail ch0 ch reason r pc st) as Htail.
  destruct o as [pc'|].
  - destruct Hpost as (Hlt & Hcalls & Hcl & Hpe & Hem & _).
    split; [exact Hcl|]. split; [exact Hpe|].
    rewrite <- Hcalls, emails_app in Htail.
    cbn [fmap option_fmap option_map open_weight] in *.
    destruct Hem as [->|Hem].
    + unfold is_open at 1. cbn [t_pc task_at]. rewrite andb_false_r. lia.
    + rewrite (emails_no_email _ _ Hem).
      unfold is_open, task_at in *. cbn [t_channelId t_pc] in *.
      destruct (String.eqb ch ch0); cbn; [|lia].
      destruct pc; cbn in *; try lia; destruct pc'; cbn in *; lia.
  - destruct Hpost as (Hcalls & (_ & _ & Hcl & _ & Hpe & _)).
    split; [exact Hcl|]. split; [exact Hpe|].
    rewrite Hcalls. cbn [fmap option_fmap option_map open_weight] in *. lia.
Qed.

Lemma resume_task_emails ch0 (t : CleanupTask) st :
  exists l st1 t',
    runs (resume_task t) st t' st1 l
    /\ cleanedChannels st1 = cleanedChannels st
    /\ pending st1 = pending st
    /\ (emails ch0 (calls l) + open_weight ch0 t' <= open_weight ch0 (Some t))%nat.
Proof.
  destruct t as [ch reason r pc].
  destruct (stretch_emails ch0 ch reason r pc st) as (l & st1 & o & Hrun & Hcl & Hpe & Hem).
  exists l, st1, (task_at ch reason r <$> o). split; [|auto].
  unfold resume_task. cbn [t_channelId t_reason t_channelData t_pc].
  rewrite <- (app_nil_r l). eapply runs_bind; [exact Hrun|]. apply runs_ret.
Qed.

Lemma open_tasks_remove ch0 (p : list CleanupTask) i t :
  p !! i = Some t ->
  open_tasks ch0 p
  = (open_tasks ch0 (take i p ++ drop (S i) p) + open_weight ch0 (Some t))%nat.
Proof.
  intros Hi. rewrite <- (take_drop_middle p i t Hi) at 1.
  rewrite !open_tasks_app.
  change (t :: drop (S i) p) with ([t] ++ drop (S i) p). rewrite open_tasks_app.
  unfold open_tasks at 2, open_weight. cbn [List.filter].
  destruct (is_open ch0 t); cbn; lia.
Qed.

Lemma open_tasks_snoc ch0 (p : list CleanupTask) t :
  open_tasks ch0 (p ++ [t]) = (open_tasks ch0 p + open_weight ch0 (Some t))%nat.
Proof.
  rewrite open_tasks_app. unfold open_tasks at 2, open_weight. cbn [List.filter].
  destruct (is_open ch0 t); reflexivity.
Qed.

(** Resuming a suspended cleanup, whichever it is. *)
Lemma resume_cleanup_runs ch0 i st :
  exists l st',
    runs (resume_cleanup i) st tt st' l
    /\ cleanedChannels st' = cleanedChannels st
    /\ (emails ch0 (calls l) + open_tasks ch0 (pending st') <= open_tasks ch0 (pending st))%nat.
Proof.
  unfold resume_cleanup.
  destruct (pending st !! i) as [t|] eqn:Hi.
  - set (p0 := take i (pending st) ++ drop (S i) (pending st)).
    destruct (resume_task_emails ch0 t (set_pending p0 st)) as (l & st1 & t' & Hrun & Hcl & Hpe & Hem).
    assert (Hp1 : pending st1 = p0) by exact Hpe.
    assert (Hc1 : cleanedChannels st1 = cleanedChannels st) by exact Hcl.
    rewrite (open_tasks_remove ch0 _ _ _ Hi). fold p0.
    destruct t' as [t'|].
    + exists ([] ++ [] ++ l ++ []), (set_pending (pending st1 ++ [t']) st1).
      split; [|split].
      * eapply runs_bind; [apply runs_gets|]. cbv beta. rewrite Hi.
        eapply runs_bind; [apply runs_modify|].
        eapply runs_bind; [exact Hrun|]. reflexivity.
      * exact Hc1.
      * cbn [app]. rewrite app_nil_r.
        replace (pending (set_pending (pending st1 ++ [t']) st1)) with (pending st1 ++ [t'])
          by reflexivity.
        rewrite open_tasks_snoc, Hp1. lia.
    + exists ([] ++ [] ++ l ++ []), st1.
      split; [|split].
      * eapply runs_bind; [apply runs_gets|]. cbv beta. rewrite Hi.
        eapply runs_bind; [apply runs_modify|].
        eapply runs_bind; [exact Hrun|]. apply runs_ret.
      * exact Hc1.
      * cbn [app]. rewrite app_nil_r, Hp1. cbn [open_weight] in *. lia.
  - exists [], st. split; [|split; [reflexivity|cbn; lia]].
    unfold_comp. rewrite Hi. reflexivity.
Qed.
(** A cleanup request up to its first suspension, whatever the state: it
    never throws, leaves the suspended tasks alone and, unless it found a
    promise of a call not yet marked, leaves the call marked as cleaned. *)
Lemma begin_emails ch0 ch reason st :
  exists l st1 o,
    runs (cleanupChannel_begin ch reason) st o st1 l
    /\ ((ch ∈ cleanupPromises st -> ch ∈ cleanedChannels st) -> ch ∈ cleanedChannels st1)
    /\ (forall c, c ∈ cleanedChannels st -> c ∈ cleanedChannels st1)
    /\ pending st1 = pending st
    /\ (emails ch0 (calls l) + open_weight ch0 o <= 1)%nat.
Proof.
  unfold cleanupChannel_begin.
  destruct (decide (ch ∈ cleanedChannels st)) as [Hcl|Hcl].
  { exists [Log LInfo ("Cleanup skipped for " +:+ ch +:+ " (already cleaned)")], st, None.
    split; [|split; [auto|split; [auto|split; [reflexivity|rewrite ?calls_log; cbn; lia]]]].
    unfold_comp. rewrite bool_decide_eq_true_2 by exact Hcl. reflexivity. }
  destruct (decide (ch ∈ cleanupPromises st)) as [Hpr|Hpr].
  { exists [], st, None.
    split; [|split; [auto|split; [auto|split; [reflexivity|rewrite ?calls_log; cbn; lia]]]].
    unfold_comp. rewrite bool_decide_eq_false_2 by exact Hcl.
    rewrite bool_decide_eq_true_2 by exact Hpr. reflexivity. }
  set (r := default (nextRef st) (map_get (sipMap st) ch)).
  set (st0 := match map_get (sipMap st) ch with
              | Some _ => st
              | None => set_nextRef (S (nextRef st)) (set_heap (<[nextRef st := CD.empty]> (heap st)) st)
              end).
  assert (Hnew : sipMap_get_or_new ch st = (Ret r, st0, [])).
  { unfold sipMap_get_or_new, r, st0. now destruct (map_get (sipMap st) ch). }
  assert (Hcl0 : cleanedChannels st0 = cleanedChannels st).
  { unfold st0. now destruct (map_get (sipMap st) ch). }
  assert (Hpe0 : pending st0 = pending st).
  { unfold st0. now destruct (map_get (sipMap st) ch). }
  assert (Hpr0 : cleanupPromises st0 = cleanupPromises st).
  { unfold st0. now destruct (map_get (sipMap st) ch). }
  set (started := Log LInfo ("Cleanup started for channel " +:+ ch +:+ " (reason=" +:+ reason +:+ ")")).
  destruct (CD._cleaned (obj st0 r)) eqn:Hnc.
  { exists [started; Log LInfo ("Cleanup skipped (already done) for " +:+ ch)],
           (set_cleanupPromises ({[ch]} ∪ cleanupPromises st0)
              (set_cleanedChannels ({[ch]} ∪ cleanedChannels st0) st0)), None.
    split; [|split; [|split; [|split; [exact Hpe0|unfold started; rewrite calls_cons_log, calls_log; cbn; lia]]]].
    - unfold cleanedChannels_add. unfold_comp.
      rewrite bool_decide_eq_false_2 by exact Hcl.
      rewrite bool_decide_eq_false_2 by exact Hpr.
      rewrite Hnew. cbn beta iota zeta. rewrite Hnc. reflexivity.
    - intros _. apply elem_of_union_l, elem_of_singleton. reflexivity.
    - intros c Hc. apply elem_of_union_r. rewrite Hcl0. exact Hc. }
  destruct (stretch_emails ch0 ch reason r PC_start (marked ch r st0))
    as (l & st1 & o & Hrun & Hcl1 & Hpe1 & Hem).
  pose proof (cleanup_mark_runs ch r st0) as Hmark.
  destruct (marked_frame ch r st0) as (_ & Hcln & _ & _ & _ & _ & _ & Hpem & _).
  exists (started :: l), (set_cleanupPromises ({[ch]} ∪ cleanupPromises st1) st1),
         (mkCleanupTask ch reason r <$> o).
  split; [|split; [|split; [|split]]].
  - unfold runs in Hrun, Hmark |- *. unfold_comp.
    rewrite bool_decide_eq_false_2 by exact Hcl.
    rewrite bool_decide_eq_false_2 by exact Hpr.
    rewrite Hnew. cbn beta iota zeta. rewrite Hnc, Hmark, Hrun.
    cbn [app]. rewrite !app_nil_r. reflexivity.
  - intros _. change (ch ∈ cleanedChannels st1). rewrite Hcl1, Hcln.
    apply elem_of_union_l, elem_of_singleton. reflexivity.
  - intros c Hc. change (c ∈ cleanedChannels st1). rewrite Hcl1, Hcln.
    apply elem_of_union_r. rewrite Hcl0. exact Hc.
  - change (pending st1 = pending st). now rewrite Hpe1, Hpem.
  - unfold started. rewrite calls_cons_log.
    change (mkCleanupTask ch reason r) with (task_at ch reason r).
    etransitivity; [exact Hem|]. unfold open_weight. destruct (is_open _ _); lia.
Qed.

(** A cleanup request as the event loop sees it. *)
Lemma cleanupChannel_emails ch0 ch reason st :
  exists l st1,
    runs (cleanupChannel ch reason) st tt st1 l
    /\ ((ch ∈ cleanupPromises st -> ch ∈ cleanedChannels st) -> ch ∈ cleanedChannels st1)
    /\ (emails ch0 (calls l) + open_tasks ch0 (pending st1)
        <= 1 + open_tasks ch0 (pending st))%nat.
Proof.
  destruct (begin_emails ch0 ch reason st) as (l & st1 & o & Hrun & Hcl & _ & Hpe & Hem).
  unfold cleanupChannel. destruct o as [t|].
  - exists (l ++ []), (set_pending (pending st1 ++ [t]) st1).
    split; [|split].
    + eapply runs_bind; [exact Hrun|]. reflexivity.
    + exact Hcl.
    + rewrite app_nil_r.
      replace (pending (set_pending (pending st1 ++ [t]) st1)) with (pending st1 ++ [t])
        by reflexivity.
      rewrite open_tasks_snoc, Hpe. lia.
  - exists (l ++ []), st1. split; [|split].
    + eapply runs_bind; [exact Hrun|]. apply runs_ret.
    + exact Hcl.
    + rewrite app_nil_r, Hpe. cbn [open_weight] in Hem. lia.
Qed.

(** Once the call is marked as cleaned, further requests change nothing:
    the schedule with them and the schedule without them end in the same
    state after the same calls, and e-mails are sent only by closing open
    tasks. *)
Lemma run_actions_marked ch acts : forall st,
  ch ∈ cleanedChannels st ->
  exists l1 l2 st',
    runs (run_actions ch acts) st tt st' l1
    /\ runs (run_actions ch (List.filter is_resume acts)) st tt st' l2
    /\ calls l1 = calls l2
    /\ cleanedChannels st' = cleanedChannels st
    /\ (emails ch (calls l1) + open_tasks ch (pending st') <= open_tasks ch (pending st))%nat.
Proof.
  induction acts as [|a acts IH]; intros st Hcl.
  - exists [], [], st. repeat split; reflexivity.
  - destruct a as [i|reason]; cbn [List.filter is_resume run_actions cleanup_action].
    + destruct (resume_cleanup_runs ch i st) as (l & st1 & Hrun & Hcl1 & Hem).
      destruct (IH st1 ltac:(rewrite Hcl1; exact Hcl)) as (l1 & l2 & st' & R1 & R2 & Hc & Hk & Hem').
      exists (l ++ l1), (l ++ l2), st'.
      split; [eapply runs_bind; [exact Hrun|exact R1]|].
      split; [eapply runs_bind; [exact Hrun|exact R2]|].
      split; [rewrite !calls_app; congruence|].
      split; [congruence|].
      rewrite calls_app, emails_app. lia.
    + destruct (IH st Hcl) as (l1 & l2 & st' & R1 & R2 & Hc & Hk & Hem').
      exists ([Log LInfo ("Cleanup skipped for " +:+ ch +:+ " (already cleaned)")] ++ l1), l2, st'.
      split; [eapply runs_bind; [apply cleanup_noop; exact Hcl|exact R1]|].
      split; [exact R2|].
      split; [exact Hc|]. split; [exact Hk|exact Hem'].
Qed.

(** C2. Cleanup is idempotent. In a state where no cleanup of call [ch] is
    under way, a first request followed by any schedule of further requests
    for [ch] and of resumptions of suspended cleanups ends without an
    exception in the same state, after the same calls to the collaborators,
    as the same schedule with the further requests left out; every further
    request finds the call marked as cleaned and only logs; and at most one
    transcript e-mail is sent for [ch]. *)
Theorem cleanup_idempotent ch reason acts st :
  (ch ∈ cleanupPromises st -> ch ∈ cleanedChannels st) ->
  open_tasks ch (pending st) = O ->
  exists l1 l2 st',
    runs (cleanup_schedule ch reason acts) st tt st' l1
    /\ runs (cleanup_schedule ch reason (List.filter is_resume acts)) st tt st' l2
    /\ calls l1 = calls l2
    /\ (emails ch (calls l1) <= 1)%nat
    /\ (forall reason' s, ch ∈ cleanedChannels s ->
          runs (cleanupChannel ch reason') s tt s
               [Log LInfo ("Cleanup skipped for " +:+ ch +:+ " (already cleaned)")])
    /\ ch ∈ cleanedChannels st'.
Proof.
  intros Hinv Hnone.
  destruct (cleanupChannel_emails ch ch reason st) as (l & st1 & Hrun & Hcl & Hem).
  specialize (Hcl Hinv).
  destruct (run_actions_marked ch acts st1 Hcl) as (l1 & l2 & st' & R1 & R2 & Hc & Hk & Hem').
  exists (l ++ l1), (l ++ l2), st'.
  split; [eapply runs_bind; [exact Hrun|exact R1]|].
  split; [eapply runs_bind; [exact Hrun|exact R2]|].
  split; [rewrite !calls_app; congruence|].
  split; [rewrite calls_app, emails_app; lia|].
  split; [intros reason' s Hs; apply cleanup_noop; exact Hs|].
  rewrite Hk. exact Hcl.
Qed.

(** ** What a block changes and what it calls

    [keeps I Q m]: from every state, [m] ends (normally or by throwing) in
    a state related to the first by [I], having made only calls that
    satisfy [Q]. *)
Section Keeps.

Context {S : Type}.
Variable I : S -> S -> Prop.
Variable Q : Effect -> Prop.
Hypothesis I_refl : forall s, I s s.
Hypothesis I_trans : forall a b c, I a b -> I b c -> I a c.

Definition keeps {A} (m : Comp S A) : Prop :=
  forall s, I s (exec m s) /\ Forall Q (effects m s).

Lemma keeps_ret {A} (a : A) : keeps (mret a).
Proof using I_refl. intros s. split; [apply I_refl|constructor]. Qed.

Lemma keeps_throw {A} e : keeps (throw e : Comp S A).
Proof using I_refl. intros s. split; [apply I_refl|constructor]. Qed.

Lemma keeps_gets {A} (f : S -> A) : keeps (gets f).
Proof using I_refl. intros s. split; [apply I_refl|constructor]. Qed.

Lemma keeps_modify (f : S -> S) : (forall s, I s (f s)) -> keeps (modify f).
Proof. intros H s. split; [apply H|constructor]. Qed.

Lemma keeps_tell e : Q e -> keeps (tell e).
Proof using I_refl. intros H s. split; [apply I_refl|repeat constructor; exact H]. Qed.

Lemma keeps_log lvl msg : Q (Log lvl msg) -> keeps (log lvl msg).
Proof using I_refl. apply keeps_tell. Qed.

Lemma keeps_call e : Q e -> keeps (call e).
Proof using I_refl.
  intros H s. unfold exec, effects, call. destruct (throws P e); cbn;
    (split; [apply I_refl|repeat constructor; exact H]).
Qed.

Lemma keeps_bind {A B} (m : Comp S A) (k : A -> Comp S B) :
  keeps m -> (forall a, keeps (k a)) -> keeps (m ≫= k).
Proof using I_trans.
  intros Hm Hk s. specialize (Hm s). unfold exec, effects, mbind, comp_bind in *.
  destruct (m s) as [[[a|e] s1] l1]; [|exact Hm].
  specialize (Hk a s1). unfold exec, effects in Hk.
  destruct (k a s1) as [[o s2] l2]. cbn in *.
  destruct Hm as [Hi Hq], Hk as [Hi' Hq'].
  split; [eapply I_trans; eassumption|apply Forall_app_2; assumption].
Qed.

Lemma keeps_try {A} (m : Comp S A) (h : string -> Comp S A) :
  keeps m -> (forall e, keeps (h e)) -> keeps (try_catch m h).
Proof using I_trans.
  intros Hm Hh s. specialize (Hm s). unfold exec, effects, try_catch in *.
  destruct (m s) as [[[a|e] s1] l1]; [exact Hm|].
  specialize (Hh e s1). unfold exec, effects in Hh.
  destruct (h e s1) as [[o s2] l2]. cbn in *.
  destruct Hm as [Hi Hq], Hh as [Hi' Hq'].
  split; [eapply I_trans; eassumption|apply Forall_app_2; assumption].
Qed.

End Keeps.

Lemma keeps_weaken {S A} (I : S -> S -> Prop) (Q Q' : Effect -> Prop) (m : Comp S A) :
  (forall e, Q e -> Q' e) -> keeps I Q m -> keeps I Q' m.
Proof.
  intros HQ H s. destruct (H s) as [Hi Hq]. split; [exact Hi|].
  eapply Forall_impl; eassumption.
Qed.

(** A block of the orchestrator run from the session. *)
Definition lifted (I : Sess.t * State -> Sess.t * State -> Prop) (st st' : State) : Prop :=
  forall se, I (se, st) (se, st').

Lemma keeps_liftG (I : Sess.t * State -> Sess.t * State -> Prop) (Q : Effect -> Prop)
      {A} (m : Comp State A) :
  keeps (lifted I) Q m -> keeps I Q (liftG m).
Proof.
  intros H [se st]. specialize (H st). unfold exec, effects, liftG in *. cbn [snd fst].
  destruct (m st) as [[o st'] l]. cbn in *. destruct H as [Hi Hq]. split; [apply Hi|exact Hq].
Qed.

(** What handling a message leaves alone: the queue of the session, its
    identity and hooks, and everything in the process state that the
    cleanup and the wait for the drain go by. *)
Definition sess_frame (s s' : Sess.t * State) : Prop :=
  Sess.messageQueue (fst s') = Sess.messageQueue (fst s)
  /\ Sess.channelId (fst s') = Sess.channelId (fst s)
  /\ cleanedChannels (snd s') = cleanedChannels (snd s)
  /\ cleanupPromises (snd s') = cleanupPromises (snd s)
  /\ pending (snd s') = pending (snd s)
  /\ waiters (snd s') = waiters (snd s)
  /\ extMap (snd s') = extMap (snd s)
  /\ rtpSenders (snd s') = rtpSenders (snd s)
  /\ rtpReceivers (snd s') = rtpReceivers (snd s)
  /\ ignoreExtEvents (snd s') = ignoreExtEvents (snd s).

Lemma sess_frame_refl s : sess_frame s s.
Proof. unfold sess_frame. repeat split. Qed.

Lemma sess_frame_trans a b c : sess_frame a b -> sess_frame b c -> sess_frame a c.
Proof. unfold sess_frame. intuition congruence. Qed.

Lemma lifted_refl st : lifted sess_frame st st.
Proof. intros se. apply sess_frame_refl. Qed.

Lemma lifted_trans a b c :
  lifted sess_frame a b -> lifted sess_frame b c -> lifted sess_frame a c.
Proof. intros H1 H2 se. eapply sess_frame_trans; [apply H1|apply H2]. Qed.

(** The lines [appendTranscript] is asked to write by the session. *)
Definition speaker_line (line : string) : Prop :=
  exists iso who text,
    (who = "USER" \/ who = "ASSISTANT") /\ line = transcript_line iso who text.

(** The calls made while a transcript event is handled, and the calls a
    session makes at all. *)
Definition transcript_call (e : Effect) : Prop :=
  match e with
  | Log _ _ | MkdirSync _ | RedirectRequest _ _ => True
  | AppendFile _ line => speaker_line line
  | _ => False
  end.

Definition session_call (e : Effect) : Prop :=
  match e with
  | Log _ _ | MkdirSync _ | RedirectRequest _ _ | StopPlayback _ | SendRtpPacket _ _
  | WsClose _ | TerminateRequest _ _ | WaitForBufferEmpty _ => True
  | AppendFile _ line => speaker_line line
  | _ => False
  end.

Lemma transcript_call_session e : transcript_call e -> session_call e.
Proof. destruct e; cbn; tauto. Qed.

Ltac keeps_side :=
  first [ exact sess_frame_refl | exact sess_frame_trans
        | exact lifted_refl | exact lifted_trans ].

Ltac frame_solve :=
  intros; unfold lifted, sess_frame; intros; cbn [fst snd]; norm_state;
  repeat split; reflexivity.

Ltac call_solve :=
  cbn; first [ exact Logic.I | assumption | tauto ].

Ltac keeps_step :=
  lazymatch goal with
  | |- keeps _ _ (mret _) => apply keeps_ret; keeps_side
  | |- keeps _ _ (throw _) => apply keeps_throw; keeps_side
  | |- keeps _ _ (gets _) => apply keeps_gets; keeps_side
  | |- keeps _ _ getS => apply keeps_gets; keeps_side
  | |- keeps _ _ (modify _) => apply keeps_modify; frame_solve
  | |- keeps _ _ (modS _) => apply keeps_modify; frame_solve
  | |- keeps _ _ (log _ _) => apply keeps_log; [keeps_side|call_solve]
  | |- keeps _ _ (logS _ _) => apply keeps_log; [keeps_side|call_solve]
  | |- keeps _ _ (call _) => apply keeps_call; [keeps_side|call_solve]
  | |- keeps _ _ (mbind _ _) => apply keeps_bind; [keeps_side| |intros]
  | |- keeps _ _ (try_catch _ _) => apply keeps_try; [keeps_side| |intros]
  | |- keeps _ _ (liftG _) => apply keeps_liftG
  | |- keeps _ _ (match ?x with _ => _ end) => destruct x
  end.

Ltac keeps_direct :=
  let s := fresh "s" in
  intros s; unfold exec, effects; cbn; split; [frame_solve|repeat constructor].

Lemma prop_keeps Q v k : keeps sess_frame Q (prop v k).
Proof. unfold prop. repeat keeps_step. Qed.

Lemma newDate_keeps Q : keeps (lifted sess_frame) Q newDate.
Proof. unfold newDate. keeps_direct. Qed.

Lemma setTimeout_keeps Q ms a : keeps (lifted sess_frame) Q (setTimeout ms a).
Proof. unfold setTimeout. keeps_direct. Qed.

Lemma update_keeps Q r f : keeps (lifted sess_frame) Q (update r f).
Proof. unfold update. keeps_step. Qed.

Lemma sipMap_set_keeps Q id r : keeps (lifted sess_frame) Q (sipMap_set id r).
Proof. unfold sipMap_set. keeps_step. Qed.

Lemma transcriptPath_keeps ch : keeps (lifted sess_frame) transcript_call (transcriptPath ch).
Proof.
  unfold transcriptPath, ensureDailyDir, safeCallerId.
  repeat first [apply newDate_keeps | keeps_step].
Qed.

Lemma appendTranscript_keeps ch who text :
  who = "USER" \/ who = "ASSISTANT" ->
  keeps (lifted sess_frame) transcript_call (appendTranscript ch who text).
Proof.
  intros Hwho. unfold appendTranscript.
  repeat first [apply newDate_keeps | apply transcriptPath_keeps | keeps_step].
  apply keeps_call; [keeps_side|]. cbn. do 3 eexists. split; [exact Hwho|reflexivity].
Qed.


Ltac keeps_auto :=
  repeat first
    [ apply prop_keeps | apply newDate_keeps | apply setTimeout_keeps | apply update_keeps
    | apply sipMap_set_keeps | apply transcriptPath_keeps
    | apply appendTranscript_keeps; tauto
    | keeps_step ].

(** Handling an assistant transcript: nothing but log lines, the
    transcript write and the redirect hook. *)
Lemma on_transcript_done_keeps response :
  keeps sess_frame transcript_call (on_transcript_done response).
Proof. unfold on_transcript_done, mark_terminate, request_redirect. keeps_auto. Qed.

Lemma on_user_transcript_keeps response :
  keeps sess_frame transcript_call (on_user_transcript response).
Proof. unfold on_user_transcript. keeps_auto. Qed.

Lemma finalize_finish_keeps : keeps sess_frame session_call finalize_finish.
Proof. unfold finalize_finish. keeps_auto. Qed.

Lemma finalizeAndTerminate_keeps : keeps sess_frame session_call finalizeAndTerminate.
Proof. unfold finalizeAndTerminate. repeat first [apply finalize_finish_keeps | keeps_auto]. Qed.

Lemma processMessage_body_keeps response :
  keeps sess_frame session_call (processMessage_body response).
Proof.
  unfold processMessage_body.
  repeat first
    [ apply (keeps_weaken _ _ _ _ transcript_call_session), on_transcript_done_keeps
    | apply (keeps_weaken _ _ _ _ transcript_call_session), on_user_transcript_keeps
    | keeps_auto ];
  unfold on_item_created, on_audio_delta, on_transcript_delta, on_audio_done, on_error,
    Buffer_alloc, Buffer_concat;
  repeat first [apply finalizeAndTerminate_keeps | keeps_auto].
Qed.

Lemma processMessage_keeps response :
  keeps sess_frame session_call (processMessage response).
Proof.
  unfold processMessage. repeat first [apply processMessage_body_keeps | keeps_auto].
Qed.

(** [processMessage] returns whatever the message: an exception raised by
    the [switch] is logged and not passed on. *)
Lemma processMessage_returns response s :
  exists r s' l,
    runs (processMessage response) s r s' l
    /\ match processMessage_body response s with
       | (Ret r0, s0, l0) => r = r0 /\ s' = s0 /\ l = l0
       | (Throw e, s0, l0) =>
           r = PM_done /\ s' = s0
           /\ l = l0 ++ [Log LError ("Error processing message for "
                                      +:+ Sess.channelId (fst s0) +:+ ": " +:+ e)]
       end.
Proof.
  unfold processMessage, runs, try_catch.
  destruct (processMessage_body response s) as [[[r0|e] s0] l0].
  - exists r0, s0, l0. repeat split.
  - do 3 eexists. split; [reflexivity|]. repeat split.
Qed.

Lemma processMessage_queue response s r s' l :
  runs (processMessage response) s r s' l ->
  Sess.messageQueue (fst s') = Sess.messageQueue (fst s).
Proof.
  intros Hrun. destruct (processMessage_keeps response s) as [(Hq & _) _].
  apply runs_effects in Hrun. destruct Hrun as (_ & <- & _). exact Hq.
Qed.

(** ** The message pump *)

(** One pump loop: it never throws; it takes messages from the head of
    the queue, in order; unless it is left suspended on the finalizer it
    takes every message there is, up to its bound. *)
Lemma pump_loop_runs n : forall s,
  exists taken k f s' l,
    runs (pump_loop n) s (taken, k, f) s' l
    /\ Sess.messageQueue (fst s) = taken ++ Sess.messageQueue (fst s')
    /\ match k with
       | Some k' => (k' + length taken = n)%nat
       | None => length taken = Nat.min n (length (Sess.messageQueue (fst s)))
       end.
Proof.
  induction n as [|n IH]; intros s.
  - exists [], None, false, s, []. repeat split.
  - cbn [pump_loop]. unfold getS, modS, runs. unfold_comp.
    destruct (Sess.messageQueue (fst s)) as [|response rest] eqn:Hq.
    + exists [], None, false, s, []. split; [reflexivity|]. rewrite Hq. split; reflexivity.
    + set (s1 := (Sess.set_messageQueue rest (fst s), snd s)).
      destruct (processMessage_returns response s1) as (r & s2 & l & Hrun & _).
      pose proof (processMessage_queue _ _ _ _ _ Hrun) as Hq2. cbn in Hq2.
      unfold runs in Hrun. rewrite Hrun.
      destruct (IH s2) as (taken & k & f & s3 & l3 & Hrun3 & Hq3 & Hk).
      unfold runs in Hrun3.
      destruct r.
      * rewrite Hrun3. cbn. do 5 eexists. split; [reflexivity|].
        split; [cbn; rewrite <- Hq3, Hq2; reflexivity|].
        destruct k; cbn [length]; [lia|]. rewrite Hk, Hq2. reflexivity.
      * cbn. do 5 eexists. split; [reflexivity|].
        split; [cbn; rewrite Hq2; reflexivity|]. cbn. lia.
      * rewrite Hrun3. cbn. do 5 eexists. split; [reflexivity|].
        split; [cbn; rewrite <- Hq3, Hq2; reflexivity|].
        destruct k; cbn [length]; [lia|]. rewrite Hk, Hq2. reflexivity.
Qed.

Lemma finalize_finish_runs s :
  exists s' l, runs finalize_finish s tt s' l
               /\ Sess.messageQueue (fst s') = Sess.messageQueue (fst s).
Proof.
  assert (H : exists s' l, runs finalize_finish s tt s' l).
  { unfold finalize_finish, getS, modS, logS. run; do 2 eexists; reflexivity. }
  destruct H as (s' & l & Hrun). exists s', l. split; [exact Hrun|].
  destruct (finalize_finish_keeps s) as [(Hq & _) _].
  apply runs_effects in Hrun. destruct Hrun as (_ & <- & _). exact Hq.
Qed.

(** The queue and the messages handled so far, in arrival order. *)
Definition pw_queue (w : PumpWorld) : list value := Sess.messageQueue (fst (pw_state w)).

Definition pw_all (w : PumpWorld) : list value := pw_processed w ++ pw_queue w.

Lemma run_loop_ok n w :
  pw_crashed (run_loop n w) = pw_crashed w
  /\ pw_all (run_loop n w) = pw_all w
  /\ exists taken, pw_processed (run_loop n w) = pw_processed w ++ taken
                   /\ ((0 < n)%nat -> pw_queue w <> [] -> taken <> []).
Proof.
  unfold run_loop, pw_all, pw_queue.
  destruct (pump_loop_runs n (pw_state w)) as (taken & k & f & s' & l & Hrun & Hq & Hk).
  unfold runs in Hrun. rewrite Hrun. cbn.
  split; [reflexivity|]. split; [rewrite Hq, app_assoc; reflexivity|].
  exists taken. split; [reflexivity|].
  intros Hn Hne ->. cbn in Hq, Hk. destruct k as [k'|].
  - rewrite Nat.add_0_r in Hk. subst k'.
    destruct n as [|n]; [lia|]. cbn [pump_loop] in Hrun. unfold getS, modS in Hrun.
    revert Hrun. unfold_comp.
    destruct (Sess.messageQueue (fst (pw_state w))) as [|m rest]; [congruence|].
    destruct (processMessage m _) as [[[[| |]|e] s2] l2]; cbn; try congruence.
    + destruct (pump_loop n s2) as [[[[[t k0] f0]|e] s3] l3]; cbn; congruence.
    + destruct (pump_loop n s2) as [[[[[t k0] f0]|e] s3] l3]; cbn; congruence.
  - destruct (Sess.messageQueue (fst (pw_state w))); [congruence|].
    destruct n; [lia|]. cbn in Hk. discriminate.
Qed.

Lemma resume_loops_ok ks : forall w,
  pw_crashed (resume_loops ks w) = pw_crashed w
  /\ pw_all (resume_loops ks w) = pw_all w.
Proof.
  induction ks as [|k ks IH]; intros w; [split; reflexivity|].
  cbn [resume_loops]. destruct (IH (run_loop k w)) as [H1 H2].
  destruct (run_loop_ok k w) as (H3 & H4 & _). split; congruence.
Qed.

Lemma pump_step_ok a w :
  pw_crashed (pump_step a w) = pw_crashed w
  /\ pw_all (pump_step a w) = pw_all w ++ frames_of [a].
Proof.
  destruct a as [[v|]| |]; cbn [pump_step frames_of omap list_omap].
  - unfold pw_all, pw_queue. cbn. rewrite app_assoc. split; reflexivity.
  - unfold pw_all, pw_queue. cbn. rewrite app_nil_r. split; reflexivity.
  - destruct (run_loop_ok maxMessages w) as (H1 & H2 & _).
    rewrite app_nil_r. split; assumption.
  - rewrite app_nil_r. destruct (pw_finalizing w); [|split; reflexivity].
    destruct (finalize_finish_runs (pw_state w)) as (s' & l & Hrun & Hq).
    unfold runs in Hrun. rewrite Hrun.
    match goal with |- context [resume_loops ?ks ?w0] =>
      destruct (resume_loops_ok ks w0) as [H1 H2]; rewrite H1, H2 end.
    unfold pw_all, pw_queue. cbn. rewrite Hq. split; reflexivity.
Qed.

Lemma frames_of_app a b : frames_of (a ++ b) = frames_of a ++ frames_of b.
Proof. apply omap_app. Qed.

Lemma pump_run_ok acts : forall w,
  pw_crashed (pump_run acts w) = pw_crashed w
  /\ pw_all (pump_run acts w) = pw_all w ++ frames_of acts.
Proof.
  induction acts as [|a acts IH]; intros w; cbn [pump_run fold_left].
  - rewrite app_nil_r. split; reflexivity.
  - destruct (IH (pump_step a w)) as [H1 H2]. fold (pump_run acts (pump_step a w)) in *.
    destruct (pump_step_ok a w) as [H3 H4].
    split; [congruence|].
    rewrite H2, H4, <- app_assoc, <- frames_of_app. reflexivity.
Qed.

(** What handling the messages [msgs] one after the other does from [s]:
    each message leaves the queue, then [processMessage] runs on it in the
    state the previous one left. The results of the runs, the last state
    and every call made. *)
Fixpoint handled (msgs : list value) (s : Sess.t * State)
  : list PMResult * (Sess.t * State) * list Effect :=
  match msgs with
  | [] => ([], s, [])
  | m :: rest =>
      match processMessage m (Sess.set_messageQueue (tl (Sess.messageQueue (fst s))) (fst s),
                              snd s) with
      | (Ret r, s1, l1) => let '(rs, s2, l2) := handled rest s1 in (r :: rs, s2, l1 ++ l2)
      | (Throw _, s1, l1) => ([], s1, l1)
      end
  end.

(** The handler did not leave the loop waiting. *)
Definition goes_on (r : PMResult) : Prop := r <> PM_await_finalize.

(** One iteration of the pump loop on a queue that is not empty. *)
Lemma pump_loop_step n s response rest :
  Sess.messageQueue (fst s) = response :: rest ->
  pump_loop (S n) s
  = (r0 ← processMessage response;
     match r0 with
     | PM_await_finalize => mret ([response], Some n, true)
     | PM_detached_finalize =>
         '(taken, k, _) ← pump_loop n; mret (response :: taken, k, true)
     | PM_done =>
         '(taken, k, f) ← pump_loop n; mret (response :: taken, k, f)
     end) (Sess.set_messageQueue rest (fst s), snd s).
Proof.
  intros Hq. cbn [pump_loop]. rewrite (bind_run getS _ s (fst s) s eq_refl). rewrite Hq.
  rewrite (bind_run (modS _) _ s tt (Sess.set_messageQueue rest (fst s), snd s) eq_refl).
  reflexivity.
Qed.

Lemma runs_trace {S A} (m : Comp S A) s a s' l l' :
  l = l' -> runs m s a s' l -> runs m s a s' l'.
Proof. now intros ->. Qed.

(** One pump loop is the handling of the messages it takes. *)
Lemma pump_loop_handles n : forall s,
  exists taken k f rs s' l,
    runs (pump_loop n) s (taken, k, f) s' l
    /\ handled taken s = (rs, s', l)
    /\ length rs = length taken
    /\ Sess.messageQueue (fst s) = taken ++ Sess.messageQueue (fst s')
    /\ match k with
       | None => taken = firstn n (Sess.messageQueue (fst s)) /\ Forall goes_on rs
       | Some k' => (k' + length taken = n)%nat
                    /\ exists rs0, rs = rs0 ++ [PM_await_finalize] /\ Forall goes_on rs0
       end.
Proof.
  induction n as [|n IH]; intros s.
  - exists [], None, false, [], s, []. repeat split. constructor.
  - destruct (Sess.messageQueue (fst s)) as [|response rest] eqn:Hq.
    + exists [], None, false, [], s, [].
      split; [unfold runs; cbn [pump_loop]; unfold getS, modS; unfold_comp; rewrite Hq; reflexivity|].
      rewrite Hq. repeat split. constructor.
    + set (s1 := (Sess.set_messageQueue rest (fst s), snd s)).
      destruct (processMessage_returns response s1) as (r & s2 & l & Hrun & _).
      pose proof (processMessage_queue _ _ _ _ _ Hrun) as Hq2. cbn in Hq2.
      destruct (IH s2) as (taken & k & f & rs & s3 & l3 & Hrun3 & Hh3 & Hlen & Hq3 & Hk).
      assert (Hhd : forall tk, handled (response :: tk) s
                = let '(rs, s2', l2) := handled tk s2 in (r :: rs, s2', l ++ l2)).
      { intros tk. cbn [handled]. rewrite Hq. cbn [tl]. fold s1.
        unfold runs in Hrun. rewrite Hrun. reflexivity. }
      assert (Hstep : forall a s' l',
                runs (r0 ← processMessage response;
                      match r0 with
                      | PM_await_finalize => mret ([response], Some n, true)
                      | PM_detached_finalize =>
                          '(taken, k, _) ← pump_loop n; mret (response :: taken, k, true)
                      | PM_done =>
                          '(taken, k, f) ← pump_loop n; mret (response :: taken, k, f)
                      end) s1 a s' l' ->
                runs (pump_loop (S n)) s a s' l').
      { intros a s' l'. unfold runs. intros <-. apply pump_loop_step, Hq. }
      destruct r.
      * exists (response :: taken), k, f, (PM_done :: rs), s3, (l ++ l3).
        split.
        { apply Hstep. replace (l ++ l3) with (l ++ (l3 ++ [])) by now rewrite app_nil_r.
          eapply runs_bind; [exact Hrun|]. cbv beta iota.
          eapply runs_bind; [exact Hrun3|]. reflexivity. }
        split; [rewrite Hhd, Hh3; reflexivity|].
        split; [cbn; now rewrite Hlen|].
        split; [cbn; rewrite <- Hq3, Hq2; reflexivity|].
        destruct k as [k'|].
        -- destruct Hk as (Hk & rs0 & -> & Hall). split; [cbn [length]; lia|].
           exists (PM_done :: rs0). split; [reflexivity|]. constructor; [discriminate|exact Hall].
        -- destruct Hk as (-> & Hall). rewrite Hq2. split; [reflexivity|].
           constructor; [discriminate|exact Hall].
      * exists [response], (Some n), true, [PM_await_finalize], s2, l.
        split.
        { apply Hstep. eapply runs_trace; cycle 1.
          - eapply runs_bind; [exact Hrun|]. reflexivity.
          - apply app_nil_r. }
        split; [rewrite Hhd; cbn; rewrite ?app_nil_r; reflexivity|].
        split; [reflexivity|].
        split; [cbn; rewrite Hq2; reflexivity|].
        split; [cbn; lia|]. exists []. split; [reflexivity|constructor].
      * exists (response :: taken), k, true, (PM_detached_finalize :: rs), s3, (l ++ l3).
        split.
        { apply Hstep. replace (l ++ l3) with (l ++ (l3 ++ [])) by now rewrite app_nil_r.
          eapply runs_bind; [exact Hrun|]. cbv beta iota.
          eapply runs_bind; [exact Hrun3|]. reflexivity. }
        split; [rewrite Hhd, Hh3; reflexivity|].
        split; [cbn; now rewrite Hlen|].
        split; [cbn; rewrite <- Hq3, Hq2; reflexivity|].
        destruct k as [k'|].
        -- destruct Hk as (Hk & rs0 & -> & Hall). split; [cbn [length]; lia|].
           exists (PM_detached_finalize :: rs0). split; [reflexivity|].
           constructor; [discriminate|exact Hall].
        -- destruct Hk as (-> & Hall). rewrite Hq2. split; [reflexivity|].
           constructor; [discriminate|exact Hall].
Qed.

(** C10. [processMessage] lets no exception out, whatever the event: it
    always returns, and when its [switch] throws it returns after logging
    the error. A loop of the pump is the handling, by [processMessage] and
    in queue order, of the messages it takes: the state and the calls it
    leaves are those of running [processMessage] on each taken message in
    turn. It takes every message up to its bound unless a handler is left
    awaiting the finalizer, which then is the last one it runs. When the
    [switch] throws on the first message of the queue, the error is logged
    and the loop goes on with the rest of the queue. So it is for a tick,
    whose bound is five. The pump never crashes: along every schedule of
    frames, ticks and ends of the finalizer's wait, the messages handled so
    far followed by the queue are the messages that were there followed by
    the frames received since, in arrival order; and every tick that finds
    the queue non-empty handles at least its first message. *)
Theorem processMessage_never_throws :
  (forall response s,
     exists r s' l,
       runs (processMessage response) s r s' l
       /\ match processMessage_body response s with
          | (Ret r0, s0, l0) => r = r0 /\ s' = s0 /\ l = l0
          | (Throw e, s0, l0) =>
              r = PM_done /\ s' = s0
              /\ l = l0 ++ [Log LError ("Error processing message for "
                                         +:+ Sess.channelId (fst s0) +:+ ": " +:+ e)]
          end)
  /\ (forall n s,
        exists taken k f rs s' l,
          runs (pump_loop n) s (taken, k, f) s' l
          /\ handled taken s = (rs, s', l)
          /\ length rs = length taken
          /\ Sess.messageQueue (fst s) = taken ++ Sess.messageQueue (fst s')
          /\ match k with
             | None => taken = firstn n (Sess.messageQueue (fst s))
                       /\ Forall (fun r => r <> PM_await_finalize) rs
             | Some k' => (k' + length taken = n)%nat
                          /\ exists rs0, rs = rs0 ++ [PM_await_finalize]
                                         /\ Forall (fun r => r <> PM_await_finalize) rs0
             end)
  /\ (forall n s m rest e s0 l0,
        Sess.messageQueue (fst s) = m :: rest ->
        processMessage_body m (Sess.set_messageQueue rest (fst s), snd s) = (Throw e, s0, l0) ->
        Sess.messageQueue (fst s0) = rest
        /\ exists taken k f s' l,
             runs (pump_loop n) s0 (taken, k, f) s' l
             /\ runs (pump_loop (S n)) s (m :: taken, k, f) s'
                     (l0 ++ [Log LError ("Error processing message for "
                                         +:+ Sess.channelId (fst s0) +:+ ": " +:+ e)] ++ l))
  /\ (forall w,
        exists taken rs l,
          handled taken (pw_state w) = (rs, pw_state (pump_step Tick w), l)
          /\ length rs = length taken
          /\ pw_trace (pump_step Tick w) = pw_trace w ++ l
          /\ pw_processed (pump_step Tick w) = pw_processed w ++ taken
          /\ pw_queue w = taken ++ pw_queue (pump_step Tick w)
          /\ (Forall (fun r => r <> PM_await_finalize) rs -> taken = firstn 5 (pw_queue w)))
  /\ (forall acts w,
        pw_crashed (pump_run acts w) = pw_crashed w
        /\ pw_processed (pump_run acts w) ++ pw_queue (pump_run acts w)
           = (pw_processed w ++ pw_queue w) ++ frames_of acts)
  /\ (forall w, pw_queue w <> [] ->
        exists taken, taken <> []
                      /\ pw_processed (pump_step Tick w) = pw_processed w ++ taken
                      /\ pw_queue w = taken ++ pw_queue (pump_step Tick w)).
Proof.
  split; [exact processMessage_returns|].
  split; [exact pump_loop_handles|].
  split; [|split; [|split; [exact pump_run_ok|]]].
  - intros n s m rest e s0 l0 Hq Hbody.
    set (s1 := (Sess.set_messageQueue rest (fst s), snd s)) in *.
    destruct (processMessage_returns m s1) as (r & s2 & l & Hrun & Hcase).
    rewrite Hbody in Hcase. destruct Hcase as (-> & -> & ->).
    pose proof (processMessage_queue _ _ _ _ _ Hrun) as Hq2. cbn in Hq2.
    split; [exact Hq2|].
    destruct (pump_loop_handles n s0) as (taken & k & f & rs & s3 & l3 & Hrun3 & _).
    exists taken, k, f, s3, l3. split; [exact Hrun3|].
    unfold runs. rewrite (pump_loop_step n s m rest Hq). fold s1.
    change (runs (r0 ← processMessage m;
                  match r0 with
                  | PM_await_finalize => mret ([m], Some n, true)
                  | PM_detached_finalize =>
                      '(taken, k, _) ← pump_loop n; mret (m :: taken, k, true)
                  | PM_done =>
                      '(taken, k, f) ← pump_loop n; mret (m :: taken, k, f)
                  end) s1 (m :: taken, k, f) s3
              (l0 ++ [Log LError ("Error processing message for "
                                  +:+ Sess.channelId (fst s0) +:+ ": " +:+ e)] ++ l3)).
    eapply runs_trace; cycle 1.
    + eapply runs_bind; [exact Hrun|]. cbv beta iota.
      eapply runs_bind; [exact Hrun3|]. reflexivity.
    + rewrite app_nil_r, <- app_assoc. reflexivity.
  - intros w. cbn [pump_step]. unfold run_loop, pw_queue.
    destruct (pump_loop_handles maxMessages (pw_state w))
      as (taken & k & f & rs & s' & l & Hrun & Hh & Hlen & Hq & Hk).
    unfold runs in Hrun. rewrite Hrun. cbn [pw_state pw_trace pw_processed].
    exists taken, rs, l. repeat apply conj; try reflexivity; try assumption.
    intros Hall. destruct k as [k'|].
    + destruct Hk as (_ & rs0 & -> & _). apply Forall_app in Hall. destruct Hall as [_ Hall].
      inversion Hall as [|? ? Hne _]. now contradiction Hne.
    + exact (proj1 Hk).
  - intros w Hne. cbn [pump_step].
    destruct (run_loop_ok maxMessages w) as (_ & Hall & taken & Ht & Hprog).
    exists taken. split; [apply Hprog; [unfold maxMessages; lia|exact Hne]|].
    split; [exact Ht|].
    unfold pw_all in Hall. rewrite Ht, <- app_assoc in Hall.
    apply app_inv_head in Hall. symmetry. exact Hall.
Qed.

(** ** Barge-in *)

(** C6. When a [conversation.item.created] event carries an item with
    role [user], the Sender's [stopPlayback] is called provided the session
    has a stream handler and the item also has a truthy [id]; without an
    id nothing is called. *)
Theorem item_created_barge_in (response item id : value) (s : Sess.t * State) :
  getprop response "type" = Some (VStr "conversation.item.created") ->
  getprop response "item" = Some item ->
  getprop item "id" = Some id ->
  getprop item "role" = Some (VStr "user") ->
  Sess.streamHandler (fst s) = true ->
  calls (effects (processMessage response) s)
  = if truthy id then [StopPlayback (Sess.channelId (fst s))] else [].
Proof.
  intros Hty Hitem Hid Hrole Hsh.
  assert (Htr : truthy item = true).
  { destruct item; cbn in Hrole; try discriminate; reflexivity. }
  unfold processMessage, processMessage_body, effects, try_catch, prop, getS, logS, modS.
  rewrite Hty. unfold_comp. cbn -[on_item_created].
  unfold on_item_created, prop, getS, logS, modS. unfold_comp.
  rewrite Hitem, Htr, Hid. cbn [fst snd].
  destruct (truthy id) eqn:Hti.
  - rewrite Hrole. cbn. rewrite Hsh.
    destruct (throws P (StopPlayback (Sess.channelId (fst s)))); reflexivity.
  - reflexivity.
Qed.

(** ** Audio deltas *)

Lemma Buffer_alloc_runs size fill (s : Sess.t * State) :
  0 <= size <= kMaxLength P ->
  Buffer_alloc size fill s = (Ret (repeat fill (Z.to_nat size)), s, []).
Proof.
  intros H. unfold Buffer_alloc.
  replace (size <? 0) with false by (symmetry; apply Z.ltb_ge; lia).
  replace (kMaxLength P <? size) with false by (symmetry; apply Z.ltb_ge; lia).
  reflexivity.
Qed.

Lemma Buffer_concat_runs a b (s : Sess.t * State) :
  Z.of_nat (length a + length b) <= kMaxLength P ->
  Buffer_concat a b s = (Ret (a ++ b), s, []).
Proof.
  intros H. unfold Buffer_concat.
  replace (kMaxLength P <? Z.of_nat (length a + length b)) with false
    by (symmetry; apply Z.ltb_ge; lia).
  reflexivity.
Qed.

Lemma map_has_set {V} (m : list (string * V)) k v : map_has (map_set m k v) k = true.
Proof. unfold map_has. now rewrite map_get_set_eq. Qed.

(** The end of a response leaves the running byte count of the session
    as it is. *)
Lemma audio_done_keeps_total s :
  Sess.totalDeltaBytes (fst (exec on_audio_done s)) = Sess.totalDeltaBytes (fst s).
Proof.
  unfold exec, on_audio_done, finalizeAndTerminate, finalize_finish, getS, modS, logS.
  run; reflexivity.
Qed.

(** One audio delta, as the handler treats it. A delta that decodes to no
    byte, or to bytes that are all 0x7F, is skipped: nothing is pushed and
    the running byte count of the session stays. Any other delta adds its
    length to the count and is pushed to the stream handler, if there is
    one, preceded by [silencePackets] packets of 160 bytes of 0x7F exactly
    when the count was zero before. The prefix is 5 packets for the
    default padding of 100 ms; [response.audio.done] leaves the count as
    it is. *)
Theorem audio_delta_padding (response delta : value) (buf : list Byte.byte)
    (s : Sess.t * State) :
  getprop response "type" = Some (VStr "response.audio.delta") ->
  getprop response "delta" = Some delta ->
  truthy delta = true ->
  Buffer_from_base64 P delta = Some buf ->
  0 <= Sess.totalDeltaBytes (fst s) ->
  0 <= silencePackets * 160 ->
  silencePackets * 160 + Z.of_nat (length buf) <= kMaxLength P ->
  let skipped := (length buf =? 0)%nat || all_silence buf in
  let first := Sess.totalDeltaBytes (fst s) =? 0 in
  let silence := repeat Byte.x7f (Z.to_nat (silencePackets * 160)) in
  calls (effects (processMessage response) s)
  = (if skipped then []
     else if Sess.streamHandler (fst s)
          then [SendRtpPacket (Sess.channelId (fst s)) (if first then silence ++ buf else buf)]
          else [])
  /\ Sess.totalDeltaBytes (fst (exec (processMessage response) s))
     = (if skipped then Sess.totalDeltaBytes (fst s)
        else Sess.totalDeltaBytes (fst s) + Z.of_nat (length buf))
  /\ (SILENCE_PADDING_MS cfg = 100 \/ SILENCE_PADDING_MS cfg = 0 -> silencePackets = 5)
  /\ (forall s0, Sess.totalDeltaBytes (fst (exec on_audio_done s0))
                 = Sess.totalDeltaBytes (fst s0)).
Proof.
  intros Hty Hdelta Htr Hbuf Htot Hsil Hmax skipped first silence.
  assert (Hlen : (length buf =? 0)%nat = negb (0 <? Z.of_nat (length buf))).
  { destruct buf; cbn; [reflexivity|]. symmetry. apply negb_false_iff, Z.ltb_lt. lia. }
  assert (Hfirst : (Sess.totalDeltaBytes (fst s) + Z.of_nat (length buf) =? Z.of_nat (length buf))
                   = first).
  { unfold first. destruct (Z.eqb_spec (Sess.totalDeltaBytes (fst s)) 0) as [->|Hne].
    - apply Z.eqb_refl.
    - apply Z.eqb_neq. lia. }
  assert (Hpad : SILENCE_PADDING_MS cfg = 100 \/ SILENCE_PADDING_MS cfg = 0 -> silencePackets = 5).
  { unfold silencePackets. intros [-> | ->]; reflexivity. }
  assert (Hcat : Z.of_nat (length silence + length buf) <= kMaxLength P).
  { unfold silence. rewrite repeat_length. lia. }
  unfold processMessage, processMessage_body, effects, exec, try_catch, prop, getS, logS, modS.
  rewrite Hty. unfold_comp. cbn -[on_audio_delta].
  unfold on_audio_delta, prop, getS, logS, modS, liftG, update, sipMap_set.
  unfold_comp.
  rewrite Hdelta, Htr, Hbuf. cbn [fst snd].
  subst skipped. rewrite Hlen.
  destruct (0 <? Z.of_nat (length buf)) eqn:Hpos; cbn [negb orb andb];
    [|split; [reflexivity|split; [reflexivity|split; [exact Hpad|exact audio_done_keeps_total]]]].
  destruct (all_silence buf) eqn:Hsil'; cbn [negb orb andb];
    [split; [reflexivity|split; [reflexivity|split; [exact Hpad|exact audio_done_keeps_total]]]|].
  rewrite Hfirst.
  assert (Hreg : forall m, map_has (map_set m (Sess.channelId (fst s)) (Sess.channelData (fst s)))
                                   (Sess.channelId (fst s)) = true)
    by (intros; apply map_has_set).
  destruct ((40000 <=? _) || _); cbv beta iota; cbn [fst snd];
    destruct first; cbv beta iota;
    rewrite ?Buffer_alloc_runs by lia; cbv beta iota;
    fold silence; rewrite ?Buffer_concat_runs by exact Hcat; cbv beta iota; cbn [fst snd];
    norm_state; rewrite ?Hreg; cbn [andb];
    destruct (Sess.streamHandler (fst s)); cbv beta iota;
    try destruct (throws P _); cbn;
    (split; [reflexivity|split; [reflexivity|split; [exact Hpad|exact audio_done_keeps_total]]]).
Qed.

(** ** Transcript sink *)

Lemma keep_filter (p : ascii -> bool) s :
  list_ascii_of_string (keep p s) = List.filter p (list_ascii_of_string s).
Proof.
  induction s as [|c s IH]; [reflexivity|].
  cbn. destruct (p c); cbn; now rewrite IH.
Qed.

Lemma trim_empty : trim "" = "".
Proof. reflexivity. Qed.

(** Two digits for the month and the day, four for the year. *)
Definition two_digits (n : N) : bool :=
  (String.length (padStart 2 "0" (pretty n)) =? 2)%nat.

Lemma month_two_digits (m : N) :
  (m < 12)%N -> String.length (padStart 2 "0" (pretty (m + 1)%N)) = 2%nat.
Proof.
  intros H.
  assert (Hall : forallb (fun k => two_digits (N.of_nat k + 1)) (seq 0 12) = true)
    by (vm_compute; reflexivity).
  rewrite forallb_forall in Hall.
  specialize (Hall (N.to_nat m)). rewrite N2Nat.id in Hall.
  apply Nat.eqb_eq, Hall, in_seq. lia.
Qed.

Lemma day_two_digits (d : N) :
  (d <= 31)%N -> String.length (padStart 2 "0" (pretty d)) = 2%nat.
Proof.
  intros H.
  assert (Hall : forallb (fun k => two_digits (N.of_nat k)) (seq 0 32) = true)
    by (vm_compute; reflexivity).
  rewrite forallb_forall in Hall.
  specialize (Hall (N.to_nat d)). rewrite N2Nat.id in Hall.
  apply Nat.eqb_eq, Hall, in_seq. lia.
Qed.

Lemma year_four_digits (y : N) :
  (1000 <= y <= 9999)%N -> String.length (pretty y) = 4%nat.
Proof.
  intros H.
  assert (Hall : forallb (fun k => (String.length (pretty (1000 + N.of_nat k)%N) =? 4)%nat)
                         (seq 0 (N.to_nat 9000)) = true)
    by (vm_compute; reflexivity).
  rewrite forallb_forall in Hall.
  specialize (Hall (N.to_nat (y - 1000))).
  replace (1000 + N.of_nat (N.to_nat (y - 1000)))%N with y in Hall by lia.
  apply Nat.eqb_eq, Hall, in_seq. lia.
Qed.

Lemma appendTranscript_runs ch who text st :
  trim text <> "" ->
  exists l st',
    runs (appendTranscript ch who (VStr text)) st tt st' l
    /\ calls l
       = [MkdirSync (daily_dir (now P (clock st)));
          AppendFile (transcript_file (now P (clock st)) (callerId_of st ch) ch)
                     (transcript_line (toISOString (now P (S (clock st)))) who text)].
Proof.
  intros Hne.
  assert (Htr : truthy (VStr text) = true).
  { cbn. destruct text; [now rewrite trim_empty in Hne|reflexivity]. }
  destruct (transcriptPath_runs ch st) as (l1 & Hpath & Hc1).
  unfold appendTranscript. rewrite Htr. cbn [negb].
  destruct (String.eqb_spec (trim text) "") as [E|_]; [contradiction|].
  unfold runs in Hpath |- *. unfold newDate. unfold_comp. rewrite Hpath.
  cbv beta iota. norm_state.
  destruct (throws P _); do 2 eexists; (split; [reflexivity|]);
    rewrite !calls_app, Hc1; reflexivity.
Qed.

(** C9. A transcript append. A text that is empty or only white space,
    and any falsy text, is skipped: nothing is called. Any other text is
    appended, after the daily directory has been made (whether or not that
    succeeded), to the file [conversation-<caller>-<callId>.txt] in
    [root/YYYY/MM/DD] for the local date, as the line
    [ISO8601 SPEAKER: text] ended by a line feed. The root is the
    configured [RECORDINGS_DIR], or [/var/spool/asterisk/monitor] when
    that is unset or empty. The month and the day are padded to two
    digits, a year from 1000 to 9999 has four. The caller part is made
    from the [callerId] of the record registered for the call id (nothing
    when the call is not registered): a string as it is, of an object the
    first of number, name and id that is truthy; trimmed, with every
    character other than [0-9] and [+] removed, or [unknown] when nothing
    is left. The session only ever appends for the speakers USER and
    ASSISTANT. *)
Theorem transcript_append (ch who text : string) (st : State) :
  let root := match RECORDINGS_DIR cfg with
              | Some d => if String.eqb d "" then "/var/spool/asterisk/monitor" else d
              | None => "/var/spool/asterisk/monitor"
              end in
  let caller := match map_get (sipMap st) ch with
                | Some r => CD.callerId (obj st r)
                | None => CidUndefined
                end in
  let today := now P (clock st) in
  let dir := path_join P [root; pretty (getFullYear today);
                          padStart 2 "0" (pretty (getMonth today + 1)%N);
                          padStart 2 "0" (pretty (getDate today))] in
  (trim text = "" -> appendTranscript ch who (VStr text) st = (Ret tt, st, []))
  /\ (forall v, truthy v = false -> appendTranscript ch who v st = (Ret tt, st, []))
  /\ (trim text <> "" ->
      outcome (appendTranscript ch who (VStr text)) st = Ret tt
      /\ calls (effects (appendTranscript ch who (VStr text)) st)
         = [MkdirSync dir;
            AppendFile
              (path_join P [dir; "conversation-" +:+ sanitize caller +:+ "-" +:+ ch +:+ ".txt"])
              (toISOString (now P (S (clock st))) +:+ " " +:+ who +:+ ": " +:+ text +:+ LF)])
  /\ (forall m d y : N,
        ((m < 12)%N -> String.length (padStart 2 "0" (pretty (m + 1)%N)) = 2%nat)
        /\ ((d <= 31)%N -> String.length (padStart 2 "0" (pretty d)) = 2%nat)
        /\ ((1000 <= y <= 9999)%N -> String.length (pretty y) = 4%nat))
  /\ (forall c : CallerId,
        let shown := match c with
                     | CidUndefined => ""
                     | CidString s => s
                     | CidObject number name id =>
                         match truthy_id number with
                         | Some s => s
                         | None => match truthy_id name with
                                   | Some s => s
                                   | None => default "" (truthy_id id)
                                   end
                         end
                     end in
        let kept := List.filter is_digit_or_plus (list_ascii_of_string (trim shown)) in
        sanitize c = match kept with [] => "unknown" | _ => string_of_list_ascii kept end)
  /\ (forall (a : ascii), is_digit_or_plus a = true <->
        (48 <= nat_of_ascii a <= 57)%nat \/ nat_of_ascii a = 43%nat)
  /\ (forall response s file line,
        AppendFile file line ∈ effects (processMessage response) s ->
        exists iso speaker words,
          (speaker = "USER" \/ speaker = "ASSISTANT")
          /\ line = iso +:+ " " +:+ speaker +:+ ": " +:+ words +:+ LF).
Proof.
  intros root caller today dir.
  assert (Hroot : root = recordings_root).
  { unfold root, recordings_root, truthy_id.
    destruct (RECORDINGS_DIR cfg) as [d|]; [destruct (String.eqb d "")|]; reflexivity. }
  assert (Hdir : dir = daily_dir (now P (clock st))).
  { unfold dir, daily_dir. rewrite Hroot. reflexivity. }
  split; [|split; [|split; [|split; [|split; [|split]]]]].
  - intros E. unfold appendTranscript.
    destruct (truthy (VStr text)); cbn [negb]; [|reflexivity].
    rewrite E. reflexivity.
  - intros v Hv. unfold appendTranscript. rewrite Hv. reflexivity.
  - intros Hne. destruct (appendTranscript_runs ch who text st Hne) as (l & st' & Hrun & Hc).
    apply runs_effects in Hrun. destruct Hrun as (-> & _ & ->).
    split; [reflexivity|]. rewrite Hc, Hdir. reflexivity.
  - intros m d y. split; [apply month_two_digits|split; [apply day_two_digits|apply year_four_digits]].
  - intros c shown kept.
    assert (Hshown : shown = callerId_text c).
    { unfold shown, callerId_text. destruct c as [|s0|number name id]; reflexivity. }
    unfold sanitize.
    pose proof (keep_filter is_digit_or_plus (trim (callerId_text c))) as Hk.
    rewrite <- Hshown in Hk. fold kept in Hk. rewrite <- Hshown.
    destruct (keep is_digit_or_plus (trim shown)) as [|a k] eqn:Ek.
    + cbn in Hk. rewrite <- Hk. reflexivity.
    + cbn in Hk. rewrite <- Hk. cbn [String.eqb]. cbn.
      now rewrite string_of_list_ascii_of_string.
  - intros a. unfold is_digit_or_plus.
    rewrite orb_true_iff, andb_true_iff, !Nat.leb_le, Nat.eqb_eq. reflexivity.
  - intros response s file line Hin.
    destruct (processMessage_keeps response s) as [_ Hall].
    rewrite Forall_forall in Hall. apply (Hall _ Hin).
Qed.

(** ** Leg-end events *)

Lemma try_catch_ret {S A} (m : Comp S A) h s a s' l :
  m s = (Ret a, s', l) -> try_catch m h s = (Ret a, s', l).
Proof. unfold try_catch. now intros ->. Qed.

Lemma cleanupChannel_guarded ch reason h st :
  try_catch (cleanupChannel ch reason) h st = cleanupChannel ch reason st.
Proof.
  destruct (cleanupChannel_emails ch ch reason st) as (l & st1 & Hrun & _).
  unfold runs in Hrun. rewrite Hrun. now apply try_catch_ret.
Qed.

(** The record and the state once the leg that ended is flagged. *)
Definition mark_leg (isExt : bool) (d : CD.t) : CD.t :=
  if isExt then CD.set__extEnded true d else CD.set__sipEnded true d.

Definition leg_marked (isExt : bool) (sipId : string) (r : nat) (st : State) : State :=
  set_sipMap (map_set (sipMap st) sipId r)
    (set_heap (<[r := mark_leg isExt (obj st r)]> (heap st)) st).

(** C4. A leg-end event for a registered call that is not cleaned, other
    than an external-leg event whose channel id is being ignored. The
    record [d1] is the call's record with the flag of the leg that ended
    set and nothing else changed. If both flags are set in [d1], what
    follows is [cleanupChannel] with reason [<event>:both-ended], started
    in the state that holds [d1]. Otherwise the handler returns at once in
    a state where the call's record is [d1] with the new timer in
    [_cleanupTimer], so the flag of the leg is set there and the other
    flag is as it was; the previous grace timer of the call, if any, is
    cleared and one timer of [CLEANUP_GRACE_MS] (1500 ms unless the
    environment sets it) is armed, and when it fires what follows is
    [cleanupChannel] with reason [<event>:grace-timeout]. *)
Theorem leg_end_marks_and_schedules (c : Channel) (sourceEvent sipId : string) (r : nat)
    (st : State) :
  truthy_id (resolveSipIdForChannel c st) = Some sipId ->
  map_get (sipMap st) sipId = Some r ->
  sipId ∉ cleanedChannels st ->
  CD._cleaned (obj st r) = false ->
  (isExternalMediaChannel (channel_name c) = true -> ch_id c ∉ ignoreExtEvents st) ->
  let isExt := isExternalMediaChannel (channel_name c) in
  let d1 := if isExt then CD.set__extEnded true (obj st r)
            else CD.set__sipEnded true (obj st r) in
  let st1 := set_sipMap (map_set (sipMap st) sipId r)
               (set_heap (<[r := d1]> (heap st)) st) in
  let t := nextTimer st in
  (if isExt
   then CD._extEnded d1 = true /\ CD._sipEnded d1 = CD._sipEnded (obj st r)
   else CD._sipEnded d1 = true /\ CD._extEnded d1 = CD._extEnded (obj st r))
  /\ (if CD._sipEnded d1 && CD._extEnded d1
      then markChannelEndedAndMaybeCleanup c sourceEvent st
           = cleanupChannel sipId (sourceEvent +:+ ":both-ended") st1
      else exists st2,
             runs (markChannelEndedAndMaybeCleanup c sourceEvent) st tt st2 []
             /\ heap st2 = <[r := CD.set__cleanupTimer (Some t) d1]> (heap st)
             /\ sipMap st2 = map_set (sipMap st) sipId r
             /\ (if isExt then CD._extEnded (obj st2 r) = true
                 else CD._sipEnded (obj st2 r) = true)
             /\ timers st2
                = <[t := mkTimer CLEANUP_GRACE_MS
                           (TA_cleanup sipId (sourceEvent +:+ ":grace-timeout"))]>
                    (match CD._cleanupTimer (obj st r) with
                     | Some t0 => delete t0 (timers st)
                     | None => timers st
                     end)
             /\ CD._cleanupTimer (obj st2 r) = Some t
             /\ cleanedChannels st2 = cleanedChannels st
             /\ pending st2 = pending st
             /\ fire_timer t st2
                = cleanupChannel sipId (sourceEvent +:+ ":grace-timeout")
                    (set_timers (delete t (timers st2)) st2))
  /\ (CLEANUP_GRACE_MS_env env = None -> CLEANUP_GRACE_MS = 1500%float).
Proof.
  intros Hres Hreg Hcl Hnc Hign. cbv zeta.
  set (isExt := isExternalMediaChannel (channel_name c)) in *.
  change (if isExt then CD.set__extEnded true (obj st r) else CD.set__sipEnded true (obj st r))
    with (mark_leg isExt (obj st r)).
  set (d1 := mark_leg isExt (obj st r)).
  change (set_sipMap (map_set (sipMap st) sipId r) (set_heap (<[r := d1]> (heap st)) st))
    with (leg_marked isExt sipId r st).
  set (st1 := leg_marked isExt sipId r st).
  assert (Hobj1 : obj st1 r = d1).
  { unfold st1, leg_marked. eapply obj_insert_eq. reflexivity. }
  assert (Hig : isExt && bool_decide (ch_id c ∈ ignoreExtEvents st) = false).
  { destruct isExt; [|reflexivity].
    cbn. apply bool_decide_eq_false_2, Hign. reflexivity. }
  split; [|split].
  - unfold d1, mark_leg. destruct isExt; split; reflexivity.
  - set (sth := set_heap (<[r := d1]> (heap st)) st).
    assert (Hup : (if isExt then update r (CD.set__extEnded true)
                   else update r (CD.set__sipEnded true)) st = (Ret tt, sth, [])).
    { unfold d1, mark_leg, sth. destruct isExt; reflexivity. }
    assert (Hget : sipMap_get_or_new sipId st = (Ret r, st, [])).
    { unfold sipMap_get_or_new. now rewrite Hreg. }
    assert (Hmark : markChannelEndedAndMaybeCleanup c sourceEvent st
              = (if CD._sipEnded d1 && CD._extEnded d1 then
                   try_catch
                     (cleanupChannel sipId (sourceEvent +:+ ":both-ended"))
                     (fun e => log LError ("cleanupChannel error (both-ended) for "
                                           +:+ sipId +:+ ": " +:+ e))
                 else
                   match CD._cleanupTimer d1 with
                   | Some t => clearTimeout t
                   | None => mret tt
                   end;;
                   t ← setTimeout CLEANUP_GRACE_MS
                         (TA_cleanup sipId (sourceEvent +:+ ":grace-timeout"));
                   update r (CD.set__cleanupTimer (Some t));;
                   sipMap_set sipId r) st1).
    { unfold markChannelEndedAndMaybeCleanup. fold isExt.
      rewrite (bind_run (gets (fun st => st)) _ st st st eq_refl).
      rewrite Hig, Hres, bool_decide_eq_false_2 by exact Hcl.
      rewrite (bind_run _ _ _ _ _ Hget).
      rewrite (bind_run (deref r) _ st (obj st r) st eq_refl).
      rewrite Hnc.
      rewrite (bind_run _ _ _ _ _ Hup).
      rewrite (bind_run (sipMap_set sipId r) _ sth tt st1 eq_refl).
      rewrite (bind_run (deref r) _ st1 (obj st1 r) st1 eq_refl).
      rewrite Hobj1. reflexivity. }
    unfold runs. rewrite !Hmark.
    assert (Htimer : CD._cleanupTimer d1 = CD._cleanupTimer (obj st r)).
    { unfold d1, mark_leg. destruct isExt; reflexivity. }
    destruct (CD._sipEnded d1 && CD._extEnded d1) eqn:Hboth.
    + apply cleanupChannel_guarded.
    + rewrite Htimer.
      set (tm := match CD._cleanupTimer (obj st r) with
                 | Some t0 => delete t0 (timers st)
                 | None => timers st
                 end).
      set (s2 := set_timers tm st1).
      assert (Hclr : match CD._cleanupTimer (obj st r) with
                     | Some t => clearTimeout t
                     | None => mret tt
                     end st1 = (Ret tt, s2, [])).
      { unfold s2, tm. destruct (CD._cleanupTimer (obj st r)); reflexivity. }
      rewrite (bind_run _ _ _ _ _ Hclr).
      set (tmr := mkTimer CLEANUP_GRACE_MS (TA_cleanup sipId (sourceEvent +:+ ":grace-timeout"))).
      set (s3 := set_nextTimer (S (nextTimer st)) (set_timers (<[nextTimer st := tmr]> tm) s2)).
      rewrite (bind_run (setTimeout _ _) _ s2 (nextTimer st) s3 eq_refl).
      set (s4 := set_heap (<[r := CD.set__cleanupTimer (Some (nextTimer st)) (obj s3 r)]> (heap s3)) s3).
      rewrite (bind_run (update r _) _ s3 tt s4 eq_refl).
      set (s5 := set_sipMap (map_set (sipMap s4) sipId r) s4).
      assert (Hobj3 : obj s3 r = d1) by exact Hobj1.
      assert (Hheap : heap s5 = <[r := CD.set__cleanupTimer (Some (nextTimer st)) d1]> (heap st)).
      { change (heap s5)
          with (<[r := CD.set__cleanupTimer (Some (nextTimer st)) (obj s3 r)]>
                  (<[r := d1]> (heap st))).
        rewrite Hobj3. apply insert_insert_eq. }
      assert (Hobj5 : obj s5 r = CD.set__cleanupTimer (Some (nextTimer st)) d1)
        by (eapply obj_insert_eq; exact Hheap).
      assert (Hsip : sipMap s5 = map_set (sipMap st) sipId r).
      { change (sipMap s5) with (map_set (map_set (sipMap st) sipId r) sipId r).
        apply map_set_set. }
      exists s5. split; [reflexivity|].
      split; [exact Hheap|].
      split; [exact Hsip|].
      split; [rewrite Hobj5; unfold d1, mark_leg; destruct isExt; reflexivity|].
      split; [reflexivity|].
      split; [rewrite Hobj5; reflexivity|].
      split; [reflexivity|]. split; [reflexivity|].
      assert (Hlk : timers s5 !! nextTimer st = Some tmr) by apply lookup_insert_eq.
      unfold fire_timer.
      rewrite (bind_run (gets (fun s => timers s !! nextTimer st)) _ s5
                 (timers s5 !! nextTimer st) s5 eq_refl).
      rewrite Hlk.
      rewrite (bind_run (clearTimeout _) _ s5 tt
                 (set_timers (delete (nextTimer st) (timers s5)) s5) eq_refl).
      apply cleanupChannel_guarded.
  - intros E. unfold CLEANUP_GRACE_MS, number_env. rewrite E. reflexivity.
Qed.

(** ** Terminate after playback *)

(** The wait of [terminateAfterPlayback] once it is over: nothing ends it
    again. *)
Lemma bind_log_run {S B} lvl msg (k : unit -> Comp S B) s :
  (log lvl msg ≫= k) s = (let '(o, s', l) := k tt s in (o, s', Log lvl msg :: l)).
Proof. unfold mbind, comp_bind, log, tell. now destruct (k tt s) as [[o s2] l]. Qed.

Lemma waiter_off_run w wt st :
  waiters st !! w = Some wt ->
  waiter_off w st
  = (Ret tt,
     set_waiters (<[w := mkWaiter (w_channelId wt) (w_phrase wt) (w_resolved wt) false]>
                    (waiters st)) st, []).
Proof. intros Hw. unfold waiter_off, modify. now rewrite Hw. Qed.

Lemma waiter_done_run w wt st :
  waiters st !! w = Some wt ->
  waiter_done w st
  = if w_resolved wt then (Ret false, st, [])
    else (Ret true,
          set_waiters (<[w := mkWaiter (w_channelId wt) (w_phrase wt) true (w_listening wt)]>
                         (waiters st)) st, []).
Proof.
  intros Hw. unfold waiter_done.
  rewrite (bind_run (gets (fun st => waiters st)) _ st (waiters st) st eq_refl).
  rewrite Hw. destruct (w_resolved wt); [reflexivity|].
  rewrite (bind_run (modify _) _ st tt _ eq_refl). reflexivity.
Qed.

(** The state once the wait of waiter [w] is over. *)
Definition wait_over (w : nat) (ch ph : string) (st : State) : State :=
  set_waiters (<[w := mkWaiter ch ph true false]> (waiters st)) st.

Lemma wait_over_lookup w ch ph st :
  (w < length (waiters st))%nat ->
  waiters (wait_over w ch ph st) !! w = Some (mkWaiter ch ph true false).
Proof. intros H. unfold wait_over. cbn. now apply list_lookup_insert_eq. Qed.

Lemma off_done_run w ch ph st :
  waiters st !! w = Some (mkWaiter ch ph false true) ->
  (waiter_off w;; waiter_done w) st = (Ret true, wait_over w ch ph st, []).
Proof.
  intros Hw.
  assert (Hlt : (w < length (waiters st))%nat) by (eapply lookup_lt_Some; exact Hw).
  rewrite (bind_run _ _ _ _ _ (waiter_off_run w _ st Hw)).
  erewrite waiter_done_run by (cbn; apply list_lookup_insert_eq; exact Hlt).
  cbn. unfold wait_over. norm_state.
  rewrite list_insert_insert_eq. reflexivity.
Qed.

Lemma off_done_over w ch ph st :
  waiters st !! w = Some (mkWaiter ch ph true false) ->
  (waiter_off w;; waiter_done w) st = (Ret false, wait_over w ch ph st, []).
Proof.
  intros Hw.
  assert (Hlt : (w < length (waiters st))%nat) by (eapply lookup_lt_Some; exact Hw).
  rewrite (bind_run _ _ _ _ _ (waiter_off_run w _ st Hw)).
  erewrite waiter_done_run by (cbn; apply list_lookup_insert_eq; exact Hlt).
  reflexivity.
Qed.

Lemma wait_step_on w ch ph ev st :
  waiters st !! w = Some (mkWaiter ch ph false true) ->
  exists l,
    wait_step w ev st
    = if ends_wait ch ev then (Ret true, wait_over w ch ph st, l) else (Ret false, st, l).
Proof.
  intros Hw. destruct ev as [id|]; cbn [wait_step ends_wait].
  - rewrite (bind_run (gets (fun st => waiters st)) _ st (waiters st) st eq_refl).
    rewrite Hw. cbn [w_listening]. unfold onFinished.
    rewrite (bind_run (gets (fun st => waiters st)) _ st (waiters st) st eq_refl).
    rewrite Hw. cbn [w_channelId].
    destruct (String.eqb id ch); [|eexists; reflexivity].
    rewrite bind_log_run, (off_done_run w ch ph st Hw). eexists. reflexivity.
  - unfold onFallback.
    rewrite (bind_run _ _ _ _ _ (waiter_off_run w _ st Hw)).
    rewrite bind_log_run.
    erewrite waiter_done_run
      by (cbn; apply list_lookup_insert_eq; eapply lookup_lt_Some; exact Hw).
    cbn. eexists. unfold wait_over. norm_state.
    rewrite list_insert_insert_eq. reflexivity.
Qed.

Lemma wait_step_over w ch ph ev st :
  waiters st !! w = Some (mkWaiter ch ph true false) ->
  exists l st',
    wait_step w ev st = (Ret false, st', l)
    /\ waiters st' !! w = Some (mkWaiter ch ph true false).
Proof.
  intros Hw.
  assert (Hlt : (w < length (waiters st))%nat) by (eapply lookup_lt_Some; exact Hw).
  destruct ev as [id|]; cbn [wait_step].
  - rewrite (bind_run (gets (fun st => waiters st)) _ st (waiters st) st eq_refl).
    rewrite Hw. cbn [w_listening]. do 2 eexists. split; [reflexivity|exact Hw].
  - unfold onFallback.
    rewrite (bind_run _ _ _ _ _ (waiter_off_run w _ st Hw)).
    rewrite bind_log_run.
    erewrite waiter_done_run by (cbn; apply list_lookup_insert_eq; exact Hlt).
    cbn. do 2 eexists. split; [reflexivity|]. cbn. now apply list_lookup_insert_eq.
Qed.

(** The wait of [terminateAfterPlayback] once it is over: nothing ends it
    again. *)
Lemma wait_flags_over w ch ph evs : forall st,
  waiters st !! w = Some (mkWaiter ch ph true false) ->
  wait_flags w evs st = repeat false (length evs).
Proof.
  induction evs as [|ev evs IH]; intros st Hw; [reflexivity|].
  cbn [wait_flags length repeat].
  destruct (wait_step_over w ch ph ev st Hw) as (l & st' & -> & Hw').
  f_equal. now apply IH.
Qed.

(** While the wait is on, it ends at the first [audioFinished] for the
    call or at the fallback timeout, and only there. *)
Lemma wait_flags_first w ch ph evs : forall st,
  waiters st !! w = Some (mkWaiter ch ph false true) ->
  wait_flags w evs st = first_only ch evs.
Proof.
  induction evs as [|ev evs IH]; intros st Hw; [reflexivity|].
  assert (Hlt : (w < length (waiters st))%nat) by (eapply lookup_lt_Some; exact Hw).
  cbn [wait_flags first_only].
  destruct (wait_step_on w ch ph ev st Hw) as (l & ->).
  destruct (ends_wait ch ev).
  - f_equal. eapply wait_flags_over. now apply wait_over_lookup.
  - f_equal. now apply IH.
Qed.

Lemma exec_bind {S A B} (m : Comp S A) (k : A -> Comp S B) s a s' l :
  m s = (Ret a, s', l) -> exec (m ≫= k) s = exec (k a) s'.
Proof.
  unfold exec, mbind, comp_bind. intros ->. now destruct (k a s') as [[o s2] l2].
Qed.

Lemma exec_then_ret {S A B} (m : Comp S A) (b : B) s :
  exec (m;; mret b) s = exec m s.
Proof.
  unfold exec, mbind, comp_bind, mret, comp_ret. now destruct (m s) as [[[a|e] s1] l1].
Qed.

Lemma exec_processMessage response s :
  exec (processMessage response) s = exec (processMessage_body response) s.
Proof.
  destruct (processMessage_returns response s) as (r & s' & l & Hrun & Hbody).
  apply runs_effects in Hrun. destruct Hrun as (_ & -> & _).
  unfold exec. destruct (processMessage_body response s) as [[[r0|e] s0] l0];
    destruct Hbody as (_ & -> & _); reflexivity.
Qed.

(** An assistant-transcript event goes to its handler. *)
Lemma processMessage_body_transcript response s :
  getprop response "type" = Some (VStr "response.audio_transcript.done") ->
  processMessage_body response s = on_transcript_done response s.
Proof.
  intros Hty. unfold processMessage_body, prop. rewrite Hty.
  rewrite (bind_run (mret _) _ s _ s eq_refl).
  rewrite (bind_run getS _ s (fst s) s eq_refl). reflexivity.
Qed.

Lemma appendTranscript_total ch who text st :
  exists st' l, appendTranscript ch who (VStr text) st = (Ret tt, st', l).
Proof.
  destruct (String.eqb_spec (trim text) "") as [E|Hne].
  - exists st, []. unfold appendTranscript.
    destruct (truthy (VStr text)); cbn [negb]; [|reflexivity]. rewrite E. reflexivity.
  - destruct (appendTranscript_runs ch who text st Hne) as (l & st' & Hrun & _).
    exists st', l. exact Hrun.
Qed.

(** The TERMINATE block on a match: the request and its reason are
    recorded in the session. *)
Lemma mark_terminate_arms txt matched s :
  find_phrase (AGENT_TERMINATE_PHRASES cfg) txt = Some matched ->
  matched <> "" ->
  exists s' l,
    mark_terminate txt s = (Ret tt, s', l)
    /\ Sess.terminateRequested (fst s') = true
    /\ Sess.terminateReason (fst s') = Some matched.
Proof.
  intros Hfind Hne. unfold mark_terminate.
  assert (Hphr : AGENT_TERMINATE_PHRASES cfg <> []).
  { intros E. rewrite E in Hfind. discriminate. }
  assert (Htr : truthy_id (Some matched) = Some matched).
  { cbn. destruct (String.eqb_spec matched ""); [contradiction|reflexivity]. }
  rewrite (bind_run getS _ s (fst s) s eq_refl). rewrite Hfind, Htr.
  destruct (AGENT_TERMINATE_PHRASES cfg) as [|p0 ps]; [contradiction|].
  unfold modS, logS, liftG, setTimeout. unfold_comp.
  destruct (Sess.terminationWatchdogStarted (fst s)); do 2 eexists;
    (split; [reflexivity|split; reflexivity]).
Qed.

(** The REDIRECT block leaves the session alone. *)
Lemma request_redirect_session txt s :
  fst (exec (request_redirect txt) s) = fst s.
Proof.
  unfold exec, request_redirect, getS, logS. run; reflexivity.
Qed.

Lemma transcript_done_arms response txt matched s :
  getprop response "transcript" = Some (VStr txt) ->
  txt <> "" ->
  find_phrase (AGENT_TERMINATE_PHRASES cfg) (normalizeNFKC P (toLowerCase txt)) = Some matched ->
  matched <> "" ->
  Sess.terminateRequested (fst (exec (on_transcript_done response) s)) = true
  /\ Sess.terminateReason (fst (exec (on_transcript_done response) s)) = Some matched.
Proof.
  intros Htx Hne Hfind Hm.
  assert (Htr : truthy (VStr txt) = true).
  { cbn. destruct (String.eqb_spec txt ""); [contradiction|reflexivity]. }
  unfold on_transcript_done, prop. rewrite Htx.
  rewrite (exec_bind getS _ s (fst s) s [] eq_refl).
  rewrite (exec_bind (mret _) _ s (VStr txt) s [] eq_refl).
  rewrite exec_then_ret, Htr.
  rewrite (exec_bind (mret _) _ s _ s [] eq_refl).
  destruct (appendTranscript_total (Sess.channelId (fst s)) "ASSISTANT" txt (snd s))
    as (st' & l & Happ).
  assert (Hlift : liftG (appendTranscript (Sess.channelId (fst s)) "ASSISTANT" (VStr txt)) s
                  = (Ret tt, (fst s, st'), l)).
  { unfold liftG. rewrite Happ. reflexivity. }
  rewrite (exec_bind _ _ _ _ _ _ Hlift).
  rewrite (exec_bind (logS _ _) _ (fst s, st') tt (fst s, st') _ eq_refl).
  destruct (mark_terminate_arms _ matched (fst s, st') Hfind Hm) as (s2 & l2 & Hmark & Hr & Hp).
  rewrite (exec_bind _ _ _ _ _ _ Hmark).
  rewrite request_redirect_session. split; assumption.
Qed.

(** The state once [terminateAfterPlayback] has recorded its intention. *)
Definition intent_marked (ch : string) (r : nat) (st : State) : State :=
  set_sipMap (map_set (sipMap st) ch r)
    (set_heap (<[r := CD.set_terminateAfterPlayback true (obj st r)]> (heap st)) st).

Lemma terminateAfterPlayback_live ch ph r st :
  map_get (sipMap st) ch = Some r ->
  CD.redirecting (obj st r) = false ->
  CD._cleaned (obj st r) = false ->
  ch ∉ cleanedChannels st ->
  terminateAfterPlayback ch ph st
  = (log LInfo ("Assistant termination phrase matched for " +:+ ch
                +:+ "; will terminate after playback completes");;
     if isQueueEmpty (CD.streamHandler (obj st r)) then
       cleanupChannel ch (terminate_reason ph)
     else
       w ← gets (fun st => length (waiters st));
       modify (fun st => set_waiters (waiters st ++ [mkWaiter ch ph false true]) st);;
       _ ← setTimeout fallbackMs (TA_terminateFallback w);
       mret tt) (intent_marked ch r st).
Proof.
  intros Hreg Hred Hnc Hcl. unfold terminateAfterPlayback.
  assert (Hget : sipMap_get_or_new ch st = (Ret r, st, [])).
  { unfold sipMap_get_or_new. now rewrite Hreg. }
  rewrite (bind_run _ _ _ _ _ Hget).
  rewrite (bind_run (deref r) _ st (obj st r) st eq_refl).
  rewrite (bind_run (gets (fun st => st)) _ st st st eq_refl).
  rewrite Hred, Hnc, bool_decide_eq_false_2 by exact Hcl. cbn [orb].
  rewrite (bind_run (update r _) _ st tt _ eq_refl).
  rewrite (bind_run (sipMap_set ch r) _ _ tt (intent_marked ch r st) eq_refl).
  reflexivity.
Qed.

(** ** The wait on the event loop

    What the cleanup of another call leaves alone: the waiters, and call
    [ch] out of the cleaned set and out of the cleanups under way. *)
Definition spared (ch : string) (s s' : State) : Prop :=
  waiters s' = waiters s
  /\ (ch ∈ cleanedChannels s' -> ch ∈ cleanedChannels s)
  /\ (ch ∈ cleanupPromises s' -> ch ∈ cleanupPromises s)
  /\ (forall c, c ∈ cleanedChannels s -> c ∈ cleanedChannels s').

Lemma spared_refl ch s : spared ch s s.
Proof. repeat split; auto. Qed.

Lemma spared_trans ch a b c : spared ch a b -> spared ch b c -> spared ch a c.
Proof.
  intros (H1 & H2 & H3 & H4) (H5 & H6 & H7 & H8).
  repeat split; [congruence|auto|auto|auto].
Qed.

Definition any_call (e : Effect) : Prop := True.

Ltac spare_frame :=
  intros; unfold spared; cbn; repeat split; try reflexivity; try tauto; set_solver.

Ltac spare_step :=
  lazymatch goal with
  | |- keeps _ _ (mret _) => apply keeps_ret; exact (spared_refl _)
  | |- keeps _ _ (throw _) => apply keeps_throw; exact (spared_refl _)
  | |- keeps _ _ (gets _) => apply keeps_gets; exact (spared_refl _)
  | |- keeps _ _ (deref _) => apply keeps_gets; exact (spared_refl _)
  | |- keeps _ _ (modify _) => apply keeps_modify; spare_frame
  | |- keeps _ _ (log _ _) => apply keeps_log; [exact (spared_refl _)|exact Logic.I]
  | |- keeps _ _ (call _) => apply keeps_call; [exact (spared_refl _)|exact Logic.I]
  | |- keeps _ _ (mbind _ _) => apply keeps_bind; [exact (spared_trans _)| |intros]
  | |- keeps _ _ (try_catch _ _) => apply keeps_try; [exact (spared_trans _)| |intros]
  | |- keeps _ _ (match ?x with _ => _ end) => destruct x
  end.

Ltac spare_direct :=
  let s := fresh "s" in
  intros s; unfold exec, effects; cbn;
  repeat lazymatch goal with |- context [match ?x with _ => _ end] => destruct x end;
  (split; [spare_frame|repeat constructor]).

Lemma newDate_spared ch : keeps (spared ch) any_call newDate.
Proof. unfold newDate. spare_direct. Qed.

Lemma setTimeout_spared ch ms a : keeps (spared ch) any_call (setTimeout ms a).
Proof. unfold setTimeout. spare_direct. Qed.

Lemma sipMap_get_or_new_spared ch id : keeps (spared ch) any_call (sipMap_get_or_new id).
Proof. unfold sipMap_get_or_new. spare_direct. Qed.

Ltac spare_auto :=
  repeat first
    [ apply newDate_spared | apply setTimeout_spared | apply sipMap_get_or_new_spared
    | spare_step ].

(** The cleanup of a call leaves every other call out of the cleaned set,
    and the waiters as they are. *)
Lemma cleanupChannel_spares (ch id reason : string) :
  id <> ch -> keeps (spared ch) any_call (cleanupChannel id reason).
Proof.
  intros Hne.
  unfold cleanupChannel, cleanupChannel_begin, cleanup_mark, cleanup_guard, suspend,
    cleanedChannels_add, update, sipMap_set, clearTimeout.
  spare_auto;
  cbn [body_from];
  unfold body_start, body_ext_hangup, body_bridge_destroy, body_sip_hangup, body_rtp,
    body_finish, cleanup_seg_start, cleanup_seg_ext_hangup, cleanup_seg_bridge_destroy,
    cleanup_seg_sip_hangup, cleanup_seg_rtp, cleanup_seg_finish, close_receiver, close_sender,
    release_port, purge_extMap, send_email, transcriptPath, ensureDailyDir, safeCallerId,
    ignoreExtEvents_add, extMap_delete, sipMap_delete, clearTimeout, update, sipMap_set;
  spare_auto.
Qed.

(** Any cleanup leaves the waiters as they are and takes no call out of
    the cleaned set. *)
Lemma cleanupChannel_grows (id reason : string) (s : State) :
  waiters (exec (cleanupChannel id reason) s) = waiters s
  /\ (forall c, c ∈ cleanedChannels s -> c ∈ cleanedChannels (exec (cleanupChannel id reason) s)).
Proof.
  assert (Hne : id <> String "x" id).
  { intros E. apply (f_equal String.length) in E. cbn in E. lia. }
  destruct (cleanupChannel_spares (String "x" id) id reason Hne s) as [(Hw & _ & _ & Hmono) _].
  split; [exact Hw|exact Hmono].
Qed.

(** The listener of waiter [w'] on an event for its own call, and on an
    event for any other call. *)
Lemma onFinished_hit w' wt s :
  waiters s !! w' = Some wt ->
  onFinished w' (w_channelId wt) s
  = (Ret (negb (w_resolved wt)),
     set_waiters (<[w' := mkWaiter (w_channelId wt) (w_phrase wt) true false]> (waiters s)) s,
     [Log LInfo ("RTP drain finished for " +:+ w_channelId wt +:+ " prior to terminate")]).
Proof.
  intros Hw.
  assert (Hlt : (w' < length (waiters s))%nat) by (eapply lookup_lt_Some; exact Hw).
  unfold onFinished.
  rewrite (bind_run (gets (fun st => waiters st)) _ s (waiters s) s eq_refl).
  rewrite Hw, String.eqb_refl, bind_log_run.
  rewrite (bind_run _ _ _ _ _ (waiter_off_run w' _ s Hw)).
  erewrite waiter_done_run by (cbn; apply list_lookup_insert_eq; exact Hlt).
  cbn [w_resolved w_channelId w_phrase w_listening].
  destruct (w_resolved wt) eqn:Hres; cbn [negb].
  - reflexivity.
  - cbn. rewrite list_insert_insert_eq. reflexivity.
Qed.

Lemma onFinished_miss w' id s :
  (forall wt, waiters s !! w' = Some wt -> w_channelId wt <> id) ->
  onFinished w' id s = (Ret false, s, []).
Proof.
  intros Hne. unfold onFinished.
  rewrite (bind_run (gets (fun st => waiters st)) _ s (waiters s) s eq_refl).
  destruct (waiters s !! w') as [wt|] eqn:Hw; [|reflexivity].
  destruct (String.eqb_spec id (w_channelId wt)) as [->|_]; [|reflexivity].
  now contradiction (Hne wt eq_refl).
Qed.

(** An [audioFinished] for a call that no subscribed listener waits for
    calls the listeners and changes nothing. *)
Lemma listeners_miss id : forall wl k s,
  wl = drop k (waiters s) ->
  (forall i wt, (k <= i)%nat -> waiters s !! i = Some wt -> w_listening wt = true ->
     w_channelId wt <> id) ->
  call_listeners (subscribed k wl) id s = (Ret [], s, []).
Proof.
  induction wl as [|wt wl IH]; intros k s Hwl Hno; [reflexivity|].
  assert (Hk : waiters s !! k = Some wt).
  { rewrite <- (Nat.add_0_r k), <- lookup_drop, <- Hwl. reflexivity. }
  assert (Hrest : wl = drop (S k) (waiters s)).
  { rewrite <- Nat.add_1_r, <- drop_drop, <- Hwl. reflexivity. }
  assert (Hno' : forall i wt0, (S k <= i)%nat -> waiters s !! i = Some wt0 ->
                   w_listening wt0 = true -> w_channelId wt0 <> id)
    by (intros i wt0 Hi; apply Hno; lia).
  cbn [subscribed]. destruct (w_listening wt) eqn:Hl; [|now apply IH].
  cbn [call_listeners].
  rewrite (bind_run _ _ _ _ _ (onFinished_miss k id s
             ltac:(intros wt0 E; rewrite Hk in E; injection E as <-;
                   apply (Hno k wt (le_n _) Hk Hl)))).
  rewrite (bind_run _ _ _ _ _ (IH (S k) s Hrest Hno')). reflexivity.
Qed.

Lemma emit_miss id s :
  (forall i wt, waiters s !! i = Some wt -> w_listening wt = true -> w_channelId wt <> id) ->
  emit_audioFinished id s = (Ret tt, s, []).
Proof.
  intros Hno. unfold emit_audioFinished.
  rewrite (bind_run (gets _) _ s (subscribed 0 (waiters s)) s eq_refl).
  rewrite (bind_run _ _ _ _ _ (listeners_miss id (waiters s) 0 s eq_refl
                                 ltac:(intros i wt _; apply Hno))).
  reflexivity.
Qed.

(** The only subscribed listener for call [ch] is called once, and ends
    its wait. *)
Lemma listeners_hit w ch ph : forall wl k s,
  wl = drop k (waiters s) ->
  (k <= w)%nat ->
  waiters s !! w = Some (mkWaiter ch ph false true) ->
  (forall i wt, i <> w -> waiters s !! i = Some wt -> w_listening wt = true ->
     w_channelId wt <> ch) ->
  call_listeners (subscribed k wl) ch s
  = (Ret [w], wait_over w ch ph s,
     [Log LInfo ("RTP drain finished for " +:+ ch +:+ " prior to terminate")]).
Proof.
  induction wl as [|wt wl IH]; intros k s Hwl Hle Hw Hno.
  - apply lookup_lt_Some in Hw. symmetry in Hwl. apply drop_nil_inv in Hwl. lia.
  - assert (Hk : waiters s !! k = Some wt).
    { rewrite <- (Nat.add_0_r k), <- lookup_drop, <- Hwl. reflexivity. }
    assert (Hrest : wl = drop (S k) (waiters s)).
    { rewrite <- Nat.add_1_r, <- drop_drop, <- Hwl. reflexivity. }
    cbn [subscribed].
    destruct (decide (k = w)) as [->|Hkw].
    + rewrite Hw in Hk. injection Hk as <-. cbn [w_listening call_listeners].
      pose proof (onFinished_hit w _ s Hw) as Hhit. cbn [w_channelId w_phrase w_resolved negb] in Hhit.
      fold (wait_over w ch ph s) in Hhit.
      assert (Hlater : call_listeners (subscribed (S w) wl) ch (wait_over w ch ph s)
                       = (Ret [], wait_over w ch ph s, [])).
      { apply listeners_miss.
        - unfold wait_over. cbn. rewrite drop_insert_lt by lia. exact Hrest.
        - intros i wt0 Hi Hl0. unfold wait_over in Hl0. cbn in Hl0.
          rewrite list_lookup_insert_ne in Hl0 by lia.
          apply (Hno i); [lia|exact Hl0]. }
      unfold mbind, comp_bind. rewrite Hhit, Hlater. reflexivity.
    + assert (Hskip : call_listeners (subscribed (S k) wl) ch s
                      = (Ret [w], wait_over w ch ph s,
                         [Log LInfo ("RTP drain finished for " +:+ ch +:+ " prior to terminate")]))
        by (apply IH; [exact Hrest|lia|exact Hw|exact Hno]).
      destruct (w_listening wt) eqn:Hl; [|exact Hskip].
      cbn [call_listeners].
      rewrite (bind_run _ _ _ _ _ (onFinished_miss k ch s
                 ltac:(intros wt0 E; rewrite Hk in E; injection E as <-;
                       apply (Hno k wt Hkw Hk Hl)))).
      unfold mbind, comp_bind. rewrite Hskip. reflexivity.
Qed.

Lemma listeners_miss_step w' id s ws resolved s1 l :
  (forall wt, waiters s !! w' = Some wt -> w_channelId wt <> id) ->
  runs (call_listeners ws id) s resolved s1 l ->
  runs (call_listeners (w' :: ws) id) s resolved s1 l.
Proof.
  intros Hmiss Hrun. cbn [call_listeners]. unfold runs.
  rewrite (bind_run _ _ _ _ _ (onFinished_miss w' id s Hmiss)).
  eapply runs_trace; cycle 1.
  - eapply runs_bind; [exact Hrun|]. reflexivity.
  - apply app_nil_r.
Qed.

Lemma cleanupChannel_returns id reason s :
  exists l s', runs (cleanupChannel id reason) s tt s' l.
Proof.
  destruct (cleanupChannel_emails id id reason s) as (l & s' & Hrun & _).
  exists l, s'. exact Hrun.
Qed.

(** What an event for call [id] makes of a waiter that is called. *)
Definition settled (id : string) (wt : Waiter) : Waiter :=
  if String.eqb id (w_channelId wt)
  then mkWaiter (w_channelId wt) (w_phrase wt) true false
  else wt.

Lemma settled_settled id wt : settled id (settled id wt) = settled id wt.
Proof.
  unfold settled. destruct (String.eqb id (w_channelId wt)) eqn:E; cbn; now rewrite E.
Qed.

(** Calling listeners changes the waiters only: the ones called are
    settled, the others are left as they are; the promises resolved are
    those of the called waiters of call [id] that were not resolved. *)
Lemma call_listeners_other id : forall ws s,
  exists resolved s1 l,
    runs (call_listeners ws id) s resolved s1 l
    /\ cleanedChannels s1 = cleanedChannels s
    /\ cleanupPromises s1 = cleanupPromises s
    /\ (forall i wt, waiters s !! i = Some wt ->
          waiters s1 !! i = Some (if bool_decide (i ∈ ws) then settled id wt else wt))
    /\ (forall i, i ∈ resolved ->
          exists wt, waiters s !! i = Some wt /\ w_channelId wt = id)
    /\ (forall i wt, i ∈ ws -> waiters s !! i = Some wt -> w_channelId wt = id ->
          w_resolved wt = false -> i ∈ resolved).
Proof.
  induction ws as [|w' ws IH]; intros s.
  - exists [], s, []. split; [reflexivity|]. split; [reflexivity|]. split; [reflexivity|].
    split; [intros i wt Hi; rewrite bool_decide_eq_false_2 by apply not_elem_of_nil; exact Hi|].
    split; [intros i Hi; now apply elem_of_nil in Hi|].
    intros i wt Hi. now apply elem_of_nil in Hi.
  - destruct (waiters s !! w') as [wt|] eqn:Hw.
    + destruct (decide (w_channelId wt = id)) as [Hid|Hid].
      * pose proof (onFinished_hit w' wt s Hw) as Hhit. rewrite Hid in Hhit.
        set (s' := set_waiters (<[w' := mkWaiter id (w_phrase wt) true false]> (waiters s)) s)
          in Hhit.
        assert (Hlt : (w' < length (waiters s))%nat) by (eapply lookup_lt_Some; exact Hw).
        assert (Hset : settled id wt = mkWaiter id (w_phrase wt) true false).
        { unfold settled. rewrite Hid, String.eqb_refl. reflexivity. }
        destruct (IH s') as (resolved & s1 & l & Hrun & Hc & Hp & Hkeep & Hres & Hall).
        exists (if negb (w_resolved wt) then w' :: resolved else resolved), s1,
          ([Log LInfo ("RTP drain finished for " +:+ id +:+ " prior to terminate")] ++ l).
        split.
        { cbn [call_listeners]. eapply runs_trace; cycle 1.
          - eapply runs_bind; [exact Hhit|]. eapply runs_bind; [exact Hrun|]. reflexivity.
          - now rewrite app_nil_r. }
        split; [exact Hc|]. split; [exact Hp|].
        split; [|split].
        { intros i wt0 Hi. destruct (decide (i = w')) as [->|Hne].
          - rewrite Hw in Hi. injection Hi as <-.
            rewrite (bool_decide_eq_true_2 _ (list_elem_of_here w' ws)).
            rewrite (Hkeep w' (mkWaiter id (w_phrase wt) true false)
                       ltac:(apply list_lookup_insert_eq; exact Hlt)).
            rewrite <- Hset, settled_settled. now destruct (bool_decide (w' ∈ ws)).
          - rewrite (Hkeep i wt0 ltac:(cbn; rewrite list_lookup_insert_ne by congruence;
                                       exact Hi)).
            f_equal. destruct (bool_decide (i ∈ ws)) eqn:E.
            + apply bool_decide_eq_true_1 in E.
              now rewrite (bool_decide_eq_true_2 _ (list_elem_of_further i w' ws E)).
            + apply bool_decide_eq_false_1 in E.
              rewrite bool_decide_eq_false_2; [reflexivity|].
              intros Hin. apply elem_of_cons in Hin. destruct Hin; [congruence|contradiction]. }
        { intros i Hi.
          assert (Hin : i = w' \/ i ∈ resolved).
          { destruct (negb (w_resolved wt)); [|now right].
            apply elem_of_cons in Hi. exact Hi. }
          destruct Hin as [->|Hin]; [exists wt; split; [exact Hw|exact Hid]|].
          destruct (Hres i Hin) as (wt0 & H1 & H2).
          destruct (decide (i = w')) as [->|Hne]; [exists wt; split; [exact Hw|exact Hid]|].
          exists wt0. split; [|exact H2].
          cbn in H1. rewrite list_lookup_insert_ne in H1 by congruence. exact H1. }
        { intros i wt0 Hin Hi Hch Hun.
          destruct (decide (i = w')) as [->|Hne].
          - rewrite Hw in Hi. injection Hi as <-. rewrite Hun. left.
          - assert (Hin' : i ∈ ws).
            { apply elem_of_cons in Hin. destruct Hin; [congruence|assumption]. }
            assert (Hres' : i ∈ resolved).
            { apply (Hall i wt0 Hin'); [|exact Hch|exact Hun].
              cbn. rewrite list_lookup_insert_ne by congruence. exact Hi. }
            destruct (negb (w_resolved wt)); [right|]; exact Hres'. }
      * assert (Hmiss : forall wt0, waiters s !! w' = Some wt0 -> w_channelId wt0 <> id).
        { intros wt0 E. rewrite Hw in E. injection E as <-. exact Hid. }
        assert (Hsame : settled id wt = wt).
        { unfold settled. destruct (String.eqb_spec id (w_channelId wt)); [congruence|reflexivity]. }
        destruct (IH s) as (resolved & s1 & l & Hrun & Hc & Hp & Hkeep & Hres & Hall).
        exists resolved, s1, l.
        split; [apply listeners_miss_step; [exact Hmiss|exact Hrun]|].
        split; [exact Hc|]. split; [exact Hp|]. split; [|split; [exact Hres|]].
        { intros i wt0 Hi. rewrite (Hkeep i wt0 Hi). f_equal.
          destruct (decide (i = w')) as [->|Hne].
          - rewrite Hw in Hi. injection Hi as <-.
            rewrite (bool_decide_eq_true_2 _ (list_elem_of_here w' ws)), Hsame.
            now destruct (bool_decide (w' ∈ ws)).
          - destruct (bool_decide (i ∈ ws)) eqn:E.
            + apply bool_decide_eq_true_1 in E.
              now rewrite (bool_decide_eq_true_2 _ (list_elem_of_further i w' ws E)).
            + apply bool_decide_eq_false_1 in E.
              rewrite bool_decide_eq_false_2; [reflexivity|].
              intros Hin. apply elem_of_cons in Hin. destruct Hin; [congruence|contradiction]. }
        { intros i wt0 Hin Hi Hch Hun.
          apply elem_of_cons in Hin. destruct Hin as [->|Hin].
          - rewrite Hw in Hi. injection Hi as <-. contradiction.
          - apply (Hall i wt0 Hin Hi Hch Hun). }
    + assert (Hmiss : forall wt0, waiters s !! w' = Some wt0 -> w_channelId wt0 <> id).
      { intros wt0 E. rewrite Hw in E. discriminate. }
      destruct (IH s) as (resolved & s1 & l & Hrun & Hc & Hp & Hkeep & Hres & Hall).
      exists resolved, s1, l.
      split; [apply listeners_miss_step; [exact Hmiss|exact Hrun]|].
      split; [exact Hc|]. split; [exact Hp|]. split; [|split; [exact Hres|]].
      { intros i wt0 Hi. rewrite (Hkeep i wt0 Hi). f_equal.
        assert (Hne : i <> w') by (intros ->; rewrite Hw in Hi; discriminate).
        destruct (bool_decide (i ∈ ws)) eqn:E.
        + apply bool_decide_eq_true_1 in E.
          now rewrite (bool_decide_eq_true_2 _ (list_elem_of_further i w' ws E)).
        + apply bool_decide_eq_false_1 in E.
          rewrite bool_decide_eq_false_2; [reflexivity|].
          intros Hin. apply elem_of_cons in Hin. destruct Hin; [congruence|contradiction]. }
      { intros i wt0 Hin Hi Hch Hun.
        apply elem_of_cons in Hin. destruct Hin as [->|Hin].
        - rewrite Hw in Hi. discriminate.
        - apply (Hall i wt0 Hin Hi Hch Hun). }
Qed.

(** The continuation of a resolved wait for another call than [ch]. *)
Lemma after_wait_other ch w' wt s :
  waiters s !! w' = Some wt ->
  w_channelId wt <> ch ->
  exists s' l, runs (after_wait w') s tt s' l /\ spared ch s s'.
Proof.
  intros Hw Hne.
  assert (Hstep : after_wait w' s
                  = cleanupChannel (w_channelId wt) (terminate_reason (w_phrase wt)) s).
  { unfold after_wait.
    rewrite (bind_run (gets (fun st => waiters st)) _ s (waiters s) s eq_refl).
    rewrite Hw. reflexivity. }
  destruct (cleanupChannel_returns (w_channelId wt) (terminate_reason (w_phrase wt)) s)
    as (l & s' & Hrun).
  exists s', l. split; [unfold runs; rewrite Hstep; exact Hrun|].
  destruct (cleanupChannel_spares ch _ (terminate_reason (w_phrase wt)) Hne s) as [Hsp _].
  apply runs_effects in Hrun. destruct Hrun as (_ & <- & _). exact Hsp.
Qed.

Lemma continue_all_spares ch : forall resolved s,
  (forall i, i ∈ resolved -> exists wt, waiters s !! i = Some wt /\ w_channelId wt <> ch) ->
  exists s' l, runs (continue_all resolved) s tt s' l /\ spared ch s s'.
Proof.
  induction resolved as [|i rest IH]; intros s Hall.
  - exists s, []. split; [reflexivity|apply spared_refl].
  - destruct (Hall i ltac:(left)) as (wt & Hw & Hne).
    destruct (after_wait_other ch i wt s Hw Hne) as (s1 & l1 & Hrun1 & Hsp1).
    destruct (IH s1) as (s2 & l2 & Hrun2 & Hsp2).
    { intros j Hj. destruct (Hall j ltac:(right; exact Hj)) as (wt0 & Hw0 & Hne0).
      exists wt0. split; [|exact Hne0]. destruct Hsp1 as (-> & _). exact Hw0. }
    exists s2, (l1 ++ l2). split.
    + cbn [continue_all]. eapply runs_bind; [exact Hrun1|exact Hrun2].
    + eapply spared_trans; eassumption.
Qed.

(** An [audioFinished] for another call: whatever it ends and cleans up,
    the waiters of call [ch] stay as they are and [ch] stays out of the
    cleaned set. *)
Lemma emit_other_spares ch id s :
  id <> ch ->
  exists s' l,
    runs (emit_audioFinished id) s tt s' l
    /\ (ch ∈ cleanedChannels s' -> ch ∈ cleanedChannels s)
    /\ (forall i wt, waiters s !! i = Some wt -> w_channelId wt = ch ->
          waiters s' !! i = Some wt).
Proof.
  intros Hne.
  destruct (call_listeners_other id (subscribed 0 (waiters s)) s)
    as (resolved & s1 & l1 & Hrun1 & Hc & _ & Hkeep & Hres & _).
  destruct (continue_all_spares ch resolved s1) as (s2 & l2 & Hrun2 & Hw2 & Hc2 & _).
  { intros i Hi. destruct (Hres i Hi) as (wt & Hw & Hid).
    eexists. split; [exact (Hkeep i wt Hw)|].
    destruct (bool_decide (i ∈ subscribed 0 (waiters s))); [|congruence].
    unfold settled. destruct (String.eqb id (w_channelId wt)); cbn; congruence. }
  exists s2, (l1 ++ l2). split; [|split].
  - unfold emit_audioFinished.
    unfold runs. rewrite (bind_run (gets _) _ s (subscribed 0 (waiters s)) s eq_refl).
    eapply runs_bind; [exact Hrun1|exact Hrun2].
  - intros Hin. rewrite <- Hc. exact (Hc2 Hin).
  - intros i wt Hw Hch. rewrite Hw2, (Hkeep i wt Hw). f_equal.
    destruct (bool_decide (i ∈ subscribed 0 (waiters s))); [|reflexivity].
    unfold settled. destruct (String.eqb_spec id (w_channelId wt)); [congruence|reflexivity].
Qed.

(** The callback of the fallback timer of waiter [w']. *)
Lemma onFallback_run w' wt s :
  waiters s !! w' = Some wt ->
  onFallback w' s
  = (Ret (negb (w_resolved wt)),
     set_waiters (<[w' := mkWaiter (w_channelId wt) (w_phrase wt) true false]> (waiters s)) s,
     [Log LWarn "Terminate fallback timeout reached"]).
Proof.
  intros Hw.
  assert (Hlt : (w' < length (waiters s))%nat) by (eapply lookup_lt_Some; exact Hw).
  unfold onFallback.
  rewrite (bind_run _ _ _ _ _ (waiter_off_run w' _ s Hw)).
  rewrite bind_log_run.
  erewrite waiter_done_run by (cbn; apply list_lookup_insert_eq; exact Hlt).
  cbn [w_resolved w_channelId w_phrase w_listening].
  destruct (w_resolved wt) eqn:Hres; cbn [negb].
  - reflexivity.
  - cbn. rewrite list_insert_insert_eq. reflexivity.
Qed.

(** The fallback timer of a wait for another call. *)
Lemma fallback_other_spares ch w' wt s :
  waiters s !! w' = Some wt ->
  w_channelId wt <> ch ->
  exists s' l,
    runs (run_action (TA_terminateFallback w')) s tt s' l
    /\ (ch ∈ cleanedChannels s' -> ch ∈ cleanedChannels s)
    /\ (forall i wt0, waiters s !! i = Some wt0 -> w_channelId wt0 = ch ->
          waiters s' !! i = Some wt0).
Proof.
  intros Hw Hne.
  assert (Hlt : (w' < length (waiters s))%nat) by (eapply lookup_lt_Some; exact Hw).
  pose proof (onFallback_run w' wt s Hw) as Hfb.
  set (s1 := set_waiters (<[w' := mkWaiter (w_channelId wt) (w_phrase wt) true false]>
                            (waiters s)) s) in Hfb.
  assert (Hsame : forall i wt0, waiters s !! i = Some wt0 -> w_channelId wt0 = ch ->
                    waiters s1 !! i = Some wt0).
  { intros i wt0 Hi Hch. cbn. rewrite list_lookup_insert_ne; [exact Hi|].
    intros ->. rewrite Hw in Hi. injection Hi as <-. contradiction. }
  cbn [run_action].
  destruct (w_resolved wt); cbn [negb] in Hfb.
  - exists s1, ([Log LWarn "Terminate fallback timeout reached"] ++ []).
    split; [eapply runs_bind; [exact Hfb|reflexivity]|].
    split; [auto|exact Hsame].
  - destruct (after_wait_other ch w' (mkWaiter (w_channelId wt) (w_phrase wt) true false) s1)
      as (s2 & l2 & Hrun2 & Hw2 & Hc2 & _).
    { cbn. apply list_lookup_insert_eq. exact Hlt. }
    { exact Hne. }
    exists s2, ([Log LWarn "Terminate fallback timeout reached"] ++ l2).
    split; [eapply runs_bind; [exact Hfb|exact Hrun2]|].
    split; [exact Hc2|].
    intros i wt0 Hi Hch. rewrite Hw2. now apply Hsame.
Qed.

(** The two events that end the wait of waiter [w] for call [ch]: what
    follows is the cleanup of the call. *)
Lemma after_wait_over w ch ph s :
  waiters s !! w = Some (mkWaiter ch ph true false) ->
  after_wait w s = cleanupChannel ch (terminate_reason ph) s.
Proof.
  intros Hs. unfold after_wait.
  rewrite (bind_run (gets (fun st => waiters st)) _ s (waiters s) s eq_refl).
  rewrite Hs. reflexivity.
Qed.

Lemma fallback_ends_wait w ch ph s :
  waiters s !! w = Some (mkWaiter ch ph false true) ->
  run_action (TA_terminateFallback w) s
  = (let '(o, s', l) := cleanupChannel ch (terminate_reason ph) (wait_over w ch ph s) in
     (o, s', Log LWarn "Terminate fallback timeout reached" :: l)).
Proof.
  intros Hw.
  assert (Hlt : (w < length (waiters s))%nat) by (eapply lookup_lt_Some; exact Hw).
  pose proof (onFallback_run w _ s Hw) as Hfb.
  cbn [w_resolved w_channelId w_phrase negb] in Hfb. fold (wait_over w ch ph s) in Hfb.
  cbn [run_action]. unfold mbind, comp_bind. rewrite Hfb.
  rewrite (after_wait_over w ch ph (wait_over w ch ph s) (wait_over_lookup w ch ph s Hlt)).
  destruct (cleanupChannel _ _ _) as [[o s'] l]. reflexivity.
Qed.

Lemma emit_ends_wait w ch ph s :
  waiters s !! w = Some (mkWaiter ch ph false true) ->
  (forall i wt, i <> w -> waiters s !! i = Some wt -> w_listening wt = true ->
     w_channelId wt <> ch) ->
  emit_audioFinished ch s
  = (let '(o, s', l) := cleanupChannel ch (terminate_reason ph) (wait_over w ch ph s) in
     (o, s', Log LInfo ("RTP drain finished for " +:+ ch +:+ " prior to terminate") :: l)).
Proof.
  intros Hw Hno.
  assert (Hlt : (w < length (waiters s))%nat) by (eapply lookup_lt_Some; exact Hw).
  unfold emit_audioFinished.
  rewrite (bind_run (gets _) _ s (subscribed 0 (waiters s)) s eq_refl).
  pose proof (listeners_hit w ch ph (waiters s) 0 s eq_refl (Nat.le_0_l _) Hw Hno) as Hhit.
  unfold mbind, comp_bind. rewrite Hhit. cbn [continue_all].
  unfold mbind, comp_bind.
  rewrite (after_wait_over w ch ph (wait_over w ch ph s) (wait_over_lookup w ch ph s Hlt)).
  destruct (cleanupChannel_returns ch (terminate_reason ph) (wait_over w ch ph s))
    as (l & s' & Hrun).
  unfold runs in Hrun. rewrite Hrun. cbn. rewrite app_nil_r. reflexivity.
Qed.

(** Once the wait is over, the fallback timer only logs. *)
Lemma fallback_over w ch ph s :
  waiters s !! w = Some (mkWaiter ch ph true false) ->
  run_action (TA_terminateFallback w) s
  = (Ret tt, s, [Log LWarn "Terminate fallback timeout reached"]).
Proof.
  intros Hw. pose proof (onFallback_run w _ s Hw) as Hfb.
  cbn [w_resolved w_channelId w_phrase negb] in Hfb.
  rewrite list_insert_id in Hfb by exact Hw.
  cbn [run_action]. unfold mbind, comp_bind. rewrite Hfb. reflexivity.
Qed.

Lemma subscribed_listening : forall wl k i,
  i ∈ subscribed k wl ->
  exists wt, wl !! (i - k)%nat = Some wt /\ (k <= i)%nat /\ w_listening wt = true.
Proof.
  induction wl as [|wt wl IH]; intros k i Hi; [now apply elem_of_nil in Hi|].
  cbn [subscribed] in Hi.
  assert (Hlater : i ∈ subscribed (S k) wl ->
            exists wt0, (wt :: wl) !! (i - k)%nat = Some wt0 /\ (k <= i)%nat
                        /\ w_listening wt0 = true).
  { intros Hin. destruct (IH (S k) i Hin) as (wt0 & Hl & Hle & Hon).
    exists wt0. split; [|split; [lia|exact Hon]].
    replace (i - k)%nat with (S (i - S k)) by lia. exact Hl. }
  destruct (w_listening wt) eqn:Hl; [|now apply Hlater].
  apply elem_of_cons in Hi. destruct Hi as [->|Hi]; [|now apply Hlater].
  exists wt. rewrite Nat.sub_diag. split; [reflexivity|split; [lia|exact Hl]].
Qed.

Lemma subscribed_complete : forall wl k i wt,
  wl !! i = Some wt -> w_listening wt = true -> (k + i)%nat ∈ subscribed k wl.
Proof.
  induction wl as [|wt0 wl IH]; intros k i wt Hi Hl; [discriminate|].
  cbn [subscribed]. destruct i as [|i].
  - cbn in Hi. injection Hi as ->. rewrite Hl, Nat.add_0_r. left.
  - cbn in Hi. replace (k + S i)%nat with (S k + i)%nat by lia.
    destruct (w_listening wt0); [right|]; apply (IH (S k) i wt Hi Hl).
Qed.

(** No cleanup of call [ch] is under way unless [ch] is in the cleaned set. *)
Definition settled_promises (ch : string) (s : State) : Prop :=
  ch ∈ cleanupPromises s -> ch ∈ cleanedChannels s.

(** The continuation of any resolved wait: the waiters stay, the cleaned
    set grows, and the call of the waiter is in it afterwards. *)
Lemma after_wait_frame ch i s :
  exists s' l,
    runs (after_wait i) s tt s' l
    /\ waiters s' = waiters s
    /\ (forall c, c ∈ cleanedChannels s -> c ∈ cleanedChannels s')
    /\ (settled_promises ch s -> settled_promises ch s')
    /\ (forall wt, waiters s !! i = Some wt -> w_channelId wt = ch ->
          settled_promises ch s -> ch ∈ cleanedChannels s').
Proof.
  destruct (waiters s !! i) as [wt|] eqn:Hw.
  - assert (Hstep : after_wait i s
                    = cleanupChannel (w_channelId wt) (terminate_reason (w_phrase wt)) s).
    { unfold after_wait.
      rewrite (bind_run (gets (fun st => waiters st)) _ s (waiters s) s eq_refl).
      rewrite Hw. reflexivity. }
    destruct (cleanupChannel_emails (w_channelId wt) (w_channelId wt)
                (terminate_reason (w_phrase wt)) s) as (l & s' & Hrun & Hin & _).
    destruct (cleanupChannel_grows (w_channelId wt) (terminate_reason (w_phrase wt)) s)
      as (Hwt & Hmono).
    pose proof Hrun as Hexec. apply runs_effects in Hexec. destruct Hexec as (_ & Hexec & _).
    rewrite Hexec in Hwt, Hmono.
    exists s', l. split; [unfold runs; rewrite Hstep; exact Hrun|].
    split; [exact Hwt|]. split; [exact Hmono|]. split.
    + intros Hinv Hpr. destruct (decide (w_channelId wt = ch)) as [Hch|Hch].
      * rewrite <- Hch. apply Hin. rewrite Hch. exact Hinv.
      * destruct (cleanupChannel_spares ch _ (terminate_reason (w_phrase wt)) Hch s)
          as [(_ & _ & Hp & _) _].
        rewrite Hexec in Hp. apply Hmono, Hinv, Hp, Hpr.
    + intros wt0 E Hch Hinv. injection E as <-. rewrite <- Hch. apply Hin.
      rewrite Hch. exact Hinv.
  - exists s, []. split.
    { unfold runs, after_wait.
      rewrite (bind_run (gets (fun st => waiters st)) _ s (waiters s) s eq_refl).
      rewrite Hw. reflexivity. }
    split; [reflexivity|]. split; [auto|]. split; [auto|]. intros wt E. discriminate.
Qed.

Lemma continue_all_cleans ch : forall resolved s,
  exists s' l,
    runs (continue_all resolved) s tt s' l
    /\ waiters s' = waiters s
    /\ (forall c, c ∈ cleanedChannels s -> c ∈ cleanedChannels s')
    /\ (settled_promises ch s -> settled_promises ch s')
    /\ ((exists i wt, i ∈ resolved /\ waiters s !! i = Some wt /\ w_channelId wt = ch) ->
        settled_promises ch s -> ch ∈ cleanedChannels s').
Proof.
  induction resolved as [|i rest IH]; intros s.
  - exists s, []. split; [reflexivity|]. split; [reflexivity|]. split; [auto|]. split; [auto|].
    intros (j & wt & Hj & _). now apply elem_of_nil in Hj.
  - destruct (after_wait_frame ch i s) as (s1 & l1 & Hrun1 & Hw1 & Hmono1 & Hinv1 & Hcl1).
    destruct (IH s1) as (s2 & l2 & Hrun2 & Hw2 & Hmono2 & Hinv2 & Hcl2).
    exists s2, (l1 ++ l2).
    split; [cbn [continue_all]; eapply runs_bind; [exact Hrun1|exact Hrun2]|].
    split; [congruence|]. split; [auto|]. split; [auto|].
    intros (j & wt & Hj & Hlk & Hch) Hinv.
    apply elem_of_cons in Hj. destruct Hj as [->|Hj].
    + apply Hmono2, (Hcl1 wt Hlk Hch Hinv).
    + apply Hcl2; [|apply Hinv1, Hinv].
      exists j, wt. split; [exact Hj|]. split; [rewrite Hw1; exact Hlk|exact Hch].
Qed.

(** The [audioFinished] of the call ends the wait and starts the cleanup,
    whoever else is listening. *)
Lemma emit_own_cleans w ch ph s :
  waiters s !! w = Some (mkWaiter ch ph false true) ->
  settled_promises ch s ->
  exists s' l,
    runs (emit_audioFinished ch) s tt s' l
    /\ waiters s' !! w = Some (mkWaiter ch ph true false)
    /\ ch ∈ cleanedChannels s'.
Proof.
  intros Hw Hinv.
  assert (Hsub : w ∈ subscribed 0 (waiters s))
    by (apply (subscribed_complete (waiters s) 0 w _ Hw); reflexivity).
  destruct (call_listeners_other ch (subscribed 0 (waiters s)) s)
    as (resolved & s1 & l1 & Hrun1 & Hc & Hp & Hkeep & _ & Hall).
  assert (Hw1 : waiters s1 !! w = Some (mkWaiter ch ph true false)).
  { rewrite (Hkeep w _ Hw), (bool_decide_eq_true_2 _ Hsub).
    unfold settled. cbn. now rewrite String.eqb_refl. }
  assert (Hres : w ∈ resolved) by (apply (Hall w _ Hsub Hw); reflexivity).
  destruct (continue_all_cleans ch resolved s1) as (s2 & l2 & Hrun2 & Hw2 & _ & _ & Hcl2).
  exists s2, (l1 ++ l2). split; [|split].
  - unfold emit_audioFinished.
    unfold runs. rewrite (bind_run (gets _) _ s (subscribed 0 (waiters s)) s eq_refl).
    eapply runs_bind; [exact Hrun1|exact Hrun2].
  - rewrite Hw2. exact Hw1.
  - apply Hcl2.
    + exists w, (mkWaiter ch ph true false). split; [exact Hres|]. split; [exact Hw1|reflexivity].
    + unfold settled_promises. rewrite Hc, Hp. exact Hinv.
Qed.

(** C1. A terminate phrase in an assistant transcript only records the
    request: handling the event makes no call but log lines, the
    transcript write and the redirect hook, leaves the cleaned set, the
    suspended cleanups and the waiters as they are, and leaves the request
    and its reason set in the session. When the request reaches
    [terminateAfterPlayback] for a live call, cleanup is what follows at
    once only if the stream handler's buffers are empty; otherwise nothing
    is called, no cleanup is begun, and one listener and one timer of
    [TERMINATE_FALLBACK_MS] (8000 ms unless the environment sets it) are
    set. While that wait is on, an [audioFinished] emitted for another
    call, and the fallback timer of a wait for another call, leave the
    wait on and the call out of the cleaned set, whatever they end and
    clean up, and the listener itself does nothing on them; the
    [audioFinished] emitted for this call and the firing of this fallback
    timer each end the wait, and [cleanupChannel] for the call with reason
    [assistant-terminate:<phrase>] is what follows (when other waits for
    the same call are listening too, the call is in the cleaned set once
    the event has been handled). Once the wait is over,
    the fallback timer only logs and the listener is no longer subscribed,
    so the cleanup is started once. A started cleanup puts the call in the
    cleaned set at once. *)
Theorem terminate_waits_for_playback (ch ph : string) (r : nat) (st : State) :
  map_get (sipMap st) ch = Some r ->
  CD.redirecting (obj st r) = false ->
  CD._cleaned (obj st r) = false ->
  ch ∉ cleanedChannels st ->
  let w := length (waiters st) in
  let t := nextTimer st in
  let reason := "assistant-terminate:" +:+ ph in
  let drained := Log LInfo ("RTP drain finished for " +:+ ch +:+ " prior to terminate") in
  let timed_out := Log LWarn "Terminate fallback timeout reached" in
  let over := fun (s : State) =>
    set_waiters (<[w := mkWaiter ch ph true false]> (waiters s)) s in
  let alone := fun (id : string) (s : State) =>
    forall i wt, i <> w -> waiters s !! i = Some wt -> w_listening wt = true ->
                 w_channelId wt <> id in
  (forall response s,
     getprop response "type" = Some (VStr "response.audio_transcript.done") ->
     Forall transcript_call (effects (processMessage response) s)
     /\ sess_frame s (exec (processMessage response) s)
     /\ (forall txt matched,
           getprop response "transcript" = Some (VStr txt) ->
           txt <> "" ->
           find_phrase (AGENT_TERMINATE_PHRASES cfg) (normalizeNFKC P (toLowerCase txt))
           = Some matched ->
           matched <> "" ->
           Sess.terminateRequested (fst (exec (processMessage response) s)) = true
           /\ Sess.terminateReason (fst (exec (processMessage response) s)) = Some matched))
  /\ (if isQueueEmpty (CD.streamHandler (obj st r)) then
        exists l st',
          runs (cleanupChannel ch reason) (intent_marked ch r st) tt st' l
          /\ exec (terminateAfterPlayback ch ph) st = st'
          /\ calls (effects (terminateAfterPlayback ch ph) st) = calls l
      else
        exists st2 l,
          runs (terminateAfterPlayback ch ph) st tt st2 l
          /\ calls l = []
          /\ cleanedChannels st2 = cleanedChannels st
          /\ cleanupPromises st2 = cleanupPromises st
          /\ pending st2 = pending st
          /\ waiters st2 = waiters st ++ [mkWaiter ch ph false true]
          /\ waiters st2 !! w = Some (mkWaiter ch ph false true)
          /\ timers st2 = <[t := mkTimer fallbackMs (TA_terminateFallback w)]> (timers st)
          /\ fire_timer t st2
             = (let '(o, s', l) :=
                  cleanupChannel ch reason
                    (over (set_timers (delete t (timers st2)) st2)) in
                (o, s', timed_out :: l))
          /\ (alone ch st ->
              emit_audioFinished ch st2
              = (let '(o, s', l) := cleanupChannel ch reason (over st2) in
                 (o, s', drained :: l)))
          /\ (forall id, id <> ch -> alone id st -> emit_audioFinished id st2 = (Ret tt, st2, []))
          /\ (forall evs, wait_flags w evs st2 = first_only ch evs))
  /\ (forall s,
        waiters s !! w = Some (mkWaiter ch ph false true) ->
        (forall id, id <> ch ->
           onFinished w id s = (Ret false, s, [])
           /\ (alone id s -> emit_audioFinished id s = (Ret tt, s, []))
           /\ exists s' l,
                runs (emit_audioFinished id) s tt s' l
                /\ waiters s' !! w = Some (mkWaiter ch ph false true)
                /\ (ch ∉ cleanedChannels s -> ch ∉ cleanedChannels s'))
        /\ (forall w' wt,
              waiters s !! w' = Some wt -> w_channelId wt <> ch ->
              exists s' l,
                runs (run_action (TA_terminateFallback w')) s tt s' l
                /\ waiters s' !! w = Some (mkWaiter ch ph false true)
                /\ (ch ∉ cleanedChannels s -> ch ∉ cleanedChannels s'))
        /\ onFinished w ch s = (Ret true, over s, [drained])
        /\ (alone ch s ->
            emit_audioFinished ch s
            = (let '(o, s', l) := cleanupChannel ch reason (over s) in
               (o, s', drained :: l)))
        /\ run_action (TA_terminateFallback w) s
           = (let '(o, s', l) := cleanupChannel ch reason (over s) in
              (o, s', timed_out :: l))
        /\ ((ch ∈ cleanupPromises s -> ch ∈ cleanedChannels s) ->
            exists s' l,
              runs (emit_audioFinished ch) s tt s' l
              /\ waiters s' !! w = Some (mkWaiter ch ph true false)
              /\ ch ∈ cleanedChannels s'))
  /\ (forall s,
        waiters s !! w = Some (mkWaiter ch ph true false) ->
        after_wait w s = cleanupChannel ch reason s
        /\ run_action (TA_terminateFallback w) s = (Ret tt, s, [timed_out])
        /\ (w ∉ subscribed 0 (waiters s))
        /\ (forall id, alone id s -> emit_audioFinished id s = (Ret tt, s, [])))
  /\ (forall s reason',
        (ch ∈ cleanupPromises s -> ch ∈ cleanedChannels s) ->
        exists s' l, runs (cleanupChannel ch reason') s tt s' l /\ ch ∈ cleanedChannels s')
  /\ (TERMINATE_FALLBACK_MS_env env = None -> fallbackMs = 8000%float).
Proof.
  intros Hreg Hred Hnc Hcl w t reason drained timed_out over alone.
  change reason with (terminate_reason ph).
  change over with (wait_over w ch ph). clear over.
  split; [|split; [|split; [|split; [|split]]]].
  - intros response s Hty.
    assert (Hbody : processMessage_body response s = on_transcript_done response s)
      by (apply processMessage_body_transcript; exact Hty).
    split; [|split].
    + destruct (processMessage_returns response s) as (r0 & s' & l & Hrun & Hb).
      apply runs_effects in Hrun. destruct Hrun as (-> & _ & _).
      destruct (on_transcript_done_keeps response s) as [_ Hq].
      unfold effects in Hq. rewrite Hbody in Hb.
      destruct (on_transcript_done response s) as [[[r1|e] s1] l1]; cbn in Hq.
      * destruct Hb as (_ & _ & ->). exact Hq.
      * destruct Hb as (_ & _ & ->). apply Forall_app_2; [exact Hq|].
        repeat constructor.
    + rewrite exec_processMessage. unfold exec. rewrite Hbody.
      apply (on_transcript_done_keeps response s).
    + intros txt matched Htx Hne Hfind Hm.
      rewrite exec_processMessage. unfold exec at 1 2. rewrite Hbody.
      apply (transcript_done_arms response txt matched s Htx Hne Hfind Hm).
  - pose proof (terminateAfterPlayback_live ch ph r st Hreg Hred Hnc Hcl) as Hlive.
    destruct (isQueueEmpty (CD.streamHandler (obj st r))).
    + destruct (cleanupChannel_emails ch ch (terminate_reason ph) (intent_marked ch r st))
        as (l & st' & Hrun & _).
      exists l, st'. split; [exact Hrun|].
      unfold exec, effects. rewrite Hlive, bind_log_run.
      unfold runs in Hrun. rewrite Hrun. split; reflexivity.
    + set (s1 := intent_marked ch r st).
      set (s2 := set_waiters (waiters s1 ++ [mkWaiter ch ph false true]) s1).
      set (s3 := set_nextTimer (S (nextTimer s2))
                   (set_timers (<[nextTimer s2 := mkTimer fallbackMs (TA_terminateFallback w)]>
                                  (timers s2)) s2)).
      assert (Hrun : terminateAfterPlayback ch ph st
                     = (Ret tt, s3,
                        [Log LInfo ("Assistant termination phrase matched for " +:+ ch
                                    +:+ "; will terminate after playback completes")])).
      { rewrite Hlive, bind_log_run.
        rewrite (bind_run (gets (fun st => length (waiters st))) _ s1 w s1 eq_refl).
        rewrite (bind_run (modify (fun st => set_waiters (waiters st ++ [mkWaiter ch ph false true]) st))
                   _ s1 tt s2 eq_refl).
        rewrite (bind_run (setTimeout _ _) _ s2 (nextTimer s2) s3 eq_refl).
        reflexivity. }
      assert (Hw : waiters s3 !! w = Some (mkWaiter ch ph false true)).
      { change (waiters s3) with (waiters st ++ [mkWaiter ch ph false true]).
        unfold w. apply list_lookup_middle. reflexivity. }
      assert (Halone : forall id, alone id st -> alone id s3).
      { intros id Hal i wt Hi Hl. apply (Hal i wt Hi).
        change (waiters s3) with (waiters st ++ [mkWaiter ch ph false true]) in Hl.
        apply lookup_app_Some in Hl. destruct Hl as [Hl|[Hge Hl]]; [exact Hl|].
        apply list_lookup_singleton_Some in Hl. destruct Hl as [Hz _]. unfold w in Hi. lia. }
      exists s3, [Log LInfo ("Assistant termination phrase matched for " +:+ ch
                             +:+ "; will terminate after playback completes")].
      split; [exact Hrun|]. split; [reflexivity|].
      split; [reflexivity|]. split; [reflexivity|]. split; [reflexivity|].
      split; [reflexivity|]. split; [exact Hw|]. split; [reflexivity|].
      split; [|split; [|split]].
      * unfold fire_timer.
        rewrite (bind_run (gets (fun s => timers s !! t)) _ s3 (timers s3 !! t) s3 eq_refl).
        assert (Hlk : timers s3 !! t = Some (mkTimer fallbackMs (TA_terminateFallback w)))
          by apply lookup_insert_eq.
        rewrite Hlk.
        rewrite (bind_run (clearTimeout t) _ s3 tt (set_timers (delete t (timers s3)) s3) eq_refl).
        cbn [action]. apply fallback_ends_wait. exact Hw.
      * intros Hal. apply emit_ends_wait; [exact Hw|apply Halone, Hal].
      * intros id Hid Hal. apply emit_miss. intros i wt Hi Hl.
        destruct (decide (i = w)) as [->|Hne].
        -- rewrite Hw in Hi. injection Hi as <-. cbn. congruence.
        -- apply (Halone id Hal i wt Hne Hi Hl).
      * intros evs. apply (wait_flags_first w ch ph evs s3 Hw).
  - intros s Hs. split; [|split; [|split; [|split; [|split]]]].
    + intros id Hid. split; [|split].
      * apply onFinished_miss. intros wt E. rewrite Hs in E. injection E as <-. cbn. congruence.
      * intros Hal. apply emit_miss. intros i wt Hi Hl.
        destruct (decide (i = w)) as [->|Hne].
        -- rewrite Hs in Hi. injection Hi as <-. cbn. congruence.
        -- apply (Hal i wt Hne Hi Hl).
      * destruct (emit_other_spares ch id s Hid) as (s' & l & Hrun & Hc & Hkeep).
        exists s', l. split; [exact Hrun|]. split; [apply (Hkeep w _ Hs); reflexivity|].
        intros Hout Hin. apply Hout, Hc, Hin.
    + intros w' wt Hw' Hne.
      destruct (fallback_other_spares ch w' wt s Hw' Hne) as (s' & l & Hrun & Hc & Hkeep).
      exists s', l. split; [exact Hrun|]. split; [apply (Hkeep w _ Hs); reflexivity|].
      intros Hout Hin. apply Hout, Hc, Hin.
    + apply (onFinished_hit w _ s Hs).
    + intros Hal. apply emit_ends_wait; [exact Hs|exact Hal].
    + apply fallback_ends_wait. exact Hs.
    + intros Hinv. apply (emit_own_cleans w ch ph s Hs Hinv).
  - intros s Hs. split; [|split; [|split]].
    + apply after_wait_over. exact Hs.
    + apply (fallback_over w ch ph s Hs).
    + intros Hin. apply subscribed_listening in Hin.
      destruct Hin as (wt & Hl & _ & Hon). rewrite Nat.sub_0_r, Hs in Hl.
      injection Hl as <-. discriminate.
    + intros id Hal. apply emit_miss. intros i wt Hi Hl.
      destruct (decide (i = w)) as [->|Hne].
      * rewrite Hs in Hi. injection Hi as <-. discriminate.
      * apply (Hal i wt Hne Hi Hl).
  - intros s reason' Hinv.
    destruct (cleanupChannel_emails ch ch reason' s) as (l & s' & Hrun & Hin & _).
    exists s', l. split; [exact Hrun|exact (Hin Hinv)].
  - intros E. unfold fallbackMs, number_env. rewrite E. reflexivity.
Qed.

(** * Further properties of the orchestrator and of the session *)

(** ** Owner of a channel *)

Lemma owner_of_external_sound st m id sipId :
  owner_of_external st m id = Some sipId ->
  exists r, (sipId, r) ∈ m /\ CD.externalChannelId (obj st r) = Some id.
Proof.
  induction m as [|[s r] m IH]; [discriminate|]. cbn [owner_of_external].
  destruct (CD.externalChannelId (obj st r)) as [e|] eqn:He.
  - destruct (String.eqb_spec e id) as [->|Hne].
    + intros [= ->]. exists r. split; [apply list_elem_of_here|exact He].
    + intros H. destruct (IH H) as (r' & Hin & Hr').
      exists r'. split; [now apply list_elem_of_further|exact Hr'].
  - intros H. destruct (IH H) as (r' & Hin & Hr').
    exists r'. split; [now apply list_elem_of_further|exact Hr'].
Qed.

Lemma owner_of_external_none st m id :
  owner_of_external st m id = None ->
  forall sipId r, (sipId, r) ∈ m -> CD.externalChannelId (obj st r) <> Some id.
Proof.
  induction m as [|[s r] m IH]; intros Hnone sipId r' Hin.
  - now apply not_elem_of_nil in Hin.
  - cbn [owner_of_external] in Hnone.
    assert (Hhead : CD.externalChannelId (obj st r) <> Some id
                    /\ owner_of_external st m id = None).
    { revert Hnone.
      destruct (CD.externalChannelId (obj st r)) as [e|]; [|intros H; split; [discriminate|exact H]].
      destruct (String.eqb_spec e id) as [->|Hne]; [discriminate|].
      intros H. split; [congruence|exact H]. }
    destruct Hhead as [Hh Ht].
    apply elem_of_cons in Hin. destruct Hin as [E|Hin].
    + injection E as -> ->. exact Hh.
    + exact (IH Ht sipId r' Hin).
Qed.

(** X1. [resolveSipIdForChannel]. A channel that is not an ExternalMedia
    leg owns itself, whatever the maps hold. For an ExternalMedia leg the
    owner is the call named by its [extMap] entry, or else a registered
    call whose record names this leg as its external channel; no owner is
    found only when [extMap] names none and no registered record names
    the leg. *)
Theorem owner_resolution (c : Channel) (st : State) :
  (isExternalMediaChannel (channel_name c) = false ->
   resolveSipIdForChannel c st = Some (ch_id c))
  /\ (isExternalMediaChannel (channel_name c) = true ->
      match resolveSipIdForChannel c st with
      | Some sipId =>
          (exists entry, extMap st !! ch_id c = Some entry
                         /\ truthy_id (e_channelId entry) = Some sipId)
          \/ (exists r, (sipId, r) ∈ sipMap st
                        /\ CD.externalChannelId (obj st r) = Some (ch_id c))
      | None =>
          (forall entry, extMap st !! ch_id c = Some entry ->
                         truthy_id (e_channelId entry) = None)
          /\ (forall sipId r, (sipId, r) ∈ sipMap st ->
                              CD.externalChannelId (obj st r) <> Some (ch_id c))
      end).
Proof.
  unfold resolveSipIdForChannel. split; intros ->; cbn [negb]; [reflexivity|].
  destruct (extMap st !! ch_id c) as [entry|] eqn:Hent.
  - destruct (truthy_id (e_channelId entry)) as [sipId|] eqn:Htr.
    + left. exists entry. split; [reflexivity|exact Htr].
    + destruct (owner_of_external st (sipMap st) (ch_id c)) as [sipId|] eqn:Hown.
      * right. now apply owner_of_external_sound.
      * split; [intros e [= <-]; exact Htr|now apply owner_of_external_none].
  - destruct (owner_of_external st (sipMap st) (ch_id c)) as [sipId|] eqn:Hown.
    + right. now apply owner_of_external_sound.
    + split; [discriminate|now apply owner_of_external_none].
Qed.

(** ** Leg-end events after the teardown has begun *)

Lemma late_event_drops c sourceEvent st :
  (isExternalMediaChannel (channel_name c) = true /\ ch_id c ∈ ignoreExtEvents st)
  \/ (exists sipId, truthy_id (resolveSipIdForChannel c st) = Some sipId
                    /\ sipId ∈ cleanedChannels st) ->
  exists msg, late_event c sourceEvent st = (Ret true, st, [Log LInfo msg]).
Proof.
  intros H. unfold late_event.
  rewrite (bind_run (gets (fun st => st)) _ st st st eq_refl).
  destruct (isExternalMediaChannel (channel_name c)
            && bool_decide (ch_id c ∈ ignoreExtEvents st)) eqn:Hig.
  - eexists. rewrite bind_log_run. reflexivity.
  - destruct H as [[Hext Hin]|(sipId & Hres & Hin)].
    + rewrite Hext, bool_decide_eq_true_2 in Hig by exact Hin. discriminate.
    + rewrite Hres, bool_decide_eq_true_2 by exact Hin.
      eexists. rewrite bind_log_run. reflexivity.
Qed.

(** X2. A [StasisEnd] or [ChannelDestroyed] event is dropped, with a log
    line only, when it is for an ExternalMedia leg whose id is being
    ignored, or when the call that owns the channel is in the cleaned set:
    the handler returns leaving the state exactly as it was (no flag, no
    timer, [extMap] untouched) and calls no collaborator. *)
Theorem late_leg_end_dropped (c : Channel) (st : State) :
  (isExternalMediaChannel (channel_name c) = true /\ ch_id c ∈ ignoreExtEvents st)
  \/ (exists sipId, truthy_id (resolveSipIdForChannel c st) = Some sipId
                    /\ sipId ∈ cleanedChannels st) ->
  exists l1 l2,
    on_StasisEnd c st = (Ret tt, st, l1) /\ calls l1 = []
    /\ on_ChannelDestroyed c st = (Ret tt, st, l2) /\ calls l2 = [].
Proof.
  intros H.
  destruct (late_event_drops c "StasisEnd" st H) as (m1 & H1).
  destruct (late_event_drops c "ChannelDestroyed" st H) as (m2 & H2).
  unfold on_StasisEnd, on_ChannelDestroyed.
  rewrite !bind_log_run.
  unfold mbind at 1, comp_bind at 1. rewrite H1. cbn.
  unfold mbind at 1, comp_bind at 1. rewrite H2. cbn.
  do 2 eexists. repeat split; reflexivity.
Qed.

(** ** Requests that are refused *)

(** X3. [terminateAfterPlayback] for a registered call that is being
    handed to the queue, or whose record or id is marked as cleaned, does
    nothing but log: the state is left exactly as it was (the intention
    flag is not set, no listener, no timer) and no cleanup is begun. *)
Theorem terminate_request_refused (ch ph : string) (r : nat) (st : State) :
  map_get (sipMap st) ch = Some r ->
  CD.redirecting (obj st r) = true \/ CD._cleaned (obj st r) = true
  \/ ch ∈ cleanedChannels st ->
  exists l, terminateAfterPlayback ch ph st = (Ret tt, st, l) /\ calls l = [].
Proof.
  intros Hreg H. unfold terminateAfterPlayback.
  assert (Hget : sipMap_get_or_new ch st = (Ret r, st, [])).
  { unfold sipMap_get_or_new. now rewrite Hreg. }
  rewrite (bind_run _ _ _ _ _ Hget).
  rewrite (bind_run (deref r) _ st (obj st r) st eq_refl).
  rewrite (bind_run (gets (fun st => st)) _ st st st eq_refl).
  destruct (CD.redirecting (obj st r)) eqn:Hred.
  - eexists. split; reflexivity.
  - assert (Hcl : CD._cleaned (obj st r) || bool_decide (ch ∈ cleanedChannels st) = true).
    { destruct H as [H|[H|H]]; [discriminate| |].
      - now rewrite H.
      - rewrite (bool_decide_eq_true_2 _ H). apply orb_true_r. }
    rewrite Hcl. eexists. split; reflexivity.
Qed.

(** X4. [redirectToQueue] refuses, with a log line only, when no queue
    extension is configured, when the call is not registered, and when the
    handoff of the call has already begun: the state is left exactly as it
    was and no collaborator is called. *)
Theorem redirect_refused (ch trigger : string) (st : State) :
  trim (default "" (truthy_id (REDIRECTION_QUEUE cfg))) = ""
  \/ map_get (sipMap st) ch = None
  \/ (exists r, map_get (sipMap st) ch = Some r /\ CD.redirecting (obj st r) = true) ->
  exists l, redirectToQueue ch trigger st = (Ret tt, st, l) /\ calls l = [].
Proof.
  intros H. unfold redirectToQueue.
  destruct (String.eqb_spec (trim (default "" (truthy_id (REDIRECTION_QUEUE cfg)))) "")
    as [E|Hq].
  - eexists. split; reflexivity.
  - destruct H as [H|[H|(r & Hreg & Hred)]]; [contradiction| |].
    + rewrite (bind_run (gets (fun st => map_get (sipMap st) ch)) _ st
                 (map_get (sipMap st) ch) st eq_refl).
      rewrite H. eexists. split; reflexivity.
    + rewrite (bind_run (gets (fun st => map_get (sipMap st) ch)) _ st
                 (map_get (sipMap st) ch) st eq_refl).
      rewrite Hreg.
      rewrite (bind_run (deref r) _ st (obj st r) st eq_refl).
      rewrite Hred. eexists. split; reflexivity.
Qed.

(** ** The handoff to the queue *)

Lemma handoff_stream_runs (o : option StreamHandler) ch ok ko (st : State) :
  exists l,
    runs (try_catch
            (match o with
             | Some sh => if has_end sh then call (StreamHandlerEnd ch);; log LInfo ok
                          else mret tt
             | None => mret tt
             end)
            (fun e => log LWarn (ko e))) st tt st l
    /\ calls l = match o with
                 | Some sh => if has_end sh then [StreamHandlerEnd ch] else []
                 | None => []
                 end.
Proof. run; eexists; split; reflexivity. Qed.

Lemma handoff_ws_runs (c : bool) ch ok ko (st : State) :
  exists l,
    runs (try_catch (if c then call (WsClose ch);; log LInfo ok else mret tt)
                    (fun e => log LWarn (ko e))) st tt st l
    /\ calls l = if c then [WsClose ch] else [].
Proof. run; eexists; split; reflexivity. Qed.

(** The state once the external leg has been hung up for the handoff:
    its id is ignored for ten seconds. *)
Definition ext_ignored (e : string) (r : nat) (st : State) : State :=
  set_nextTimer (S (nextTimer st))
    (set_timers (<[nextTimer st := mkTimer 10000%float (TA_unignore r)]> (timers st))
       (set_ignoreExtEvents ({[e]} ∪ ignoreExtEvents st) st)).

Lemma handoff_ext_runs (x : option string) (ari : bool) r ok ko (st : State) :
  exists l,
    runs (try_catch
            (match x with
             | Some e =>
                 if ari then
                   try_catch (call (ChannelsHangup e)) (fun _ => mret tt);;
                   log LInfo (ok e);;
                   ignoreExtEvents_add e;;
                   _ ← setTimeout 10000%float (TA_unignore r);
                   mret tt
                 else mret tt
             | None => mret tt
             end)
            (fun m => log LWarn (ko m))) st tt
         (match x with
          | Some e => if ari then ext_ignored e r st else st
          | None => st
          end) l
    /\ calls l = match x with
                 | Some e => if ari then [ChannelsHangup e] else []
                 | None => []
                 end.
Proof.
  unfold ignoreExtEvents_add, setTimeout, ext_ignored.
  run; eexists; split; reflexivity.
Qed.

Lemma handoff_bridge_runs (x : option string) (ari : bool) ok ko (st : State) :
  exists l,
    runs (try_catch
            (match x with
             | Some b =>
                 if ari then
                   try_catch (call (BridgesDestroy b)) (fun _ => mret tt);;
                   log LInfo (ok b)
                 else mret tt
             | None => mret tt
             end)
            (fun m => log LWarn (ko m))) st tt st l
    /\ calls l = match x with
                 | Some b => if ari then [BridgesDestroy b] else []
                 | None => []
                 end.
Proof. run; eexists; split; reflexivity. Qed.

(** The contexts the loop over [tryContexts] reaches: each one up to and
    including the first that the dialplan accepts. *)
Definition accepted (ch qExt ctx : string) : bool :=
  match throws P (ContinueInDialplan ch ctx qExt 1) with
  | None => true
  | Some _ => false
  end.

Fixpoint tried (ch qExt : string) (ctxs : list string) : list string :=
  match ctxs with
  | [] => []
  | ctx :: rest => if accepted ch qExt ctx then [ctx] else ctx :: tried ch qExt rest
  end.

Lemma ari_unchecked_call (e : Effect) (st : State) :
  ariClient st = true -> ari_unchecked e st = call e st.
Proof.
  intros Hari. unfold ari_unchecked.
  rewrite (bind_run (gets (fun st => ariClient st)) _ st (ariClient st) st eq_refl).
  rewrite Hari. reflexivity.
Qed.

Lemma attempt_step {A} (e : Effect) (k : Comp State A) (h : string -> Comp State A)
    (st : State) :
  ariClient st = true ->
  try_catch (ari_unchecked e;; k) h st = try_catch (call e;; k) h st.
Proof.
  intros Hari. unfold try_catch, mbind, comp_bind.
  rewrite (ari_unchecked_call e st Hari). reflexivity.
Qed.

Lemma continue_in_runs ch qExt ctxs (st : State) :
  ariClient st = true ->
  exists l,
    runs (continue_in ch qExt ctxs) st (existsb (accepted ch qExt) ctxs) st l
    /\ calls l = map (fun ctx => ContinueInDialplan ch ctx qExt 1) (tried ch qExt ctxs).
Proof.
  intros Hari. induction ctxs as [|ctx rest IH].
  - exists []. split; reflexivity.
  - destruct IH as (l & Hrun & Hc). cbn [continue_in existsb tried map].
    unfold accepted at 1 3.
    assert (Hstep : exists l0,
               runs (try_catch
                       (ari_unchecked (ContinueInDialplan ch ctx qExt 1);;
                        log LInfo ("Channel " +:+ ch +:+ " continued to " +:+ ctx +:+ ","
                                   +:+ qExt +:+ ",1");;
                        mret true)
                       (fun e => log LWarn ("continueInDialplan failed to " +:+ ctx +:+ "/"
                                            +:+ qExt +:+ ": " +:+ e);;
                                 mret false)) st
                    (match throws P (ContinueInDialplan ch ctx qExt 1) with
                     | None => true | Some _ => false end) st l0
               /\ calls l0 = [ContinueInDialplan ch ctx qExt 1]).
    { pose proof (attempt_step (ContinueInDialplan ch ctx qExt 1)
                    (log LInfo ("Channel " +:+ ch +:+ " continued to " +:+ ctx +:+ ","
                                +:+ qExt +:+ ",1");; mret true)
                    (fun e => log LWarn ("continueInDialplan failed to " +:+ ctx +:+ "/"
                                         +:+ qExt +:+ ": " +:+ e);; mret false)
                    st Hari) as Heq.
      unfold runs. rewrite Heq. clear Heq.
      run; eexists; split; reflexivity. }
    destruct Hstep as (l0 & Hrun0 & Hc0).
    destruct (throws P (ContinueInDialplan ch ctx qExt 1)) eqn:Hth; cbn [orb map].
    + exists (l0 ++ l). split.
      * eapply runs_bind; [exact Hrun0|]. exact Hrun.
      * rewrite calls_app, Hc0, Hc. reflexivity.
    + exists (l0 ++ []). split.
      * eapply runs_bind; [exact Hrun0|]. apply runs_ret.
      * rewrite app_nil_r. exact Hc0.
Qed.

Lemma tried_prefix ch qExt ctxs :
  exists rest, ctxs = tried ch qExt ctxs ++ rest
               /\ (existsb (accepted ch qExt) ctxs = false -> rest = []).
Proof.
  induction ctxs as [|ctx ctxs (rest & IH & Hnone)]; [exists []; split; reflexivity|].
  cbn [tried existsb]. destruct (accepted ch qExt ctx).
  - exists ctxs. split; [reflexivity|discriminate].
  - exists rest. cbn [orb app]. split; [now rewrite <- IH|exact Hnone].
Qed.

Lemma tried_refused ch qExt ctxs ctx :
  ctx ∈ removelast (tried ch qExt ctxs) -> accepted ch qExt ctx = false.
Proof.
  induction ctxs as [|c ctxs IH]; cbn [tried removelast].
  - intros H. now apply not_elem_of_nil in H.
  - destruct (accepted ch qExt c) eqn:Hc; cbn [removelast].
    + intros H. now apply not_elem_of_nil in H.
    + destruct (tried ch qExt ctxs) as [|c' t] eqn:Ht.
      * intros H. now apply not_elem_of_nil in H.
      * intros H. apply elem_of_cons in H. destruct H as [->|H]; [exact Hc|].
        apply IH. exact H.
Qed.

Lemma tried_last ch qExt ctxs :
  existsb (accepted ch qExt) ctxs = true ->
  exists ctx, last (tried ch qExt ctxs) = Some ctx /\ accepted ch qExt ctx = true.
Proof.
  induction ctxs as [|c ctxs IH]; cbn [tried existsb]; [discriminate|].
  destruct (accepted ch qExt c) eqn:Hc.
  - intros _. exists c. split; [reflexivity|exact Hc].
  - cbn [orb]. intros H. destruct (IH H) as (ctx & Hl & Ha).
    exists ctx. split; [|exact Ha].
    destruct (tried ch qExt ctxs) as [|c' t]; [discriminate|exact Hl].
Qed.

Lemma ari_unchecked_offline (e : Effect) (st : State) :
  ariClient st = false ->
  ari_unchecked e st
  = (Throw "TypeError: Cannot read properties of undefined (reading 'channels')", st, []).
Proof.
  intros Hari. unfold ari_unchecked.
  rewrite (bind_run (gets (fun st => ariClient st)) _ st (ariClient st) st eq_refl).
  rewrite Hari. reflexivity.
Qed.

Lemma continue_in_offline ch qExt ctxs (st : State) :
  ariClient st = false ->
  exists l, runs (continue_in ch qExt ctxs) st false st l /\ calls l = [].
Proof.
  intros Hari. induction ctxs as [|ctx rest (l & Hrun & Hc)].
  - exists []. split; reflexivity.
  - cbn [continue_in].
    assert (Hstep : exists l0,
               runs (try_catch
                       (ari_unchecked (ContinueInDialplan ch ctx qExt 1);;
                        log LInfo ("Channel " +:+ ch +:+ " continued to " +:+ ctx +:+ ","
                                   +:+ qExt +:+ ",1");;
                        mret true)
                       (fun e => log LWarn ("continueInDialplan failed to " +:+ ctx +:+ "/"
                                            +:+ qExt +:+ ": " +:+ e);;
                                 mret false)) st false st l0
               /\ calls l0 = []).
    { unfold runs, try_catch, mbind, comp_bind.
      rewrite (ari_unchecked_offline _ st Hari). eexists. split; reflexivity. }
    destruct Hstep as (l0 & Hrun0 & Hc0).
    exists (l0 ++ l). split.
    + eapply runs_bind; [exact Hrun0|exact Hrun].
    + now rewrite calls_app, Hc0, Hc.
Qed.

(** What the handoff tears down, in order: the stream handler, the socket,
    the external leg, the bridge, the RTP sockets and the RTP port. *)
Definition handoff_calls (ch : string) (r : nat) (st : State) : list Effect :=
  start_calls ch (obj st r) ++ ext_calls r st ++ bridge_calls r st
  ++ receiver_calls st ch ++ sender_calls st ch ++ port_calls (obj st r).

Definition queue_ext : string := trim (default "" (truthy_id (REDIRECTION_QUEUE cfg))).

(** The attempts on the dialplan and the fallback; without an ARI client
    every attempt fails before a request is made. *)
Definition dialplan_calls (ch : string) (st : State) : list Effect :=
  if ariClient st then
    map (fun ctx => ContinueInDialplan ch ctx queue_ext 1) (tried ch queue_ext tryContexts)
    ++ (if existsb (accepted ch queue_ext) tryContexts then [] else [ChannelsHangup ch])
  else [].

Lemma fallback_runs ch msg (st : State) :
  exists l,
    runs (log LError msg;;
          try_catch (ari_unchecked (ChannelsHangup ch)) (fun _ => mret tt)) st tt st l
    /\ calls l = if ariClient st then [ChannelsHangup ch] else [].
Proof.
  unfold runs. rewrite bind_log_run.
  destruct (ariClient st) eqn:Hari.
  - assert (H : try_catch (ari_unchecked (ChannelsHangup ch)) (fun _ => mret tt) st
                = try_catch (call (ChannelsHangup ch)) (fun _ => mret tt) st).
    { unfold try_catch. now rewrite (ari_unchecked_call _ st Hari). }
    rewrite H. clear H. run; eexists; split; reflexivity.
  - unfold try_catch. rewrite (ari_unchecked_offline _ st Hari).
    eexists. split; reflexivity.
Qed.

Lemma close_receiver_closed h ch st :
  exists l rx,
    runs (close_receiver h ch) st tt (set_rtpReceivers rx st) l
    /\ calls l = receiver_calls st ch
    /\ rx !! ch <> Some true.
Proof.
  unfold close_receiver, receiver_calls.
  run; (do 2 eexists; split; [norm_state; reflexivity|split; [reflexivity|]]);
    rewrite ?lookup_delete_eq, ?lookup_insert_eq; congruence.
Qed.

Lemma close_sender_closed h ch st :
  exists l tx,
    runs (close_sender h ch) st tt (set_rtpSenders tx st) l
    /\ calls l = sender_calls st ch
    /\ tx !! ch <> Some true.
Proof.
  unfold close_sender, sender_calls.
  run; (do 2 eexists; split; [norm_state; reflexivity|split; [reflexivity|]]);
    rewrite ?lookup_delete_eq, ?lookup_insert_eq; congruence.
Qed.

(** The handoff of a registered call that is not yet being redirected. *)
Lemma redirect_runs_full (ch trigger : string) (r : nat) (st : State) :
  queue_ext <> "" ->
  map_get (sipMap st) ch = Some r ->
  CD.redirecting (obj st r) = false ->
  exists l st',
    runs (redirectToQueue ch trigger) st tt st' l
    /\ calls l = handoff_calls ch r st ++ dialplan_calls ch st
    /\ heap st' = <[r := CD.set_redirecting true (obj st r)]> (heap st)
    /\ sipMap st' = map_set (sipMap st) ch r
    /\ cleanedChannels st' = cleanedChannels st
    /\ cleanupPromises st' = cleanupPromises st
    /\ ariClient st' = ariClient st
    /\ rtpReceivers st' !! ch <> Some true
    /\ rtpSenders st' !! ch <> Some true
    /\ ignoreExtEvents st'
       = match truthy_id (CD.externalChannelId (obj st r)) with
         | Some e => if ariClient st then {[e]} ∪ ignoreExtEvents st else ignoreExtEvents st
         | None => ignoreExtEvents st
         end
    /\ timers st'
       = match truthy_id (CD.externalChannelId (obj st r)) with
         | Some e => if ariClient st
                     then <[nextTimer st := mkTimer 10000%float (TA_unignore r)]> (timers st)
                     else timers st
         | None => timers st
         end.
Proof.
  intros Hq Hreg Hred. unfold redirectToQueue, runs. fold queue_ext.
  destruct (String.eqb_spec queue_ext "") as [E|_]; [contradiction|].
  rewrite (bind_run (gets (fun st => map_get (sipMap st) ch)) _ st
             (map_get (sipMap st) ch) st eq_refl).
  rewrite Hreg.
  rewrite (bind_run (deref r) _ st (obj st r) st eq_refl).
  rewrite Hred.
  set (d := obj st r).
  rewrite (bind_run (update r (CD.set_redirecting true)) _ st tt
             (set_heap (<[r := CD.set_redirecting true (obj st r)]> (heap st)) st) eq_refl).
  set (s1 := set_heap _ st).
  rewrite (bind_run (sipMap_set ch r) _ s1 tt
             (set_sipMap (map_set (sipMap s1) ch r) s1) eq_refl).
  set (s2 := set_sipMap _ s1).
  remember (ariClient st) as ari eqn:Hari0.
  destruct (handoff_stream_runs (CD.streamHandler d) ch
              ("Stream handler ended for " +:+ ch +:+ " (handoff)")
              (fun e => "Stream handler end failed (handoff) for " +:+ ch +:+ ": " +:+ e) s2)
    as (l1 & R1 & C1).
  destruct (handoff_ws_runs (negb (CD.wsClosed d) && CD.ws d) ch
              ("WebSocket close requested for " +:+ ch +:+ " (handoff)")
              (fun e => "WS close failed (handoff) for " +:+ ch +:+ ": " +:+ e) s2)
    as (l2 & R2 & C2).
  destruct (handoff_ext_runs (truthy_id (CD.externalChannelId d)) ari r
              (fun e => "External channel " +:+ e +:+ " hangup attempted (handoff)")
              (fun m => "External channel hangup failed (handoff) for " +:+ ch +:+ ": " +:+ m) s2)
    as (l3 & R3 & C3).
  set (s3 := match truthy_id (CD.externalChannelId d) with
             | Some e => if ari then ext_ignored e r s2 else s2
             | None => s2
             end) in *.
  destruct (handoff_bridge_runs (truthy_id (CD.bridge d)) ari
              (fun b => "Bridge " +:+ b +:+ " destroyed (handoff)")
              (fun m => "Bridge destroy failed (handoff) for " +:+ ch +:+ ": " +:+ m) s3)
    as (l4 & R4 & C4).
  destruct (close_receiver_closed true ch s3) as (l5 & rx & R5 & C5 & Hrx).
  set (s4 := set_rtpReceivers rx s3) in *.
  destruct (close_sender_closed true ch s4) as (l6 & tx & R6 & C6 & Htx).
  set (s5 := set_rtpSenders tx s4) in *.
  destruct (release_port_runs true ch r s5) as (l7 & R7 & C7).
  assert (Hari5 : ariClient s5 = ari).
  { rewrite Hari0. subst s5 s4 s3 s2 s1.
    destruct (truthy_id (CD.externalChannelId d)), ari; reflexivity. }
  destruct (fallback_runs ch
              ("Failed to continue " +:+ ch
               +:+ " into any queue context. Hanging up as fallback.") s5)
    as (l9 & R9 & C9).
  assert (Hobj5 : obj s5 r = CD.set_redirecting true d).
  { subst s5 s4 s3 s2 s1. destruct (truthy_id (CD.externalChannelId d)), ari;
      apply (obj_insert_eq _ r _ (heap st)); reflexivity. }
  assert (Htail : exists l,
             runs (continued ← continue_in ch queue_ext tryContexts;
                   if (continued : bool) then mret tt
                   else log LError ("Failed to continue " +:+ ch
                                    +:+ " into any queue context. Hanging up as fallback.");;
                        try_catch (ari_unchecked (ChannelsHangup ch)) (fun _ => mret tt))
                  s5 tt s5 l
             /\ calls l = dialplan_calls ch st).
  { unfold dialplan_calls. rewrite <- Hari0. rewrite Hari5 in C9. destruct ari.
    - destruct (continue_in_runs ch queue_ext tryContexts s5 Hari5) as (l8 & R8 & C8).
      destruct (existsb (accepted ch queue_ext) tryContexts).
      + exists (l8 ++ []). split; [eapply runs_bind; [exact R8|apply runs_ret]|].
        now rewrite !app_nil_r.
      + exists (l8 ++ l9). split; [eapply runs_bind; [exact R8|exact R9]|].
        now rewrite calls_app, C8, C9.
    - destruct (continue_in_offline ch queue_ext tryContexts s5 Hari5) as (l8 & R8 & C8).
      exists (l8 ++ l9). split; [eapply runs_bind; [exact R8|exact R9]|].
      now rewrite calls_app, C8, C9. }
  destruct Htail as (lt & Rt & Ct).
  exists (Log LInfo ("Redirection requested for " +:+ ch +:+ " to queue " +:+ queue_ext)
          :: l1 ++ l2 ++ [] ++ l3 ++ l4 ++ l5 ++ l6 ++ l7 ++ lt), s5.
  split.
  { match goal with
    | |- ?m s2 = (Ret tt, s5, ?l0 :: ?l) => change (runs m s2 tt s5 ([l0] ++ l))
    end.
    eapply runs_bind; [apply runs_log|].
    eapply runs_bind; [exact R1|].
    eapply runs_bind; [exact R2|].
    eapply runs_bind; [apply runs_gets|].
    change (ariClient s2) with (ariClient st). rewrite <- Hari0.
    eapply runs_bind; [exact R3|].
    eapply runs_bind; [exact R4|].
    eapply runs_bind; [exact R5|].
    eapply runs_bind; [exact R6|].
    eapply runs_bind; [exact R7|].
    exact Rt. }
  split.
  { rewrite calls_cons_log, !calls_app, C1, C2, C3, C4, C5, C6, C7, Ct, Hobj5.
    unfold handoff_calls, start_calls, ext_calls, bridge_calls, port_calls.
    fold d. rewrite <- Hari0. cbn [calls filter app].
    assert (Hrx' : receiver_calls s3 ch = receiver_calls st ch).
    { unfold receiver_calls. subst s3 s2 s1.
      destruct (truthy_id (CD.externalChannelId d)), ari; reflexivity. }
    assert (Htx' : sender_calls s4 ch = sender_calls st ch).
    { unfold sender_calls. subst s4 s3 s2 s1.
      destruct (truthy_id (CD.externalChannelId d)), ari; reflexivity. }
    rewrite Hrx', Htx'. rewrite <- !app_assoc. reflexivity. }
  assert (Hrx5 : rtpReceivers s5 = rx) by reflexivity.
  assert (Htx5 : rtpSenders s5 = tx) by reflexivity.
  rewrite Hrx5, Htx5, Hari5.
  clear Hrx5 Htx5 Hari5 Hobj5 R1 R2 R3 R4 R5 R6 R7 R9 Rt C5 C6 C7.
  subst s5 s4 s3 s2 s1.
  destruct (truthy_id (CD.externalChannelId d)), ari; repeat split; try reflexivity; assumption.
Qed.

Lemma redirect_runs (ch trigger : string) (r : nat) (st : State) :
  queue_ext <> "" ->
  map_get (sipMap st) ch = Some r ->
  CD.redirecting (obj st r) = false ->
  exists l st',
    runs (redirectToQueue ch trigger) st tt st' l
    /\ calls l = handoff_calls ch r st ++ dialplan_calls ch st
    /\ heap st' = <[r := CD.set_redirecting true (obj st r)]> (heap st)
    /\ sipMap st' = map_set (sipMap st) ch r
    /\ cleanedChannels st' = cleanedChannels st
    /\ cleanupPromises st' = cleanupPromises st
    /\ ariClient st' = ariClient st
    /\ rtpReceivers st' !! ch <> Some true
    /\ rtpSenders st' !! ch <> Some true
    /\ ignoreExtEvents st'
       = match truthy_id (CD.externalChannelId (obj st r)) with
         | Some e => if ariClient st then {[e]} ∪ ignoreExtEvents st else ignoreExtEvents st
         | None => ignoreExtEvents st
         end.
Proof.
  intros Hq Hreg Hred.
  destruct (redirect_runs_full ch trigger r st Hq Hreg Hred)
    as (l & st' & H1 & H2 & H3 & H4 & H5 & H6 & H7 & H8 & H9 & H10 & _).
  exists l, st'. repeat apply conj; assumption.
Qed.

Lemma tried_all_refused ch qExt ctxs :
  existsb (accepted ch qExt) ctxs = false ->
  tried ch qExt ctxs = ctxs /\ forall ctx, ctx ∈ ctxs -> accepted ch qExt ctx = false.
Proof.
  induction ctxs as [|c ctxs IH]; cbn [existsb tried].
  - intros _. split; [reflexivity|]. intros ctx H. now apply not_elem_of_nil in H.
  - destruct (accepted ch qExt c) eqn:Hc; [discriminate|]. cbn [orb]. intros H.
    destruct (IH H) as (-> & Hall). split; [reflexivity|].
    intros ctx Hin. apply elem_of_cons in Hin. destruct Hin as [->|Hin]; [exact Hc|].
    now apply Hall.
Qed.

(** X5. [redirectToQueue] never throws, whatever the platform does and
    whatever the state of the call, and it is idempotent: once it has
    returned, a second request for the same call changes nothing and calls
    no collaborator. *)
Theorem redirect_total_idempotent (ch trigger trigger' : string) (st : State) :
  exists l st' l',
    redirectToQueue ch trigger st = (Ret tt, st', l)
    /\ redirectToQueue ch trigger' st' = (Ret tt, st', l')
    /\ calls l' = [].
Proof.
  assert (Hnoop : forall t s,
             queue_ext = ""
             \/ map_get (sipMap s) ch = None
             \/ (exists r, map_get (sipMap s) ch = Some r /\ CD.redirecting (obj s r) = true) ->
             exists l, redirectToQueue ch t s = (Ret tt, s, l) /\ calls l = []).
  { intros t s H. unfold redirectToQueue. fold queue_ext.
    destruct (String.eqb_spec queue_ext "") as [E|Hq].
    - eexists. split; reflexivity.
    - destruct H as [H|[H|(r & Hreg & Hred)]]; [contradiction| |].
      + rewrite (bind_run (gets (fun st => map_get (sipMap st) ch)) _ s
                   (map_get (sipMap s) ch) s eq_refl).
        rewrite H. eexists. split; reflexivity.
      + rewrite (bind_run (gets (fun st => map_get (sipMap st) ch)) _ s
                   (map_get (sipMap s) ch) s eq_refl).
        rewrite Hreg.
        rewrite (bind_run (deref r) _ s (obj s r) s eq_refl).
        rewrite Hred. eexists. split; reflexivity. }
  destruct (String.eqb_spec queue_ext "") as [E|Hq].
  { destruct (Hnoop trigger st (or_introl E)) as (l & Hl & _).
    destruct (Hnoop trigger' st (or_introl E)) as (l' & Hl' & Hc').
    now exists l, st, l'. }
  destruct (map_get (sipMap st) ch) as [r|] eqn:Hreg.
  2:{ destruct (Hnoop trigger st (or_intror (or_introl Hreg))) as (l & Hl & _).
      destruct (Hnoop trigger' st (or_intror (or_introl Hreg))) as (l' & Hl' & Hc').
      now exists l, st, l'. }
  destruct (CD.redirecting (obj st r)) eqn:Hred.
  { assert (H : exists r, map_get (sipMap st) ch = Some r /\ CD.redirecting (obj st r) = true)
      by now exists r.
    destruct (Hnoop trigger st (or_intror (or_intror H))) as (l & Hl & _).
    destruct (Hnoop trigger' st (or_intror (or_intror H))) as (l' & Hl' & Hc').
    now exists l, st, l'. }
  destruct (redirect_runs ch trigger r st Hq Hreg Hred)
    as (l & st' & Hrun & _ & Hheap & Hsip & _).
  assert (H : exists r, map_get (sipMap st') ch = Some r /\ CD.redirecting (obj st' r) = true).
  { exists r. split; [rewrite Hsip; apply map_get_set_eq|].
    now rewrite (obj_insert_eq _ _ _ _ Hheap). }
  destruct (Hnoop trigger' st' (or_intror (or_intror H))) as (l' & Hl' & Hc').
  now exists l, st', l'.
Qed.

(** X6. The handoff of a registered call tries the dialplan contexts in the
    configured order (the configured context first, then ext-queues and
    from-internal), after the teardown calls, and stops at the first
    context the platform accepts. Only when every context was refused
    does it hang up the SIP leg, as its last call. *)
Theorem redirect_dialplan_order (ch trigger : string) (r : nat) (st : State) :
  queue_ext <> "" ->
  map_get (sipMap st) ch = Some r ->
  CD.redirecting (obj st r) = false ->
  ariClient st = true ->
  exists l st' attempted rest,
    redirectToQueue ch trigger st = (Ret tt, st', l)
    /\ tryContexts = attempted ++ rest
    /\ (forall ctx, ctx ∈ removelast attempted -> accepted ch queue_ext ctx = false)
    /\ ((exists ctx,
            last attempted = Some ctx /\ accepted ch queue_ext ctx = true
            /\ calls l = handoff_calls ch r st
                         ++ map (fun ctx => ContinueInDialplan ch ctx queue_ext 1) attempted)
        \/ (rest = []
            /\ (forall ctx, ctx ∈ attempted -> accepted ch queue_ext ctx = false)
            /\ calls l = handoff_calls ch r st
                         ++ map (fun ctx => ContinueInDialplan ch ctx queue_ext 1) attempted
                         ++ [ChannelsHangup ch])).
Proof.
  intros Hq Hreg Hred Hari.
  destruct (redirect_runs ch trigger r st Hq Hreg Hred) as (l & st' & Hrun & Hc & _).
  destruct (tried_prefix ch queue_ext tryContexts) as (rest & Hsplit & Hnone).
  exists l, st', (tried ch queue_ext tryContexts), rest.
  split; [exact Hrun|]. split; [exact Hsplit|].
  split; [intros ctx; apply tried_refused|].
  rewrite Hc. unfold dialplan_calls. rewrite Hari.
  destruct (existsb (accepted ch queue_ext) tryContexts) eqn:Hex.
  - left. destruct (tried_last ch queue_ext tryContexts Hex) as (ctx & Hlast & Hacc).
    exists ctx. split; [exact Hlast|]. split; [exact Hacc|]. now rewrite app_nil_r.
  - right. split; [now apply Hnone|].
    destruct (tried_all_refused ch queue_ext tryContexts Hex) as (Heq & Hall).
    split; [rewrite Heq; exact Hall|reflexivity].
Qed.

(** X7. The handoff does not clear what it tears down: a cleanup of the
    call that runs right after a handoff, no other event in between, ends
    the stream handler, closes
    the socket, hangs up the external leg and destroys the bridge once
    more, and releases the RTP port of the call a second time. It closes
    no RTP socket and makes no other call. *)
Theorem cleanup_after_handoff (ch trigger reason : string) (r : nat) (st : State) :
  queue_ext <> "" ->
  map_get (sipMap st) ch = Some r ->
  CD.redirecting (obj st r) = false ->
  CD._cleaned (obj st r) = false ->
  (ch ∉ cleanedChannels st) ->
  (ch ∉ cleanupPromises st) ->
  exists l1 st1 l2 st2,
    redirectToQueue ch trigger st = (Ret tt, st1, l1)
    /\ cleanupChannel_complete ch reason st1 = (Ret None, st2, l2)
    /\ calls l2 = start_calls ch (obj st r) ++ ext_calls r st ++ bridge_calls r st
                  ++ port_calls (obj st r)
    /\ (forall p, CD.rtpPort (obj st r) = Some p ->
                  ReleaseRtpPort p ∈ calls l1 /\ ReleaseRtpPort p ∈ calls l2).
Proof.
  intros Hq Hreg Hred Hnc Hcl Hpr.
  destruct (redirect_runs ch trigger r st Hq Hreg Hred)
    as (l1 & st1 & Hrun1 & Hc1 & Hheap & Hsip & Hcl1 & Hpr1 & Hari1 & Hrx & Htx & _).
  assert (Hobj : obj st1 r = CD.set_redirecting true (obj st r))
    by exact (obj_insert_eq _ _ _ _ Hheap).
  assert (Hreg1 : map_get (sipMap st1) ch = Some r)
    by (rewrite Hsip; apply map_get_set_eq).
  assert (Hnc1 : CD._cleaned (obj st1 r) = false) by (rewrite Hobj; exact Hnc).
  rewrite <- Hcl1 in Hcl. rewrite <- Hpr1 in Hpr.
  destruct (complete_fresh_runs ch reason r st1 Hcl Hpr Hreg1 Hnc1)
    as (l2 & st2 & Hrun2 & Hc2 & _).
  assert (Hcalls : calls l2 = start_calls ch (obj st r) ++ ext_calls r st ++ bridge_calls r st
                              ++ port_calls (obj st r)).
  { rewrite Hc2. unfold tail_calls, rtp_calls, sip_calls, ext_calls, bridge_calls,
      receiver_calls, sender_calls, email_calls, email_due.
    rewrite Hreg1. cbn [default from_option id]. rewrite !Hobj, Hari1.
    cbn [CD.redirecting CD.set_redirecting negb andb].
    rewrite andb_false_r.
    assert (E1 : match rtpReceivers st1 !! ch with Some true => [ReceiverClose ch] | _ => [] end
                 = []).
    { destruct (rtpReceivers st1 !! ch) as [[|]|]; [contradiction|reflexivity..]. }
    assert (E2 : match rtpSenders st1 !! ch with Some true => [SenderClose ch] | _ => [] end
                 = []).
    { destruct (rtpSenders st1 !! ch) as [[|]|]; [contradiction|reflexivity..]. }
    rewrite E1, E2. cbn [app]. rewrite app_nil_r. reflexivity. }
  exists l1, st1, l2, st2.
  split; [exact Hrun1|]. split; [exact Hrun2|]. split; [exact Hcalls|].
  intros p Hp. rewrite Hc1, Hcalls. unfold handoff_calls, port_calls. rewrite Hp.
  split; rewrite !elem_of_app; [left|];
    repeat (first [apply list_elem_of_here | right]).
Qed.

(** X8. The handoff silences the external leg for ten seconds. When
    [redirectToQueue], run without interruption, returns after hanging up
    the ExternalMedia leg of a call, the id of the leg is in
    [ignoreExtEvents] and a timer of 10000 ms is armed to take it out. In
    every state where the id is in that set, the [StasisEnd] and the
    [ChannelDestroyed] of the leg are dropped: the handlers leave the
    state as it is and call no collaborator. When the timer fires, the id
    leaves the set and the leg is no longer silenced. Events handled
    before the id is added, while the hang-up is awaited, are not
    covered. *)
Theorem handoff_silences_external_leg (ch trigger e : string) (r : nat) (c : Channel)
    (st : State) :
  queue_ext <> "" ->
  map_get (sipMap st) ch = Some r ->
  CD.redirecting (obj st r) = false ->
  ariClient st = true ->
  truthy_id (CD.externalChannelId (obj st r)) = Some e ->
  ch_id c = e ->
  isExternalMediaChannel (channel_name c) = true ->
  let t := nextTimer st in
  exists l st1,
    redirectToQueue ch trigger st = (Ret tt, st1, l)
    /\ e ∈ ignoreExtEvents st1
    /\ timers st1 !! t = Some (mkTimer 10000%float (TA_unignore r))
    /\ CD.externalChannelId (obj st1 r) = Some e
    /\ (forall s, e ∈ ignoreExtEvents s ->
          exists l1 l2,
            on_StasisEnd c s = (Ret tt, s, l1) /\ calls l1 = []
            /\ on_ChannelDestroyed c s = (Ret tt, s, l2) /\ calls l2 = [])
    /\ (forall s,
          timers s !! t = Some (mkTimer 10000%float (TA_unignore r)) ->
          CD.externalChannelId (obj s r) = Some e ->
          fire_timer t s
          = (Ret tt,
             set_ignoreExtEvents (ignoreExtEvents s ∖ {[e]})
               (set_timers (delete t (timers s)) s), [])
          /\ e ∉ ignoreExtEvents (exec (fire_timer t) s)).
Proof.
  intros Hq Hreg Hred Hari Hext Hid Hname t.
  destruct (redirect_runs_full ch trigger r st Hq Hreg Hred)
    as (l & st1 & Hrun & _ & Hheap & _ & _ & _ & _ & _ & _ & Hig & Htm).
  rewrite Hext, Hari in Hig, Htm.
  assert (Hraw : CD.externalChannelId (obj st r) = Some e).
  { unfold truthy_id in Hext. destruct (CD.externalChannelId (obj st r)) as [x|]; [|discriminate].
    destruct (String.eqb x ""); [discriminate|exact Hext]. }
  exists l, st1. split; [exact Hrun|].
  split; [rewrite Hig; set_solver|].
  split; [rewrite Htm; apply lookup_insert_eq|].
  split; [rewrite (obj_insert_eq _ _ _ _ Hheap); exact Hraw|].
  split.
  - intros s Hin.
    assert (H : isExternalMediaChannel (channel_name c) = true /\ ch_id c ∈ ignoreExtEvents s)
      by (split; [exact Hname|rewrite Hid; exact Hin]).
    destruct (late_event_drops c "StasisEnd" s (or_introl H)) as (m1 & H1).
    destruct (late_event_drops c "ChannelDestroyed" s (or_introl H)) as (m2 & H2).
    unfold on_StasisEnd, on_ChannelDestroyed.
    rewrite !bind_log_run.
    unfold mbind at 1, comp_bind at 1. rewrite H1. cbn.
    unfold mbind at 1, comp_bind at 1. rewrite H2. cbn.
    do 2 eexists. repeat split; reflexivity.
  - intros s Hlk Hrec.
    assert (Hfire : fire_timer t s
                    = (Ret tt,
                       set_ignoreExtEvents (ignoreExtEvents s ∖ {[e]})
                         (set_timers (delete t (timers s)) s), [])).
    { unfold fire_timer.
      rewrite (bind_run (gets (fun s => timers s !! t)) _ s (timers s !! t) s eq_refl).
      rewrite Hlk.
      set (s1 := set_timers (delete t (timers s)) s).
      rewrite (bind_run (clearTimeout t) _ s tt s1 eq_refl).
      cbn [action run_action].
      rewrite (bind_run (deref r) _ s1 (obj s r) s1 eq_refl).
      rewrite Hrec. reflexivity. }
    split; [exact Hfire|].
    unfold exec. rewrite Hfire. cbn. set_solver.
Qed.

(** ** Cleanup of a call that was never registered *)

(** [sipMap.get(id) || {}] for an id that is not registered: a fresh [{}]. *)
Definition alloc (st : State) : State :=
  set_nextRef (S (nextRef st)) (set_heap (<[nextRef st := CD.empty]> (heap st)) st).

Lemma tail_calls_unknown ch reason (st : State) :
  tail_calls ch reason (nextRef st) PC_start (marked ch (nextRef st) (alloc st))
  = receiver_calls st ch ++ sender_calls st ch
    ++ (if EMAIL_ENABLED cfg then
          [MkdirSync (daily_dir (now P (clock st)));
           SendTranscriptEmail ch "unknown"
             (transcript_file (now P (clock st)) CidUndefined ch) reason]
        else []).
Proof.
  set (r := nextRef st).
  assert (Hobj0 : obj (alloc st) r = CD.empty)
    by (apply (obj_insert_eq _ r _ (heap st)); reflexivity).
  destruct (marked_frame ch r (alloc st)) as (Hsip & _ & Hari & Hrx & Htx & Hclk & _).
  pose proof (obj_marked ch r (alloc st)) as Hobj. rewrite Hobj0 in Hobj.
  cbn [CD._cleanupTimer CD.empty] in Hobj.
  unfold tail_calls, ext_calls, bridge_calls, sip_calls, rtp_calls, receiver_calls,
    sender_calls, email_calls, email_due, callerId_of, start_calls, port_calls.
  rewrite Hsip, map_get_set_eq, Hrx, Htx, Hclk. cbn [default from_option id].
  rewrite Hobj. cbn. rewrite andb_true_r. reflexivity.
Qed.

(** X9. [cleanupChannel] for an id that is not registered (as after a
    StasisStart that failed before it registered the call) registers an
    empty record and runs the whole sequence on it: no request goes to the
    telephony platform, the RTP sockets filed under the id are closed, and
    with e-mail enabled the mailer is still called, for the caller
    "unknown" and the transcript file of that caller. The mailer submits a
    message only if that file exists; when it does not, which is the case
    unless a transcript was written for the unregistered id, it only logs
    that the transcript was not found. The id ends up marked as cleaned and
    unregistered. *)
Theorem cleanup_unknown_call (ch reason : string) (st : State) :
  map_get (sipMap st) ch = None ->
  (ch ∉ cleanedChannels st) ->
  (ch ∉ cleanupPromises st) ->
  let file := transcript_file (now P (clock st)) CidUndefined ch in
  exists l st',
    cleanupChannel_complete ch reason st = (Ret None, st', l)
    /\ calls l = receiver_calls st ch ++ sender_calls st ch
                 ++ (if EMAIL_ENABLED cfg then
                       [MkdirSync (daily_dir (now P (clock st)));
                        SendTranscriptEmail ch "unknown" file reason]
                     else [])
    /\ map_get (sipMap st') ch = None
    /\ ch ∈ cleanedChannels st'
    /\ (forall smtp existsSync,
          EMAIL_ENABLED cfg = true ->
          existsSync file = false ->
          Mail.sendTranscriptEmail cfg smtp existsSync ch (Some "unknown") file (Some reason)
          = Mail.Skipped LWarn ("Transcript not found for " +:+ ch +:+ ": " +:+ file))
    /\ (forall smtp existsSync transport message,
          Mail.sendTranscriptEmail cfg smtp existsSync ch (Some "unknown") file (Some reason)
          = Mail.Submitted transport message ->
          existsSync file = true).
Proof.
  intros Hreg Hcl Hpr file.
  assert (Hmail : (forall smtp existsSync,
            EMAIL_ENABLED cfg = true ->
            existsSync file = false ->
            Mail.sendTranscriptEmail cfg smtp existsSync ch (Some "unknown") file (Some reason)
            = Mail.Skipped LWarn ("Transcript not found for " +:+ ch +:+ ": " +:+ file))
          /\ (forall smtp existsSync transport message,
                Mail.sendTranscriptEmail cfg smtp existsSync ch (Some "unknown") file (Some reason)
                = Mail.Submitted transport message ->
                existsSync file = true)).
  { split.
    - intros smtp existsSync Hon Hno. unfold Mail.sendTranscriptEmail.
      rewrite Hon, Hno. reflexivity.
    - intros smtp existsSync transport message. unfold Mail.sendTranscriptEmail.
      destruct (EMAIL_ENABLED cfg); cbn [negb]; [|discriminate].
      destruct (existsSync file); cbn [negb]; [reflexivity|discriminate]. }
  unfold file in *. clear file.
  set (r := nextRef st). set (st0 := alloc st).
  assert (Hnew : sipMap_get_or_new ch st = (Ret r, st0, [])).
  { unfold sipMap_get_or_new. now rewrite Hreg. }
  assert (Hnc : CD._cleaned (obj st0 r) = false).
  { unfold st0, alloc, r. now rewrite (obj_insert_eq _ (nextRef st) CD.empty (heap st)). }
  set (started := Log LInfo ("Cleanup started for channel " +:+ ch +:+ " (reason="
                             +:+ reason +:+ ")")).
  destruct (stretch_any ch reason r PC_start (marked ch r st0)) as (l & st1 & o & Hrun & Hpost).
  pose proof (cleanup_mark_runs ch r st0) as Hmark.
  destruct (marked_frame ch r st0) as (Hsip & Hcln & _).
  set (st1' := set_cleanupPromises ({[ch]} ∪ cleanupPromises st1) st1).
  assert (Hbegin : runs (cleanupChannel_begin ch reason) st (task_at ch reason r <$> o) st1'
                        (started :: l)).
  { unfold runs in Hrun, Hmark |- *. unfold cleanupChannel_begin. unfold_comp.
    rewrite bool_decide_eq_false_2 by exact Hcl.
    rewrite bool_decide_eq_false_2 by exact Hpr.
    rewrite Hnew. cbn beta iota zeta. rewrite Hnc, Hmark, Hrun.
    cbn [app]. rewrite !app_nil_r. reflexivity. }
  assert (Hfinal : forall st',
             ended ch r PC_start (marked ch r st0) st' ->
             map_get (sipMap st') ch = None /\ ch ∈ cleanedChannels st').
  { intros st' (Es & _ & Ec & _). split; [rewrite Es; apply map_get_delete_eq|].
    rewrite Ec, Hcln. set_solver. }
  rewrite <- (tail_calls_unknown ch reason st). fold r. fold st0.
  destruct o as [pc'|].
  - destruct Hpost as (Hlt & Hcalls & _ & _ & _ & Hend).
    destruct (resume_completes ch reason r 5 pc' st1' ltac:(cbn in Hlt; lia))
      as (l2 & st2 & Hrun2 & Hcalls2 & Hend2).
    exists ((started :: l) ++ l2), st2. split; [|split; [|split; [|split; [|exact Hmail]]]].
    + unfold cleanupChannel_complete. eapply runs_bind; [exact Hbegin|exact Hrun2].
    + rewrite calls_app, Hcalls2. unfold started. rewrite calls_cons_log.
      change (tail_calls ch reason r pc' st1') with (tail_calls ch reason r pc' st1).
      exact Hcalls.
    + assert (Hend' : ended ch r PC_start (marked ch r st0) st2).
      { apply Hend. destruct Hend2 as (E1 & E2 & E3 & E4 & E5 & E6 & E7).
        repeat split; try assumption.
        rewrite E4. subst st1'. cbn. set_solver. }
      exact (proj1 (Hfinal st2 Hend')).
    + assert (Hend' : ended ch r PC_start (marked ch r st0) st2).
      { apply Hend. destruct Hend2 as (E1 & E2 & E3 & E4 & E5 & E6 & E7).
        repeat split; try assumption.
        rewrite E4. subst st1'. cbn. set_solver. }
      exact (proj2 (Hfinal st2 Hend')).
  - destruct Hpost as (Hcalls & Hend).
    exists ((started :: l) ++ []), st1'. split; [|split; [|split; [|split; [|exact Hmail]]]].
    + unfold cleanupChannel_complete. eapply runs_bind; [exact Hbegin|]. apply runs_ret.
    + rewrite app_nil_r. unfold started. rewrite calls_cons_log. exact Hcalls.
    + exact (proj1 (Hfinal st1 Hend)).
    + exact (proj2 (Hfinal st1 Hend)).
Qed.

(** ** The terminate hook *)

(** [idle s] is 1 until the finalizer has been entered. *)
Definition idle (s : Sess.t * State) : nat :=
  if Sess.terminationInFlight (fst s) then O else 1%nat.

Definition hook_frame (s s' : Sess.t * State) : Prop :=
  Sess.terminationInFlight (fst s') = Sess.terminationInFlight (fst s).

Definition no_hook (e : Effect) : Prop := is_hook e = false.

Lemma hook_frame_refl s : hook_frame s s.
Proof. reflexivity. Qed.

Lemma hook_frame_trans a b c : hook_frame a b -> hook_frame b c -> hook_frame a c.
Proof. unfold hook_frame. congruence. Qed.

Lemma hooks_app l1 l2 : hooks (l1 ++ l2) = (hooks l1 + hooks l2)%nat.
Proof. unfold hooks. now rewrite List.filter_app, length_app. Qed.

Lemma hooks_none l : Forall no_hook l -> hooks l = O.
Proof.
  unfold hooks. induction 1 as [|e l He _ IH]; [reflexivity|].
  cbn [List.filter]. now rewrite He.
Qed.

(** [spends wt m]: what [m] calls of the hook, what it leaves of [idle] and
    the weight of its result are paid for by [idle] before. *)
Definition spends {A} (wt : A -> nat) (m : Comp (Sess.t * State) A) : Prop :=
  forall s,
    match m s with
    | (Ret a, s', l) => (hooks l + idle s' + wt a <= idle s)%nat
    | (Throw _, s', l) => (hooks l + idle s' <= idle s)%nat
    end.

Lemma keeps_spends {A} (m : Comp (Sess.t * State) A) :
  keeps hook_frame no_hook m -> spends (fun _ => O) m.
Proof.
  intros H s. destruct (H s) as [Hi Hq]. unfold exec, effects, hook_frame in *.
  destruct (m s) as [[[a|e] s'] l]; cbn in *;
    rewrite (hooks_none _ Hq); unfold idle; rewrite Hi; lia.
Qed.

Lemma spends_weaken {A} (wt wt' : A -> nat) (m : Comp (Sess.t * State) A) :
  (forall a, (wt' a <= wt a)%nat) -> spends wt m -> spends wt' m.
Proof.
  intros Hw H s. specialize (H s). destruct (m s) as [[[a|e] s'] l]; [|exact H].
  specialize (Hw a). lia.
Qed.

Lemma spends_bind {A B} (wt0 : A -> nat) (wt : B -> nat)
      (m : Comp (Sess.t * State) A) (k : A -> Comp (Sess.t * State) B) :
  spends wt0 m -> (forall a, spends wt (k a)) -> spends wt (m ≫= k).
Proof.
  intros Hm Hk s. specialize (Hm s). unfold mbind, comp_bind.
  destruct (m s) as [[[a|e] s1] l1]; [|exact Hm].
  specialize (Hk a s1). destruct (k a s1) as [[[b|e] s2] l2];
    rewrite hooks_app; lia.
Qed.

Lemma spends_try {A} (wt : A -> nat) (m : Comp (Sess.t * State) A)
      (h : string -> Comp (Sess.t * State) A) :
  spends wt m -> (forall e, spends wt (h e)) -> spends wt (try_catch m h).
Proof.
  intros Hm Hh s. specialize (Hm s). unfold try_catch.
  destruct (m s) as [[[a|e] s1] l1]; [exact Hm|].
  specialize (Hh e s1). destruct (h e s1) as [[[b|e'] s2] l2];
    rewrite hooks_app; lia.
Qed.

Lemma spends_ret {A} (wt : A -> nat) (a : A) : wt a = O -> spends wt (mret a).
Proof. intros Hw s. cbn. rewrite Hw. lia. Qed.

Lemma hook_lifted_refl st : lifted hook_frame st st.
Proof. intros se. reflexivity. Qed.

Lemma hook_lifted_trans a b c :
  lifted hook_frame a b -> lifted hook_frame b c -> lifted hook_frame a c.
Proof. intros _ _ se. reflexivity. Qed.

Ltac keeps_side ::=
  first [ exact sess_frame_refl | exact sess_frame_trans
        | exact lifted_refl | exact lifted_trans
        | exact hook_frame_refl | exact hook_frame_trans
        | exact hook_lifted_refl | exact hook_lifted_trans ].

Ltac frame_solve ::=
  intros; unfold lifted, sess_frame, hook_frame; intros; cbn [fst snd]; norm_state;
  repeat split; reflexivity.

Ltac call_solve ::=
  cbn; first [ exact Logic.I | reflexivity | assumption | tauto ].

(** A block of the orchestrator leaves the session alone; it calls the
    hook no more than it calls anything outside [Q]. *)
Lemma liftG_hook {A} (I : State -> State -> Prop) (Q : Effect -> Prop) (m : Comp State A) :
  keeps I Q m -> (forall e, Q e -> no_hook e) -> keeps hook_frame no_hook (liftG m).
Proof.
  intros H HQ [se st]. destruct (H st) as [_ Hq]. unfold exec, effects, liftG in *.
  cbn [snd fst]. destruct (m st) as [[o st'] l]. cbn in *.
  split; [reflexivity|]. eapply Forall_impl; [exact Hq|exact HQ].
Qed.

Lemma transcript_no_hook e : transcript_call e -> no_hook e.
Proof. destruct e; cbn; first [reflexivity | tauto]. Qed.

Ltac hook_auto :=
  repeat first
    [ eapply liftG_hook; [apply appendTranscript_keeps; tauto|exact transcript_no_hook]
    | eapply liftG_hook; [apply (setTimeout_keeps no_hook)|tauto]
    | eapply liftG_hook; [apply (update_keeps no_hook)|tauto]
    | eapply liftG_hook; [apply (sipMap_set_keeps no_hook)|tauto]
    | keeps_step ].

(** The [finally] block calls the hook at most once and leaves the guard
    of the finalizer as it is. *)
Lemma finalize_finish_hooks s :
  (hooks (effects finalize_finish s) <= 1)%nat
  /\ idle (exec finalize_finish s) = idle s.
Proof.
  split.
  - unfold finalize_finish, getS, modS, logS, effects.
    run; cbn; lia.
  - assert (H : keeps hook_frame (fun _ => True) finalize_finish).
    { unfold finalize_finish. hook_auto. }
    destruct (H s) as [Hi _]. unfold idle. now rewrite Hi.
Qed.

Lemma bind_step {S A B} (m : Comp S A) (k : A -> Comp S B) s a s1 l1 :
  m s = (Ret a, s1, l1) ->
  (m ≫= k) s = (let '(o, s2, l2) := k a s1 in (o, s2, l1 ++ l2)).
Proof. unfold mbind, comp_bind. now intros ->. Qed.

(** The finalizer is entered at most once: entering it uses up [idle], and
    it then either waits (weight 1: the hook is still to be called) or has
    called the hook. *)
Lemma finalizeAndTerminate_spends :
  spends (fun waiting : bool => if waiting then 1%nat else O) finalizeAndTerminate.
Proof.
  intros s. unfold finalizeAndTerminate.
  rewrite (bind_run getS _ s (fst s) s eq_refl).
  destruct (Sess.terminationInFlight (fst s)) eqn:E; [cbn; lia|].
  rewrite (bind_run (modS (Sess.set_terminationInFlight true)) _ s tt
             (Sess.set_terminationInFlight true (fst s), snd s) eq_refl).
  set (s1 := (Sess.set_terminationInFlight true (fst s), snd s)).
  assert (Hidle : idle s = 1%nat) by (unfold idle; now rewrite E).
  assert (Hidle1 : idle s1 = O) by reflexivity.
  assert (Hwait : exists b l,
             try_catch (call (WaitForBufferEmpty (Sess.channelId (fst s)));; mret true)
               (fun e => logS LWarn ("Graceful terminate wait failed for "
                                     +:+ Sess.channelId (fst s) +:+ ": " +:+ e);;
                         mret false) s1 = (Ret b, s1, l)
             /\ hooks l = O).
  { unfold logS. run; do 2 eexists; split; reflexivity. }
  destruct Hwait as (b & l & Hrun & Hl).
  rewrite (bind_step _ _ _ _ _ _ Hrun).
  destruct b.
  - cbv beta iota zeta delta [mret comp_ret].
    rewrite hooks_app, Hl, Hidle1, Hidle. cbn. lia.
  - destruct (finalize_finish_hooks s1) as [Hh Hi]. unfold effects, exec in Hh, Hi.
    unfold mbind at 1, comp_bind at 1.
    destruct (finalize_finish s1) as [[[[]|e] s2] l2]; cbn [fst snd] in Hh, Hi;
      cbv beta iota zeta delta [mret comp_ret];
      rewrite ?hooks_app, ?Hl, ?Hi, ?Hidle1, ?Hidle, ?app_nil_r; cbn [hooks List.filter length];
      lia.
Qed.

(** A handler that left the finalizer waiting still owes the hook. *)
Definition pm_weight (r : PMResult) : nat :=
  match r with PM_done => O | _ => 1%nat end.

Definition wait_weight (waiting : bool) : nat := if waiting then 1%nat else O.

Lemma finalize_then (f : bool -> PMResult) :
  pm_weight (f false) = O ->
  spends pm_weight (waiting ← finalizeAndTerminate; mret (f waiting)).
Proof.
  intros Hf s. pose proof (finalizeAndTerminate_spends s) as H.
  unfold mbind, comp_bind. destruct (finalizeAndTerminate s) as [[[b|e] s1] l1]; [|exact H].
  cbv beta iota zeta delta [mret comp_ret]. rewrite app_nil_r.
  destruct b; [destruct (f true); cbn [pm_weight] in *; lia|].
  rewrite Hf. lia.
Qed.

Ltac spends_step :=
  lazymatch goal with
  | |- spends _ (mret _) => apply spends_ret; reflexivity
  | |- spends _ (mbind _ finalizeAndTerminate) =>
      first [ apply (finalize_then (fun w : bool => if w then PM_await_finalize else PM_done))
            | apply (finalize_then (fun w : bool => if w then PM_detached_finalize else PM_done)) ];
      reflexivity
  | |- spends _ (mbind _ _) => eapply spends_bind; [apply keeps_spends; hook_auto | intros]
  | |- spends _ (try_catch _ _) => apply spends_try; [|intros]
  | |- spends _ (match ?x with _ => _ end) => destruct x
  end.

Lemma processMessage_spends response : spends pm_weight (processMessage response).
Proof.
  unfold processMessage, processMessage_body, on_item_created, on_audio_delta,
    on_transcript_delta, on_transcript_done, on_user_transcript, on_audio_done, on_error,
    mark_terminate, request_redirect, prop, Buffer_alloc, Buffer_concat.
  repeat spends_step.
Qed.

Lemma watchdog_fires_spends : spends wait_weight watchdog_fires.
Proof.
  unfold watchdog_fires.
  eapply spends_bind; [apply keeps_spends; hook_auto|intros se].
  destruct (Sess.terminateRequested se && negb (Sess.terminationInFlight se)).
  - eapply spends_bind; [apply keeps_spends; hook_auto|intros _].
    exact finalizeAndTerminate_spends.
  - apply spends_ret. reflexivity.
Qed.

Lemma pump_loop_spends n :
  spends (fun r : list value * option nat * bool => wait_weight (snd r)) (pump_loop n).
Proof.
  induction n as [|n IH]; [apply spends_ret; reflexivity|].
  cbn [pump_loop]. intros s.
  rewrite (bind_run getS _ s (fst s) s eq_refl).
  destruct (Sess.messageQueue (fst s)) as [|response rest];
    [cbv beta iota zeta delta [mret comp_ret]; cbn; lia|].
  rewrite (bind_run (modS (Sess.set_messageQueue rest)) _ s tt
             (Sess.set_messageQueue rest (fst s), snd s) eq_refl).
  set (s1 := (Sess.set_messageQueue rest (fst s), snd s)).
  assert (Hidle : idle s1 = idle s) by reflexivity. rewrite <- Hidle.
  pose proof (processMessage_spends response s1) as Hpm.
  unfold mbind at 1, comp_bind at 1.
  destruct (processMessage response s1) as [[[r|e] s2] l2]; [|exact Hpm].
  pose proof (IH s2) as Hrec.
  destruct r; cbn [pm_weight] in Hpm.
  - unfold mbind, comp_bind.
    destruct (pump_loop n s2) as [[[[[taken k] f]|e] s3] l3];
      cbv beta iota zeta delta [mret comp_ret]; cbn [snd] in *;
      rewrite ?hooks_app, ?app_nil_r; change (hooks []) with O; lia.
  - cbv beta iota zeta delta [mret comp_ret]. cbn [snd wait_weight].
    rewrite ?hooks_app, ?app_nil_r. change (hooks []) with O. lia.
  - unfold mbind, comp_bind.
    destruct (pump_loop n s2) as [[[[[taken k] f]|e] s3] l3];
      cbv beta iota zeta delta [mret comp_ret]; cbn [snd wait_weight] in *;
      rewrite ?hooks_app, ?app_nil_r; change (hooks []) with O; lia.
Qed.

(** What a world still owes and has made of calls of the hook. *)
Definition owed (w : PumpWorld) : nat :=
  (idle (pw_state w) + wait_weight (pw_finalizing w))%nat.

Definition hooked (w : PumpWorld) : nat := (hooks (pw_trace w) + owed w)%nat.

Lemma run_loop_hooked n w : (hooked (run_loop n w) <= hooked w)%nat.
Proof.
  unfold run_loop, hooked, owed. pose proof (pump_loop_spends n (pw_state w)) as H.
  destruct (pump_loop n (pw_state w)) as [[[[[taken k] f]|e] s'] l];
    cbn [pw_trace pw_state pw_finalizing snd] in *; rewrite hooks_app;
    try (destruct (pw_finalizing w), f; cbn [orb wait_weight] in *); lia.
Qed.

Lemma resume_loops_hooked ks : forall w, (hooked (resume_loops ks w) <= hooked w)%nat.
Proof.
  induction ks as [|k ks IH]; intros w; cbn [resume_loops]; [lia|].
  etransitivity; [apply IH|apply run_loop_hooked].
Qed.

Lemma on_message_spends parsed : spends (fun _ => O) (on_message parsed).
Proof. unfold on_message. apply keeps_spends. hook_auto. Qed.

Lemma pump_step_hooked a w : (hooked (pump_step a w) <= hooked w)%nat.
Proof.
  destruct a as [parsed| |]; cbn [pump_step].
  - pose proof (on_message_spends parsed (pw_state w)) as H. unfold hooked, owed.
    destruct (on_message parsed (pw_state w)) as [[[[]|e] s'] l];
      cbn [pw_trace pw_state pw_finalizing]; rewrite hooks_app; lia.
  - apply run_loop_hooked.
  - destruct (pw_finalizing w) eqn:Hfin; [|lia].
    destruct (finalize_finish_hooks (pw_state w)) as [Hh Hi]. unfold effects, exec in Hh, Hi.
    destruct (finalize_finish (pw_state w)) as [[[[]|e] s'] l]; cbn [fst snd] in Hh, Hi.
    + etransitivity; [apply resume_loops_hooked|].
      unfold hooked, owed. cbn [pw_trace pw_state pw_finalizing wait_weight].
      rewrite hooks_app, Hi, Hfin. cbn [wait_weight]. lia.
    + unfold hooked, owed. cbn [pw_trace pw_state pw_finalizing wait_weight].
      rewrite hooks_app, Hi, Hfin. cbn [wait_weight]. lia.
Qed.

Lemma session_step_hooked a w : (hooked (session_step a w) <= hooked w)%nat.
Proof.
  destruct a as [a|]; cbn [session_step]; [apply pump_step_hooked|].
  pose proof (watchdog_fires_spends (pw_state w)) as H. unfold hooked, owed.
  destruct (watchdog_fires (pw_state w)) as [[[waiting|e] s'] l];
    cbn [pw_trace pw_state pw_finalizing]; rewrite hooks_app;
    try (destruct (pw_finalizing w), waiting; cbn [orb wait_weight] in *); lia.
Qed.

Lemma session_run_hooked acts : forall w, (hooked (session_run acts w) <= hooked w)%nat.
Proof.
  induction acts as [|a acts IH]; intros w; [cbn; lia|].
  cbn [session_run fold_left]. fold (session_run acts (session_step a w)).
  etransitivity; [apply IH|apply session_step_hooked].
Qed.

(** X10. The terminate hook is called at most once per session. Along every
    schedule of frames, pump ticks, ends of the finalizer's wait and
    firings of the termination watchdog, whatever the events say and
    whatever fails, the session calls [onTerminateRequest] at most once
    more if the finalizer has not been entered or is still waiting, and
    never again once the finalizer has run. So a session that starts with
    the finalizer not entered calls the hook at most once in all. *)
Theorem terminate_hook_once (acts : list SessionAction) (w : PumpWorld) :
  let w' := session_run acts w in
  let entered := Sess.terminationInFlight (fst (pw_state w)) in
  (entered = true \/ pw_finalizing w = false ->
   (hooks (pw_trace w') <= hooks (pw_trace w) + 1)%nat)
  /\ (entered = true /\ pw_finalizing w = false ->
      hooks (pw_trace w') = hooks (pw_trace w)).
Proof.
  cbv zeta. pose proof (session_run_hooked acts w) as H.
  unfold hooked, owed, idle in H.
  assert (Hmono : (hooks (pw_trace w) <= hooks (pw_trace (session_run acts w)))%nat).
  { clear H. revert w. induction acts as [|a acts IH]; intros w; [cbn; lia|].
    cbn [session_run fold_left]. fold (session_run acts (session_step a w)).
    etransitivity; [|apply IH].
    assert (Hloop : forall n w0, (hooks (pw_trace w0) <= hooks (pw_trace (run_loop n w0)))%nat).
    { intros n w0. unfold run_loop.
      destruct (pump_loop n (pw_state w0)) as [[[[[taken k] f]|e] s'] l];
        cbn [pw_trace]; rewrite hooks_app; lia. }
    assert (Hres : forall ks w0,
               (hooks (pw_trace w0) <= hooks (pw_trace (resume_loops ks w0)))%nat).
    { induction ks as [|k ks IHk]; intros w0; cbn [resume_loops]; [lia|].
      etransitivity; [apply (Hloop k)|apply IHk]. }
    destruct a as [[parsed| |]|]; cbn [session_step pump_step].
    - destruct (on_message parsed (pw_state w)) as [[[[]|e] s'] l];
        cbn [pw_trace]; rewrite hooks_app; lia.
    - apply Hloop.
    - destruct (pw_finalizing w); [|lia].
      destruct (finalize_finish (pw_state w)) as [[[[]|e] s'] l].
      + etransitivity; [|apply Hres]. cbn [pw_trace]. rewrite hooks_app. lia.
      + cbn [pw_trace]. rewrite hooks_app. lia.
    - destruct (watchdog_fires (pw_state w)) as [[[waiting|e] s'] l];
        cbn [pw_trace]; rewrite hooks_app; lia. }
  destruct (Sess.terminationInFlight (fst (pw_state w))), (pw_finalizing w);
    cbn [wait_weight] in H;
    (split; [intros [?|?]; first [discriminate | lia]
            |intros [? ?]; first [discriminate | lia]]).
Qed.

(** ** Phrase lists *)

Lemma includes_empty txt : includes txt "" = true.
Proof. destruct txt; reflexivity. Qed.

Lemma find_phrase_shadow pre post txt :
  Forall (fun p => includes txt p = false) pre ->
  find_phrase (pre ++ "" :: post) txt = Some "".
Proof.
  unfold find_phrase. induction 1 as [|p pre Hp _ IH]; cbn [app List.find].
  - now rewrite includes_empty.
  - now rewrite Hp.
Qed.

(** X11. An empty entry in a phrase list matches every transcript and is
    then discarded as a match: when it comes before every listed phrase
    the transcript contains, the terminate block (and likewise the
    redirect block) does nothing at all, so the phrases listed after it
    can never trigger. *)
Theorem empty_phrase_shadows (txt : string) (s : Sess.t * State) :
  (forall pre post,
      AGENT_TERMINATE_PHRASES cfg = pre ++ "" :: post ->
      Forall (fun p => includes txt p = false) pre ->
      mark_terminate txt s = (Ret tt, s, []))
  /\ (forall pre post,
        REDIRECTION_PHRASES cfg = pre ++ "" :: post ->
        Forall (fun p => includes txt p = false) pre ->
        request_redirect txt s = (Ret tt, s, [])).
Proof.
  split; intros pre post Hcfg Hpre.
  - unfold mark_terminate. rewrite (bind_run getS _ s (fst s) s eq_refl).
    rewrite Hcfg, (find_phrase_shadow pre post txt Hpre).
    destruct pre; reflexivity.
  - unfold request_redirect. rewrite (bind_run getS _ s (fst s) s eq_refl).
    rewrite Hcfg, (find_phrase_shadow pre post txt Hpre).
    destruct pre; reflexivity.
Qed.

(** ** The bound of a pump tick *)

(** X12. A pump tick takes messages from the head of the queue, in order,
    and never more than five. It takes fewer than the smaller of five and
    the queue length only when it is left suspended on the finalizer, and
    then the suspended loop keeps what is left of its five. *)
Theorem tick_takes_at_most_five (w : PumpWorld) :
  exists taken,
    pw_processed (pump_step Tick w) = pw_processed w ++ taken
    /\ pw_queue w = taken ++ pw_queue (pump_step Tick w)
    /\ (length taken <= 5)%nat
    /\ ((pw_suspended (pump_step Tick w) = pw_suspended w
         /\ length taken = Nat.min 5 (length (pw_queue w)))
        \/ (exists k, pw_suspended (pump_step Tick w) = pw_suspended w ++ [k]
                      /\ (k + length taken = 5)%nat)).
Proof.
  cbn [pump_step]. unfold run_loop, pw_queue.
  destruct (pump_loop_runs maxMessages (pw_state w))
    as (taken & k & f & s' & l & Hrun & Hq & Hk).
  unfold runs in Hrun. rewrite Hrun. cbn [pw_processed pw_state pw_suspended].
  exists taken. split; [reflexivity|]. split; [exact Hq|].
  unfold maxMessages in Hk. destruct k as [k'|].
  - split; [lia|]. right. exists k'. split; [reflexivity|exact Hk].
  - split; [lia|]. left. split; [reflexivity|exact Hk].
Qed.

End Bridge.

(** * Turn detection *)

Lemma num_finite v def : isFinite def = true -> isFinite (num v def) = true.
Proof. intros Hd. unfold num. destruct (isFinite v) eqn:E; auto. Qed.

Lemma num_cases v def :
  (isFinite v = true /\ num v def = v) \/ (isFinite v = false /\ num v def = def).
Proof. unfold num. destruct (isFinite v); auto. Qed.

(** C8. [normalizeTurnDetection] is total and has two shapes. When the
    configured [VAD_TYPE] is [semantic_vad] in any mix of upper and lower
    case, the result is exactly [{ type: 'semantic_vad' }]. When it is
    unset, empty or any other text, the result is [server_vad] with the
    three knobs present as finite numbers, each the configured number when
    that is finite and 0.6, 200, 600 otherwise. One of the two cases
    always holds. *)
Theorem normalizeTurnDetection_shapes (cfg : Config) :
  let t := if isFinite (VAD_THRESHOLD cfg) then VAD_THRESHOLD cfg else 0.6%float in
  let p := if isFinite (VAD_PREFIX_PADDING_MS cfg)
           then VAD_PREFIX_PADDING_MS cfg else 200%float in
  let s := if isFinite (VAD_SILENCE_DURATION_MS cfg)
           then VAD_SILENCE_DURATION_MS cfg else 600%float in
  let semantic := exists v, VAD_TYPE cfg = Some v /\ toLowerCase v = "semantic_vad" in
  let other := VAD_TYPE cfg = None
               \/ exists v, VAD_TYPE cfg = Some v /\ toLowerCase v <> "semantic_vad" in
  (semantic -> normalizeTurnDetection cfg = [("type", VStr "semantic_vad")])
  /\ (other ->
      normalizeTurnDetection cfg =
        [("type", VStr "server_vad"); ("threshold", VNum t);
         ("prefix_padding_ms", VNum p); ("silence_duration_ms", VNum s)])
  /\ (isFinite t = true /\ isFinite p = true /\ isFinite s = true)
  /\ (semantic \/ other).
Proof.
  intros t p s semantic other.
  assert (Hsrv : forall raw, raw <> "semantic_vad" ->
            (if String.eqb
                  (if String.eqb raw "server_vad" || String.eqb raw "semantic_vad"
                   then raw else "server_vad") "semantic_vad"
             then true else false) = false).
  { intros raw Hraw. apply String.eqb_neq in Hraw. rewrite Hraw, orb_false_r.
    destruct (String.eqb raw "server_vad") eqn:E.
    - now rewrite Hraw.
    - reflexivity. }
  assert (Hother : forall raw, raw <> "semantic_vad" -> rawType cfg = raw ->
            normalizeTurnDetection cfg =
              [("type", VStr "server_vad"); ("threshold", VNum t);
               ("prefix_padding_ms", VNum p); ("silence_duration_ms", VNum s)]).
  { intros raw Hraw Heq. unfold normalizeTurnDetection. rewrite Heq.
    specialize (Hsrv raw Hraw).
    destruct (String.eqb _ "semantic_vad"); [discriminate|reflexivity]. }
  split; [|split; [|split]].
  - intros (v & Hv & Hlow).
    assert (Hraw : rawType cfg = "semantic_vad").
    { unfold rawType. rewrite Hv.
      destruct (String.eqb_spec v "") as [->|_]; [discriminate Hlow|exact Hlow]. }
    unfold normalizeTurnDetection. rewrite Hraw. reflexivity.
  - intros [Hnone|(v & Hv & Hlow)].
    + apply (Hother "server_vad"); [discriminate|].
      unfold rawType. rewrite Hnone. reflexivity.
    + destruct (String.eqb_spec v "") as [->|Hne].
      * apply (Hother "server_vad"); [discriminate|].
        unfold rawType. rewrite Hv. reflexivity.
      * apply (Hother (toLowerCase v)); [exact Hlow|].
        unfold rawType. rewrite Hv.
        destruct (String.eqb_spec v ""); [contradiction|reflexivity].
  - subst t p s. repeat split.
    + destruct (isFinite (VAD_THRESHOLD cfg)) eqn:E; [exact E|reflexivity].
    + destruct (isFinite (VAD_PREFIX_PADDING_MS cfg)) eqn:E; [exact E|reflexivity].
    + destruct (isFinite (VAD_SILENCE_DURATION_MS cfg)) eqn:E; [exact E|reflexivity].
  - subst semantic other.
    destruct (VAD_TYPE cfg) as [v|]; [|right; left; reflexivity].
    destruct (String.eqb_spec (toLowerCase v) "semantic_vad") as [E|E].
    + left. exists v. split; [reflexivity|exact E].
    + right. right. exists v. split; [reflexivity|exact E].
Qed.

(** * Cleanup and failures *)

(** C7. Every teardown step of the cleanup keeps its failure to itself.
    Whichever calls throw or reject, the cleanup of a registered call ends
    without an exception after making exactly the calls it makes when
    nothing fails, in the same order; in particular the RTP port is
    released, the call's entries are gone from [extMap], the call is gone
    from [sipMap], and its id is in the cleaned set. *)
Theorem cleanup_steps_isolated (P : Platform) (cfg : Config) (fails : Effect -> option string)
    (ch reason : string) (r : nat) (st : State) :
  ch ∉ cleanedChannels st ->
  ch ∉ cleanupPromises st ->
  map_get (sipMap st) ch = Some r ->
  CD._cleaned (obj st r) = false ->
  exists l st',
    runs (cleanupChannel_complete (with_throws fails P) cfg ch reason) st None st' l
    /\ calls l
       = calls (effects (cleanupChannel_complete (with_throws (fun _ => None) P) cfg ch reason) st)
    /\ (forall p, CD.rtpPort (obj st r) = Some p -> ReleaseRtpPort p ∈ calls l)
    /\ map_get (sipMap st') ch = None
    /\ extMap st' !! ch = None
    /\ (forall e, truthy_id (CD.externalChannelId (obj st r)) = Some e -> extMap st' !! e = None)
    /\ ch ∈ cleanedChannels st'.
Proof.
  intros Hcl Hpr Hreg Hnc.
  destruct (complete_fresh_runs (with_throws fails P) cfg ch reason r st Hcl Hpr Hreg Hnc)
    as (l & st' & Hrun & Hcalls & Hsip & Hext & Hext' & Hcln).
  destruct (complete_fresh_runs (with_throws (fun _ => None) P) cfg ch reason r st Hcl Hpr Hreg Hnc)
    as (l0 & st0 & Hrun0 & Hcalls0 & _).
  apply runs_effects in Hrun0. destruct Hrun0 as (-> & _ & _).
  exists l, st'. split; [exact Hrun|].
  split; [rewrite Hcalls, Hcalls0; reflexivity|].
  split; [|auto].
  intros p Hp. rewrite Hcalls. unfold tail_calls, rtp_calls, port_calls. rewrite Hp.
  rewrite !elem_of_app. do 6 right. left. apply list_elem_of_singleton.
  reflexivity.
Qed.

(** C3. The cleanup of a redirected call leaves the SIP leg alone and
    sends no e-mail. The SIP hangup step makes no call in a state where the
    record has [redirecting] set, and the e-mail step makes none where the
    registered record has it set; so the whole cleanup of a registered call
    with [redirecting] set ends without a hangup of the SIP channel (its
    external leg being another channel) and without a transcript e-mail.
    Outside the cleanup the SIP leg of such a call can still be hung up:
    [redirectToQueue] sets [redirecting] and, when the dialplan refuses
    every context, ends by hanging up the SIP leg; it leaves the timers
    armed before it as they are, and the callback of the call-duration
    timer hangs up the channel without looking at [redirecting]. *)
Theorem cleanup_spares_redirected (P : Platform) (cfg : Config)
    (ch reason : string) (r : nat) (st : State) :
  ch ∉ cleanedChannels st ->
  ch ∉ cleanupPromises st ->
  map_get (sipMap st) ch = Some r ->
  CD._cleaned (obj st r) = false ->
  CD.redirecting (obj st r) = true ->
  truthy_id (CD.externalChannelId (obj st r)) <> Some ch ->
  (forall s, CD.redirecting (obj s r) = true ->
     calls (effects (cleanup_seg_sip_hangup P ch r) s) = [])
  /\ (forall s, map_get (sipMap s) ch = Some r -> CD.redirecting (obj s r) = true ->
        calls (effects (send_email P cfg ch reason r) s) = [])
  /\ (exists l st',
       runs (cleanupChannel_complete P cfg ch reason) st None st' l
       /\ (ChannelsHangup ch ∉ calls l)
       /\ no_email (calls l))
  /\ (forall trigger s r0,
        queue_ext cfg <> "" ->
        map_get (sipMap s) ch = Some r0 ->
        CD.redirecting (obj s r0) = false ->
        exists l s',
          runs (redirectToQueue P cfg ch trigger) s tt s' l
          /\ CD.redirecting (obj s' r0) = true
          /\ (ariClient s = true ->
              existsb (accepted P ch (queue_ext cfg)) (tryContexts cfg) = false ->
              last (calls l) = Some (ChannelsHangup ch))
          /\ (forall t0 tm, timers s !! t0 = Some tm -> t0 <> nextTimer s ->
                timers s' !! t0 = Some tm))
  /\ (forall s, ariClient s = true ->
        calls (effects (run_action P cfg (TA_durationLimit ch)) s) = [ChannelsHangup ch]).
Proof.
  intros Hcl Hpr Hreg Hnc Hred Hext.
  split; [|split; [|split; [|split]]]; cycle 3.
  - intros trigger s r0 Hq Hreg0 Hred0.
    destruct (redirect_runs_full P cfg ch trigger r0 s Hq Hreg0 Hred0)
      as (l & s' & Hrun & Hcalls & Hheap & _ & _ & _ & _ & _ & _ & _ & Htm).
    exists l, s'. split; [exact Hrun|].
    split; [rewrite (obj_insert_eq _ _ _ _ Hheap); reflexivity|].
    split.
    + intros Hari Hno. rewrite Hcalls. unfold dialplan_calls. rewrite Hari, Hno.
      rewrite !app_assoc. apply last_snoc.
    + intros t0 tm Hlk Hne. rewrite Htm.
      destruct (truthy_id (CD.externalChannelId (obj s r0))); [|exact Hlk].
      destruct (ariClient s); [|exact Hlk].
      rewrite lookup_insert_ne by congruence. exact Hlk.
  - intros s Hari. unfold effects, run_action, try_catch.
    rewrite (ari_unchecked_call P _ s Hari). unfold call.
    destruct (throws P (ChannelsHangup ch)); reflexivity.
  - intros s Hs. destruct (seg_sip_hangup_runs P ch r s) as (l & Hrun & Hc).
    apply runs_effects in Hrun. destruct Hrun as (-> & _ & _).
    rewrite Hc, Hs. reflexivity.
  - intros s Hreg' Hs. destruct (send_email_runs P cfg ch reason r s) as (l & c & Hrun & Hc).
    apply runs_effects in Hrun. destruct Hrun as (-> & _ & _).
    rewrite Hc. unfold email_calls, email_due. rewrite Hreg'. cbn [default from_option].
    unfold id. rewrite Hs, andb_false_r. reflexivity.
  - destruct (complete_fresh_runs P cfg ch reason r st Hcl Hpr Hreg Hnc)
      as (l & st' & Hrun & Hcalls & _).
    exists l, st'. split; [exact Hrun|].
    assert (Hmail : email_calls P cfg st ch reason r = []).
    { unfold email_calls, email_due. rewrite Hreg. cbn [default from_option].
      unfold id. rewrite Hred, andb_false_r. reflexivity. }
    assert (Hsipc : sip_calls ch r st = []).
    { unfold sip_calls. rewrite Hred. reflexivity. }
    rewrite Hcalls. unfold tail_calls, rtp_calls. rewrite Hmail, Hsipc.
    split.
    + rewrite !not_elem_of_app. repeat split.
      * unfold start_calls. rewrite !not_elem_of_app. split; repeat case_atom;
          rewrite ?list_elem_of_singleton, ?elem_of_nil; try tauto; discriminate.
      * unfold ext_calls. destruct (truthy_id _) as [e|] eqn:He; [|apply not_elem_of_nil].
        destruct (ariClient st); [|apply not_elem_of_nil].
        rewrite list_elem_of_singleton. intros [= ->]. now apply Hext.
      * unfold bridge_calls. repeat case_atom;
          rewrite ?list_elem_of_singleton, ?elem_of_nil; try tauto; discriminate.
      * apply not_elem_of_nil.
      * unfold receiver_calls. repeat case_atom;
          rewrite ?list_elem_of_singleton, ?elem_of_nil; try tauto; discriminate.
      * unfold sender_calls. repeat case_atom;
          rewrite ?list_elem_of_singleton, ?elem_of_nil; try tauto; discriminate.
      * unfold port_calls. repeat case_atom;
          rewrite ?list_elem_of_singleton, ?elem_of_nil; try tauto; discriminate.
      * apply not_elem_of_nil.
    + repeat apply no_email_app; try apply no_email_nil;
        unfold start_calls, ext_calls, bridge_calls, receiver_calls, sender_calls, port_calls,
          no_email;
        repeat case_atom; repeat (apply Forall_app_2 || constructor).
Qed.

(** * Examples *)

Definition mixed_case : Config :=
  mkConfig (Some "Semantic_VAD") 0.6 200 600 None 100 [] [] None false None None.

Definition unset_knobs : Config :=
  mkConfig (Some "loud") nan 350 infinity None 100 [] [] None false None None.

Lemma normalizeTurnDetection_example :
  normalizeTurnDetection mixed_case = [("type", VStr "semantic_vad")]
  /\ normalizeTurnDetection unset_knobs
     = [("type", VStr "server_vad"); ("threshold", VNum 0.6);
        ("prefix_padding_ms", VNum 350); ("silence_duration_ms", VNum 600)].
Proof.
  split.
  - apply (proj1 (normalizeTurnDetection_shapes mixed_case)).
    exists "Semantic_VAD". split; reflexivity.
  - apply (proj1 (proj2 (normalizeTurnDetection_shapes unset_knobs))).
    right. exists "loud". split; [reflexivity|discriminate].
Defined.

Lemma cleanup_idempotent_example :
  exists l1 l2 st',
    runs (cleanup_schedule Sample.quiet Sample.conf Sample.sip "manual"
            [Again "StasisEnd:both-ended"; Resume 0; Again "grace-timeout"; Resume 0; Resume 0;
             Again "shutdown"; Resume 0; Resume 0])
         Sample.state tt st' l1
    /\ runs (cleanup_schedule Sample.quiet Sample.conf Sample.sip "manual"
               (List.filter is_resume
                  [Again "StasisEnd:both-ended"; Resume 0; Again "grace-timeout"; Resume 0; Resume 0;
                   Again "shutdown"; Resume 0; Resume 0]))
            Sample.state tt st' l2
    /\ calls l1 = calls l2
    /\ (emails Sample.sip (calls l1) <= 1)%nat
    /\ (forall reason' s, Sample.sip ∈ cleanedChannels s ->
          runs (cleanupChannel Sample.quiet Sample.conf Sample.sip reason') s tt s
               [Log LInfo ("Cleanup skipped for " +:+ Sample.sip +:+ " (already cleaned)")])
    /\ Sample.sip ∈ cleanedChannels st'.
Proof.
  apply cleanup_idempotent.
  - intros H. exfalso. revert H. apply not_elem_of_empty.
  - reflexivity.
Defined.

Lemma cleanup_steps_isolated_example :
  exists l st',
    runs (cleanupChannel_complete (with_throws (fun _ => Some "boom") Sample.quiet) Sample.conf
            Sample.sip "manual") Sample.state None st' l
    /\ calls l
       = calls (effects (cleanupChannel_complete (with_throws (fun _ => None) Sample.quiet)
                           Sample.conf Sample.sip "manual") Sample.state)
    /\ (forall p, CD.rtpPort (obj Sample.state O) = Some p -> ReleaseRtpPort p ∈ calls l)
    /\ map_get (sipMap st') Sample.sip = None
    /\ extMap st' !! Sample.sip = None
    /\ (forall e, truthy_id (CD.externalChannelId (obj Sample.state O)) = Some e ->
                  extMap st' !! e = None)
    /\ Sample.sip ∈ cleanedChannels st'.
Proof.
  apply cleanup_steps_isolated.
  - apply not_elem_of_empty.
  - apply not_elem_of_empty.
  - reflexivity.
  - reflexivity.
Defined.

Lemma cleanup_spares_redirected_example :
  (forall s, CD.redirecting (obj s O) = true ->
     calls (effects (cleanup_seg_sip_hangup Sample.quiet Sample.sip O) s) = [])
  /\ (forall s, map_get (sipMap s) Sample.sip = Some O -> CD.redirecting (obj s O) = true ->
        calls (effects (send_email Sample.quiet Sample.conf Sample.sip "StasisEnd:both-ended" O) s) = [])
  /\ (exists l st',
       runs (cleanupChannel_complete Sample.quiet Sample.conf Sample.sip "StasisEnd:both-ended")
            Sample.redirected None st' l
       /\ (ChannelsHangup Sample.sip ∉ calls l)
       /\ no_email (calls l)).
Proof.
  assert (H1 : Sample.sip ∉ cleanedChannels Sample.redirected) by apply not_elem_of_empty.
  assert (H2 : Sample.sip ∉ cleanupPromises Sample.redirected) by apply not_elem_of_empty.
  assert (H3 : map_get (sipMap Sample.redirected) Sample.sip = Some O) by reflexivity.
  assert (H4 : CD._cleaned (obj Sample.redirected O) = false) by reflexivity.
  assert (H5 : CD.redirecting (obj Sample.redirected O) = true) by reflexivity.
  assert (H6 : truthy_id (CD.externalChannelId (obj Sample.redirected O)) <> Some Sample.sip)
    by discriminate.
  pose proof (cleanup_spares_redirected Sample.quiet Sample.conf Sample.sip
                "StasisEnd:both-ended" O Sample.redirected H1 H2 H3 H4 H5 H6) as H.
  exact (conj (proj1 H) (conj (proj1 (proj2 H)) (proj1 (proj2 (proj2 H))))).
Defined.

(** When no dialplan context takes the call, [redirectToQueue] itself
    hangs up the SIP leg of the call it has just flagged as redirected. *)
Lemma redirect_fallback_hangs_up :
  CD.redirecting (obj (exec (redirectToQueue Sample.failing Sample.conf Sample.sip "transfer")
                            Sample.state) O) = true
  /\ calls (effects (redirectToQueue Sample.failing Sample.conf Sample.sip "transfer") Sample.state)
     = [StreamHandlerEnd Sample.sip; WsClose Sample.sip; ChannelsHangup Sample.ext;
        BridgesDestroy "b1"; ReceiverClose Sample.sip; SenderClose Sample.sip;
        ReleaseRtpPort 12000;
        ContinueInDialplan Sample.sip "ext-queues" "400" 1;
        ContinueInDialplan Sample.sip "from-internal" "400" 1;
        ChannelsHangup Sample.sip].
Proof. split; vm_compute; reflexivity. Qed.

Lemma item_created_barge_in_example :
  calls (effects (processMessage Sample.quiet Sample.conf Sample.user_item)
                 (Sample.session, Sample.state))
  = if truthy (VStr "item_1") then [StopPlayback (Sess.channelId Sample.session)] else [].
Proof.
  apply (item_created_barge_in Sample.quiet Sample.conf Sample.user_item
           (VObj [("id", VStr "item_1"); ("role", VStr "user")]) (VStr "item_1")
           (Sample.session, Sample.state)); reflexivity.
Defined.

(** A user item without an id does not stop the playback, stream handler
    or not. *)
Lemma item_without_id_plays_on :
  getprop Sample.anonymous_item "item" = Some (VObj [("role", VStr "user")])
  /\ getprop (VObj [("role", VStr "user")]) "role" = Some (VStr "user")
  /\ Sess.streamHandler Sample.session = true
  /\ calls (effects (processMessage Sample.quiet Sample.conf Sample.anonymous_item)
                    (Sample.session, Sample.state)) = [].
Proof. repeat split. Qed.

Lemma audio_delta_padding_example :
  calls (effects (processMessage Sample.quiet Sample.conf Sample.audio)
                 (Sample.session, Sample.state))
  = (if (length [Byte.x00; Byte.x00; Byte.x00] =? 0)%nat
        || all_silence [Byte.x00; Byte.x00; Byte.x00]
     then []
     else if Sess.streamHandler Sample.session
          then [SendRtpPacket (Sess.channelId Sample.session)
                  (if Sess.totalDeltaBytes Sample.session =? 0
                   then repeat Byte.x7f (Z.to_nat (silencePackets Sample.conf * 160))
                        ++ [Byte.x00; Byte.x00; Byte.x00]
                   else [Byte.x00; Byte.x00; Byte.x00])]
          else [])
  /\ Sess.totalDeltaBytes
       (fst (exec (processMessage Sample.quiet Sample.conf Sample.audio)
                  (Sample.session, Sample.state)))
     = (if (length [Byte.x00; Byte.x00; Byte.x00] =? 0)%nat
           || all_silence [Byte.x00; Byte.x00; Byte.x00]
        then Sess.totalDeltaBytes Sample.session
        else Sess.totalDeltaBytes Sample.session
             + Z.of_nat (length [Byte.x00; Byte.x00; Byte.x00]))
  /\ (SILENCE_PADDING_MS Sample.conf = 100 \/ SILENCE_PADDING_MS Sample.conf = 0 ->
      silencePackets Sample.conf = 5)
  /\ (forall s0, Sess.totalDeltaBytes (fst (exec (on_audio_done Sample.quiet) s0))
                 = Sess.totalDeltaBytes (fst s0)).
Proof.
  apply (audio_delta_padding Sample.quiet Sample.conf Sample.audio (VStr "AAAA")
           [Byte.x00; Byte.x00; Byte.x00] (Sample.session, Sample.state));
    try reflexivity; vm_compute; discriminate.
Defined.

(** C5. The first audio delta of a second response is pushed without the
    silence prefix. Two responses in one session, each with one delta of
    three bytes that are not silence: the first delta reaches the stream
    handler behind 5 packets of 160 bytes of 0x7F, the second one bare.
    When the first response ends, [response.audio.done] puts the segment
    count back to zero, as it does the other per-response state, but
    leaves the running byte count at 3, and the prefix goes by that
    count. *)
Lemma second_response_unpadded :
  calls (pw_trace
           (pump_run Sample.quiet Sample.conf
              [Frame (Some (Sample.event "response.created" []));
               Frame (Some Sample.audio);
               Frame (Some (Sample.event "response.audio.done" []));
               Frame (Some (Sample.event "response.created" []));
               Frame (Some Sample.audio);
               Tick]
              (mkPumpWorld (Sample.session, Sample.state) [] false [] [] false)))
  = [SendRtpPacket Sample.sip (repeat Byte.x7f 800 ++ [Byte.x00; Byte.x00; Byte.x00]);
     SendRtpPacket Sample.sip [Byte.x00; Byte.x00; Byte.x00]]
  /\ (let during :=
         fst (pw_state
                (pump_run Sample.quiet Sample.conf
                   [Frame (Some (Sample.event "response.created" []));
                    Frame (Some Sample.audio);
                    Tick]
                   (mkPumpWorld (Sample.session, Sample.state) [] false [] [] false))) in
      Sess.segmentCount during = 1 /\ Sess.totalDeltaBytes during = 3)
  /\ (let after :=
         fst (pw_state
                (pump_run Sample.quiet Sample.conf
                   [Frame (Some (Sample.event "response.created" []));
                    Frame (Some Sample.audio);
                    Frame (Some (Sample.event "response.audio.done" []));
                    Tick]
                   (mkPumpWorld (Sample.session, Sample.state) [] false [] [] false))) in
      Sess.segmentCount after = 0 /\ Sess.isResponseActive after = false
      /\ Sess.totalDeltaBytes after = 3).
Proof. repeat split; vm_compute; reflexivity. Qed.

Lemma terminate_waits_example :
  exists st2 l,
    runs (terminateAfterPlayback Sample.quiet Sample.conf Sample.env Sample.sip "goodbye")
         Sample.playing tt st2 l
    /\ calls l = []
    /\ cleanedChannels st2 = cleanedChannels Sample.playing
    /\ cleanupPromises st2 = cleanupPromises Sample.playing
    /\ pending st2 = pending Sample.playing
    /\ waiters st2 = waiters Sample.playing ++ [mkWaiter Sample.sip "goodbye" false true]
    /\ waiters st2 !! length (waiters Sample.playing)
       = Some (mkWaiter Sample.sip "goodbye" false true)
    /\ timers st2
       = <[nextTimer Sample.playing :=
             mkTimer (fallbackMs Sample.quiet Sample.env)
                     (TA_terminateFallback (length (waiters Sample.playing)))]>
           (timers Sample.playing)
    /\ fire_timer Sample.quiet Sample.conf (nextTimer Sample.playing) st2
       = (let '(o, s', l) :=
            cleanupChannel Sample.quiet Sample.conf Sample.sip
              ("assistant-terminate:" +:+ "goodbye")
              (set_waiters
                 (<[length (waiters Sample.playing) := mkWaiter Sample.sip "goodbye" true false]>
                    (waiters st2))
                 (set_timers (delete (nextTimer Sample.playing) (timers st2)) st2)) in
          (o, s', Log LWarn "Terminate fallback timeout reached" :: l))
    /\ ((forall i wt, i <> length (waiters Sample.playing) ->
           waiters Sample.playing !! i = Some wt -> w_listening wt = true ->
           w_channelId wt <> Sample.sip) ->
        emit_audioFinished Sample.quiet Sample.conf Sample.sip st2
        = (let '(o, s', l) :=
             cleanupChannel Sample.quiet Sample.conf Sample.sip
               ("assistant-terminate:" +:+ "goodbye")
               (set_waiters
                  (<[length (waiters Sample.playing) := mkWaiter Sample.sip "goodbye" true false]>
                     (waiters st2)) st2) in
           (o, s', Log LInfo ("RTP drain finished for " +:+ Sample.sip
                              +:+ " prior to terminate") :: l)))
    /\ (forall id, id <> Sample.sip ->
          (forall i wt, i <> length (waiters Sample.playing) ->
             waiters Sample.playing !! i = Some wt -> w_listening wt = true ->
             w_channelId wt <> id) ->
          emit_audioFinished Sample.quiet Sample.conf id st2 = (Ret tt, st2, []))
    /\ (forall evs, wait_flags (length (waiters Sample.playing)) evs st2
                    = first_only Sample.sip evs).
Proof.
  assert (H1 : map_get (sipMap Sample.playing) Sample.sip = Some O) by reflexivity.
  assert (H2 : CD.redirecting (obj Sample.playing O) = false) by reflexivity.
  assert (H3 : CD._cleaned (obj Sample.playing O) = false) by reflexivity.
  assert (H4 : Sample.sip ∉ cleanedChannels Sample.playing) by apply not_elem_of_empty.
  exact (proj1 (proj2 (terminate_waits_for_playback Sample.quiet Sample.conf Sample.env
                         Sample.sip "goodbye" O Sample.playing H1 H2 H3 H4))).
Defined.

Definition archive : Config :=
  mkConfig None 0.6 200 600 (Some "/srv/calls") 100 ["goodbye"] ["transfer"] None true
    (Some "400") None.

Lemma transcript_append_example :
  calls (effects (appendTranscript Sample.quiet archive Sample.sip "USER" (VStr "hello"))
                 Sample.state)
  = [MkdirSync "/srv/calls/2025/01/05";
     AppendFile "/srv/calls/2025/01/05/conversation-+48600100200-1736069400.1.txt"
                ("2025-01-05T09:30:00.000Z USER: hello" +:+ LF)]
  /\ calls (effects (appendTranscript Sample.quiet Sample.conf "1736069400.9" "ASSISTANT"
                       (VStr "bye")) Sample.state)
     = [MkdirSync "/var/spool/asterisk/monitor/2025/01/05";
        AppendFile
          "/var/spool/asterisk/monitor/2025/01/05/conversation-unknown-1736069400.9.txt"
          ("2025-01-05T09:30:00.000Z ASSISTANT: bye" +:+ LF)].
Proof.
  split.
  - refine (eq_trans
              (proj2 (proj1 (proj2 (proj2 (transcript_append Sample.quiet archive
                                             Sample.sip "USER" "hello" Sample.state))) _)) _).
    + vm_compute. discriminate.
    + vm_compute. reflexivity.
  - refine (eq_trans
              (proj2 (proj1 (proj2 (proj2 (transcript_append Sample.quiet Sample.conf
                                             "1736069400.9" "ASSISTANT" "bye" Sample.state))) _)) _).
    + vm_compute. discriminate.
    + vm_compute. reflexivity.
Defined.

(** A message the handler chokes on, and the queue it heads. *)
Definition broken : value := Sample.event "response.audio.delta" [("delta", VNum 7)].

Definition jammed : Sess.t * State :=
  (Sess.set_messageQueue [broken; Sample.audio] Sample.session, Sample.state).

Definition unjammed : Sess.t * State :=
  (Sess.set_messageQueue [Sample.audio] Sample.session, Sample.state).

Lemma pump_survives_failure_example :
  (Sess.messageQueue (fst unjammed) = [Sample.audio]
   /\ exists taken k f s' l,
        runs (pump_loop Sample.quiet Sample.conf 4) unjammed (taken, k, f) s' l
        /\ runs (pump_loop Sample.quiet Sample.conf 5) jammed (broken :: taken, k, f) s'
                ([] ++ [Log LError ("Error processing message for "
                                    +:+ Sess.channelId (fst unjammed) +:+ ": "
                                    +:+ "TypeError: The first argument must be of type string")]
                 ++ l))
  /\ calls (effects (pump_loop Sample.quiet Sample.conf 5) jammed)
     = [SendRtpPacket Sample.sip (repeat Byte.x7f 800 ++ [Byte.x00; Byte.x00; Byte.x00])].
Proof.
  split.
  - apply (proj1 (proj2 (proj2 (processMessage_never_throws Sample.quiet Sample.conf)))
             4%nat jammed broken [Sample.audio]
             "TypeError: The first argument must be of type string" unjammed []);
      reflexivity.
  - vm_compute. reflexivity.
Defined.

Lemma leg_end_example :
  exists st2,
    runs (markChannelEndedAndMaybeCleanup Sample.quiet Sample.conf Sample.env
            Sample.sip_channel "StasisEnd") Sample.state tt st2 []
    /\ heap st2
       = <[O := CD.set__cleanupTimer (Some (nextTimer Sample.state))
                  (CD.set__sipEnded true (obj Sample.state O))]> (heap Sample.state)
    /\ sipMap st2 = map_set (sipMap Sample.state) Sample.sip O
    /\ CD._sipEnded (obj st2 O) = true
    /\ timers st2
       = <[nextTimer Sample.state :=
             mkTimer (CLEANUP_GRACE_MS Sample.quiet Sample.env)
                     (TA_cleanup Sample.sip ("StasisEnd" +:+ ":grace-timeout"))]>
           (timers Sample.state)
    /\ CD._cleanupTimer (obj st2 O) = Some (nextTimer Sample.state)
    /\ cleanedChannels st2 = cleanedChannels Sample.state
    /\ pending st2 = pending Sample.state
    /\ fire_timer Sample.quiet Sample.conf (nextTimer Sample.state) st2
       = cleanupChannel Sample.quiet Sample.conf Sample.sip ("StasisEnd" +:+ ":grace-timeout")
           (set_timers (delete (nextTimer Sample.state) (timers st2)) st2).
Proof.
  assert (H1 : truthy_id (resolveSipIdForChannel Sample.sip_channel Sample.state)
               = Some Sample.sip) by reflexivity.
  assert (H2 : map_get (sipMap Sample.state) Sample.sip = Some O) by reflexivity.
  assert (H3 : Sample.sip ∉ cleanedChannels Sample.state) by apply not_elem_of_empty.
  assert (H4 : CD._cleaned (obj Sample.state O) = false) by reflexivity.
  assert (H5 : isExternalMediaChannel (channel_name Sample.sip_channel) = true ->
               ch_id Sample.sip_channel ∉ ignoreExtEvents Sample.state)
    by (intros _; apply not_elem_of_empty).
  pose proof (leg_end_marks_and_schedules Sample.quiet Sample.conf Sample.env
                Sample.sip_channel "StasisEnd" Sample.sip O Sample.state H1 H2 H3 H4 H5) as H.
  exact (proj1 (proj2 H)).
Defined.

(** After the handoff to the queue has begun the call is still registered
    and not cleaned, yet the end of its external leg is dropped: no flag is
    set and no timer is armed. And when both legs of a call end, the
    reason given to the cleanup carries the name of the event. *)
Lemma ignored_leg_end_leaves_no_mark :
  map_get (sipMap (exec (redirectToQueue Sample.quiet Sample.conf Sample.sip "transfer")
                        Sample.state)) Sample.sip = Some O
  /\ bool_decide (Sample.sip ∈ cleanedChannels
                    (exec (redirectToQueue Sample.quiet Sample.conf Sample.sip "transfer")
                          Sample.state)) = false
  /\ CD._cleaned (obj (exec (redirectToQueue Sample.quiet Sample.conf Sample.sip "transfer")
                            Sample.state) O) = false
  /\ truthy_id (resolveSipIdForChannel Sample.ext_channel
                  (exec (redirectToQueue Sample.quiet Sample.conf Sample.sip "transfer")
                        Sample.state)) = Some Sample.sip
  /\ CD._extEnded
       (obj (exec (markChannelEndedAndMaybeCleanup Sample.quiet Sample.conf Sample.env
                     Sample.ext_channel "StasisEnd")
                  (exec (redirectToQueue Sample.quiet Sample.conf Sample.sip "transfer")
                        Sample.state)) O) = false
  /\ CD._cleanupTimer
       (obj (exec (markChannelEndedAndMaybeCleanup Sample.quiet Sample.conf Sample.env
                     Sample.ext_channel "StasisEnd")
                  (exec (redirectToQueue Sample.quiet Sample.conf Sample.sip "transfer")
                        Sample.state)) O) = None
  /\ map t_reason
       (pending (exec (on_StasisEnd Sample.quiet Sample.conf Sample.env Sample.ext_channel)
                      (exec (on_StasisEnd Sample.quiet Sample.conf Sample.env Sample.sip_channel)
                            Sample.state)))
     = ["StasisEnd:both-ended"].
Proof. repeat split; vm_compute; reflexivity. Qed.
(** * Phrase lists and the transcript e-mail *)

(** ** Strings *)

Lemma sapp_cons (x : ascii) (a b : string) : String x a +:+ b = String x (a +:+ b).
Proof. reflexivity. Qed.

Lemma sapp_nil_l (a : string) : "" +:+ a = a.
Proof. reflexivity. Qed.

Lemma sapp_assoc (a b c : string) : (a +:+ b) +:+ c = a +:+ (b +:+ c).
Proof.
  induction a as [|x a IH]; [reflexivity|]. rewrite !sapp_cons. f_equal. exact IH.
Qed.

Lemma sapp_nil_r (a : string) : a +:+ "" = a.
Proof. induction a as [|x a IH]; [reflexivity|]. rewrite sapp_cons. f_equal. exact IH. Qed.

Lemma sapp_snoc (a : string) (c : ascii) (b : string) :
  (a +:+ String c "") +:+ b = a +:+ String c b.
Proof. now rewrite sapp_assoc. Qed.

(** [lacks c s]: the character [c] does not occur in [s]. *)
Fixpoint lacks (c : ascii) (s : string) : bool :=
  match s with
  | EmptyString => true
  | String d s' => negb (Ascii.eqb d c) && lacks c s'
  end.

Lemma lacks_app c a b : lacks c (a +:+ b) = lacks c a && lacks c b.
Proof.
  induction a as [|x a IH]; [reflexivity|].
  rewrite sapp_cons. cbn [lacks]. now rewrite IH, andb_assoc.
Qed.

Lemma lacks_list c s :
  lacks c s = forallb (fun d => negb (Ascii.eqb d c)) (list_ascii_of_string s).
Proof. induction s as [|x s IH]; cbn; [reflexivity|now rewrite IH]. Qed.

Lemma lacks_reverse c s : lacks c (reverse s) = lacks c s.
Proof.
  unfold reverse. rewrite !lacks_list, list_ascii_of_string_of_list_ascii.
  induction (list_ascii_of_string s) as [|x l IH]; cbn; [reflexivity|].
  rewrite forallb_app, IH. cbn. rewrite andb_true_r. apply andb_comm.
Qed.

Lemma lacks_trimStart c s : lacks c s = true -> lacks c (trimStart s) = true.
Proof.
  induction s as [|x s IH]; cbn; [reflexivity|].
  intros H. destruct (is_white x); [|exact H].
  apply andb_prop in H. now apply IH.
Qed.

Lemma lacks_trim c s : lacks c s = true -> lacks c (trim s) = true.
Proof.
  intros H. unfold trim. rewrite lacks_reverse. apply lacks_trimStart.
  rewrite lacks_reverse. now apply lacks_trimStart.
Qed.

(** [trim] on the list of characters. *)
Fixpoint drop_white (l : list ascii) : list ascii :=
  match l with
  | c :: l' => if is_white c then drop_white l' else l
  | [] => []
  end.

Lemma trimStart_list s :
  list_ascii_of_string (trimStart s) = drop_white (list_ascii_of_string s).
Proof. induction s as [|x s IH]; cbn; [reflexivity|]. now destruct (is_white x). Qed.

Lemma trim_list s :
  list_ascii_of_string (trim s)
  = rev (drop_white (rev (drop_white (list_ascii_of_string s)))).
Proof.
  unfold trim, reverse.
  now rewrite list_ascii_of_string_of_list_ascii, trimStart_list,
    list_ascii_of_string_of_list_ascii, trimStart_list.
Qed.

Lemma drop_white_head l c t : drop_white l = c :: t -> is_white c = false.
Proof.
  induction l as [|x l IH]; cbn; [discriminate|].
  destruct (is_white x) eqn:E; [exact IH|]. intros [= <- _]. exact E.
Qed.

Lemma drop_white_fix l :
  (forall c t, l = c :: t -> is_white c = false) -> drop_white l = l.
Proof.
  destruct l as [|x l]; [reflexivity|]. intros H. cbn. now rewrite (H x l eq_refl).
Qed.

Lemma drop_white_suffix l : exists ws, l = ws ++ drop_white l.
Proof.
  induction l as [|x l [ws IH]]; [now exists []|]. cbn.
  destruct (is_white x); [|now exists []].
  exists (x :: ws). cbn. now rewrite <- IH.
Qed.

Lemma trim_idempotent s : trim (trim s) = trim s.
Proof.
  enough (H : list_ascii_of_string (trim (trim s)) = list_ascii_of_string (trim s)).
  { apply (f_equal string_of_list_ascii) in H.
    now rewrite !string_of_list_ascii_of_string in H. }
  rewrite (trim_list (trim s)), (trim_list s).
  set (a := drop_white (list_ascii_of_string s)).
  set (b := drop_white (rev a)).
  assert (Hb : drop_white b = b).
  { apply drop_white_fix. intros c t E. apply (drop_white_head (rev a) c t). exact E. }
  assert (Hrb : drop_white (rev b) = rev b).
  { apply drop_white_fix. intros c t E.
    destruct (drop_white_suffix (rev a)) as [ws Hws]. fold b in Hws.
    assert (Ha : a = rev b ++ rev ws).
    { rewrite <- (rev_involutive a), Hws, rev_app_distr. reflexivity. }
    rewrite E in Ha. cbn in Ha.
    apply (drop_white_head (list_ascii_of_string s) c (t ++ rev ws)). exact Ha. }
  rewrite Hrb, rev_involutive, Hb. reflexivity.
Qed.

(** ** Phrase lists *)

Import ConfigFile.

(** A configuration value as it is written: items in single quotes, each
    after a separator, and a rest. *)
Fixpoint render (segs : list (string * string)) (rest : string) : string :=
  match segs with
  | [] => rest
  | (sep, item) :: segs' => sep +:+ "'" +:+ item +:+ "'" +:+ render segs' rest
  end.

Lemma quoted_skip sep s :
  lacks quote sep = true -> quoted None (sep +:+ s) = quoted None s.
Proof.
  induction sep as [|c sep IH]; [reflexivity|].
  rewrite sapp_cons. cbn [lacks quoted].
  intros H. apply andb_prop in H. destruct H as [Hc H].
  destruct (Ascii.eqb c quote); [discriminate|]. now apply IH.
Qed.

Lemma quoted_item item : forall acc s,
  lacks quote item = true ->
  quoted (Some acc) (item +:+ s) = quoted (Some (acc +:+ item)) s.
Proof.
  induction item as [|c item IH]; intros acc s.
  - now rewrite sapp_nil_r.
  - rewrite sapp_cons. cbn [lacks quoted].
    intros H. apply andb_prop in H. destruct H as [Hc H].
    destruct (Ascii.eqb c quote); [discriminate|].
    rewrite IH by exact H. now rewrite sapp_snoc.
Qed.

Lemma quoted_render segs rest :
  Forall (fun seg => lacks quote (fst seg) = true /\ lacks quote (snd seg) = true
                     /\ snd seg <> "") segs ->
  quoted None (render segs rest) = map snd segs ++ quoted None rest.
Proof.
  intros Hsegs. induction Hsegs as [|[sep item] segs (Hsep & Hitem & Hne) _ IH];
    [reflexivity|].
  cbn [render map snd fst] in *. rewrite quoted_skip by exact Hsep.
  change ("'" +:+ item +:+ "'" +:+ render segs rest)
    with (String quote (item +:+ String quote (render segs rest))).
  cbn [quoted]. rewrite Ascii.eqb_refl.
  rewrite quoted_item by exact Hitem. rewrite sapp_nil_l. cbn [quoted].
  rewrite Ascii.eqb_refl.
  destruct (String.eqb_spec item ""); [contradiction|]. now rewrite IH.
Qed.

Lemma quoted_none s : lacks quote s = true -> quoted None s = [].
Proof.
  intros H. rewrite <- (sapp_nil_r s). rewrite quoted_skip by exact H. reflexivity.
Qed.

Lemma quoted_open rest item :
  lacks quote rest = true -> lacks quote item = true ->
  quoted None (rest +:+ "'" +:+ item) = [].
Proof.
  intros Hrest Hitem. rewrite quoted_skip by exact Hrest.
  change ("'" +:+ item) with (String quote item). cbn [quoted]. rewrite Ascii.eqb_refl.
  rewrite <- (sapp_nil_r item), quoted_item by exact Hitem. reflexivity.
Qed.

Lemma render_nonempty sep item segs rest : render ((sep, item) :: segs) rest <> "".
Proof.
  cbn [render]. intros E.
  assert (H : lacks quote (sep +:+ "'" +:+ item +:+ "'" +:+ render segs rest) = true)
    by now rewrite E.
  rewrite lacks_app in H. apply andb_prop in H. destruct H as [_ H]. discriminate.
Qed.

(** X13. A phrase list written as items in single quotes, with any text
    free of quotes before, between and after them, is read back as those
    items, in order, each lower-cased, normalised and trimmed; what
    follows a last quote that is never closed is dropped. *)
Theorem phrases_round_trip (P : Platform) (segs : list (string * string))
    (rest unclosed : string) :
  Forall (fun seg => lacks quote (fst seg) = true /\ lacks quote (snd seg) = true
                     /\ snd seg <> "") segs ->
  lacks quote rest = true ->
  lacks quote unclosed = true ->
  phrases P (Some (render segs rest))
  = map (fun seg => trim (normalizeNFKC P (toLowerCase (snd seg)))) segs
  /\ phrases P (Some (render segs (rest +:+ "'" +:+ unclosed)))
     = map (fun seg => trim (normalizeNFKC P (toLowerCase (snd seg)))) segs.
Proof.
  intros Hsegs Hrest Hopen. unfold phrases.
  rewrite !(quoted_render segs _ Hsegs), (quoted_none rest Hrest),
    (quoted_open rest unclosed Hrest Hopen), app_nil_r, map_map.
  destruct segs as [|[sep item] segs]; [split; now destruct (String.eqb _ _)|].
  split.
  - destruct (String.eqb_spec (render ((sep, item) :: segs) rest) "") as [E|_];
      [|reflexivity].
    exfalso. exact (render_nonempty _ _ _ _ E).
  - destruct (String.eqb_spec (render ((sep, item) :: segs) (rest +:+ "'" +:+ unclosed)) "")
      as [E|_]; [|reflexivity].
    exfalso. exact (render_nonempty _ _ _ _ E).
Qed.

(** ** The transcript e-mail *)

Import Mail.

Definition comma : ascii := ","%char.

Lemma split_comma_lacks s : forall cur,
  lacks comma cur = true ->
  Forall (fun x => lacks comma x = true) (split_comma cur s).
Proof.
  induction s as [|c s IH]; intros cur Hcur; cbn [split_comma].
  - now constructor.
  - change ","%char with comma. destruct (Ascii.eqb c comma) eqn:Hc.
    + constructor; [exact Hcur|]. now apply IH.
    + apply IH. rewrite lacks_app, Hcur. cbn [lacks]. now rewrite Hc.
Qed.

(** A recipient as the mailer gets it. *)
Definition address (r : string) : Prop :=
  r <> "" /\ lacks comma r = true /\ trim r = r.

Lemma recipients_addresses s : Forall address (recipients s).
Proof.
  unfold recipients. apply List.Forall_forall. intros r Hin.
  apply List.filter_In in Hin. destruct Hin as [Hin Hne].
  apply List.in_map_iff in Hin. destruct Hin as (x & <- & Hx).
  pose proof (split_comma_lacks (default "" (EMAIL_TO s)) "" eq_refl) as Hall.
  rewrite List.Forall_forall in Hall. specialize (Hall x Hx).
  split; [|split].
  - intros E. rewrite E in Hne. discriminate.
  - now apply lacks_trim.
  - apply trim_idempotent.
Qed.

(** X14. [sendTranscriptEmail] hands a message to the mailer only when
    e-mail is enabled, the transcript file exists, [EMAIL_TO] names a
    recipient and [SMTP_HOST] is set. The message goes to the entries of
    [EMAIL_TO] between commas, trimmed, the blank ones left out, and has
    the transcript attached under its base name. With e-mail disabled or
    the file missing the function returns after a log line; with no
    recipient or no host it throws. *)
Theorem mail_decision (cfg : Config) (s : Settings) (existsSync : string -> bool)
    (channelId filePath : string) (callerId reason : option string) :
  let r := sendTranscriptEmail cfg s existsSync channelId callerId filePath reason in
  (EMAIL_ENABLED cfg = false ->
   r = Skipped LDebug ("Email disabled; skipping send for " +:+ channelId))
  /\ (EMAIL_ENABLED cfg = true -> existsSync filePath = false ->
      r = Skipped LWarn ("Transcript not found for " +:+ channelId +:+ ": " +:+ filePath))
  /\ (EMAIL_ENABLED cfg = true -> existsSync filePath = true -> recipients s = [] ->
      r = Thrown "EMAIL_TO is empty in config.conf")
  /\ (EMAIL_ENABLED cfg = true -> existsSync filePath = true -> recipients s <> [] ->
      truthy_id (SMTP_HOST s) = None ->
      r = Thrown "SMTP_HOST is not set in config.conf")
  /\ (forall t m,
        r = Submitted t m ->
        EMAIL_ENABLED cfg = true /\ existsSync filePath = true
        /\ truthy_id (SMTP_HOST s) = Some (tr_host t)
        /\ m_to m = recipients s /\ m_to m <> [] /\ Forall address (m_to m)
        /\ m_attachments m = [mkAttachment (basename filePath) filePath "text/plain"]).
Proof.
  cbv zeta. unfold sendTranscriptEmail, buildTransport.
  destruct (EMAIL_ENABLED cfg); cbn [negb];
    [|repeat split; intros; first [reflexivity | discriminate]].
  destruct (existsSync filePath); cbn [negb];
    [|repeat split; intros; first [reflexivity | discriminate]].
  pose proof (recipients_addresses s) as Haddr.
  destruct (recipients s) as [|r0 rs] eqn:Hto;
    [repeat split; intros; first [reflexivity | discriminate | contradiction]|].
  destruct (truthy_id (SMTP_HOST s)) as [h|] eqn:Hhost.
  - split; [discriminate|]. split; [discriminate|]. split; [discriminate|].
    split; [discriminate|].
    intros t m [= <- <-]. cbn. repeat split; try reflexivity; [discriminate|exact Haddr].
  - split; [discriminate|]. split; [discriminate|]. split; [discriminate|].
    split; [reflexivity|]. intros t m H. discriminate.
Qed.

(** *** Templates *)

Definition dollar : ascii := "$"%char.

Lemma expand_plain matched before after repl :
  lacks dollar repl = true -> expand matched before after repl = repl.
Proof.
  induction repl as [|c r IH]; [reflexivity|]. cbn [lacks expand].
  change "$"%char with dollar. intros H. apply andb_prop in H. destruct H as [Hc H].
  destruct (Ascii.eqb c dollar); [discriminate|]. now rewrite IH.
Qed.

Lemma prefix_app pat rest : String.prefix pat (pat +:+ rest) = true.
Proof.
  induction pat as [|c pat IH]; [now destruct rest|].
  rewrite sapp_cons. cbn [String.prefix]. destruct (Ascii.ascii_dec c c); [exact IH|contradiction].
Qed.

Lemma drop_chars_app pat rest : drop_chars (String.length pat) (pat +:+ rest) = rest.
Proof.
  induction pat as [|c pat IH]; [now destruct rest|].
  rewrite sapp_cons. exact IH.
Qed.

Lemma split_at_found c0 pat a : forall before rest,
  lacks c0 a = true ->
  split_at (String c0 pat) before (a +:+ String c0 pat +:+ rest)
  = Some (before +:+ a, rest).
Proof.
  induction a as [|d a IH]; intros before rest Ha.
  - rewrite sapp_nil_l, sapp_nil_r.
    destruct (String c0 pat +:+ rest) eqn:E; [discriminate|].
    cbn [split_at]. rewrite <- E, prefix_app, drop_chars_app. reflexivity.
  - cbn [lacks] in Ha. apply andb_prop in Ha. destruct Ha as [Hd Ha].
    rewrite sapp_cons. cbn [split_at String.prefix].
    destruct (Ascii.ascii_dec c0 d) as [->|_]; [now rewrite Ascii.eqb_refl in Hd|].
    rewrite IH by exact Ha. now rewrite sapp_snoc.
Qed.

Lemma replace_first c0 pat a rest repl :
  lacks c0 a = true -> lacks dollar repl = true ->
  replace (a +:+ String c0 pat +:+ rest) (String c0 pat) repl = a +:+ repl +:+ rest.
Proof.
  intros Ha Hrepl. unfold replace.
  rewrite (split_at_found c0 pat a "" rest Ha), sapp_nil_l, expand_plain by exact Hrepl.
  reflexivity.
Qed.

Definition brace : ascii := "{"%char.

(** X15. A placeholder is filled once. With a replacement text free of
    [$], [replace] puts it in place of the first occurrence of the
    pattern and leaves the rest of the text, later occurrences included,
    as it is. So a subject template with one [{{callerId}}] and then one
    [{{channelId}}] and no other brace before them gives the template
    with both filled in, for a caller and a call id free of [$] and a
    caller free of braces. *)
Theorem template_fill (s : Settings) (a b c callerId channelId : string) :
  EMAIL_SUBJECT_TEMPLATE s = Some (a +:+ "{{callerId}}" +:+ b +:+ "{{channelId}}" +:+ c) ->
  lacks brace a = true -> lacks brace b = true ->
  lacks brace callerId = true ->
  lacks dollar callerId = true -> lacks dollar channelId = true ->
  subject s callerId channelId = a +:+ callerId +:+ b +:+ channelId +:+ c
  /\ (forall rest,
        replace (a +:+ "{{callerId}}" +:+ rest) "{{callerId}}" callerId
        = a +:+ callerId +:+ rest).
Proof.
  intros Htmpl Ha Hb Hcid Hd1 Hd2.
  assert (Hone : forall rest,
             replace (a +:+ "{{callerId}}" +:+ rest) "{{callerId}}" callerId
             = a +:+ callerId +:+ rest).
  { intros rest. apply (replace_first brace "{callerId}}" a rest callerId Ha Hd1). }
  split; [|exact Hone].
  unfold subject. rewrite Htmpl.
  assert (Htr : truthy_id (Some (a +:+ "{{callerId}}" +:+ b +:+ "{{channelId}}" +:+ c))
                = Some (a +:+ "{{callerId}}" +:+ b +:+ "{{channelId}}" +:+ c)).
  { cbn [truthy_id]. destruct (String.eqb_spec (a +:+ "{{callerId}}" +:+ b
                                                 +:+ "{{channelId}}" +:+ c) "") as [E|_];
      [|reflexivity].
    exfalso.
    assert (H : lacks brace (a +:+ "{{callerId}}" +:+ b +:+ "{{channelId}}" +:+ c) = true)
      by now rewrite E.
    rewrite lacks_app in H. apply andb_prop in H. destruct H as [_ H]. discriminate. }
  rewrite Htr. cbn [default from_option id].
  rewrite Hone.
  assert (E : a +:+ callerId +:+ b +:+ "{{channelId}}" +:+ c
              = ((a +:+ callerId) +:+ b) +:+ "{{channelId}}" +:+ c)
    by now rewrite !sapp_assoc.
  rewrite E.
  pose proof (replace_first brace "{channelId}}" ((a +:+ callerId) +:+ b) c channelId) as H.
  unfold brace in H. rewrite H.
  - now rewrite !sapp_assoc.
  - fold brace. now rewrite !lacks_app, Ha, Hcid, Hb.
  - exact Hd2.
Qed.

(** * Further examples *)

(** The sample call while the events of its external leg are ignored, and
    an id that no call was registered under. *)
Definition ignoring : State := set_ignoreExtEvents {[Sample.ext]} Sample.state.

Definition stranger : string := "1736069400.9".

Definition sample_smtp : Settings :=
  mkSettings (Some "smtp.example.org") 587%float false None None
    (Some "pbx@example.org") (Some "ops@example.org, , desk@example.org")
    (Some "Call from {{callerId}} on {{channelId}}") None.

Lemma late_leg_end_dropped_example :
  exists l1 l2,
    on_StasisEnd Sample.quiet Sample.conf Sample.env Sample.ext_channel ignoring
    = (Ret tt, ignoring, l1)
    /\ calls l1 = []
    /\ on_ChannelDestroyed Sample.quiet Sample.conf Sample.env Sample.ext_channel ignoring
       = (Ret tt, ignoring, l2)
    /\ calls l2 = [].
Proof.
  apply late_leg_end_dropped. left. split; [reflexivity|].
  change (Sample.ext ∈ ({[Sample.ext]} : gset string)). apply elem_of_singleton. reflexivity.
Defined.

Lemma terminate_request_refused_example :
  exists l,
    terminateAfterPlayback Sample.quiet Sample.conf Sample.env Sample.sip "goodbye"
      Sample.redirected
    = (Ret tt, Sample.redirected, l)
    /\ calls l = [].
Proof.
  apply (terminate_request_refused Sample.quiet Sample.conf Sample.env Sample.sip "goodbye" O);
    [reflexivity|left; reflexivity].
Defined.

Lemma redirect_refused_example :
  exists l,
    redirectToQueue Sample.quiet Sample.conf Sample.sip "transfer" Sample.redirected
    = (Ret tt, Sample.redirected, l)
    /\ calls l = [].
Proof.
  apply redirect_refused. right; right. exists O. split; reflexivity.
Defined.

Lemma redirect_dialplan_order_example :
  exists l st' attempted rest,
    redirectToQueue Sample.quiet Sample.conf Sample.sip "transfer" Sample.state
    = (Ret tt, st', l)
    /\ tryContexts Sample.conf = attempted ++ rest
    /\ (forall ctx, ctx ∈ removelast attempted ->
                    accepted Sample.quiet Sample.sip (queue_ext Sample.conf) ctx = false)
    /\ ((exists ctx,
            last attempted = Some ctx
            /\ accepted Sample.quiet Sample.sip (queue_ext Sample.conf) ctx = true
            /\ calls l = handoff_calls Sample.sip O Sample.state
                         ++ map (fun ctx => ContinueInDialplan Sample.sip ctx
                                              (queue_ext Sample.conf) 1) attempted)
        \/ (rest = []
            /\ (forall ctx, ctx ∈ attempted ->
                            accepted Sample.quiet Sample.sip (queue_ext Sample.conf) ctx = false)
            /\ calls l = handoff_calls Sample.sip O Sample.state
                         ++ map (fun ctx => ContinueInDialplan Sample.sip ctx
                                              (queue_ext Sample.conf) 1) attempted
                         ++ [ChannelsHangup Sample.sip])).
Proof.
  apply redirect_dialplan_order;
    [intros H; vm_compute in H; discriminate|reflexivity|reflexivity|reflexivity].
Defined.

Lemma cleanup_after_handoff_example :
  exists l1 st1 l2 st2,
    redirectToQueue Sample.quiet Sample.conf Sample.sip "transfer" Sample.state
    = (Ret tt, st1, l1)
    /\ cleanupChannel_complete Sample.quiet Sample.conf Sample.sip "StasisEnd:both-ended" st1
       = (Ret None, st2, l2)
    /\ calls l2 = start_calls Sample.sip (obj Sample.state O) ++ ext_calls O Sample.state
                  ++ bridge_calls O Sample.state ++ port_calls (obj Sample.state O)
    /\ (forall p, CD.rtpPort (obj Sample.state O) = Some p ->
                  ReleaseRtpPort p ∈ calls l1 /\ ReleaseRtpPort p ∈ calls l2).
Proof.
  apply cleanup_after_handoff;
    [intros H; vm_compute in H; discriminate|reflexivity|reflexivity|reflexivity
    |apply not_elem_of_empty|apply not_elem_of_empty].
Defined.

Lemma handoff_silences_external_leg_example :
  exists l st1,
    redirectToQueue Sample.quiet Sample.conf Sample.sip "transfer" Sample.state
    = (Ret tt, st1, l)
    /\ Sample.ext ∈ ignoreExtEvents st1
    /\ timers st1 !! nextTimer Sample.state = Some (mkTimer 10000%float (TA_unignore O))
    /\ (exists l1 l2,
          on_StasisEnd Sample.quiet Sample.conf Sample.env Sample.ext_channel st1
          = (Ret tt, st1, l1)
          /\ calls l1 = []
          /\ on_ChannelDestroyed Sample.quiet Sample.conf Sample.env Sample.ext_channel st1
             = (Ret tt, st1, l2)
          /\ calls l2 = [])
    /\ Sample.ext ∉ ignoreExtEvents
                      (exec (fire_timer Sample.quiet Sample.conf (nextTimer Sample.state)) st1).
Proof.
  assert (H1 : queue_ext Sample.conf <> "") by (intros H; vm_compute in H; discriminate).
  assert (H2 : map_get (sipMap Sample.state) Sample.sip = Some O) by reflexivity.
  assert (H3 : CD.redirecting (obj Sample.state O) = false) by reflexivity.
  assert (H4 : ariClient Sample.state = true) by reflexivity.
  assert (H5 : truthy_id (CD.externalChannelId (obj Sample.state O)) = Some Sample.ext)
    by reflexivity.
  assert (H6 : ch_id Sample.ext_channel = Sample.ext) by reflexivity.
  assert (H7 : isExternalMediaChannel (channel_name Sample.ext_channel) = true) by reflexivity.
  destruct (handoff_silences_external_leg Sample.quiet Sample.conf Sample.env Sample.sip
              "transfer" Sample.ext O Sample.ext_channel Sample.state H1 H2 H3 H4 H5 H6 H7)
    as (l & st1 & Hrun & Hin & Htm & Hrec & Hdrop & Hfire).
  exists l, st1. split; [exact Hrun|]. split; [exact Hin|]. split; [exact Htm|].
  split; [exact (Hdrop st1 Hin)|]. exact (proj2 (Hfire st1 Htm Hrec)).
Defined.

Lemma cleanup_unknown_call_example :
  exists l st',
    cleanupChannel_complete Sample.quiet Sample.conf stranger "stasisstart-error" Sample.state
    = (Ret None, st', l)
    /\ calls l = receiver_calls Sample.state stranger ++ sender_calls Sample.state stranger
                 ++ (if EMAIL_ENABLED Sample.conf then
                       [MkdirSync (daily_dir Sample.quiet Sample.conf
                                     (now Sample.quiet (clock Sample.state)));
                        SendTranscriptEmail stranger "unknown"
                          (transcript_file Sample.quiet Sample.conf
                             (now Sample.quiet (clock Sample.state)) CidUndefined stranger)
                          "stasisstart-error"]
                     else [])
    /\ map_get (sipMap st') stranger = None
    /\ stranger ∈ cleanedChannels st'
    /\ Mail.sendTranscriptEmail Sample.conf sample_smtp (fun _ => false) stranger
         (Some "unknown")
         (transcript_file Sample.quiet Sample.conf (now Sample.quiet (clock Sample.state))
            CidUndefined stranger)
         (Some "stasisstart-error")
       = Mail.Skipped LWarn
           ("Transcript not found for " +:+ stranger +:+ ": "
            +:+ transcript_file Sample.quiet Sample.conf
                  (now Sample.quiet (clock Sample.state)) CidUndefined stranger).
Proof.
  assert (H1 : map_get (sipMap Sample.state) stranger = None) by reflexivity.
  assert (H2 : stranger ∉ cleanedChannels Sample.state) by apply not_elem_of_empty.
  assert (H3 : stranger ∉ cleanupPromises Sample.state) by apply not_elem_of_empty.
  destruct (cleanup_unknown_call Sample.quiet Sample.conf stranger "stasisstart-error"
              Sample.state H1 H2 H3)
    as (l & st' & Hrun & Hcalls & Hreg & Hcl & Hskip & _).
  exists l, st'. split; [exact Hrun|]. split; [exact Hcalls|]. split; [exact Hreg|].
  split; [exact Hcl|]. apply Hskip; reflexivity.
Defined.

Lemma phrases_round_trip_example :
  phrases Sample.quiet (Some (render [("", "Goodbye"); (", ", "Bye bye")] ""))
  = map (fun seg => trim (normalizeNFKC Sample.quiet (toLowerCase (snd seg))))
        [("", "Goodbye"); (", ", "Bye bye")]
  /\ phrases Sample.quiet
       (Some (render [("", "Goodbye"); (", ", "Bye bye")] ("" +:+ "'" +:+ "see you")))
     = map (fun seg => trim (normalizeNFKC Sample.quiet (toLowerCase (snd seg))))
           [("", "Goodbye"); (", ", "Bye bye")].
Proof.
  apply (phrases_round_trip Sample.quiet [("", "Goodbye"); (", ", "Bye bye")] "" "see you");
    [|reflexivity|reflexivity].
  constructor; [split; [reflexivity|split; [reflexivity|discriminate]]|].
  constructor; [split; [reflexivity|split; [reflexivity|discriminate]]|].
  constructor.
Defined.

Lemma template_fill_example :
  subject sample_smtp "+48600100200" Sample.sip
  = "Call from " +:+ "+48600100200" +:+ " on " +:+ Sample.sip +:+ ""
  /\ (forall rest,
        replace ("Call from " +:+ "{{callerId}}" +:+ rest) "{{callerId}}" "+48600100200"
        = "Call from " +:+ "+48600100200" +:+ rest).
Proof.
  apply (template_fill sample_smtp "Call from " " on " "" "+48600100200" Sample.sip);
    reflexivity.
Defined.
